(* ===== verification/_CoqProject ===== *)
-Q . S2P
Prelude.v
GoStrings.v
GoFlags.v
TabWriter.v
GoTime.v
GoJson.v
GoJsonPrint.v
AuditLog.v
TimingRecords.v
CreateTiming.v
ScaleTiming.v
PvcPod.v
ParseLogs.v
ParseLogsInv.v
ParseLogsSpec.v
ParseLogsThm.v
ParseLogsFun.v
TimingCopy.v
TimingOutput.v
ObjectTiming.v
StreamSim.v
LogTail.v
StreamMain.v
BenchmarkTypes.v
GoHeap.v
DeepCopy.v
DeepCopyThm.v
KubeEnv.v
Manager.v
Utils.v
JsonMaps.v
TimingJson.v
TimingTable.v
Es.v
EsThm.v
GoDuration.v
OutputPkg.v
OutputThm.v
PodUtils.v
CreateObj.v
Workload.v
Completion.v
Actions.v
Reconciler.v
Effects.v
ReconcileThm.v
LifeCycle.v
Safety.v
InstancesThm.v
RoutinesThm.v
CreationThm.v
OperationsThm.v
ReplaceThm.v
CompletionThm.v
Rates.v
Listeners.v
RatesLive.v
CsiTypes.v
CsiGrpc.v
CsiStreams.v
CsiLogs.v
CsiJson.v
CsiThm.v
CsiStreamsThm.v
CsiPairsThm.v
CsiLogsThm.v
