(* ===== verification/Prelude.v ===== *)
(** * CNSBench: a verification development

    CNSBench is a benchmark of container storage: a Kubernetes controller
    (src/controllers) that reconciles [Benchmark] resources, a small HTTP
    collector (src/output-collector), and tools that measure a run from the
    audit log of the API server (src/pkg/objecttiming and
    src/util/analysis/objecttiming) or from a packet capture of the container
    storage interface (src/util/analysis/csi-tracing).

    ** Parts and files

    Go and its libraries.
    - Prelude.v: outcomes of Go code ([Ret], [Panic], [Blocked]), loops over
      them, wrap-around of machine integers, slices cut while ranged over.
    - GoStrings.v, GoTime.v, GoDuration.v, GoJson.v: the functions of [strings],
      [strconv], [time] and [encoding/json] the program calls.  GoJsonPrint.v is
      the printing half of [encoding/json], with the proof that what is printed
      is read back; JsonMaps.v is about the members of decoded objects.
    - GoFlags.v: package [flag].  GoHeap.v: the memory of a program, with
      locations, pointers, slices and maps.

    The audit log (src/pkg/objecttiming).
    - AuditLog.v: types.go, the structs of a line and their decoders; the
      dictionaries ([jsondict]) the timing records are.
    - TimingRecords.v: constants.go, timing.go, helpers.go, objinfo.go.
    - CreateTiming.v, ScaleTiming.v, PvcPod.v: create.go, scale.go, pvcpod.go.
    - ParseLogs.v: parselogs.go.  The state [pstate] holds the ongoing actions,
      the results, the object information and the number of actions;
      [parse_log] is the body of the loop.  ParseLogsInv.v has its invariant,
      ParseLogsSpec.v the well-formed inputs and examples, ParseLogsThm.v and
      ParseLogsFun.v the theorems.
    - TimingOutput.v, TimingJson.v: output.go, the table and the JSON lines of
      the results; TimingJson.v types the fields of the records.  TabWriter.v is
      [text/tabwriter] as the table uses it, TimingTable.v the aligned table.
    - Es.v, EsThm.v: src/pkg/utils/es.go, which reads the log from
      Elasticsearch; [Class EsEnv] is the client library and the server.

    The streaming analyser (src/util/analysis/objecttiming).
    - TimingCopy.v: create.go, scale.go, pvcpod.go, helpers.go, objinfo.go,
      types.go, constants.go and parsetime.go, which are copies of the files of
      src/pkg/objecttiming.
    - ObjectTiming.v: parselogs.go and the resources of main.go, a variant of the
      parser that prints each action when it ends; StreamSim.v relates it to the
      batch parser.
    - LogTail.v: tail.go, which follows a growing or truncated file; StreamMain.v:
      readLogFile and main.go, the program from its arguments to its exit code.

    The controller.
    - BenchmarkTypes.v: src/api/v1alpha1/benchmark_types.go.
    - DeepCopy.v, DeepCopyThm.v: zz_generated.deepcopy.go, on the memory of
      GoHeap.v, with the deep copies of the Kubernetes structs as [Class LibOps].
      A struct has two kinds there: as it lies in memory, with references, and the
      value it stands for.
    - Manager.v: src/main.go and [SetupWithManager], the start of the program as
      a sequence of calls of controller-runtime ([Class ManagerEnv]).
    - KubeEnv.v: the environment of the controller.  A computation ([GoM]) reads
      and writes a state [gst]: the trace of requests made so far, the control
      channels by benchmark, the goroutines listening on each channel and the
      instance counters.  [Class Env] is the API server, the file system, the
      clock, the name generator and the order of map iterations: a function of
      the trace and the request, so answers may change over time.
    - Utils.v (src/pkg/utils/utils.go), OutputPkg.v (src/pkg/output and
      src/output-collector), PodUtils.v (src/pkg/podutils), CreateObj.v,
      Actions.v (controllers/actions.go), Workload.v (workload.go),
      Completion.v (completion.go), Reconciler.v (benchmark_controller.go):
      one definition per Go function, under its name, with a few helpers for
      loop bodies and branches.
    - Effects.v: what a computation may do, as a predicate on the requests it
      makes ([runs]), with a hint database that proves it by following the code.
    - ReconcileThm.v, RoutinesThm.v, CreationThm.v, ReplaceThm.v,
      CompletionThm.v, OutputThm.v, InstancesThm.v, OperationsThm.v: theorems.
    - LifeCycle.v: the abstract machine [life] of a benchmark, [Class Server]
      (what the controller relies on) and the refinement.
    - Safety.v: [safe], a predicate on computations that panic never and block
      only in sends, proved along the code as in Effects.v; [Class Sane].
    - Rates.v: src/pkg/rates/rates.go as a step relation over the positions of
      the rate and its timer goroutines; RatesLive.v has the liveness.
      Listeners.v composes the rates with the loops that receive from them and
      with the controller that stops them.

    The CSI analyser (src/util/analysis/csi-tracing).
    - CsiTypes.v (types.go; [Class CsiEnv] is gopacket, the HTTP/2 framer, hpack
      and protocol buffers), CsiStreams.v (pcap.go, http2.go), CsiGrpc.v
      (csi.go, grpc.go), CsiLogs.v and CsiJson.v (tologs.go, timing.go).
    - CsiThm.v, CsiStreamsThm.v, CsiPairsThm.v, CsiLogsThm.v: theorems.

    ** What the theorems show

    - Refinement: any sequence of [Reconcile] calls, operations of rates and
      restarts takes the stored status along the abstract machine; the number of
      listeners the reconciler counts is the number of goroutines still in their
      loops; a deep copy is a new value in memory of its own.
    - Start: the manager is started only when everything is set up, with maps that
      were made.
    - Safety: [Reconcile] never panics, and the operations of a rate that fired
      always return, on a server that is as the API server is documented.
    - Life cycle: one [Reconcile] makes at most one status update, to the next
      of the four states; a benchmark is completed only when its time is over or
      its workloads are complete; initialisation ends only when all pods are up.
    - Goroutines: starting rates and stopping them balance; the values of
      [IncDecRate] and the pace of [SingleRate], which is live: it makes any
      number of offers in a bounded number of steps; a rate makes progress
      except for one deadlock that is reachable; a clean up after a restart
      blocks.
    - Objects: variables of templates are substituted independently of the
      order of maps; claims, instances, default outputs and deletions are the
      right ones; pod specs survive an update; an instance of a workload is
      created with its labels and its number; a scaling sends one pod with a copy
      of its scripts, a snapshot is taken of every claim listed.
    - Audit log: the parser's invariant, its results, that it does not panic on
      well-formed lines, and the accounting of actions; the sums of the deltas;
      the join of pods and claims; the stream prints what has finished, and, where
      it drops nothing, exactly what the batch parser returns; every
      complete line of a growing file is handed over once; the fields of the
      returned records have one type each, their JSON lines decode to them, and
      the table of the results is aligned.
    - Elasticsearch: every document is returned once, in order, when the time
      stamps are distinct; ties at the end of a page are skipped.
    - Metrics: what a metric says is read back from the collector's line.
    - CSI: the message format round trip; packets are grouped and the directions
      of a connection are paired exactly once; no index is out of range; the log
      is sorted and complete.
    - Errors: the theorems named [.._blocks], [.._panics], [.._deadlock],
      [.._drops_..], [.._misses_..], [.._collides], [.._is_fatal], [.._hides_..],
      [.._skips_..] prove, on the code as it is, behaviour its authors did not intend.

    ** Bounds and fuel

    The JSON parser (values and strings) has the length of its input as fuel,
    and each step consumes a character; [ParseDuration] has the length of its
    string, and [duration_parts_fuel] proves that more fuel changes nothing;
    fractions of a second have nine digits.  The loop over the pages of a
    search has fuel, because the server decides when it ends; for a server that
    answers as documented one more than the number of documents is enough.  The
    formatting of a table has the number of its lines and cells, which
    [format_fuel_enough] proves to be enough.  Go's [int] wraps at 64 bits
    ([wrap64]) where the code adds or multiplies; loop counters that are bounded
    by the length of a list are not wrapped.  Instants are integers, in
    nanoseconds.

    ** Not modelled

    - Generated protocol buffers: csi.pb.go.
    - groupversion_info.go (the name of the API group) and suite_test.go.
    - The code of libraries: the deep copies of Kubernetes structs, the manager of
      controller-runtime, the flags of its logger are parameters.
    - Logging, and the console output of the controller.
    - In JSON text, bytes above 127 are printed and read as they are; Go
      replaces those that are not UTF-8.
    - Concurrency between [Reconcile] and the operations [runControlOps] runs
      (their goroutines are in Listeners.v): each is modelled as a sequence of
      requests against an environment that may answer anything.
    - The multiplication of fractions in [time.ParseDuration] is exact here and
      in floating point in Go.

    ** What may follow

    The relation of the two parsers with pod and claim timings; one model of
    [Reconcile] interleaved with the operations of rates; the memory of GoHeap.v
    under the reconciler, which shares the benchmark with its goroutines. *)

From Stdlib Require Export ZArith Lia Ascii.
From stdpp Require Export base tactics strings list gmap fin_maps pretty numbers.

Declare Scope go_scope.
Delimit Scope go_scope with go.
Open Scope stdpp_scope.

(** ** Outcomes of Go code

    A Go computation returns a value, panics (index out of range, failed type
    assertion, explicit [panic], [log.Fatal]), or blocks forever on a channel
    operation that no goroutine will ever match. *)
Inductive outcome (A : Type) : Type :=
  | Ret (a : A)
  | Panic (why : string)
  | Blocked.
Arguments Ret {A} a.
Arguments Panic {A} why.
Arguments Blocked {A}.

#[export] Instance outcome_ret : MRet outcome := fun A a => Ret a.
#[export] Instance outcome_bind : MBind outcome := fun A B f m =>
  match m with
  | Ret a => f a
  | Panic why => Panic why
  | Blocked => Blocked
  end.
#[export] Instance outcome_fmap : FMap outcome := fun A B f m =>
  match m with
  | Ret a => Ret (f a)
  | Panic why => Panic why
  | Blocked => Blocked
  end.

(** The computation returns. *)
Definition returns {A} (m : outcome A) : Prop := exists a, m = Ret a.

(** Effectful loops: [for _, x := range l { s = f(s, x) }]. *)
Fixpoint foldM {S A} (f : S -> A -> outcome S) (s : S) (l : list A) : outcome S :=
  match l with
  | [] => Ret s
  | x :: l' => s' ← f s x; foldM f s' l'
  end.

Fixpoint mapO {A B} (f : A -> outcome B) (l : list A) : outcome (list B) :=
  match l with
  | [] => Ret []
  | x :: l' => y ← f x; ys ← mapO f l'; Ret (y :: ys)
  end.

(** ** Machine integers *)
Local Open Scope Z_scope.

Definition min_int64 : Z := - 2 ^ 63.
Definition max_int64 : Z := 2 ^ 63 - 1.

(** Two's complement wrap-around of Go's 64-bit [int] and [int64]. *)
Definition wrap64 (z : Z) : Z := (z + 2 ^ 63) mod 2 ^ 64 - 2 ^ 63.
(** Truncation to [uint8] and [uint32]. *)
Definition wrap_u8 (z : Z) : Z := z mod 2 ^ 8.
Definition wrap_u32 (z : Z) : Z := z mod 2 ^ 32.

Definition in_int64 (z : Z) : Prop := min_int64 <= z <= max_int64.

Lemma wrap64_small z : in_int64 z -> wrap64 z = z.
Proof.
  unfold in_int64, min_int64, max_int64, wrap64. intros H.
  rewrite Z.mod_small by lia. lia.
Qed.

Lemma wrap64_range z : in_int64 (wrap64 z).
Proof.
  unfold in_int64, min_int64, max_int64, wrap64.
  pose proof (Z.mod_pos_bound (z + 2 ^ 63) (2 ^ 64)). lia.
Qed.

Close Scope Z_scope.

(** ** Slices that are cut while they are ranged over

    [append(s[:i], s[i+1:]...)] writes into the backing array of [s]; a
    [range] over [s] keeps reading that array up to the length [s] had when the
    loop started.  A slice is its backing array and its current length. *)
Record slice (A : Type) := Slice { sl_arr : list A; sl_len : nat }.
Arguments Slice {A} sl_arr sl_len.
Arguments sl_arr {A} s.
Arguments sl_len {A} s.

Definition slice_of {A} (l : list A) : slice A := Slice l (length l).
Definition slice_list {A} (s : slice A) : list A := take (sl_len s) (sl_arr s).

(** [append(s[:i], s[i+1:]...)]: panics when [i+1 > len(s)]. *)
Definition slice_cut {A} (i : nat) (s : slice A) : outcome (slice A) :=
  if decide (S i ≤ sl_len s)
  then Ret (Slice (take i (sl_arr s)
                     ++ take (sl_len s - S i) (drop (S i) (sl_arr s))
                     ++ drop (sl_len s - 1) (sl_arr s))
                  (sl_len s - 1))
  else Panic "slice bounds out of range".

(** ** Tactics and hints *)
Create HintDb go.

(** Open one layer of [outcome] case analysis in a hypothesis. *)
Ltac outcome_inv H :=
  repeat match type of H with
  | (mbind _ ?m) = Ret _ =>
      let E := fresh "E" in destruct m eqn:E; simpl in H; [|discriminate H|discriminate H]
  | Ret _ = Ret _ => injection H as H
  end.

Ltac go_crush := repeat (case_match || case_decide || case_bool_decide); simplify_eq/=; auto with go.

(** ** Generic lemmas *)
Lemma outcome_bind_ret {A B} (f : A -> outcome B) (m : outcome A) b :
  m ≫= f = Ret b -> exists a, m = Ret a /\ f a = Ret b.
Proof. destruct m; simpl; try discriminate. eauto. Qed.

Lemma foldM_app {S A} (f : S -> A -> outcome S) l1 l2 s :
  foldM f s (l1 ++ l2) = (s' ← foldM f s l1; foldM f s' l2).
Proof.
  revert s; induction l1 as [|x l1 IH]; intros s; simpl; [done|].
  destruct (f s x); simpl; auto.
Qed.

(** Loop invariants: a property every iteration preserves holds at the end. *)
Lemma foldM_invariant {S A} (P : S -> Prop) (f : S -> A -> outcome S) l s s' :
  (forall t x t', x ∈ l -> P t -> f t x = Ret t' -> P t') ->
  P s -> foldM f s l = Ret s' -> P s'.
Proof.
  revert s; induction l as [|x l IH]; simpl; intros s Hstep Hs Hf.
  - by injection Hf as <-.
  - apply outcome_bind_ret in Hf as (t & Ht & Hrest).
    eapply IH; [|eapply Hstep; eauto; left|exact Hrest].
    intros; eapply Hstep; eauto. by right.
Qed.

(** A loop returns when the invariant makes every iteration return. *)
Lemma foldM_returns {S A} (P : S -> Prop) (f : S -> A -> outcome S) l s :
  (forall t x, x ∈ l -> P t -> exists t', f t x = Ret t' /\ P t') ->
  P s -> exists s', foldM f s l = Ret s' /\ P s'.
Proof.
  revert s; induction l as [|x l IH]; simpl; intros s Hstep Hs; [eauto|].
  destruct (Hstep s x) as (t & -> & Ht); [left|done|]. simpl.
  apply IH; [|done]. intros; apply Hstep; [by right|done].
Qed.

Lemma mapO_length {A B} (f : A -> outcome B) l l' :
  mapO f l = Ret l' -> length l' = length l.
Proof.
  revert l'; induction l as [|x l IH]; simpl; intros l' H; [by injection H as <-|].
  apply outcome_bind_ret in H as (y & _ & H).
  apply outcome_bind_ret in H as (ys & Hys & H). injection H as <-.
  simpl. f_equal. by apply IH.
Qed.

Lemma mapO_Forall2 {A B} (f : A -> outcome B) l l' :
  mapO f l = Ret l' -> Forall2 (fun x y => f x = Ret y) l l'.
Proof.
  revert l'; induction l as [|x l IH]; simpl; intros l' H; [by injection H as <-; constructor|].
  apply outcome_bind_ret in H as (y & Hy & H).
  apply outcome_bind_ret in H as (ys & Hys & H). injection H as <-.
  constructor; auto.
Qed.

Lemma mapO_returns {A B} (f : A -> outcome B) l :
  Forall (fun x => returns (f x)) l -> returns (mapO f l).
Proof.
  induction 1 as [|x l [y Hy] _ [ys Hys]]; simpl; [by eexists|].
  rewrite Hy; simpl. rewrite Hys; simpl. by eexists.
Qed.

Lemma mapO_pure {A B} (f : A -> B) l : mapO (fun x => Ret (f x)) l = Ret (f <$> l).
Proof. induction l as [|x l IH]; simpl; [done|]. by rewrite IH. Qed.

Lemma slice_cut_of {A} i (l : list A) :
  i < length l ->
  slice_cut i (slice_of l)
  = Ret (Slice (take i l ++ drop (S i) l ++ drop (length l - 1) l) (length l - 1)).
Proof.
  intros H. unfold slice_cut; simpl. rewrite decide_True by lia.
  rewrite (take_ge (drop (S i) l)); [done|]. rewrite length_drop. lia.
Qed.

Lemma slice_cut_delete {A} i (l : list A) s :
  slice_cut i (slice_of l) = Ret s -> slice_list s = delete i l.
Proof.
  intros H. destruct (decide (i < length l)) as [Hi|Hi].
  - rewrite slice_cut_of in H by done. injection H as <-. unfold slice_list; simpl.
    rewrite delete_take_drop, app_assoc.
    rewrite take_app_le by (rewrite length_app, length_take, length_drop; lia).
    apply take_ge. rewrite length_app, length_take, length_drop. lia.
  - unfold slice_cut in H; simpl in H. rewrite decide_False in H by lia. discriminate.
Qed.

#[export] Hint Resolve wrap64_range : go.
