(* ===== verification/GoStrings.v ===== *)
(** * The Go string functions the program uses

    [strings.Contains], [strings.ReplaceAll], [strings.Split], [strings.SplitN],
    [strings.ToUpper], [strings.TrimSuffix], [strconv.Itoa] and
    [strconv.ParseBool], on byte strings.  [ToUpper] maps the ASCII letters and
    keeps every other byte. *)
From S2P Require Import Prelude.


Definition brace_open : string := "{{".
Definition brace_close : string := "}}".

(** [strings.Contains(s, sub)]. *)
Fixpoint contains (sub s : string) : bool :=
  String.prefix sub s ||
  match s with
  | EmptyString => false
  | String _ s' => contains sub s'
  end.

(** [strings.ReplaceAll(s, old, new)] for a non-empty [old]: leftmost,
    non-overlapping matches; [skip] counts the bytes of the current match that
    are still to be dropped. *)
Fixpoint replace_aux (old new : string) (skip : nat) (s : string) : string :=
  match s with
  | EmptyString => EmptyString
  | String c s' =>
      match skip with
      | S k => replace_aux old new k s'
      | O =>
          if String.prefix old s
          then new +:+ replace_aux old new (String.length old - 1) s'
          else String c (replace_aux old new 0 s')
      end
  end.

Definition replace_all (s old new : string) : string := replace_aux old new 0 s.

(** The part of [s] before the first [c] and the part after it. *)
Fixpoint split_once (c : ascii) (s : string) : option (string * string) :=
  match s with
  | EmptyString => None
  | String d s' =>
      if decide (c = d) then Some (EmptyString, s')
      else match split_once c s' with
           | Some (a, b) => Some (String d a, b)
           | None => None
           end
  end.

(** [strings.SplitN(s, c, n)] for a one-byte separator. *)
Fixpoint split_n (c : ascii) (n : nat) (s : string) : list string :=
  match n with
  | O => []
  | S O => [s]
  | S m => match split_once c s with
           | Some (a, b) => a :: split_n c m b
           | None => [s]
           end
  end.

(** [strings.Split(s, c)]: a string of length [k] has at most [k+1] parts. *)
Definition split (c : ascii) (s : string) : list string :=
  split_n c (S (String.length s)) s.

Definition upper_ascii (c : ascii) : ascii :=
  let n := nat_of_ascii c in
  if decide (97 ≤ n ∧ n ≤ 122) then ascii_of_nat (n - 32) else c.

Definition lower_ascii (c : ascii) : ascii :=
  let n := nat_of_ascii c in
  if decide (65 ≤ n ∧ n ≤ 90) then ascii_of_nat (n + 32) else c.

Fixpoint map_string (f : ascii -> ascii) (s : string) : string :=
  match s with
  | EmptyString => EmptyString
  | String c s' => String (f c) (map_string f s')
  end.

Definition to_upper : string -> string := map_string upper_ascii.
Definition to_lower : string -> string := map_string lower_ascii.

(** [strconv.Itoa]. *)
Definition itoa (z : Z) : string := pretty z.

(** The value [strconv.ParseBool] returns (it is [false] with every error). *)
Definition parse_bool (s : string) : bool :=
  bool_decide (s ∈ ["1"; "t"; "T"; "TRUE"; "true"; "True"]).

(** [s[start:end]]. *)
Definition substr (start stop : nat) (s : string) : string :=
  String.substring start (stop - start) s.

(** ** Lemmas *)
Lemma prefix_app p s : String.prefix p (p +:+ s) = true.
Proof. induction p as [|c p IH]; simpl; [by destruct s|]. by destruct ascii_dec. Qed.

Lemma prefix_nil s : String.prefix "" s = true.
Proof. by destruct s. Qed.

Lemma prefix_true p s : String.prefix p s = true -> exists t, s = p +:+ t.
Proof.
  revert s; induction p as [|c p IH]; intros s H; [by exists s|].
  destruct s as [|d s]; simpl in H; [discriminate|].
  destruct (ascii_dec c d) as [->|]; [|discriminate].
  apply IH in H as [t ->]. by exists t.
Qed.

Lemma contains_app_r sub s1 s2 : contains sub s2 = true -> contains sub (s1 +:+ s2) = true.
Proof.
  intros H. induction s1 as [|c s1 IH]; [done|].
  change (String c s1 +:+ s2) with (String c (s1 +:+ s2)).
  cbn [contains]. by rewrite IH, orb_true_r.
Qed.

Lemma contains_middle sub a b : contains sub (a +:+ sub +:+ b) = true.
Proof.
  apply contains_app_r. destruct (sub +:+ b) eqn:E; cbn [contains].
  - by rewrite <- E, prefix_app.
  - by rewrite <- E, prefix_app.
Qed.

(** [Contains] is what it says. *)
Lemma contains_iff sub s : contains sub s = true <-> exists a b, s = a +:+ sub +:+ b.
Proof.
  split; [|intros (a & b & ->); apply contains_middle].
  induction s as [|c s IH]; cbn [contains]; intros H.
  - rewrite orb_false_r in H. apply prefix_true in H as [t ->]. by exists "", t.
  - apply orb_true_iff in H as [H|H].
    + apply prefix_true in H as [t ->]. by exists "", t.
    + apply IH in H as (a & b & ->). by exists (String c a), b.
Qed.

Lemma replace_aux_absent old new s :
  contains old s = false -> replace_aux old new 0 s = s.
Proof.
  induction s as [|c s IH]; cbn [contains replace_aux]; [done|].
  intros [Hp Hc]%orb_false_iff. rewrite Hp. by rewrite IH.
Qed.

(** A string without the placeholder is left alone. *)
Lemma replace_all_absent s old new : contains old s = false -> replace_all s old new = s.
Proof. apply replace_aux_absent. Qed.

Lemma replace_aux_skip old new n s t :
  String.length s = n -> replace_aux old new n (s +:+ t) = replace_aux old new 0 t.
Proof.
  intros <-. induction s as [|c s IH]; [done|]. simpl. apply IH.
Qed.

(** A match at the front is replaced and the scan goes on behind it. *)
Lemma replace_all_front old new s :
  old <> "" -> replace_all (old +:+ s) old new = new +:+ replace_all s old new.
Proof.
  intros Hne. unfold replace_all. destruct old as [|c old]; [done|].
  change (String c old +:+ s) with (String c (old +:+ s)).
  cbn [replace_aux].
  rewrite (prefix_app (String c old) s : String.prefix (String c old) (String c (old +:+ s)) = true).
  f_equal. replace (String.length (String c old) - 1) with (String.length old) by (simpl; lia).
  by apply replace_aux_skip.
Qed.

Lemma split_once_app c a b :
  Forall (fun d => d <> c) (String.list_ascii_of_string a) ->
  split_once c (a +:+ String c b) = Some (a, b).
Proof.
  induction a as [|d a IH]; intros H.
  - change (split_once c (String c b) = Some ("", b)). cbn [split_once].
    by case_decide.
  - change (split_once c (String d (a +:+ String c b)) = Some (String d a, b)).
    apply Forall_cons_1 in H as [Hd Ha]. cbn [split_once].
    case_decide; [congruence|]. by rewrite IH.
Qed.

Lemma append_assoc (s1 s2 s3 : string) : (s1 +:+ s2) +:+ s3 = s1 +:+ (s2 +:+ s3).
Proof. induction s1 as [|c s1 IH]; [done|]. change (String c ((s1 +:+ s2) +:+ s3) = String c (s1 +:+ (s2 +:+ s3))). by rewrite IH. Qed.
