(* ===== verification/GoFlags.v ===== *)
(** * Command lines (package flag)

    [flag.Parse] on the arguments of a program: flags come first, as [-name],
    [-name=value] or [-name value], with one dash or two, until the first argument that is not
    a flag or the argument "--".  The result has the values that were set, the last one for
    each flag, and the arguments that are left. *)
From S2P Require Import Prelude GoStrings.

(** A flag that was declared: whether it is boolean, so that it takes no
    argument of its own, and which values it accepts. *)
Record flag_spec := { is_bool : bool; accepts : string -> bool }.

Definition string_flag : flag_spec := {| is_bool := false; accepts _ := true |}.
Definition bool_flag : flag_spec :=
  {| is_bool := true;
     accepts v := bool_decide (v ∈ ["1"; "0"; "t"; "f"; "T"; "F"; "true"; "false"; "TRUE"; "FALSE";
                                    "True"; "False"]) |}.

(** Help was asked for (the program exits with 0), an error (it exits with 2),
    or the values and the other arguments. *)
Inductive parsed :=
  | Help
  | BadFlags
  | Parsed (values : gmap string string) (rest : list string).

Inductive arg := NotFlag | Terminator | BadSyntax | FlagArg (name : string) (value : option string).

Definition dash : ascii := "-"%char.
Definition equals : ascii := "="%char.

(** What is left of a flag without its dashes. *)
Definition flag_body (body : string) : arg :=
  match body with
  | EmptyString => BadSyntax
  | String c _ =>
      if decide (c = dash \/ c = equals) then BadSyntax
      else match split_once equals body with
           | Some (name, value) => FlagArg name (Some value)
           | None => FlagArg body None
           end
  end.

Definition classify (s : string) : arg :=
  match s with
  | String c (String d s') =>
      if decide (c = dash) then
        if decide (d = dash) then
          match s' with EmptyString => Terminator | _ => flag_body s' end
        else flag_body (String d s')
      else NotFlag
  | _ => NotFlag
  end.

Fixpoint parse_args (formal : string -> option flag_spec) (args : list string) (values : gmap string string)
    : parsed :=
  match args with
  | [] => Parsed values []
  | s :: args' =>
      match classify s with
      | NotFlag => Parsed values args
      | Terminator => Parsed values args'
      | BadSyntax => BadFlags
      | FlagArg name value =>
          match formal name with
          | None => if decide (name = "help" \/ name = "h") then Help else BadFlags
          | Some f =>
              let set v rest := if accepts f v then parse_args formal rest (<[name := v]> values) else BadFlags in
              match value, is_bool f with
              | Some v, _ => set v args'
              | None, true => set "true" args'
              | None, false =>
                  match args' with
                  | v :: args'' => if accepts f v then parse_args formal args'' (<[name := v]> values) else BadFlags
                  | [] => BadFlags
                  end
              end
          end
      end
  end.

Definition parse_flags (formal : string -> option flag_spec) (args : list string) : parsed :=
  parse_args formal args ∅.

(** ** Printing flags and reading them back *)

(** A name of a flag on which [=] cannot be misread. *)
Definition flag_name (name : string) : Prop :=
  Forall (fun c => c <> equals) (String.list_ascii_of_string name) /\ exists c s, name = String c s /\ c <> dash /\ c <> equals.

Definition print_flag (f : string * string) : string := "--" +:+ f.1 +:+ "=" +:+ f.2.

Lemma classify_print name v : flag_name name -> classify (print_flag (name, v)) = FlagArg name (Some v).
Proof.
  intros (Hs & c & s & -> & Hd & He). unfold print_flag. cbn [fst snd].
  change ("--" +:+ String c s +:+ "=" +:+ v) with (String dash (String dash (String c s +:+ String equals v))).
  unfold classify. rewrite !decide_True by done.
  change (String c s +:+ String equals v) with (String c (s +:+ String equals v)). unfold flag_body.
  rewrite decide_False by tauto. change (String c (s +:+ String equals v)) with (String c s +:+ String equals v).
  by rewrite split_once_app.
Qed.

Lemma classify_other s : head (String.list_ascii_of_string s) <> Some dash -> classify s = NotFlag.
Proof.
  destruct s as [|c [|d s]]; simpl; try done. intros H. rewrite decide_False; [done|congruence].
Qed.

(** Flags in front of an argument that is not one: the last value of each is read. *)
Lemma parse_args_print formal fs rest : forall values,
  Forall (fun f => flag_name f.1 /\ exists spec, formal f.1 = Some spec /\ accepts spec f.2 = true) fs ->
  match rest with [] => True | s :: _ => classify s = NotFlag end ->
  parse_args formal (map print_flag fs ++ rest) values = Parsed (foldl (fun m f => <[f.1 := f.2]> m) values fs) rest.
Proof.
  induction fs as [|[n v] fs IH]; intros values Hf Hr.
  - simpl. destruct rest as [|s rest]; [done|]. simpl. by rewrite Hr.
  - inversion Hf as [|? ? (Hn & spec & Hs & Ha) Hf']; subst. cbn [map app parse_args].
    rewrite classify_print by done. cbn [fst snd] in *. rewrite Hs, Ha. apply IH; done.
Qed.
