(* ===== verification/TabWriter.v ===== *)
(** * The tab writer of the result table (text/tabwriter, as output.go uses it)

    [tabwriter.NewWriter(os.Stdout, 8, 8, 1, '\t', ...)]: cells end with a tab,
    a column is a block of adjacent lines that have a cell there, its width is
    that of the widest cell with one character of padding and at least eight,
    and a cell is filled up with tabs, which also means to the left.  Lines are
    split at newlines; the other control characters that [tabwriter] treats
    specially occur in no name of an object. *)
From S2P Require Import Prelude GoStrings.

Definition tab_char : ascii := ascii_of_nat 9.
Definition newline_char : ascii := ascii_of_nat 10.

(** [minwidth], [tabwidth] and [padding]. *)
Definition minwidth : nat := 8.
Definition tabwidth : nat := 8.
Definition padding : nat := 1.

(** [utf8.RuneCountInString]: all bytes but the continuation bytes. *)
Fixpoint rune_count (s : string) : nat :=
  match s with
  | EmptyString => 0
  | String c s' => (if decide (128 ≤ nat_of_ascii c < 192) then 0 else 1) + rune_count s'
  end.

(** A line is its cells; the last one belongs to no column. *)
Abbreviation line := (list string).

Definition has_column (column : nat) (l : line) : bool := bool_decide (S column < length l).

Definition cell_width (column : nat) (l : line) : nat :=
  match l !! column with Some c => rune_count c + padding | None => 0 end.

Definition column_width (column : nat) (block : list line) : nat :=
  foldr (fun l w => max (cell_width column l) w) minwidth block.

Fixpoint tabs (n : nat) : string :=
  match n with O => EmptyString | S k => String tab_char (tabs k) end.

(** [writePadding]: the cell ends at a multiple of [tabwidth]. *)
Definition round_up (w : nat) : nat := (w + tabwidth - 1) / tabwidth * tabwidth.
Definition padding_tabs (textw cellw : nat) : nat := (round_up cellw - textw + tabwidth - 1) / tabwidth.

(** A line of [writeLines]: its cells, those in a known column with padding. *)
Fixpoint write_line (widths : list nat) (l : line) : string :=
  match l with
  | [] => EmptyString
  | c :: l' =>
      match widths with
      | w :: widths' => c +:+ tabs (padding_tabs (rune_count c) w) +:+ write_line widths' l'
      | [] => c +:+ write_line [] l'
      end
  end.

(** The lines before the first of [P], and the rest. *)
Fixpoint span {A} (P : A -> bool) (l : list A) : list A * list A :=
  match l with
  | [] => ([], [])
  | x :: l' => if P x then let '(a, b) := span P l' in (x :: a, b) else ([], l)
  end.

(** [format]: the lines without the next column, the block of lines that have
    it, and the lines behind the block. *)
Fixpoint format (fuel : nat) (widths : list nat) (lines : list line) : list string :=
  match fuel with
  | O => []
  | S k =>
      let column := length widths in
      let '(before, rest) := span (fun l => negb (has_column column l)) lines in
      (write_line widths <$> before) ++
      match rest with
      | [] => []
      | _ =>
          let '(block, rest) := span (has_column column) rest in
          format k (widths ++ [column_width column block]) block ++ format k widths rest
      end
  end.

(** Cells are at most as many as there are characters. *)
Definition format_fuel (lines : list line) : nat := S (length lines + foldr (fun l n => length l + n) 0 lines).

Fixpoint join (ls : list string) : string :=
  match ls with
  | [] => EmptyString
  | [s] => s
  | s :: ls' => s +:+ String newline_char (join ls')
  end.

(** What is written for a text, at [Flush]. *)
Definition tabwriter (text : string) : string :=
  let lines := split tab_char <$> split newline_char text in
  join (format (format_fuel lines) [] lines).

Example tabwriter_example :
  tabwriter ("a" +:+ String tab_char ("b" +:+ String newline_char ("longer than it" +:+ String tab_char ("c" +:+ String newline_char EmptyString))))
  = "a" +:+ tabs 2 +:+ "b" +:+ String newline_char ("longer than it" +:+ tabs 1 +:+ "c" +:+ String newline_char EmptyString).
Proof. vm_compute. reflexivity. Qed.

(** ** Enough fuel: every line is printed, once *)
Lemma span_app {A} (P : A -> bool) l a b : span P l = (a, b) -> l = a ++ b.
Proof.
  revert a b. induction l as [|x l IH]; intros a b; cbn [span]; [by intros [= <- <-]|].
  destruct (P x); [|by intros [= <- <-]]. destruct (span P l) as [a' b'] eqn:E. intros [= <- <-].
  cbn. f_equal. by apply IH.
Qed.

Lemma span_all {A} (P : A -> bool) l a b : span P l = (a, b) -> Forall P a.
Proof.
  revert a b. induction l as [|x l IH]; intros a b; cbn [span]; [by intros [= <- <-]|].
  destruct (P x) eqn:Ex; [|by intros [= <- <-]]. destruct (span P l) as [a' b'] eqn:E. intros [= <- <-].
  constructor; [by rewrite Ex|by eapply IH].
Qed.

Lemma span_head {A} (P : A -> bool) l a x b : span P l = (a, x :: b) -> P x = false.
Proof.
  revert a. induction l as [|y l IH]; intros a; cbn [span]; [done|].
  destruct (P y) eqn:Ey; [|by intros [= _ -> _]]. destruct (span P l) as [a' b'] eqn:E. intros [= _ ->]. by eapply IH.
Qed.

(** Lines and the columns that are not known yet. *)
Definition work (column : nat) (lines : list line) : nat :=
  foldr (fun l n => S (length l - column + n)) 0 lines.

Lemma work_app column a b : work column (a ++ b) = work column a + work column b.
Proof. unfold work. induction a as [|l a IH]; [done|]. cbn. rewrite IH. lia. Qed.

Lemma work_next column block :
  Forall (has_column column) block -> work (S column) block + length block <= work column block.
Proof.
  induction 1 as [|l block Hl _ IH]; [done|]. unfold work, has_column in *. apply bool_decide_unpack in Hl. cbn. lia.
Qed.

Lemma format_length fuel widths lines :
  work (length widths) lines < fuel -> length (format fuel widths lines) = length lines.
Proof.
  revert widths lines. induction fuel as [|fuel IH]; intros widths lines Hf; [lia|]. cbn [format].
  destruct (span _ lines) as [before rest] eqn:E1. pose proof (span_app _ _ _ _ E1) as ->.
  rewrite work_app in Hf. rewrite !length_app, length_fmap. f_equal. destruct rest as [|l rest]; [done|].
  pose proof (span_head _ _ _ _ _ E1) as Hl. apply negb_false_iff in Hl.
  destruct (span (has_column _) _) as [block after] eqn:E2. pose proof (span_all _ _ _ _ E2) as Hb.
  assert (0 < length block) as Hne.
  { cbn [span] in E2. rewrite Hl in E2. destruct (span (has_column _) rest). injection E2 as <- _. cbn. lia. }
  pose proof (span_app _ _ _ _ E2) as E3. rewrite E3 in Hf |- *. rewrite work_app in Hf. rewrite !length_app.
  pose proof (work_next _ _ Hb). rewrite !IH; [done|lia|].
  rewrite length_app. cbn [length]. rewrite Nat.add_1_r. lia.
Qed.

Lemma format_fuel_enough lines : length (format (format_fuel lines) [] lines) = length lines.
Proof.
  apply format_length. cbn [length]. unfold format_fuel, work.
  induction lines as [|l lines IH]; cbn in *; lia.
Qed.

(** ** Tables: lines with the same number of cells *)
Definition table_widths (rows : list line) (columns : nat) : list nat :=
  (fun column => column_width column rows) <$> seq 0 columns.

Lemma span_true {A} (P : A -> bool) a b :
  Forall P a -> match b with x :: _ => P x = false | [] => True end -> span P (a ++ b) = (a, b).
Proof.
  induction 1 as [|x a Hx _ IH]; intros Hb; cbn [span app].
  - destruct b as [|y b]; [done|]. cbn [span]. by rewrite Hb.
  - apply Is_true_true in Hx. by rewrite Hx, IH.
Qed.

Lemma span_whole {A} (P : A -> bool) a : Forall P a -> span P a = (a, []).
Proof. intros H. rewrite <- (app_nil_r a) at 1. by apply span_true. Qed.

Lemma span_none {A} (P : A -> bool) x b : P x = false -> span P (x :: b) = ([], x :: b).
Proof. intros H. cbn [span]. by rewrite H. Qed.

(** From the column [k] on, with the widths of the columns before it. *)
Lemma format_table fuel k columns rows :
  rows <> [] -> Forall (fun l => length l = S columns) rows -> k <= columns -> columns - k < fuel ->
  format fuel (take k (table_widths rows columns)) rows = write_line (table_widths rows columns) <$> rows.
Proof.
  intros Hne Hr. revert k. induction fuel as [|fuel IH]; intros k Hk Hf; [lia|].
  assert (length (take k (table_widths rows columns)) = k) as Hlen.
  { unfold table_widths. rewrite length_take, length_fmap, length_seq. lia. }
  cbn [format]. rewrite Hlen. destruct (decide (k = columns)) as [->|Hkc].
  - rewrite span_whole; [|eapply list.Forall_impl; [exact Hr|]].
    + rewrite app_nil_r. rewrite take_ge; [done|]. unfold table_widths. rewrite length_fmap, length_seq. lia.
    + intros l Hl. cbn in Hl. unfold has_column. rewrite bool_decide_false by lia. done.
  - assert (Forall (has_column k) rows) as Hh.
    { eapply list.Forall_impl; [exact Hr|]. intros l Hl. cbn in Hl. apply bool_decide_pack. lia. }
    destruct rows as [|l rows]; [done|]. pose proof (Forall_inv Hh) as Hl.
    set (rhs := write_line _ <$> (l :: rows)).
    rewrite span_none by (apply Is_true_true in Hl; by rewrite Hl). cbn [fmap list_fmap app].
    rewrite span_whole by done.
    destruct fuel as [|fuel]; [lia|]. set (rs := l :: rows) in *.
    assert (format (S fuel) (take k (table_widths rs columns)) [] = []) as -> by done. rewrite app_nil_r.
    unfold rhs. rewrite <- (IH (S k)) by lia. f_equal. symmetry. apply take_S_r.
    unfold table_widths. rewrite list_lookup_fmap, lookup_seq_lt by lia. done.
Qed.

(** The table and the empty line behind its last newline. *)
Lemma format_table_end columns rows :
  rows <> [] -> 0 < columns -> Forall (fun l => length l = S columns) rows ->
  format (format_fuel (rows ++ [[EmptyString]])) [] (rows ++ [[EmptyString]])
  = (write_line (table_widths rows columns) <$> rows) ++ [EmptyString].
Proof.
  intros Hne Hc Hr. assert (Forall (has_column 0) rows) as Hh.
  { eapply list.Forall_impl; [exact Hr|]. intros l Hl. cbn in Hl. apply bool_decide_pack. lia. }
  destruct rows as [|l rows]; [done|]. pose proof (Forall_inv Hh) as Hl. set (rs := l :: rows) in *.
  unfold format_fuel. set (fuel := _ + foldr _ _ _).
  assert (columns < fuel /\ 1 < fuel) as [Hf Hf1].
  { unfold fuel, rs. cbn. rewrite length_app. apply Forall_inv in Hr. cbn. rewrite Hr. lia. }
  clearbody fuel.
  set (rhs := _ <$> rs). cbn [format length]. change (rs ++ [[EmptyString]]) with (l :: (rows ++ [[EmptyString]])).
  rewrite span_none by (apply Is_true_true in Hl; by rewrite Hl). cbn [fmap list_fmap app].
  change (l :: rows ++ [[EmptyString]]) with (rs ++ [[EmptyString]]). rewrite span_true by done.
  f_equal; [|destruct fuel; [lia|done]].
  unfold rhs. rewrite <- (format_table fuel 1 columns rs) by (done || lia).
  f_equal. unfold table_widths. destruct columns; [lia|]. done.
Qed.

(** ** Alignment *)

(** Where a terminal with a tab stop at every eighth column stands after
    writing a text. *)
Fixpoint cursor (col : nat) (s : string) : nat :=
  match s with
  | EmptyString => col
  | String c s' =>
      cursor (if decide (c = tab_char) then (col / tabwidth + 1) * tabwidth
              else (if decide (128 ≤ nat_of_ascii c < 192) then 0 else 1) + col) s'
  end.

(** A text without the characters that end cells and lines. *)
Definition plain (s : string) : Prop :=
  Forall (fun c => c <> tab_char /\ c <> newline_char) (String.list_ascii_of_string s).

Lemma cursor_app col s1 s2 : cursor col (s1 +:+ s2) = cursor (cursor col s1) s2.
Proof. revert col. induction s1 as [|c s1 IH]; intros col; [done|]. apply IH. Qed.

Lemma cursor_plain col s : plain s -> cursor col s = rune_count s + col.
Proof.
  unfold plain. revert col. induction s as [|c s IH]; intros col Hs; [done|].
  cbn [String.list_ascii_of_string] in Hs. apply list.Forall_cons in Hs as [[Hc _] Hs].
  cbn [cursor rune_count]. rewrite decide_False by done. rewrite IH by done. lia.
Qed.

Lemma cursor_tabs col n : cursor col (tabs (S n)) = (col / tabwidth + S n) * tabwidth.
Proof.
  revert col. induction n as [|n IH]; intros col; [done|].
  change (tabs (S (S n))) with (String tab_char (tabs (S n))). cbn [cursor]. rewrite decide_True by done.
  rewrite IH. rewrite Nat.div_mul by done. lia.
Qed.

(** A padded cell ends at its tab stop. *)
Lemma cursor_padded k textw w :
  textw < w -> cursor (textw + k * tabwidth) (tabs (padding_tabs textw w)) = k * tabwidth + round_up w.
Proof.
  intros H. unfold padding_tabs, round_up, tabwidth in *. set (m := (w + 8 - 1) / 8).
  assert (textw < m * 8) as Hm by (pose proof (Nat.div_mod_eq (w + 8 - 1) 8); pose proof (Nat.mod_upper_bound (w + 8 - 1) 8); lia).
  destruct ((m * 8 - textw + 8 - 1) / 8) as [|n] eqn:En.
  { apply Nat.div_small_iff in En; lia. }
  rewrite cursor_tabs. unfold tabwidth. rewrite Nat.div_add by done.
  pose proof (Nat.div_mod_eq (m * 8 - textw + 8 - 1) 8). pose proof (Nat.mod_upper_bound (m * 8 - textw + 8 - 1) 8).
  pose proof (Nat.div_mod_eq textw 8). pose proof (Nat.mod_upper_bound textw 8). lia.
Qed.

Definition column_start (widths : list nat) (j : nat) : nat := sum_list (round_up <$> take j widths).

Lemma write_line_aligned widths l k :
  length l = S (length widths) -> Forall plain l ->
  (forall j w c, widths !! j = Some w -> l !! j = Some c -> rune_count c < w) ->
  forall j c, l !! j = Some c -> exists before after, write_line widths l = before +:+ c +:+ after /\
    cursor (k * tabwidth) before = k * tabwidth + column_start widths j.
Proof.
  revert widths k. induction l as [|c0 l IH]; intros widths k Hlen Hp Hw j c Hj; [done|].
  destruct j as [|j].
  - injection Hj as ->. exists EmptyString.
    destruct widths as [|w widths]; eexists; (split; [reflexivity|cbn; unfold column_start; cbn; lia]).
  - destruct widths as [|w widths]; [destruct l; [done|discriminate Hlen]|]. apply list.Forall_cons in Hp as [Hc0 Hp].
    assert (exists m, round_up w = m * tabwidth) as [m Hm] by (by eexists).
    destruct (IH widths (k + m)) with (j := j) (c := c) as (before & after & Heq & Hcur);
      [by injection Hlen|done|intros i w' c' H1 H2; by apply (Hw (S i))|done|].
    exists (c0 +:+ tabs (padding_tabs (rune_count c0) w) +:+ before), after. split.
    + cbn [write_line]. rewrite Heq. by rewrite !append_assoc.
    + rewrite !cursor_app, (cursor_plain _ c0 Hc0), cursor_padded by (by apply (Hw 0)).
      rewrite Hm, <- Nat.mul_add_distr_r, Hcur.
      change (column_start (w :: widths) (S j)) with (round_up w + column_start widths j). rewrite Hm. lia.
Qed.

Lemma cell_below_width column rows l c :
  l ∈ rows -> l !! column = Some c -> rune_count c < column_width column rows.
Proof.
  intros Hl Hc. unfold column_width. induction rows as [|l' rows IH]; [by apply not_elem_of_nil in Hl|].
  cbn [foldr]. apply elem_of_cons in Hl as [->|Hl].
  - unfold cell_width. rewrite Hc. unfold padding. lia.
  - specialize (IH Hl). lia.
Qed.

(** ** From cells to text and back *)
Lemma split_once_none c s : Forall (fun d => d <> c) (String.list_ascii_of_string s) -> split_once c s = None.
Proof.
  induction s as [|d s IH]; intros H; [done|]. cbn [String.list_ascii_of_string] in H.
  apply list.Forall_cons in H as [Hd H]. cbn [split_once]. rewrite decide_False by congruence. by rewrite IH.
Qed.

Lemma length_string_app s1 s2 : String.length (s1 +:+ s2) = String.length s1 + String.length s2.
Proof. induction s1 as [|c s1 IH]; [done|]. exact (f_equal S IH). Qed.

Lemma split_once_shorter c s a b : split_once c s = Some (a, b) -> String.length b < String.length s.
Proof.
  revert a b. induction s as [|d s IH]; intros a b; cbn [split_once]; [done|]. case_decide; [intros [= _ <-]; cbn; lia|].
  destruct (split_once c s) as [[a' b']|] eqn:E; [|done]. intros [= _ <-]. specialize (IH _ _ eq_refl). cbn. lia.
Qed.

(** More parts than characters are never asked for. *)
Lemma split_n_enough c n m s : String.length s < n -> String.length s < m -> split_n c n s = split_n c m s.
Proof.
  revert m s. induction n as [|n IH]; intros m s Hn Hm; [lia|]. destruct m as [|m]; [lia|]. cbn [split_n].
  assert (forall k, String.length s < S k -> k = 0 -> split_once c s = None) as Hnone.
  { intros k Hk ->. destruct s; [done|cbn in Hk; lia]. }
  destruct n as [|n], m as [|m]; try done.
  - by rewrite (Hnone 0 Hn eq_refl).
  - by rewrite (Hnone 0 Hm eq_refl).
  - destruct (split_once c s) as [[a b]|] eqn:E; [|done]. apply split_once_shorter in E.
    f_equal. apply IH; lia.
Qed.

Lemma split_n_SS c k s :
  split_n c (S (S k)) s = match split_once c s with Some (a, b) => a :: split_n c (S k) b | None => [s] end.
Proof. done. Qed.

Lemma split_app c a b :
  Forall (fun d => d <> c) (String.list_ascii_of_string a) -> split c (a +:+ String c b) = a :: split c b.
Proof.
  intros Ha. unfold split at 1. rewrite length_string_app. cbn [String.length].
  rewrite Nat.add_succ_r, split_n_SS, split_once_app by done. f_equal. apply split_n_enough; lia.
Qed.

Lemma split_single c s : Forall (fun d => d <> c) (String.list_ascii_of_string s) -> split c s = [s].
Proof.
  intros Hs. unfold split. destruct (String.length s); [done|]. by rewrite split_n_SS, split_once_none.
Qed.

(** The text of a line without its newline, and of a table. *)
Fixpoint cells_text (l : line) : string :=
  match l with
  | [] => EmptyString
  | [c] => c
  | c :: l' => c +:+ String tab_char (cells_text l')
  end.

Definition table_text (rows : list line) : string :=
  foldr (fun l t => cells_text l +:+ String newline_char t) EmptyString rows.

Lemma plain_no_tab s : plain s -> Forall (fun d => d <> tab_char) (String.list_ascii_of_string s).
Proof. intros H. eapply list.Forall_impl; [exact H|]. by intros d []. Qed.

Lemma plain_no_newline s : plain s -> Forall (fun d => d <> newline_char) (String.list_ascii_of_string s).
Proof. intros H. eapply list.Forall_impl; [exact H|]. by intros d []. Qed.

Lemma chars_app s1 s2 :
  String.list_ascii_of_string (s1 +:+ s2) = String.list_ascii_of_string s1 ++ String.list_ascii_of_string s2.
Proof. induction s1 as [|c s1 IH]; [done|]. exact (f_equal (cons c) IH). Qed.

Lemma split_cells l : l <> [] -> Forall plain l -> split tab_char (cells_text l) = l.
Proof.
  induction l as [|c l IH]; [done|]. intros _ [Hc Hl]%list.Forall_cons. destruct l as [|c2 l].
  - apply split_single. by apply plain_no_tab.
  - change (cells_text (c :: c2 :: l)) with (c +:+ String tab_char (cells_text (c2 :: l))).
    rewrite split_app by (by apply plain_no_tab). by rewrite IH.
Qed.

Lemma cells_no_newline l :
  Forall plain l -> Forall (fun d => d <> newline_char) (String.list_ascii_of_string (cells_text l)).
Proof.
  induction 1 as [|c l Hc Hl IH]; [constructor|]. destruct l as [|c2 l]; [by apply plain_no_newline|].
  change (cells_text (c :: c2 :: l)) with (c +:+ String tab_char (cells_text (c2 :: l))).
  rewrite chars_app. apply Forall_app. split; [by apply plain_no_newline|]. by constructor.
Qed.

Lemma split_table rows :
  Forall (Forall plain) rows -> split newline_char (table_text rows) = (cells_text <$> rows) ++ [EmptyString].
Proof.
  induction 1 as [|l rows Hl _ IH]; [done|]. cbn [table_text foldr fmap list_fmap app].
  rewrite split_app by (by apply cells_no_newline). f_equal. exact IH.
Qed.

(** What the tab writer makes of a table with plain cells. *)
Lemma tabwriter_table columns rows :
  rows <> [] -> 0 < columns -> Forall (fun l => length l = S columns) rows -> Forall (Forall plain) rows ->
  tabwriter (table_text rows) = join ((write_line (table_widths rows columns) <$> rows) ++ [EmptyString]).
Proof.
  intros Hne Hc Hlen Hp. unfold tabwriter. rewrite split_table by done. cbv zeta.
  rewrite fmap_app. change (split tab_char <$> [EmptyString]) with [[EmptyString]].
  assert (split tab_char <$> (cells_text <$> rows) = rows) as ->.
  { clear Hne. induction rows as [|l rows IH]; [done|]. cbn [fmap list_fmap].
    apply list.Forall_cons in Hlen as [Hl Hlen]. apply list.Forall_cons in Hp as [Hpl Hp].
    rewrite split_cells; [f_equal; by apply IH|by destruct l|done]. }
  by rewrite (format_table_end columns).
Qed.

(** Every cell of a column starts below the others. *)
Lemma table_aligned columns rows l j c :
  Forall (fun l => length l = S columns) rows -> Forall (Forall plain) rows -> l ∈ rows -> l !! j = Some c ->
  exists before after, write_line (table_widths rows columns) l = before +:+ c +:+ after /\
    cursor 0 before = column_start (table_widths rows columns) j.
Proof.
  intros Hlen Hp Hl Hc. rewrite list.Forall_forall in Hlen. rewrite list.Forall_forall in Hp.
  apply (write_line_aligned (table_widths rows columns) l 0).
  - unfold table_widths. rewrite length_fmap, length_seq. by apply Hlen.
  - by apply Hp.
  - intros i w c' Hw Hi. unfold table_widths in Hw. rewrite list_lookup_fmap in Hw.
    destruct (seq 0 columns !! i) as [x|] eqn:Hx; [|done]. injection Hw as <-.
    apply lookup_seq in Hx as [-> _]. by eapply cell_below_width.
  - exact Hc.
Qed.
