(* ===== verification/GoTime.v ===== *)
(** * Instants and durations of Go's [time] package

    A [time.Time] is the number of nanoseconds since the Unix epoch; a
    [time.Duration] is an [int64] number of nanoseconds.  [parse_rfc3339nano]
    is [time.Parse(time.RFC3339Nano, s)] of Go 1.15: the fields of the layout
    [2006-01-02T15:04:05.999999999Z07:00] in order, the range checks, an
    optional fraction of at most nine digits, and a [Z] or [+hh:mm] zone. *)
From S2P Require Import Prelude.

Local Open Scope Z_scope.

Definition time := Z.

(** ** Calendar *)
Definition is_leap (y : Z) : bool :=
  (y mod 4 =? 0) && (negb (y mod 100 =? 0) || (y mod 400 =? 0)).

Definition days_in (m y : Z) : Z :=
  if m =? 2 then (if is_leap y then 29 else 28)
  else if (m =? 4) || (m =? 6) || (m =? 9) || (m =? 11) then 30 else 31.

(** Days between 1970-01-01 and year [y], month [m], day [d] (proleptic
    Gregorian calendar, years counted from March). *)
Definition days_from_civil (y m d : Z) : Z :=
  let y' := if m <=? 2 then y - 1 else y in
  let era := y' / 400 in
  let yoe := y' mod 400 in
  let mp := (m + 9) mod 12 in
  let doy := (153 * mp + 2) / 5 + d - 1 in
  let doe := yoe * 365 + yoe / 4 - yoe / 100 + doy in
  era * 146097 + doe - 719468.

Definition nanos : Z := 1000000000.

Definition mk_time (y mo d h mi s ns off : Z) : time :=
  ((days_from_civil y mo d * 86400 + h * 3600 + mi * 60 + s) - off) * nanos + ns.

(** The zero [time.Time]: 0001-01-01T00:00:00Z. *)
Definition zero_time : time := mk_time 1 1 1 0 0 0 0 0.

(** ** Parsing *)
Definition parser (A : Type) := list ascii -> option (A * list ascii).

#[export] Instance parser_ret : MRet parser := fun A a s => Some (a, s).
#[export] Instance parser_bind : MBind parser := fun A B f p s =>
  match p s with
  | Some (a, s') => f a s'
  | None => None
  end.

Definition p_fail {A} : parser A := fun _ => None.
Definition p_guard (b : bool) : parser unit := fun s => if b then Some (tt, s) else None.

Definition digit_val (c : ascii) : option Z :=
  let n := nat_of_ascii c in
  if decide (48 ≤ n ∧ n ≤ 57)%nat then Some (Z.of_nat n - 48) else None.

Definition p_char (c : ascii) : parser unit := fun s =>
  match s with
  | d :: s' => if decide (c = d) then Some (tt, s') else None
  | [] => None
  end.

Definition p_digit : parser Z := fun s =>
  match s with
  | c :: s' => match digit_val c with Some d => Some (d, s') | None => None end
  | [] => None
  end.

(** [getnum(s, fixed = true)]: exactly two digits. *)
Definition p_two : parser Z := a ← p_digit; b ← p_digit; mret (10 * a + b).

(** [getnum(s, fixed = false)]: one or two digits. *)
Definition p_one_two : parser Z := fun s =>
  match p_digit s with
  | None => None
  | Some (a, s') => match p_digit s' with
                    | Some (b, s'') => Some (10 * a + b, s'')
                    | None => Some (a, s')
                    end
  end.

Definition p_four : parser Z := a ← p_two; b ← p_two; mret (100 * a + b).

(** Up to [fuel] digits after the decimal point, scaled to nanoseconds. *)
Fixpoint p_frac_digits (fuel : nat) (acc : Z) : parser Z := fun s =>
  match fuel with
  | O => Some (acc, s)
  | S k => match p_digit s with
           | Some (d, s') => p_frac_digits k (acc + d * 10 ^ Z.of_nat k) s'
           | None => Some (acc, s)
           end
  end.

Definition p_frac : parser Z := fun s =>
  match s with
  | "."%char :: c :: s' =>
      match digit_val c with
      | Some _ => p_frac_digits 9 0 (c :: s')
      | None => Some (0, s)
      end
  | _ => Some (0, s)
  end.

(** The zone: [Z], or a sign, two digits, a colon and two digits. *)
Definition p_zone : parser Z := fun s =>
  match s with
  | "Z"%char :: s' => Some (0, s')
  | "+"%char :: s' => (h ← p_two; _ ← p_char ":"; m ← p_two; mret ((h * 60 + m) * 60)) s'
  | "-"%char :: s' => (h ← p_two; _ ← p_char ":"; m ← p_two; mret (- ((h * 60 + m) * 60))) s'
  | _ => None
  end.

Definition p_rfc3339 : parser time :=
  y ← p_four; _ ← p_char "-";
  mo ← p_two; _ ← p_guard ((1 <=? mo) && (mo <=? 12)); _ ← p_char "-";
  d ← p_two; _ ← p_char "T";
  h ← p_one_two; _ ← p_guard (h <? 24); _ ← p_char ":";
  mi ← p_two; _ ← p_guard (mi <? 60); _ ← p_char ":";
  s ← p_two; _ ← p_guard (s <? 60);
  ns ← p_frac;
  off ← p_zone;
  _ ← p_guard ((1 <=? d) && (d <=? days_in mo y));
  mret (mk_time y mo d h mi s ns off).

(** [time.Parse(time.RFC3339Nano, s)]: the whole string must be consumed. *)
Definition parse_rfc3339nano (s : string) : option time :=
  match p_rfc3339 (String.list_ascii_of_string s) with
  | Some (t, []) => Some t
  | _ => None
  end.

(** ** Durations *)

(** [t.Sub(u)]: the difference, saturated to the [int64] range. *)
Definition time_sub (t u : time) : Z := Z.max min_int64 (Z.min max_int64 (t - u)).

(** [d.Microseconds()]: integer division truncated towards zero. *)
Definition microseconds (d : Z) : Z := Z.quot d 1000.

Definition before (t u : time) : bool := t <? u.
Definition after (t u : time) : bool := u <? t.

(** [t.Unix()]: seconds since the epoch. *)
Definition unix (t : time) : Z := t / nanos.

(** ** Lemmas *)
Lemma time_sub_range t u : in_int64 (time_sub t u).
Proof. unfold in_int64, time_sub, min_int64, max_int64. lia. Qed.

Lemma time_sub_exact t u : in_int64 (t - u) -> time_sub t u = t - u.
Proof. unfold in_int64, time_sub. lia. Qed.

Lemma microseconds_bound d : in_int64 d -> Z.abs (microseconds d) <= 2 ^ 63 / 1000.
Proof.
  unfold in_int64, min_int64, max_int64, microseconds. intros H.
  assert (Z.abs (Z.quot d 1000) = Z.quot (Z.abs d) 1000) as -> by (symmetry; apply (Z.quot_abs d 1000); lia).
  rewrite Z.quot_div_nonneg by lia. apply Z.div_le_mono; lia.
Qed.

Lemma microseconds_nonneg d : 0 <= d -> microseconds d = d / 1000.
Proof. intros H. unfold microseconds. apply Z.quot_div_nonneg; lia. Qed.

Lemma microseconds_opp d : microseconds (- d) = - microseconds d.
Proof. unfold microseconds. apply Z.quot_opp_l. lia. Qed.

Example parse_example :
  parse_rfc3339nano "2020-07-10T20:12:33.123456Z" = Some 1594411953123456000.
Proof. vm_compute. reflexivity. Qed.

Example parse_zone : parse_rfc3339nano "1970-01-01T01:00:00+01:00" = Some 0.
Proof. vm_compute. reflexivity. Qed.

Example parse_bad_day : parse_rfc3339nano "2021-02-29T00:00:00Z" = None.
Proof. vm_compute. reflexivity. Qed.

(** Parsing is evaluated by [vm_compute] only, never by unification. *)
#[global] Opaque parse_rfc3339nano.

#[export] Hint Resolve time_sub_range : go.
