(* ===== verification/GoJson.v ===== *)
(** * [encoding/json] as far as the log parser uses it

    A text parser for JSON values and the rules by which [json.Unmarshal] stores
    a value into a Go variable: object keys match struct fields up to letter
    case, [null] leaves the variable alone, a value of another type or a number
    out of the field's range is an error.  [json.RawMessage] keeps a value
    undecoded.  Letter case is folded on ASCII; bytes of string literals above
    127 are kept as they are. *)
From S2P Require Import Prelude GoStrings GoTime.

Inductive json :=
  | JNull
  | JBool (b : bool)
  | JNum (lit : string)
  | JStr (s : string)
  | JArr (l : list json)
  | JObj (members : list (string * json)).

Abbreviation chars := (list ascii).

(** ** Lexing *)
Definition is_ws (c : ascii) : bool :=
  bool_decide (nat_of_ascii c ∈ [32; 9; 10; 13]).

Fixpoint skip_ws (s : chars) : chars :=
  match s with
  | c :: s' => if is_ws c then skip_ws s' else s
  | [] => []
  end.

Definition hex_val (c : ascii) : option N :=
  let n := N_of_ascii c in
  if decide (48 ≤ n ∧ n ≤ 57)%N then Some (n - 48)%N
  else if decide (97 ≤ n ∧ n ≤ 102)%N then Some (n - 87)%N
  else if decide (65 ≤ n ∧ n ≤ 70)%N then Some (n - 55)%N
  else None.

Definition hex4 (s : chars) : option (N * chars) :=
  match s with
  | a :: b :: c :: d :: s' =>
      match hex_val a, hex_val b, hex_val c, hex_val d with
      | Some a, Some b, Some c, Some d => Some (((a * 16 + b) * 16 + c) * 16 + d, s')%N
      | _, _, _, _ => None
      end
  | _ => None
  end.

(** UTF-8 encoding of a code point. *)
Definition utf8 (n : N) : chars :=
  ascii_of_N <$>
  if decide (n < 128)%N then [n]
  else if decide (n < 2048)%N then [192 + n / 64; 128 + n mod 64]%N
  else if decide (n < 65536)%N then
    [224 + n / 4096; 128 + n / 64 mod 64; 128 + n mod 64]%N
  else
    [240 + n / 262144; 128 + n / 4096 mod 64; 128 + n / 64 mod 64; 128 + n mod 64]%N.

Definition replacement_char : chars := utf8 65533.

(** The rest of a [\u] escape: a code unit, or a surrogate pair. *)
Definition unicode_escape (s : chars) : option (chars * chars) :=
  match hex4 s with
  | None => None
  | Some (u, s') =>
      if decide (55296 ≤ u ∧ u < 57344)%N then
        match s' with
        | "\"%char :: "u"%char :: s'' =>
            match hex4 s'' with
            | Some (v, s3) =>
                if decide (u < 56320 ∧ 56320 ≤ v ∧ v < 57344)%N
                then Some (utf8 (65536 + (u - 55296) * 1024 + (v - 56320))%N, s3)
                else Some (replacement_char, s')
            | None => None
            end
        | _ => Some (replacement_char, s')
        end
      else Some (utf8 u, s')
  end.

Definition simple_escape (c : ascii) : option ascii :=
  match c with
  | "n"%char => Some (ascii_of_nat 10)
  | "t"%char => Some (ascii_of_nat 9)
  | "r"%char => Some (ascii_of_nat 13)
  | "b"%char => Some (ascii_of_nat 8)
  | "f"%char => Some (ascii_of_nat 12)
  | "/"%char => Some "/"%char
  | "\"%char => Some "\"%char
  | _ => if decide (nat_of_ascii c = 34) then Some c else None
  end.

(** The body of a string literal, up to its closing quote. *)
Fixpoint string_body (fuel : nat) (acc : chars) (s : chars) : option (string * chars) :=
  match fuel with
  | O => None
  | S k =>
      match s with
      | [] => None
      | c :: s' =>
          if decide (nat_of_ascii c = 34) then
            Some (String.string_of_list_ascii (rev acc), s')
          else if decide (nat_of_ascii c < 32) then None
          else if decide (c = "\"%char) then
            match s' with
            | "u"%char :: s'' =>
                match unicode_escape s'' with
                | Some (cs, s3) => string_body k (rev cs ++ acc) s3
                | None => None
                end
            | e :: s'' =>
                match simple_escape e with
                | Some x => string_body k (x :: acc) s''
                | None => None
                end
            | [] => None
            end
          else string_body k (c :: acc) s'
      end
  end.

Fixpoint digits (s : chars) : chars * chars :=
  match s with
  | c :: s' => match digit_val c with
               | Some _ => let '(d, r) := digits s' in (c :: d, r)
               | None => ([], s)
               end
  | [] => ([], [])
  end.

(** A number literal by the JSON grammar. *)
Definition number (s : chars) : option (string * chars) :=
  let '(sign, s1) := match s with "-"%char :: s' => (["-"%char], s') | _ => ([], s) end in
  let '(int, s2) := match s1 with
                    | "0"%char :: s' => (["0"%char], s')
                    | _ => digits s1
                    end in
  match int with
  | [] => None
  | _ =>
      let frac := match s2 with
                  | "."%char :: s' => let '(d, r) := digits s' in
                                      if decide (d = []) then None else Some ("."%char :: d, r)
                  | _ => Some ([], s2)
                  end in
      match frac with
      | None => None
      | Some (fr, s3) =>
          let exp := match s3 with
                     | c :: s' =>
                         if decide (c = "e"%char ∨ c = "E"%char) then
                           let '(sg, r) := match s' with
                                           | "+"%char :: r => (["+"%char], r)
                                           | "-"%char :: r => (["-"%char], r)
                                           | _ => ([], s')
                                           end in
                           let '(d, r') := digits r in
                           if decide (d = []) then None else Some (c :: sg ++ d, r')
                         else Some ([], s3)
                     | [] => Some ([], s3)
                     end in
          match exp with
          | None => None
          | Some (ex, s4) => Some (String.string_of_list_ascii (sign ++ int ++ fr ++ ex), s4)
          end
      end
  end.

Fixpoint literal (w : chars) (s : chars) : option chars :=
  match w, s with
  | [], _ => Some s
  | c :: w', d :: s' => if decide (c = d) then literal w' s' else None
  | _, [] => None
  end.

(** ** Values *)
Fixpoint p_value (fuel : nat) (s : chars) : option (json * chars) :=
  match fuel with
  | O => None
  | S k =>
      match skip_ws s with
      | [] => None
      | c :: s' =>
          if decide (nat_of_ascii c = 34) then
            match string_body (S (length s')) [] s' with
            | Some (str, r) => Some (JStr str, r)
            | None => None
            end
          else match c with
          | "{"%char =>
              match skip_ws s' with
              | "}"%char :: r => Some (JObj [], r)
              | r => p_members k [] r
              end
          | "["%char =>
              match skip_ws s' with
              | "]"%char :: r => Some (JArr [], r)
              | r => p_elems k [] r
              end
          | "n"%char => r ← literal (String.list_ascii_of_string "ull") s'; Some (JNull, r)
          | "t"%char => r ← literal (String.list_ascii_of_string "rue") s'; Some (JBool true, r)
          | "f"%char => r ← literal (String.list_ascii_of_string "alse") s'; Some (JBool false, r)
          | _ => '(n, r) ← number (c :: s'); Some (JNum n, r)
          end
      end
  end
with p_members (fuel : nat) (acc : list (string * json)) (s : chars) : option (json * chars) :=
  match fuel with
  | O => None
  | S k =>
      match skip_ws s with
      | c :: s1 =>
          if decide (nat_of_ascii c = 34) then
            '(key, s2) ← string_body (S (length s1)) [] s1;
            s3 ← literal [":"%char] (skip_ws s2);
            '(v, s4) ← p_value k s3;
            match skip_ws s4 with
            | ","%char :: s5 => p_members k ((key, v) :: acc) s5
            | "}"%char :: s5 => Some (JObj (rev ((key, v) :: acc)), s5)
            | _ => None
            end
          else None
      | [] => None
      end
  end
with p_elems (fuel : nat) (acc : list json) (s : chars) : option (json * chars) :=
  match fuel with
  | O => None
  | S k =>
      '(v, s1) ← p_value k s;
      match skip_ws s1 with
      | ","%char :: s2 => p_elems k (v :: acc) s2
      | "]"%char :: s2 => Some (JArr (rev (v :: acc)), s2)
      | _ => None
      end
  end.

(** A document: one value and white space.  Every recursive call of the value
    parsers either consumes a character or follows one that did, so twice the
    length is enough fuel. *)
Definition parse_json (s : string) : option json :=
  let cs := String.list_ascii_of_string s in
  match p_value (2 * length cs + 2) cs with
  | Some (j, r) => match skip_ws r with [] => Some j | _ => None end
  | None => None
  end.

(** ** Storing values into Go variables *)

(** [None] is the error [json.Unmarshal] returns. *)
Definition decoder (A : Type) := json -> A -> option A.

(** A JSON key selects a field when they agree up to letter case. *)
Definition key_is (field key : string) : bool := bool_decide (to_lower field = to_lower key).

Definition dec_string : decoder string := fun j cur =>
  match j with JNull => Some cur | JStr s => Some s | _ => None end.

(** The digits of a literal without sign, fraction or exponent. *)
Fixpoint nat_lit (acc : Z) (s : chars) : option Z :=
  match s with
  | [] => Some acc
  | c :: s' => match digit_val c with
               | Some d => nat_lit (10 * acc + d)%Z s'
               | None => None
               end
  end.

Definition int_lit (lit : string) : option Z :=
  match String.list_ascii_of_string lit with
  | "-"%char :: ((_ :: _) as s) => Z.opp <$> nat_lit 0%Z s
  | (_ :: _) as s => nat_lit 0%Z s
  | [] => None
  end.

Definition uint_lit (lit : string) : option Z :=
  match String.list_ascii_of_string lit with
  | (_ :: _) as s => nat_lit 0%Z s
  | [] => None
  end.

(** An unsigned integer of [w] bits; out of range is an error. *)
Definition dec_uint (w : Z) : decoder Z := fun j cur =>
  match j with
  | JNull => Some cur
  | JNum lit => match uint_lit lit with
                | Some n => if decide (n < 2 ^ w)%Z then Some n else None
                | None => None
                end
  | _ => None
  end.

Definition dec_int (w : Z) : decoder Z := fun j cur =>
  match j with
  | JNull => Some cur
  | JNum lit => match int_lit lit with
                | Some n => if decide (- 2 ^ (w - 1) <= n < 2 ^ (w - 1))%Z then Some n else None
                | None => None
                end
  | _ => None
  end.

(** [json.RawMessage]: any value is kept, [nil] until one is stored. *)
Definition dec_raw : decoder (option json) := fun j _ => Some (Some j).

(** A struct: its members in order, each into the field its key selects. *)
Definition dec_struct {A} (field : string -> decoder A) : decoder A := fun j cur =>
  match j with
  | JNull => Some cur
  | JObj ms => foldl (fun acc '(k, v) => a ← acc; field k v a) (Some cur) ms
  | _ => None
  end.

(** [map[string]string], [nil] before the first object. *)
Definition dec_string_map : decoder (option (gmap string string)) := fun j cur =>
  match j with
  | JNull => Some None
  | JObj ms =>
      foldl (fun acc '(k, v) => m ← acc; s ← dec_string v ""; Some (Some (<[k := s]> (default ∅ m))))
        (Some (Some (default ∅ cur))) ms
  | _ => None
  end.

(** A slice of structs, each element decoded into a zero value. *)
Definition dec_slice {A} (zero : A) (elem : decoder A) : decoder (list A) := fun j _ =>
  match j with
  | JNull => Some []
  | JArr l => mapM (fun v => elem v zero) l
  | _ => None
  end.

(** [json.Unmarshal(raw, &x)] on a [json.RawMessage]: empty input is an error. *)
Definition unmarshal_raw {A} (d : decoder A) (raw : option json) (zero : A) : option A :=
  match raw with
  | Some j => d j zero
  | None => None
  end.

(** ** Lemmas *)
Lemma dec_uint_range w j n cur :
  (0 <= cur < 2 ^ w)%Z -> dec_uint w j cur = Some n -> (n < 2 ^ w)%Z.
Proof.
  intros Hc. destruct j; simpl; try discriminate.
  - intros [= <-]. lia.
  - destruct (uint_lit lit); [|discriminate]. case_decide; [|discriminate]. by intros [= <-].
Qed.

(** Text with single quotes in place of double quotes, for concrete inputs. *)
Definition quoted : string -> string :=
  map_string (fun c => if decide (c = "'"%char) then ascii_of_nat 34 else c).

Example json_escape :
  parse_json (quoted "'a\n\u0041\u00e9'")
  = Some (JStr (String.string_of_list_ascii
       (["a"%char; ascii_of_N 10; "A"%char; ascii_of_N 195; ascii_of_N 169]))).
Proof. vm_compute. reflexivity. Qed.

Example json_example :
  parse_json (quoted "{ 'Kind' : 'Pod', 'n': [1, -2.5e3, null, true] }") =
  Some (JObj [("Kind", JStr "Pod"); ("n", JArr [JNum "1"; JNum "-2.5e3"; JNull; JBool true])]).
Proof. vm_compute. reflexivity. Qed.
