(* ===== verification/GoJsonPrint.v ===== *)
(** * [encoding/json]: marshalling

    [Marshal] of the values the program encodes: strings, integers, booleans,
    slices, maps with string keys (sorted) and structs (fields in order), given
    as [json] trees.  Strings are assumed to be valid UTF-8.  The parser of
    GoJson.v reads what is printed here. *)
From stdpp Require Import sorting.
From S2P Require Import Prelude GoStrings GoTime GoJson.

(** ** Strings *)
Definition hex_digit (n : N) : ascii :=
  ascii_of_N (if decide (n < 10)%N then 48 + n else 87 + n)%N.

Definition quote : ascii := ascii_of_nat 34.
Definition backslash : ascii := ascii_of_nat 92.

(** One byte of a string, as Go 1.15 prints it; HTML characters are escaped, and
    bytes above 127 are copied. *)
Definition escape_char (c : ascii) : chars :=
  let n := N_of_ascii c in
  if decide (c = quote \/ c = backslash) then [backslash; c]
  else if decide (n = 10)%N then [backslash; "n"%char]
  else if decide (n = 13)%N then [backslash; "r"%char]
  else if decide (n = 9)%N then [backslash; "t"%char]
  else if decide (n < 32 \/ n = 60 \/ n = 62 \/ n = 38)%N then
    [backslash; "u"%char; "0"%char; "0"%char; hex_digit (n / 16); hex_digit (n mod 16)]
  else [c].

(** The line separators U+2028 and U+2029. *)
Definition is_separator (a b c : ascii) : bool :=
  bool_decide (N_of_ascii a = 226%N) && bool_decide (N_of_ascii b = 128%N) &&
  (bool_decide (N_of_ascii c = 168%N) || bool_decide (N_of_ascii c = 169%N)).

Definition escape_separator (c : ascii) : chars :=
  [backslash; "u"%char; "2"%char; "0"%char; "2"%char; hex_digit (N_of_ascii c - 160)].

Fixpoint escape (s : chars) : chars :=
  match s with
  | [] => []
  | a :: s1 =>
      match s1 with
      | b :: c :: s3 => if is_separator a b c then escape_separator c ++ escape s3
                        else escape_char a ++ escape s1
      | _ => escape_char a ++ escape s1
      end
  end.

Definition json_quote (s : string) : chars :=
  quote :: escape (String.list_ascii_of_string s) ++ [quote].

(** ** Values *)
Fixpoint comma_separated (l : list chars) : chars :=
  match l with
  | [] => []
  | [x] => x
  | x :: l' => x ++ ","%char :: comma_separated l'
  end.

Fixpoint print (j : json) : chars :=
  match j with
  | JNull => String.list_ascii_of_string "null"
  | JBool b => String.list_ascii_of_string (if b then "true" else "false")
  | JNum lit => String.list_ascii_of_string lit
  | JStr s => json_quote s
  | JArr l => "["%char :: comma_separated (List.map print l) ++ ["]"%char]
  | JObj ms =>
      "{"%char :: comma_separated (List.map (fun kv => json_quote (fst kv) ++ ":"%char :: print (snd kv)) ms)
        ++ ["}"%char]
  end.

(** [json.Marshal], and [Encode] of an encoder, which adds a newline. *)
Definition Marshal (j : json) : string := String.string_of_list_ascii (print j).
Definition Encode (j : json) : string := String.string_of_list_ascii (print j ++ [ascii_of_nat 10]).

Definition json_int (z : Z) : json := JNum (itoa z).

(** Maps are marshalled with their keys in order. *)
Definition key_le {A} (a b : string * A) : Prop := String.leb a.1 b.1 = true.
#[export] Instance key_le_dec {A} (a b : string * A) : Decision (key_le a b).
Proof. unfold key_le. apply _. Defined.

Definition json_map {A} (f : A -> json) (m : gmap string A) : json :=
  JObj ((fun kv => (kv.1, f kv.2)) <$> merge_sort key_le (map_to_list m)).

(** ** Reading a string back *)
Lemma list_string l : String.list_ascii_of_string (String.string_of_list_ascii l) = l.
Proof. apply String.list_ascii_of_string_of_list_ascii. Qed.
Lemma string_list s : String.string_of_list_ascii (String.list_ascii_of_string s) = s.
Proof. apply String.string_of_list_ascii_of_string. Qed.

Lemma read_escape_char c k acc r :
  string_body (S k) acc (escape_char c ++ r) = string_body k (c :: acc) r.
Proof. destruct c as [[] [] [] [] [] [] [] []]; reflexivity. Qed.

Lemma read_separator a b c k acc r : is_separator a b c = true ->
  string_body (S k) acc (escape_separator c ++ r) = string_body k (c :: b :: a :: acc) r.
Proof.
  unfold is_separator. rewrite !andb_true_iff, orb_true_iff, !bool_decide_eq_true. intros [[Ha Hb] Hc].
  rewrite <- (ascii_N_embedding a), <- (ascii_N_embedding b), <- (ascii_N_embedding c), Ha, Hb.
  destruct Hc as [-> | ->]; reflexivity.
Qed.

Lemma read_escape n s k acc r :
  (length s <= n)%nat -> (length s < k)%nat ->
  string_body k acc (escape s ++ quote :: r) = Some (String.string_of_list_ascii (rev acc ++ s), r).
Proof.
  revert s k acc. induction n as [|n IH]; intros s k acc Hn Hk.
  - destruct s; [|simpl in Hn; lia]. destruct k; [simpl in Hk; lia|]. cbn. by rewrite app_nil_r.
  - destruct k as [|k]; [lia|]. destruct s as [|a s1]; [cbn; by rewrite app_nil_r|].
    assert (string_body (S k) acc ((escape_char a ++ escape s1) ++ quote :: r)
      = Some (String.string_of_list_ascii (rev acc ++ a :: s1), r)) as H1.
    { rewrite <- app_assoc, read_escape_char, IH by (simpl in *; lia).
      cbn [rev]. by rewrite <- app_assoc. }
    destruct s1 as [|b [|c s3]]; [exact H1|exact H1|]. cbn [escape].
    destruct (is_separator a b c) eqn:Es; [|exact H1].
    rewrite <- app_assoc, (read_separator a b) by done. rewrite IH by (simpl in *; lia).
    cbn [rev]. by rewrite <- !app_assoc.
Qed.

Lemma escape_char_length c : (1 <= length (escape_char c))%nat.
Proof. unfold escape_char. repeat case_decide; simpl; lia. Qed.


Lemma escape_longer n s : (length s <= n)%nat -> (length s <= length (escape s))%nat.
Proof.
  revert s. induction n as [|n IH]; intros s Hn; [destruct s; [done|simpl in Hn; lia]|].
  destruct s as [|a s1]; [done|]. pose proof (escape_char_length a).
  assert (length (a :: s1) <= length (escape_char a ++ escape s1))%nat as H1.
  { rewrite length_app. pose proof (IH s1 ltac:(simpl in *; lia)). simpl. lia. }
  destruct s1 as [|b [|c s3]]; [exact H1|exact H1|]. cbn [escape].
  destruct (is_separator a b c); [|exact H1].
  rewrite length_app. pose proof (IH s3 ltac:(simpl in *; lia)). simpl in *. lia.
Qed.

(** What follows a value: the end or a separator. *)
Definition stop (r : chars) : Prop :=
  match r with
  | [] => True
  | c :: _ => c = ","%char \/ c = "]"%char \/ c = "}"%char \/ c = "010"%char
  end.

Lemma read_quoted s k r :
  (length (json_quote s) <= k)%nat ->
  string_body k [] (escape (String.list_ascii_of_string s) ++ quote :: r) = Some (s, r).
Proof.
  intros Hk. unfold json_quote in Hk. cbn [length] in Hk. rewrite length_app in Hk.
  pose proof (escape_longer _ (String.list_ascii_of_string s) (le_n _)).
  rewrite (read_escape (length (String.list_ascii_of_string s))) by (simpl in *; lia).
  cbn [rev app]. by rewrite string_list.
Qed.

(** ** Integers *)
Definition is_digit (c : ascii) : Prop := is_Some (digit_val c).

(** The ten values of a digit, by their bits. *)
Ltac small_cases n :=
  let p := fresh "p" in destruct n as [|p]; [|do 4 (try (destruct p as [p|p|]; try lia))].

Lemma pretty_char_digit n : (n < 10)%N -> is_digit (pretty_N_char n).
Proof. intros H. small_cases n; by eexists. Qed.

Lemma pretty_char_zero n : (0 < n < 10)%N -> pretty_N_char n <> "0"%char.
Proof. intros H. small_cases n; try lia; done. Qed.

Lemma pretty_digits x s : (0 < x)%N ->
  exists c ds, String.list_ascii_of_string (pretty_N_go x s) = (c :: ds) ++ String.list_ascii_of_string s /\
    Forall is_digit (c :: ds) /\ c <> "0"%char.
Proof.
  revert s. induction (N.lt_wf_0 x) as [x _ IH]; intros s Hx. rewrite pretty_N_go_step by done.
  pose proof (N.mod_lt x 10 ltac:(done)) as Hm.
  destruct (decide (x / 10 = 0)%N) as [Hz|Hnz].
  - rewrite Hz, pretty_N_go_0. exists (pretty_N_char (x mod 10)), []. split_and!; [done| |].
    + constructor; [by apply pretty_char_digit|constructor].
    + apply pretty_char_zero. pose proof (N.div_mod x 10 ltac:(done)). lia.
  - assert (0 < x / 10)%N as Hx' by (apply N.neq_0_lt_0; exact Hnz).
    destruct (IH (x / 10)%N (N.div_lt x 10 Hx eq_refl) (String (pretty_N_char (x mod 10)) s) Hx')
      as (c & ds & E & Hd & Hc).
    exists c, (ds ++ [pretty_N_char (x mod 10)]). rewrite E. split_and!; [|  |done].
    + cbn. by rewrite <- app_assoc.
    + change (Forall is_digit ((c :: ds) ++ [pretty_N_char (x mod 10)])). apply Forall_app.
      split; [done|]. constructor; [by apply pretty_char_digit|constructor].
Qed.

(** The characters of an integer. *)
Lemma itoa_chars z : Forall (fun c => is_digit c \/ c = "-"%char) (String.list_ascii_of_string (itoa z)).
Proof.
  assert (forall p, Forall (fun c => is_digit c \/ c = "-"%char) (String.list_ascii_of_string (pretty_N_go (N.pos p) ""))) as Hp.
  { intros p. destruct (pretty_digits (N.pos p) "" eq_refl) as (c & ds & -> & Hd & _).
    rewrite app_nil_r. eapply list.Forall_impl; [exact Hd|]. by left. }
  unfold itoa, pretty, pretty_Z. destruct z as [|p|p].
  - repeat constructor. by eexists.
  - unfold pretty, pretty_positive, pretty, pretty_N. rewrite decide_False by done. apply Hp.
  - unfold pretty, pretty_positive, pretty, pretty_N. rewrite decide_False by done.
    apply List.Forall_cons; [by right|]. apply Hp.
Qed.

Lemma digits_stop ds r : Forall is_digit ds -> stop r -> digits (ds ++ r) = (ds, r).
Proof.
  intros Hd Hr. induction Hd as [|c ds [v Hv] _ IH].
  - destruct r as [|c r]; [done|]. by destruct Hr as [-> | [-> | [-> | ->]]].
  - cbn. by rewrite Hv, IH.
Qed.


(** The first character of a number that does not start with a zero. *)
Ltac digit_cases c Hv Hc :=
  destruct c as [[] [] [] [] [] [] [] []]; try discriminate Hv; try (by destruct Hc).

Lemma number_digits c ds r :
  Forall is_digit (c :: ds) -> c <> "0"%char -> stop r ->
  number (c :: ds ++ r) = Some (String.string_of_list_ascii (c :: ds), r) /\
  number ("-"%char :: c :: ds ++ r) = Some (String.string_of_list_ascii ("-"%char :: c :: ds), r).
Proof.
  intros Hd Hc Hr. pose proof (digits_stop _ _ Hd Hr) as Hdig.
  assert (is_digit c) as [v Hv] by (by inversion Hd). clear Hd.
  digit_cases c Hv Hc; unfold number; cbn [app] in *; rewrite Hdig;
    (destruct r as [|x r]; [|destruct Hr as [-> | [-> | [-> | ->]]]]); cbn;
    rewrite ?(decide_False (P := _ \/ _)) by (intros [|]; discriminate); cbn; by rewrite ?app_nil_r.
Qed.

Lemma number_zero r : stop r -> number ("0"%char :: r) = Some ("0", r).
Proof. intros Hr. destruct r as [|x r]; [done|]. by destruct Hr as [-> | [-> | [-> | ->]]]. Qed.

(** An integer literal starts like a number and is read as itself. *)
Lemma number_int z r : stop r ->
  exists c s, String.list_ascii_of_string (itoa z) = c :: s /\ (is_digit c \/ c = "-"%char) /\
    number (c :: s ++ r) = Some (itoa z, r).
Proof.
  intros Hr. unfold itoa, pretty, pretty_Z. destruct z as [|p|p].
  - exists "0"%char, []. split_and!; [done|left; by eexists|by apply number_zero].
  - destruct (pretty_digits (N.pos p) "" eq_refl) as (c & ds & E & Hd & Hc).
    cbn [String.list_ascii_of_string] in E. rewrite app_nil_r in E. exists c, ds.
    unfold pretty, pretty_positive, pretty, pretty_N. rewrite decide_False by done.
    split_and!; [done|left; by inversion Hd|].
    destruct (number_digits c ds r Hd Hc Hr) as [-> _]. by rewrite <- E, string_list.
  - destruct (pretty_digits (N.pos p) "" eq_refl) as (c & ds & E & Hd & Hc).
    cbn [String.list_ascii_of_string] in E. rewrite app_nil_r in E. exists "-"%char, (c :: ds).
    unfold pretty, pretty_positive, pretty, pretty_N. rewrite decide_False by done.
    split_and!; [|by right|].
    + change ("-"%char :: String.list_ascii_of_string (pretty_N_go (N.pos p) EmptyString) = "-"%char :: c :: ds).
      by rewrite E.
    + cbn [app]. destruct (number_digits c ds r Hd Hc Hr) as [_ ->].
      change (Some (String "-"%char (String.string_of_list_ascii (c :: ds)), r)
        = Some (String "-"%char (pretty_N_go (N.pos p) EmptyString), r)).
      by rewrite <- E, string_list.
Qed.

(** ** Reading a value back *)

(** Numbers are integers. *)
Fixpoint printable (j : json) : Prop :=
  match j with
  | JNum lit => exists z, lit = itoa z
  | JArr l => Forall id (List.map printable l)
  | JObj ms => Forall id (List.map (fun kv => printable (snd kv)) ms)
  | _ => True
  end.

(** [JNum] and [JStr] of [p_value]. *)
Lemma p_value_number c s k : is_digit c \/ c = "-"%char ->
  p_value (S k) (c :: s) = ('(n, r) ← number (c :: s); Some (JNum n, r)).
Proof.
  intros [[v Hv] | ->]; [|reflexivity].
  destruct c as [[] [] [] [] [] [] [] []]; try discriminate Hv; reflexivity.
Qed.

Lemma p_value_string s k r : p_value (S k) (json_quote s ++ r) = Some (JStr s, r).
Proof.
  unfold json_quote. cbn [app]. rewrite <- app_assoc. cbn [app].
  change (p_value (S k) (quote :: ?s')) with
    (match string_body (S (length s')) [] s' with Some (str, r) => Some (JStr str, r) | None => None end).
  rewrite read_quoted; [done|]. unfold json_quote. cbn [length]. rewrite !length_app. simpl. lia.
Qed.

(** A printed value starts with a character that is neither white space nor
    closes a list or an object. *)
Definition opening (c : ascii) : Prop := is_ws c = false /\ c <> "]"%char /\ c <> "}"%char.

Lemma digit_opening c : is_digit c -> opening c.
Proof. intros [v Hv]. destruct c as [[] [] [] [] [] [] [] []]; try discriminate Hv; done. Qed.

Lemma print_opening j : printable j -> exists c s, print j = c :: s /\ opening c.
Proof.
  destruct j as [|b|lit|s|l|ms]; cbn; intros Hj; try (eexists _, _; by split).
  - destruct b; eexists _, _; by split.
  - destruct Hj as [z ->]. destruct (number_int z [] I) as (c & s & E & [Hd|Hm] & _).
    + exists c, s. split; [done|by apply digit_opening].
    + exists c, s. split; [done|by subst].
Qed.

Lemma skip_ws_opening c s : is_ws c = false -> skip_ws (c :: s) = c :: s.
Proof. intros H. simpl. by rewrite H. Qed.

Lemma print_nonempty j : printable j -> (1 <= length (print j))%nat.
Proof. intros H. destruct (print_opening j H) as (c & s & -> & _). simpl. lia. Qed.

Definition member (kv : string * json) : chars := json_quote (fst kv) ++ ":"%char :: print (snd kv).

Section composite.
(** Reading back values of at most [n] characters is known. *)
Context (n : nat).
Hypothesis IH : forall j k r, (length (print j) <= n)%nat -> printable j -> stop r ->
  (2 * length (print j) <= k)%nat -> p_value k (print j ++ r) = Some (j, r).

Lemma read_elems l acc k r :
  l <> [] -> Forall printable l -> (length (comma_separated (List.map print l)) <= n)%nat ->
  (2 * length (comma_separated (List.map print l)) + 1 <= k)%nat ->
  p_elems k acc (comma_separated (List.map print l) ++ "]"%char :: r) = Some (JArr (rev acc ++ l), r).
Proof.
  revert acc k. induction l as [|j l IHl]; [done|]. intros acc k _ Hp Hn Hk.
  inversion Hp as [|? ? Hj Hl]; subst. destruct k as [|k]; [lia|].
  destruct l as [|j2 l].
  - cbn [List.map comma_separated] in *. cbn [p_elems]. rewrite IH; [|lia|done|by right; left|lia].
    done.
  - change (comma_separated (List.map print (j :: j2 :: l)))
      with (print j ++ ","%char :: comma_separated (List.map print (j2 :: l))) in *.
    rewrite length_app in Hn, Hk. cbn [length] in Hn, Hk.
    rewrite <- app_assoc. cbn [p_elems app]. rewrite IH; [|lia|done|by left|lia].
    cbn [mbind option_bind]. rewrite (skip_ws_opening ","%char) by done.
    rewrite IHl; [|done|done|lia|lia]. cbn [rev]. by rewrite <- app_assoc.
Qed.

Lemma read_members ms acc k r :
  ms <> [] -> Forall (fun kv => printable (snd kv)) ms ->
  (length (comma_separated (List.map member ms)) <= n)%nat ->
  (2 * length (comma_separated (List.map member ms)) + 1 <= k)%nat ->
  p_members k acc (comma_separated (List.map member ms) ++ "}"%char :: r) = Some (JObj (rev acc ++ ms), r).
Proof.
  revert acc k. induction ms as [|[key v] ms IHm]; [done|]. intros acc k _ Hp Hn Hk.
  inversion Hp as [|? ? Hv Hms]; subst. cbn in Hv. destruct k as [|k]; [lia|].
  assert (forall s', (length (print v) <= n)%nat -> (2 * length (print v) <= k)%nat -> stop s' ->
    p_members (S k) acc (member (key, v) ++ s') =
      match skip_ws s' with
      | ","%char :: s5 => p_members k ((key, v) :: acc) s5
      | "}"%char :: s5 => Some (JObj (rev ((key, v) :: acc)), s5)
      | _ => None
      end) as Hstep.
  { intros s' H1 H2 H3. unfold member, json_quote. cbn [fst snd app]. rewrite <- !app_assoc. cbn [app p_members].
    rewrite skip_ws_opening by done. rewrite decide_True by done.
    rewrite read_quoted; [|unfold json_quote; cbn [length]; rewrite !length_app; simpl; lia].
    cbn [mbind option_bind]. rewrite skip_ws_opening by done. cbn [literal]. rewrite decide_True by done.
    cbn [mbind option_bind]. by rewrite IH. }
  assert (length (member (key, v)) = length (json_quote key) + S (length (print v)))%nat as Hl
    by (unfold member; rewrite length_app; done).
  destruct ms as [|kv2 ms].
  - cbn [List.map comma_separated] in *. rewrite Hstep; [done|lia|lia|by right; right; left].
  - change (comma_separated (List.map member ((key, v) :: kv2 :: ms)))
      with (member (key, v) ++ ","%char :: comma_separated (List.map member (kv2 :: ms))) in *.
    rewrite length_app in Hn, Hk. cbn [length] in Hn, Hk.
    rewrite <- app_assoc. cbn [app]. rewrite Hstep; [|lia|lia|by left].
    rewrite (skip_ws_opening ","%char) by done.
    rewrite IHm; [|done|done|lia|lia]. cbn [rev]. by rewrite <- app_assoc.
Qed.
End composite.

Lemma printable_arr l : printable (JArr l) -> Forall printable l.
Proof. cbn. rewrite Forall_map. done. Qed.

Lemma printable_obj ms : printable (JObj ms) -> Forall (fun kv => printable (snd kv)) ms.
Proof. cbn. rewrite Forall_map. done. Qed.

(** What follows an opening bracket, when the list is not empty. *)
Lemma commas_opening {A} (f : A -> chars) x l :
  (exists c s, f x = c :: s /\ opening c) ->
  exists c s, comma_separated (List.map f (x :: l)) = c :: s /\ opening c.
Proof.
  intros (c & s & E & Hc). destruct l as [|y l]; [by exists c, s|].
  change (comma_separated (List.map f (x :: y :: l)))
    with (f x ++ ","%char :: comma_separated (List.map f (y :: l))).
  rewrite E. by eexists _, _.
Qed.

Lemma p_value_arr k c s : opening c -> p_value (S k) ("["%char :: c :: s) = p_elems k [] (c :: s).
Proof.
  intros (Hw & H1 & H2). cbn [p_value]. rewrite (skip_ws_opening "["%char) by done.
  rewrite decide_False by done. rewrite skip_ws_opening by done.
  destruct c as [[] [] [] [] [] [] [] []]; try reflexivity; by destruct H1.
Qed.

Lemma p_value_obj k c s : opening c -> p_value (S k) ("{"%char :: c :: s) = p_members k [] (c :: s).
Proof.
  intros (Hw & H1 & H2). cbn [p_value]. rewrite (skip_ws_opening "{"%char) by done.
  rewrite decide_False by done. rewrite skip_ws_opening by done.
  destruct c as [[] [] [] [] [] [] [] []]; try reflexivity; by destruct H2.
Qed.

Lemma read_print n j k r :
  (length (print j) <= n)%nat -> printable j -> stop r -> (2 * length (print j) <= k)%nat ->
  p_value k (print j ++ r) = Some (j, r).
Proof.
  revert j k r. induction n as [|n IH]; intros j k r Hn Hj Hr Hk; pose proof (print_nonempty j Hj); [lia|].
  destruct k as [|k]; [lia|]. destruct j as [|b|lit|s|l|ms].
  - reflexivity.
  - by destruct b.
  - destruct Hj as [z ->]. destruct (number_int z r Hr) as (c & s & E & Hc & Hnum).
    cbn [print]. rewrite E. cbn [app]. rewrite p_value_number by done. by rewrite Hnum.
  - apply p_value_string.
  - apply printable_arr in Hj. cbn [print length] in Hn, Hk. rewrite length_app in Hn, Hk. cbn [length] in Hn, Hk.
    destruct l as [|x l]; [reflexivity|].
    destruct (commas_opening print x l) as (c & s & E & Hc); [apply print_opening; by inversion Hj|].
    cbn [print]. cbn [app]. rewrite <- app_assoc. cbn [app].
    pose proof (read_elems n IH (x :: l) [] k r) as Hread. rewrite E in *. cbn [app] in *.
    rewrite p_value_arr by done. apply Hread; [done|done|lia|lia].
  - apply printable_obj in Hj. cbn [print] in *. fold member in *.
    change (List.map (fun kv => json_quote (fst kv) ++ ":"%char :: print (snd kv)) ms) with (List.map member ms) in *.
    cbn [length] in Hn, Hk. rewrite length_app in Hn, Hk. cbn [length] in Hn, Hk.
    destruct ms as [|x ms]; [reflexivity|].
    destruct (commas_opening member x ms) as (c & s & E & Hc); [by eexists _, _|].
    cbn [app]. rewrite <- app_assoc. cbn [app].
    pose proof (read_members n IH (x :: ms) [] k r) as Hread. rewrite E in *. cbn [app] in *.
    rewrite p_value_obj by done. apply Hread; [done|done|lia|lia].
Qed.

Lemma parse_Marshal j : printable j -> parse_json (Marshal j) = Some j.
Proof.
  intros Hj. unfold parse_json, Marshal. rewrite !list_string. rewrite <- (app_nil_r (print j)) at 2.
  rewrite (read_print (length (print j))); [done|done|done|done|rewrite ?app_nil_r; lia].
Qed.

Lemma parse_Encode j : printable j -> parse_json (Encode j) = Some j.
Proof.
  intros Hj. unfold parse_json, Encode. rewrite !list_string.
  rewrite (read_print (length (print j))); [done|done|done|by right; right; right|rewrite length_app; lia].
Qed.

(** What [json.Marshal] and an encoder print is read back by the decoder as
    the value that was printed: no string, whatever its characters, changes on
    the way. *)
Theorem print_parse_roundtrip j :
  printable j -> parse_json (Marshal j) = Some j /\ parse_json (Encode j) = Some j.
Proof. split; [by apply parse_Marshal|by apply parse_Encode]. Qed.

Lemma print_parse_roundtrip_witness :
  parse_json (Marshal (JObj [("n", json_int (-12)); ("s", JStr "a<b")]))
    = Some (JObj [("n", json_int (-12)); ("s", JStr "a<b")]).
Proof.
  apply (print_parse_roundtrip (JObj [("n", json_int (-12)); ("s", JStr "a<b")])).
  repeat constructor. by exists (-12)%Z.
Defined.
