(* ===== verification/AuditLog.v ===== *)
(** * Audit log entries (pkg/objecttiming/types.go)

    The structs a line of the API server's audit log is unmarshalled into, the
    decoders [encoding/json] derives from their field names, and the
    dictionaries of dynamically typed values in which the timing records are
    kept. *)
From S2P Require Import Prelude GoStrings GoTime GoJson.

(** ** Input structures *)
Record objref := Objref {
  or_Resource : string; or_Namespace : string; or_Name : string; or_Subresource : string }.

Record involvedobject := InvolvedObject {
  io_Kind : string; io_Namespace : string; io_Name : string }.

Record reqobject := ReqObject {
  rq_Status : option json; rq_InvolvedObject : involvedobject;
  rq_Reason : string; rq_Message : string }.

Record spec := Spec { sp_Replicas : Z; sp_Parallelism : Z; sp_VolumeName : string }.

Record metadata := Metadata { md_Name : string; md_Labels : option (gmap string string) }.

Record respobject := RespObject {
  rs_Metadata : metadata; rs_Spec : spec; rs_Status : option json }.

Record auditlog := AuditLog {
  Stage : string; Verb : string;
  StageTimestamp : string; RequestReceivedTimestamp : string;
  ObjectRef : objref; ResponseStatus_Code : Z;
  RequestObject : reqobject; ResponseObject : respobject }.

Definition zero_objref := Objref "" "" "" "".
Definition zero_involved := InvolvedObject "" "" "".
Definition zero_reqobject := ReqObject None zero_involved "" "".
Definition zero_spec := Spec 0 0 "".
Definition zero_metadata := Metadata "" None.
Definition zero_respobject := RespObject zero_metadata zero_spec None.
Definition zero_auditlog :=
  AuditLog "" "" "" "" zero_objref 0 zero_reqobject zero_respobject.

(** ** Decoding *)
Definition dec_objref : decoder objref := dec_struct (fun key v c =>
  if key_is "Resource" key then
    s ← dec_string v (or_Resource c); Some (Objref s (or_Namespace c) (or_Name c) (or_Subresource c))
  else if key_is "Namespace" key then
    s ← dec_string v (or_Namespace c); Some (Objref (or_Resource c) s (or_Name c) (or_Subresource c))
  else if key_is "Name" key then
    s ← dec_string v (or_Name c); Some (Objref (or_Resource c) (or_Namespace c) s (or_Subresource c))
  else if key_is "Subresource" key then
    s ← dec_string v (or_Subresource c); Some (Objref (or_Resource c) (or_Namespace c) (or_Name c) s)
  else Some c).

Definition dec_involved : decoder involvedobject := dec_struct (fun key v c =>
  if key_is "Kind" key then
    s ← dec_string v (io_Kind c); Some (InvolvedObject s (io_Namespace c) (io_Name c))
  else if key_is "Namespace" key then
    s ← dec_string v (io_Namespace c); Some (InvolvedObject (io_Kind c) s (io_Name c))
  else if key_is "Name" key then
    s ← dec_string v (io_Name c); Some (InvolvedObject (io_Kind c) (io_Namespace c) s)
  else Some c).

Definition dec_reqobject : decoder reqobject := dec_struct (fun key v c =>
  if key_is "Status" key then
    r ← dec_raw v (rq_Status c);
    Some (ReqObject r (rq_InvolvedObject c) (rq_Reason c) (rq_Message c))
  else if key_is "InvolvedObject" key then
    o ← dec_involved v (rq_InvolvedObject c);
    Some (ReqObject (rq_Status c) o (rq_Reason c) (rq_Message c))
  else if key_is "Reason" key then
    s ← dec_string v (rq_Reason c);
    Some (ReqObject (rq_Status c) (rq_InvolvedObject c) s (rq_Message c))
  else if key_is "Message" key then
    s ← dec_string v (rq_Message c);
    Some (ReqObject (rq_Status c) (rq_InvolvedObject c) (rq_Reason c) s)
  else Some c).

Definition dec_spec : decoder spec := dec_struct (fun key v c =>
  if key_is "Replicas" key then
    n ← dec_uint 8 v (sp_Replicas c); Some (Spec n (sp_Parallelism c) (sp_VolumeName c))
  else if key_is "Parallelism" key then
    n ← dec_uint 8 v (sp_Parallelism c); Some (Spec (sp_Replicas c) n (sp_VolumeName c))
  else if key_is "VolumeName" key then
    s ← dec_string v (sp_VolumeName c); Some (Spec (sp_Replicas c) (sp_Parallelism c) s)
  else Some c).

Definition dec_metadata : decoder metadata := dec_struct (fun key v c =>
  if key_is "Name" key then s ← dec_string v (md_Name c); Some (Metadata s (md_Labels c))
  else if key_is "Labels" key then
    l ← dec_string_map v (md_Labels c); Some (Metadata (md_Name c) l)
  else Some c).

Definition dec_respobject : decoder respobject := dec_struct (fun key v c =>
  if key_is "Metadata" key then
    m ← dec_metadata v (rs_Metadata c); Some (RespObject m (rs_Spec c) (rs_Status c))
  else if key_is "Spec" key then
    s ← dec_spec v (rs_Spec c); Some (RespObject (rs_Metadata c) s (rs_Status c))
  else if key_is "Status" key then
    r ← dec_raw v (rs_Status c); Some (RespObject (rs_Metadata c) (rs_Spec c) r)
  else Some c).

Definition dec_code : decoder Z := dec_struct (fun key v c =>
  if key_is "Code" key then dec_int 16 v c else Some c).

Definition dec_auditlog : decoder auditlog := dec_struct (fun key v c =>
  let 'AuditLog st vb sts rts oref code rq rs := c in
  if key_is "Stage" key then s ← dec_string v st; Some (AuditLog s vb sts rts oref code rq rs)
  else if key_is "Verb" key then s ← dec_string v vb; Some (AuditLog st s sts rts oref code rq rs)
  else if key_is "StageTimestamp" key then
    s ← dec_string v sts; Some (AuditLog st vb s rts oref code rq rs)
  else if key_is "RequestReceivedTimestamp" key then
    s ← dec_string v rts; Some (AuditLog st vb sts s oref code rq rs)
  else if key_is "ObjectRef" key then
    o ← dec_objref v oref; Some (AuditLog st vb sts rts o code rq rs)
  else if key_is "ResponseStatus" key then
    n ← dec_code v code; Some (AuditLog st vb sts rts oref n rq rs)
  else if key_is "RequestObject" key then
    o ← dec_reqobject v rq; Some (AuditLog st vb sts rts oref code o rs)
  else if key_is "ResponseObject" key then
    o ← dec_respobject v rs; Some (AuditLog st vb sts rts oref code rq o)
  else Some c).

(** [json.Unmarshal([]byte(line), &log)]. *)
Definition unmarshal_log (line : string) : option auditlog :=
  j ← parse_json line; dec_auditlog j zero_auditlog.

(** ** Records: [jsondict = map[string]interface{}] *)
Inductive value :=
  | VStr (s : string)
  | VTime (t : time)
  | VInt64 (n : Z)
  | VUint8 (n : Z)
  | VBool (b : bool)
  | VLabels (m : gmap string string).

#[export] Instance value_eq_dec : EqDecision value.
Proof. solve_decision. Defined.

Abbreviation jsondict := (gmap string value).

(** Type assertions [x.(time.Time)], [x.(string)], [x.(uint8)] on a map entry. *)
Definition as_time (x : option value) : outcome time :=
  match x with
  | Some (VTime t) => Ret t
  | _ => Panic "interface conversion: not time.Time"
  end.

Definition as_string (x : option value) : outcome string :=
  match x with
  | Some (VStr s) => Ret s
  | _ => Panic "interface conversion: not string"
  end.

Definition as_uint8 (x : option value) : outcome Z :=
  match x with
  | Some (VUint8 n) => Ret n
  | _ => Panic "interface conversion: not uint8"
  end.

(** ** Bounds of the decoded integers *)
Definition spec_ok (s : spec) : Prop :=
  (0 <= sp_Replicas s < 2 ^ 8)%Z /\ (0 <= sp_Parallelism s < 2 ^ 8)%Z.

Lemma nat_lit_nonneg s acc n : (0 <= acc)%Z -> nat_lit acc s = Some n -> (0 <= n)%Z.
Proof.
  revert acc; induction s as [|c s IH]; simpl; intros acc H; [by intros [= <-]|].
  destruct (digit_val c) as [d|] eqn:Hd; [|discriminate]. apply IH.
  unfold digit_val in Hd. case_decide; [|discriminate]. injection Hd as <-. lia.
Qed.

Lemma dec_uint_bounds w j cur n :
  (0 <= cur < 2 ^ w)%Z -> dec_uint w j cur = Some n -> (0 <= n < 2 ^ w)%Z.
Proof.
  intros Hc H. split; [|by eapply dec_uint_range].
  destruct j; simpl in H; try discriminate; [injection H as <-; lia|].
  unfold uint_lit in H. destruct (String.list_ascii_of_string lit) as [|c s]; [discriminate|].
  destruct (nat_lit _ _) as [m|] eqn:E; [|discriminate].
  case_decide; [|discriminate]. injection H as <-. by eapply nat_lit_nonneg in E.
Qed.

(** A decoder that preserves a property member by member preserves it. *)
Lemma dec_struct_invariant {A} (P : A -> Prop) (field : string -> decoder A) j cur a :
  (forall k v c c', P c -> field k v c = Some c' -> P c') ->
  P cur -> dec_struct field j cur = Some a -> P a.
Proof.
  intros Hf Hc. destruct j as [| | | | |ms]; simpl; try discriminate; [by intros [= <-]|].
  set (go := foldl _). assert (forall o, from_option P True o ->
    forall a, go o ms = Some a -> P a) as Hgo.
  { unfold go. clear -Hf. induction ms as [|[k v] ms IH]; intros o Ho a; [by simpl; intros ->|].
    simpl. apply IH. destruct o as [c|]; [|done]. simpl.
    destruct (field k v c) eqn:E; [by eapply Hf|done]. }
  intros H. by eapply (Hgo (Some cur)).
Qed.

Lemma dec_spec_ok j s s' : spec_ok s -> dec_spec j s = Some s' -> spec_ok s'.
Proof.
  intros H. apply (dec_struct_invariant spec_ok); [|done].
  intros k v c c' [H1 H2] E.
  destruct (key_is "Replicas" k); [|destruct (key_is "Parallelism" k);
    [|destruct (key_is "VolumeName" k)]].
  - destruct (dec_uint _ _ _) eqn:D; [|discriminate]. injection E as <-.
    apply dec_uint_bounds in D; [|done]. by split.
  - destruct (dec_uint _ _ _) eqn:D; [|discriminate]. injection E as <-.
    apply dec_uint_bounds in D; [|done]. by split.
  - destruct (dec_string _ _) eqn:D; [|discriminate]. by injection E as <-.
  - by injection E as <-.
Qed.
