(* ===== verification/TimingRecords.v ===== *)
(** * Timing records and saved object information

    pkg/objecttiming: constants.go, timing.go, helpers.go and objinfo.go.  A
    timing record is a dictionary; it identifies an object by its name, its
    resource type and its namespace, and lives in a slice of ongoing actions
    until the log line that ends it. *)
From S2P Require Import Prelude GoStrings GoTime GoJson AuditLog.

(** ** constants.go *)
Definition ParseCreate : Z := 1.
Definition ParseScale : Z := 2.
Definition ParsePVCPod : Z := 4.
Definition ParseDelete : Z := 8.
Definition ParseResize : Z := 16.

Definition strCreate : string := "create".
Definition strScale : string := "scale".
Definition strDelete : string := "delete".
Definition strResize : string := "resize".

(** [flags&bit != 0]. *)
Definition has_flag (flags bit : Z) : bool := negb (Z.land flags bit =? 0)%Z.

(** ** timing.go *)
Definition parseStrTime (strTime : string) : outcome time :=
  match parse_rfc3339nano strTime with
  | Some t => Ret t
  | None => Panic "parsing time"
  end.

Definition getStartTime (log : auditlog) : outcome time :=
  parseStrTime (RequestReceivedTimestamp log).

Definition getEndTime (log : auditlog) : outcome time :=
  parseStrTime (StageTimestamp log).

Definition timeDiff (t1 t2 : time) : Z := microseconds (time_sub t2 t1).

(** ** helpers.go *)
Definition initializeRecord (op nm rs ns : string) (tm : time) : jsondict :=
  <["startTime" := VTime tm]> (<["namespace" := VStr ns]> (<["resource" := VStr rs]>
    (<["name" := VStr nm]> (<["action" := VStr op]> ∅)))).

Definition objectMatch (obj : jsondict) (name resource namespace : string) : bool :=
  bool_decide (obj !! "name" = Some (VStr name)) &&
  bool_decide (obj !! "resource" = Some (VStr resource)) &&
  bool_decide (obj !! "namespace" = Some (VStr namespace)).

Definition getName (log : auditlog) : string :=
  if decide (or_Name (ObjectRef log) = "")
  then md_Name (rs_Metadata (ResponseObject log))
  else or_Name (ObjectRef log).

Definition getResource (log : auditlog) : string := or_Resource (ObjectRef log).
Definition getNamespace (log : auditlog) : string := or_Namespace (ObjectRef log).

Definition getIdentification (log : auditlog) : string * string * string :=
  (getName log, getResource log, getNamespace log).

Definition getGenericStart (log : auditlog) (action : string) : outcome jsondict :=
  let '(name, resource, namespace) := getIdentification log in
  t ← getStartTime log;
  Ret (initializeRecord action name resource namespace t).

(** The backwards scan of [findLog] over [all[0..i)]: the last record of the
    action and object, provided it has no end time.  Go's [-1] is [None]. *)
Fixpoint findLog_from (i : nat) (action name resource namespace : string)
    (all : list jsondict) : option nat :=
  match i with
  | O => None
  | S k =>
      match all !! k with
      | Some rec =>
          if bool_decide (rec !! "action" = Some (VStr action)) &&
             objectMatch rec name resource namespace
          then if decide (rec !! "endTime" = None) then Some k else None
          else findLog_from k action name resource namespace all
      | None => findLog_from k action name resource namespace all
      end
  end.

Definition findLog (action name resource namespace : string) (all : list jsondict) : option nat :=
  findLog_from (length all) action name resource namespace all.

Definition getEndIndex (action : string) (log : auditlog) (all : list jsondict) : option nat :=
  let '(name, resource, namespace) := getIdentification log in
  findLog action name resource namespace all.

Definition convertName (resource : string) : string :=
  if decide (resource = "deployments") then "Deployment"
  else if decide (resource = "jobs") then "Job"
  else if decide (resource = "persistentvolumeclaims") then "PersistentVolumeClaim"
  else if decide (resource = "persistentvolumes") then "PersistentVolume"
  else if decide (resource = "pods") then "Pod"
  else if decide (resource = "replicasets") then "ReplicaSet"
  else if decide (resource = "statefulsets") then "StatefulSet"
  else resource.

Definition formatResourceName (rec : jsondict) : outcome jsondict :=
  r ← as_string (rec !! "resource");
  Ret (<["resource" := VStr (convertName r)]> rec).

Definition formatResourceNames (records : list jsondict) : outcome (list jsondict) :=
  mapO formatResourceName records.

(** ** objinfo.go *)
Abbreviation objinfo := jsondict.
Abbreviation objinfostore := (gmap string (gmap string (gmap string objinfo))).

Definition isGetCreateRequest (log : auditlog) : bool :=
  bool_decide (Verb log = "get") || bool_decide (Verb log = "create").

Definition addInfo (toAdd : objinfo) (ns res name : string) (store : objinfostore) : objinfostore :=
  let byRes := default ∅ (store !! ns) in
  let byName := default ∅ (byRes !! res) in
  <[ns := <[res := <[name := toAdd]> byName]> byRes]> store.

Definition getObjInfo (log : auditlog) (store : objinfostore) : option objinfo :=
  let '(name, resource, namespace) := getIdentification log in
  store !! namespace ≫= fun byRes => byRes !! resource ≫= fun byName => byName !! name.

(** ** The record part of parselogs.go *)
Definition setEndTime (log : auditlog) (record : jsondict) : outcome jsondict :=
  t ← getEndTime log;
  let record := <["endTime" := VTime t]> record in
  Ret (match md_Labels (rs_Metadata (ResponseObject log)) with
       | Some labels => <["labels" := VLabels labels]> record
       | None => record
       end).

(** ** Specifications *)

(** A record of the given action for the given object. *)
Definition rec_for (action name resource namespace : string) (rec : jsondict) : Prop :=
  rec !! "action" = Some (VStr action) /\ rec !! "name" = Some (VStr name) /\
  rec !! "resource" = Some (VStr resource) /\ rec !! "namespace" = Some (VStr namespace).

#[export] Instance rec_for_dec action name resource namespace rec :
  Decision (rec_for action name resource namespace rec).
Proof. unfold rec_for. apply _. Defined.

(** ** Lemmas *)
Lemma rec_for_test action name resource namespace rec :
  bool_decide (rec !! "action" = Some (VStr action)) && objectMatch rec name resource namespace
  = bool_decide (rec_for action name resource namespace rec).
Proof.
  unfold objectMatch, rec_for.
  repeat case_bool_decide; simpl; intuition congruence.
Qed.

Lemma findLog_from_spec i a n r ns all k :
  i ≤ length all ->
  findLog_from i a n r ns all = Some k <->
  k < i /\ (exists rec, all !! k = Some rec /\ rec_for a n r ns rec /\ rec !! "endTime" = None) /\
  (forall j rec, k < j < i -> all !! j = Some rec -> ~ rec_for a n r ns rec).
Proof.
  induction i as [|i IH]; intros Hi; simpl; [split; [done|lia]|].
  destruct (lookup_lt_is_Some_2 all i ltac:(lia)) as [rec Hrec]. rewrite Hrec, rec_for_test.
  destruct (decide (rec_for a n r ns rec)) as [Hm|Hm].
  - rewrite bool_decide_true by done. split.
    + case_decide; [|done]. intros [= <-]. split_and!; [lia|eauto|lia].
    + intros (Hk & (rec' & Hr' & Hm' & He) & Hlast).
      destruct (decide (k = i)) as [->|].
      * rewrite Hrec in Hr'. injection Hr' as ->. by rewrite decide_True.
      * exfalso. eapply (Hlast i rec); [lia|done|done].
  - rewrite bool_decide_false by done. rewrite IH by lia. split.
    + intros (Hk & Hex & Hlast). split_and!; [lia|done|].
      intros j rec' Hj Hr'. destruct (decide (j = i)) as [->|]; [congruence|].
      apply (Hlast j); [lia|done].
    + intros (Hk & Hex & Hlast). destruct (decide (k = i)) as [->|].
      * destruct Hex as (rec' & Hr' & Hm' & _). congruence.
      * split_and!; [lia|done|]. intros j rec' Hj. apply Hlast. lia.
Qed.

Lemma findLog_lookup a n r ns all k :
  findLog a n r ns all = Some k ->
  exists rec, all !! k = Some rec /\ rec_for a n r ns rec /\ rec !! "endTime" = None.
Proof. intros H. apply findLog_from_spec in H as (_ & H & _); [done|lia]. Qed.

Lemma getEndIndex_lookup a log all k :
  getEndIndex a log all = Some k ->
  exists rec, all !! k = Some rec /\
    rec_for a (getName log) (getResource log) (getNamespace log) rec /\ rec !! "endTime" = None.
Proof. apply findLog_lookup. Qed.

Lemma lookup_addInfo toAdd ns res name store ns' res' name' :
  addInfo toAdd ns res name store !! ns' ≫=
    (fun byRes => byRes !! res' ≫= fun byName => byName !! name')
  = if decide (ns = ns' /\ res = res' /\ name = name') then Some toAdd
    else store !! ns' ≫= fun byRes => byRes !! res' ≫= fun byName => byName !! name'.
Proof.
  unfold addInfo. destruct (decide (ns = ns')) as [<-|Hns].
  - rewrite lookup_insert_eq; simpl. destruct (decide (res = res')) as [<-|Hres].
    + rewrite lookup_insert_eq; simpl. destruct (decide (name = name')) as [<-|Hn].
      * by rewrite lookup_insert_eq, decide_True.
      * rewrite lookup_insert_ne by done. rewrite decide_False by naive_solver.
        destruct (store !! ns) as [byRes|]; simpl; [|by rewrite !lookup_empty].
        destruct (byRes !! res); simpl; by rewrite ?lookup_empty.
    + rewrite lookup_insert_ne by done. rewrite decide_False by naive_solver.
      destruct (store !! ns); simpl; by rewrite ?lookup_empty.
  - rewrite lookup_insert_ne by done. by rewrite decide_False by naive_solver.
Qed.

Lemma parseStrTime_ret s t : parse_rfc3339nano s = Some t -> parseStrTime s = Ret t.
Proof. unfold parseStrTime. by intros ->. Qed.

Lemma initializeRecord_for op nm rs ns tm : rec_for op nm rs ns (initializeRecord op nm rs ns tm).
Proof. unfold rec_for, initializeRecord. repeat split; by simplify_map_eq. Qed.

#[export] Hint Resolve initializeRecord_for : go.
