(* ===== verification/CreateTiming.v ===== *)
(** * Object creation (pkg/objecttiming/create.go)

    A creation starts with a successful create request for a supported
    resource and ends with the update of the object's status to one of the
    phases of [createEndCrit]. *)
From S2P Require Import Prelude GoStrings GoTime GoJson AuditLog TimingRecords.

Definition createStatus : Type := string.

Definition dec_createStatus : decoder createStatus := dec_struct (fun key v c =>
  if key_is "Phase" key then dec_string v c else Some c).

Definition createEndCrit : gmap string (list string) :=
  list_to_map [("pods", ["Running"; "Succeeded"]);
               ("persistentvolumes", ["Bound"]);
               ("persistentvolumeclaims", ["Bound"])].

Definition isMatch (str : string) (match_ : list string) : bool :=
  existsb (fun s => bool_decide (str = s)) match_.

Definition isCreateStart (log : auditlog) (all : list jsondict) : bool :=
  if negb (bool_decide (Verb log = "create")) || negb (ResponseStatus_Code log =? 201)%Z then false
  else match createEndCrit !! or_Resource (ObjectRef log) with
       | Some _ => true
       | None => false
       end.

Definition getCreateStart (log : auditlog) : outcome jsondict := getGenericStart log strCreate.

Definition getCreateEndIndex (log : auditlog) (all : list jsondict) : option nat :=
  getEndIndex strCreate log all.

Definition isCreateEnd (log : auditlog) (all : list jsondict) : outcome (option nat) :=
  if (negb (bool_decide (Verb log = "patch")) && negb (bool_decide (Verb log = "update")))
     || negb (ResponseStatus_Code log =? 200)%Z
  then Ret None
  else
    match createEndCrit !! or_Resource (ObjectRef log) with
    | None => Ret None
    | Some phases =>
        match rs_Status (ResponseObject log) with
        | None => Ret None
        | Some status =>
            match unmarshal_raw dec_createStatus (Some status) "" with
            | None => Panic "json: cannot unmarshal status"
            | Some phase =>
                if isMatch phase phases then Ret (getCreateEndIndex log all) else Ret None
            end
        end
    end.

(** ** Lemmas *)
Lemma isMatch_spec str l : isMatch str l = true <-> str ∈ l.
Proof.
  unfold isMatch. rewrite existsb_exists. split.
  - intros (x & Hx & Heq%bool_decide_eq_true). subst. by apply list_elem_of_In.
  - intros H. exists str. rewrite <- list_elem_of_In. split; [done|by apply bool_decide_eq_true].
Qed.

(** Only the three resource types with an end criterion are ever tracked. *)
Lemma createEndCrit_supported r phases :
  createEndCrit !! r = Some phases ->
  r = "pods" \/ r = "persistentvolumes" \/ r = "persistentvolumeclaims".
Proof.
  intros H. apply elem_of_list_to_map_2 in H.
  rewrite !elem_of_cons, elem_of_nil in H. naive_solver.
Qed.

Lemma isCreateStart_spec log all :
  isCreateStart log all = true <->
  Verb log = "create" /\ ResponseStatus_Code log = 201%Z /\
  is_Some (createEndCrit !! or_Resource (ObjectRef log)).
Proof.
  unfold isCreateStart. rewrite <- (Z.eqb_eq (ResponseStatus_Code log)).
  case_bool_decide; destruct (_ =? _)%Z; simpl;
    destruct (createEndCrit !! _) eqn:E; split; try done; try naive_solver;
    intros (?&?&[]); done.
Qed.

Lemma isCreateEnd_start_excl log all all' :
  isCreateStart log all = true -> isCreateEnd log all' = Ret None.
Proof.
  intros (Hv & _ & _)%isCreateStart_spec. unfold isCreateEnd. by rewrite Hv.
Qed.

Lemma isCreateEnd_Some log all i :
  isCreateEnd log all = Ret (Some i) ->
  (Verb log = "patch" \/ Verb log = "update") /\ ResponseStatus_Code log = 200%Z /\
  (exists phases status phase,
      createEndCrit !! or_Resource (ObjectRef log) = Some phases /\
      rs_Status (ResponseObject log) = Some status /\
      dec_createStatus status "" = Some phase /\ phase ∈ phases) /\
  getCreateEndIndex log all = Some i.
Proof.
  unfold isCreateEnd, unmarshal_raw.
  destruct (_ || _) eqn:G; [done|]. apply orb_false_iff in G as [G1 G2].
  apply negb_false_iff, Z.eqb_eq in G2.
  destruct (createEndCrit !! _) as [phases|] eqn:E; [|done].
  destruct (rs_Status _) as [status|] eqn:Es; [|done].
  destruct (dec_createStatus status "") as [phase|] eqn:Ep; [|done].
  destruct (isMatch phase phases) eqn:Em; [|done].
  intros [= H]. split_and!; [|done|by exists phases, status, phase; rewrite <- isMatch_spec|done].
  apply andb_false_iff in G1 as [G1|G1]; apply negb_false_iff, bool_decide_eq_true in G1; auto.
Qed.
