(* ===== verification/ScaleTiming.v ===== *)
(** * Object scaling (pkg/objecttiming/scale.go)

    A scaling starts with a successful request that changes the goal replica
    count an earlier request reported, and ends with the status update in which
    every field of [scaleEndCrit] equals the goal. *)
From S2P Require Import Prelude GoStrings GoTime GoJson AuditLog TimingRecords.

Record scaleStatus := ScaleStatus {
  AvailableReplicas : Z; CurrentReplicas : Z; FullyLabeledReplicas : Z;
  ReadyReplicas : Z; UpdatedReplicas : Z; Active : Z }.

Definition zero_scaleStatus := ScaleStatus 0 0 0 0 0 0.

Definition dec_scaleStatus : decoder scaleStatus := dec_struct (fun key v c =>
  let 'ScaleStatus a cu f r u ac := c in
  if key_is "AvailableReplicas" key then n ← dec_uint 8 v a; Some (ScaleStatus n cu f r u ac)
  else if key_is "CurrentReplicas" key then n ← dec_uint 8 v cu; Some (ScaleStatus a n f r u ac)
  else if key_is "FullyLabeledReplicas" key then n ← dec_uint 8 v f; Some (ScaleStatus a cu n r u ac)
  else if key_is "ReadyReplicas" key then n ← dec_uint 8 v r; Some (ScaleStatus a cu f n u ac)
  else if key_is "UpdatedReplicas" key then n ← dec_uint 8 v u; Some (ScaleStatus a cu f r n ac)
  else if key_is "Active" key then n ← dec_uint 8 v ac; Some (ScaleStatus a cu f r u n)
  else Some c).

Definition scaleEndCrit : gmap string scaleStatus :=
  list_to_map [("deployments", ScaleStatus 1 0 0 1 1 0);
               ("jobs", ScaleStatus 0 0 0 0 0 1);
               ("replicasets", ScaleStatus 1 0 1 1 0 0);
               ("statefulsets", ScaleStatus 0 1 0 1 0 0)].

Definition getGoalValue (resource : string) (s : spec) : Z :=
  if decide (resource = "jobs") then sp_Parallelism s else sp_Replicas s.

Definition specLabel (resource : string) : string :=
  if decide (resource = "jobs") then "parallelism" else "replicas".

Definition startLabel (resource : string) : string :=
  if decide (resource = "jobs") then "startParallelism" else "startReplicas".

Definition endLabel (resource : string) : string :=
  if decide (resource = "jobs") then "endParallelism" else "endReplicas".

Definition getScaleEndIndex (log : auditlog) (all : list jsondict) : option nat :=
  getEndIndex strScale log all.

Definition allGoalsFulfilled (stat crit : scaleStatus) (goal : Z) : bool :=
  let rf (s c : Z) := if (c =? 0)%Z then true else (s =? goal)%Z in
  rf (AvailableReplicas stat) (AvailableReplicas crit) &&
  rf (CurrentReplicas stat) (CurrentReplicas crit) &&
  rf (FullyLabeledReplicas stat) (FullyLabeledReplicas crit) &&
  rf (ReadyReplicas stat) (ReadyReplicas crit) &&
  rf (UpdatedReplicas stat) (UpdatedReplicas crit) &&
  rf (Active stat) (Active crit).

(** [saveObjInfo] of objinfo.go, which consults [scaleEndCrit]. *)
Definition saveObjInfo (log : auditlog) (store : objinfostore) : outcome objinfostore :=
  let '(name, resource, namespace) := getIdentification log in
  if (ResponseStatus_Code log =? 201)%Z || (ResponseStatus_Code log =? 200)%Z then
    match scaleEndCrit !! resource with
    | Some _ =>
        t ← parseStrTime (RequestReceivedTimestamp log);
        let sp := rs_Spec (ResponseObject log) in
        let toAdd : objinfo :=
          <["startTime" := VTime t]> (<["replicas" := VUint8 (sp_Replicas sp)]>
            (<["parallelism" := VUint8 (sp_Parallelism sp)]> ∅)) in
        Ret (addInfo toAdd namespace resource name store)
    | None => Ret store
    end
  else Ret store.

Definition isScaleStart (log : auditlog) (objstore : objinfostore) (all : list jsondict) : outcome bool :=
  if negb (bool_decide (Verb log = "update")) && negb (bool_decide (Verb log = "patch")) then Ret false
  else if negb (ResponseStatus_Code log =? 200)%Z then Ret false
  else
    let resource := or_Resource (ObjectRef log) in
    match scaleEndCrit !! resource with
    | None => Ret false
    | Some _ =>
        match getObjInfo log objstore with
        | None => Ret false
        | Some prevRequest =>
            oldReplicas ← as_uint8 (prevRequest !! specLabel resource);
            let newReplicas := getGoalValue resource (rs_Spec (ResponseObject log)) in
            if (oldReplicas =? 0)%Z || (newReplicas =? 0)%Z || (oldReplicas =? newReplicas)%Z
            then Ret false
            else
              match getScaleEndIndex log all ≫= fun i => all !! i with
              | Some record =>
                  if bool_decide (record !! startLabel resource = Some (VUint8 oldReplicas)) &&
                     bool_decide (record !! endLabel resource = Some (VUint8 newReplicas))
                  then Ret false else Ret true
              | None => Ret true
              end
        end
    end.

Definition isScaleEnd (log : auditlog) (all : list jsondict) : outcome (option nat) :=
  if negb (bool_decide (Verb log = "update")) ||
     negb (bool_decide (or_Subresource (ObjectRef log) = "status")) ||
     negb (ResponseStatus_Code log =? 200)%Z
  then Ret None
  else
    let resource := or_Resource (ObjectRef log) in
    match scaleEndCrit !! resource with
    | None => Ret None
    | Some criteria =>
        match rq_Status (RequestObject log) with
        | None => Ret None
        | Some reqStat =>
            match unmarshal_raw dec_scaleStatus (Some reqStat) zero_scaleStatus with
            | None => Panic "json: cannot unmarshal status"
            | Some _ =>
                match getScaleEndIndex log all with
                | None => Ret None
                | Some i =>
                    goalReplicas ← as_uint8 (all !! i ≫= fun rec => rec !! endLabel resource);
                    match rs_Status (ResponseObject log) with
                    | None => Ret None
                    | Some respStat =>
                        match unmarshal_raw dec_scaleStatus (Some respStat) zero_scaleStatus with
                        | None => Panic "json: cannot unmarshal status"
                        | Some responseStatus =>
                            if allGoalsFulfilled responseStatus criteria goalReplicas
                            then Ret (Some i) else Ret None
                        end
                    end
                end
            end
        end
    end.

Definition getScaleStart (log : auditlog) (objstore : objinfostore) : outcome jsondict :=
  record ← getGenericStart log strScale;
  let resource := or_Resource (ObjectRef log) in
  match getObjInfo log objstore ≫= fun prevReq => prevReq !! specLabel resource with
  | Some prevSpecVal =>
      Ret (<[endLabel resource := VUint8 (getGoalValue resource (rs_Spec (ResponseObject log)))]>
             (<[startLabel resource := prevSpecVal]> record))
  | None =>
      (* the stored value is a nil interface *)
      Ret (<[endLabel resource := VUint8 (getGoalValue resource (rs_Spec (ResponseObject log)))]>
             (delete (startLabel resource) record))
  end.

(** ** Lemmas *)

(** Saved information always carries the two counts. *)
Definition info_ok (info : objinfo) : Prop :=
  (exists n, info !! "replicas" = Some (VUint8 n)) /\
  (exists n, info !! "parallelism" = Some (VUint8 n)).

Definition store_ok (store : objinfostore) : Prop :=
  forall log info, getObjInfo log store = Some info -> info_ok info.

Lemma store_ok_empty : store_ok ∅.
Proof. intros log info. unfold getObjInfo. simpl. by rewrite lookup_empty. Qed.

Lemma saveObjInfo_ok log store store' :
  store_ok store -> saveObjInfo log store = Ret store' -> store_ok store'.
Proof.
  intros Hs. unfold saveObjInfo. simpl. destruct (_ || _); [|by intros [= <-]].
  destruct (scaleEndCrit !! _); [|by intros [= <-]].
  destruct (parseStrTime _) as [t| |]; simpl; try discriminate. intros [= <-] log' info.
  unfold getObjInfo. simpl. rewrite lookup_addInfo. case_decide; [|apply Hs].
  intros [= <-]. split; eexists; by simplify_map_eq.
Qed.

Lemma info_ok_specLabel info resource :
  info_ok info -> exists n, info !! specLabel resource = Some (VUint8 n).
Proof. intros [H1 H2]. unfold specLabel. by case_decide. Qed.

Lemma isScaleStart_returns log store all : store_ok store -> returns (isScaleStart log store all).
Proof.
  intros Hs. unfold isScaleStart.
  destruct (_ && _); [by eexists|]. destruct (negb _); [by eexists|].
  destruct (scaleEndCrit !! _); [|by eexists].
  destruct (getObjInfo log store) as [info|] eqn:E; [|by eexists].
  apply Hs in E. apply (info_ok_specLabel _ (or_Resource (ObjectRef log))) in E as [n ->]. simpl.
  destruct (_ || _ || _); [by eexists|]. destruct (getScaleEndIndex _ _ ≫= _); [|by eexists].
  destruct (_ && _); by eexists.
Qed.

(** A goal is reached when every counted field of the status equals it. *)
Lemma allGoalsFulfilled_deployments stat goal :
  allGoalsFulfilled stat (ScaleStatus 1 0 0 1 1 0) goal = true <->
  AvailableReplicas stat = goal /\ ReadyReplicas stat = goal /\ UpdatedReplicas stat = goal.
Proof. unfold allGoalsFulfilled; simpl. rewrite !andb_true_iff, !Z.eqb_eq. naive_solver. Qed.
