(* ===== verification/PvcPod.v ===== *)
(** * Extra timestamps of pods with volumes (pkg/objecttiming/pvcpod.go)

    The time a volume is attached to a pod, the time all its containers are
    being created, and the time its claim was bound, which is the end time of
    the claim's own creation record. *)
From S2P Require Import Prelude GoStrings GoTime GoJson AuditLog TimingRecords.

(** [pvcPodStatus]: the waiting reason of each container status. *)
Definition pvcPodStatus : Type := list string.

Definition dec_waiting : decoder string := dec_struct (fun key v c =>
  if key_is "Reason" key then dec_string v c else Some c).
Definition dec_state : decoder string := dec_struct (fun key v c =>
  if key_is "Waiting" key then dec_waiting v c else Some c).
Definition dec_containerStatus : decoder string := dec_struct (fun key v c =>
  if key_is "State" key then dec_state v c else Some c).
Definition dec_pvcPodStatus : decoder pvcPodStatus := dec_struct (fun key v c =>
  if key_is "ContainerStatuses" key then dec_slice "" dec_containerStatus v c else Some c).

Definition isAttachVolumeEvent (log : auditlog) : bool :=
  bool_decide (or_Resource (ObjectRef log) = "events") &&
  bool_decide (io_Kind (rq_InvolvedObject (RequestObject log)) = "Pod") &&
  bool_decide (rq_Reason (RequestObject log) = "SuccessfulAttachVolume").

(** The loop over the event's message: [start] is set behind the first quote,
    [end] at the second one; [i] is the byte index. *)
Fixpoint quote_bounds (i : nat) (start : option nat) (msg : string) : option nat * option nat :=
  match msg with
  | EmptyString => (start, None)
  | String c msg' =>
      if decide (nat_of_ascii c = 34) then
        match start with
        | None => quote_bounds (S i) (Some (S i)) msg'
        | Some _ => (start, Some i)
        end
      else quote_bounds (S i) start msg'
  end.

Definition quoted_name (msg : string) : string :=
  match quote_bounds 0 None msg with
  | (Some start, Some stop) => substr start stop msg
  | _ => ""
  end.

Definition setAttachTime (log : auditlog) (ongoing : list jsondict) : outcome (list jsondict) :=
  let io := rq_InvolvedObject (RequestObject log) in
  match findLog strCreate (io_Name io) "pods" (io_Namespace io) ongoing with
  | None => Ret ongoing
  | Some index =>
      t ← parseStrTime (StageTimestamp log);
      Ret (alter (fun rec => <["pvName" := VStr (quoted_name (rq_Message (RequestObject log)))]>
                               (<["attachTime" := VTime t]> rec)) index ongoing)
  end.

Definition isContainerCreatingStatus (log : auditlog) : outcome bool :=
  if negb (bool_decide (Verb log = "patch")) ||
     negb (bool_decide (or_Resource (ObjectRef log) = "pods")) ||
     negb (bool_decide (or_Subresource (ObjectRef log) = "status"))
  then Ret false
  else
    match unmarshal_raw dec_pvcPodStatus (rq_Status (RequestObject log)) [] with
    | None => Panic "json: cannot unmarshal status"
    | Some [] => Ret false
    | Some reasons => Ret (forallb (fun r => bool_decide (r = "ContainerCreating")) reasons)
    end.

Definition setContainerTime (log : auditlog) (ongoing : list jsondict) : outcome (list jsondict) :=
  match findLog strCreate (or_Name (ObjectRef log)) "pods" (or_Namespace (ObjectRef log)) ongoing with
  | None => Ret ongoing
  | Some index =>
      t ← parseStrTime (StageTimestamp log);
      Ret (alter (fun rec => <["containerTime" := VTime t]> rec) index ongoing)
  end.

(** The inner loop of [boundTimes] over claim records [j, j+1, ..] for the pod
    record at [p], whose volume name was read before the loop. *)
Definition bound_step (p : nat) (pvName : value) (results : list jsondict) (j : nat) : list jsondict :=
  match results !! j with
  | Some pvcrec =>
      if bool_decide (pvcrec !! "pvName" = Some pvName) &&
         bool_decide (pvcrec !! "resource" = Some (VStr "persistentvolumeclaims"))
      then
        let set_bound (rec : jsondict) : jsondict :=
          match pvcrec !! "endTime" with
          | Some t => <["boundTime" := t]> rec
          | None => delete "boundTime" rec
          end in
        alter (delete "pvName") j (alter (fun rec => delete "pvName" (set_bound rec)) p results)
      else results
  | None => results
  end.

Definition bound_pod (results : list jsondict) (p : nat) : list jsondict :=
  match results !! p with
  | Some podrec =>
      match podrec !! "pvName" with
      | Some pvName =>
          if bool_decide (podrec !! "resource" = Some (VStr "pods"))
          then foldl (bound_step p pvName) results (seq 0 (length results))
          else results
      | None => results
      end
  | None => results
  end.

Definition boundTimes (results : list jsondict) : list jsondict :=
  foldl bound_pod results (seq 0 (length results)).

(** ** Lemmas *)
Lemma setAttachTime_length log ongoing l :
  setAttachTime log ongoing = Ret l -> length l = length ongoing.
Proof.
  unfold setAttachTime. destruct (findLog _ _ _ _ _); [|by intros [= <-]].
  destruct (parseStrTime _); simpl; try discriminate. intros [= <-]. apply length_alter.
Qed.

Lemma setContainerTime_length log ongoing l :
  setContainerTime log ongoing = Ret l -> length l = length ongoing.
Proof.
  unfold setContainerTime. destruct (findLog _ _ _ _ _); [|by intros [= <-]].
  destruct (parseStrTime _); simpl; try discriminate. intros [= <-]. apply length_alter.
Qed.

(** Everything but [boundTime] and [pvName] is untouched by [boundTimes]. *)
Definition same_but_bound (l l' : list jsondict) : Prop :=
  length l' = length l /\
  forall i rec', l' !! i = Some rec' -> exists rec, l !! i = Some rec /\
    forall k, k <> "boundTime" -> k <> "pvName" -> rec' !! k = rec !! k.

Lemma same_but_bound_refl l : same_but_bound l l.
Proof. split; eauto. Qed.

Lemma same_but_bound_trans l1 l2 l3 :
  same_but_bound l1 l2 -> same_but_bound l2 l3 -> same_but_bound l1 l3.
Proof.
  intros [L1 H1] [L2 H2]. split; [congruence|]. intros i r3 (r2 & E2 & F2)%H2.
  apply H1 in E2 as (r1 & E1 & F1). exists r1. split; [done|].
  intros k Hk Hk'. rewrite F2 by done. by apply F1.
Qed.

Lemma same_but_bound_alter f i l :
  (forall rec k, k <> "boundTime" -> k <> "pvName" -> f rec !! k = (rec : jsondict) !! k) ->
  same_but_bound l (alter f i l).
Proof.
  intros Hf. split; [apply length_alter|]. intros j r'.
  destruct (decide (i = j)) as [<-|Hij].
  - rewrite list_lookup_alter_eq. destruct (l !! i) as [r|] eqn:E; [|done].
    simpl. intros [= <-]. eauto.
  - rewrite list_lookup_alter_ne by done. eauto.
Qed.

Lemma bound_step_same p v l j : same_but_bound l (bound_step p v l j).
Proof.
  unfold bound_step. destruct (l !! j) as [r|]; [|apply same_but_bound_refl].
  destruct (_ && _); [|apply same_but_bound_refl].
  match goal with |- same_but_bound _ (alter _ _ ?m) => apply (same_but_bound_trans _ m) end;
    apply same_but_bound_alter; intros rec k Hb Hp; cbv beta zeta.
  - rewrite lookup_delete_ne by done. destruct (r !! "endTime").
    + by rewrite lookup_insert_ne by done.
    + by rewrite lookup_delete_ne by done.
  - by rewrite lookup_delete_ne by done.
Qed.

Lemma foldl_same {A} (f : list jsondict -> A -> list jsondict) js l :
  (forall l j, same_but_bound l (f l j)) -> same_but_bound l (foldl f l js).
Proof.
  intros Hf. revert l. induction js as [|j js IH]; intros l; simpl; [apply same_but_bound_refl|].
  eapply same_but_bound_trans; [apply Hf|apply IH].
Qed.

Lemma boundTimes_same l : same_but_bound l (boundTimes l).
Proof.
  apply foldl_same. intros l' p. unfold bound_pod.
  destruct (l' !! p) as [r|]; [|apply same_but_bound_refl].
  destruct (r !! "pvName"); [|apply same_but_bound_refl].
  case_bool_decide; [|apply same_but_bound_refl].
  apply foldl_same. intros. apply bound_step_same.
Qed.
