(* ===== verification/ParseLogs.v ===== *)
(** * From audit log lines to timing records (pkg/objecttiming/parselogs.go)

    [ParseLogs] reads the lines in order, keeps the actions that have started
    and not ended in [ongoing] and the finished ones in [results], and turns
    the time stamps of the results into durations at the end. *)
From S2P Require Import Prelude GoStrings GoTime GoJson AuditLog TimingRecords CreateTiming.
From S2P Require Import ScaleTiming PvcPod.

(** The variables of the loop. *)
Record pstate := PState {
  ongoing : list jsondict; results : list jsondict; objstore : objinfostore }.

Definition init_pstate : pstate := PState [] [] ∅.

(** [ongoing = append(ongoing[:i], ongoing[i+1:]...); results = append(results, record)]. *)
Definition finish (i : nat) (record : jsondict) (st : pstate) : pstate :=
  PState (delete i (ongoing st)) (results st ++ [record]) (objstore st).

(** [record := ongoing[i]; setEndTime(log, record)]. *)
Definition end_record (log : auditlog) (i : nat) (st : pstate) : outcome jsondict :=
  match ongoing st !! i with
  | Some record => setEndTime log record
  | None => Panic "index out of range"
  end.

(** Create action parsing; [Some] when the line was consumed ([continue]). *)
Definition create_action (log : auditlog) (st : pstate) : outcome (option pstate) :=
  if isCreateStart log (ongoing st) then
    record ← getCreateStart log;
    Ret (Some (PState (ongoing st ++ [record]) (results st) (objstore st)))
  else
    e ← isCreateEnd log (ongoing st);
    match e with
    | Some i =>
        record ← end_record log i st;
        let record :=
          if decide (or_Resource (ObjectRef log) = "persistentvolumeclaims")
          then <["pvName" := VStr (sp_VolumeName (rs_Spec (ResponseObject log)))]> record
          else record in
        Ret (Some (finish i record st))
    | None => Ret None
    end.

(** Force the end of an unfinished scaling of the same object. *)
Definition force_end (log : auditlog) (st : pstate) : outcome pstate :=
  match getScaleEndIndex log (ongoing st) with
  | Some i =>
      record ← end_record log i st;
      Ret (finish i (<["unfinished" := VBool true]> record) st)
  | None => Ret st
  end.

(** Scale action parsing. *)
Definition scale_action (log : auditlog) (st : pstate) : outcome (option pstate) :=
  start ← isScaleStart log (objstore st) (ongoing st);
  if start : bool then
    st ← force_end log st;
    record ← getScaleStart log (objstore st);
    Ret (Some (PState (ongoing st ++ [record]) (results st) (objstore st)))
  else
    e ← isScaleEnd log (ongoing st);
    match e with
    | Some i =>
        record ← end_record log i st;
        Ret (Some (finish i record st))
    | None => Ret None
    end.

(** Pod/PVC additional timestamps. *)
Definition pvcpod_action (log : auditlog) (st : pstate) : outcome (option pstate) :=
  if isAttachVolumeEvent log then
    l ← setAttachTime log (ongoing st);
    Ret (Some (PState l (results st) (objstore st)))
  else
    c ← isContainerCreatingStatus log;
    if c : bool then
      l ← setContainerTime log (ongoing st);
      Ret (Some (PState l (results st) (objstore st)))
    else Ret None.

(** Save relevant object info, if applicable. *)
Definition save_action (log : auditlog) (st : pstate) : outcome pstate :=
  if isGetCreateRequest log then
    store ← saveObjInfo log (objstore st);
    Ret (PState (ongoing st) (results st) store)
  else Ret st.

(** Run [a] under its flag; [continue] skips the rest. *)
Definition flagged (flags bit : Z) (a : pstate -> outcome (option pstate))
    (rest : pstate -> outcome pstate) (st : pstate) : outcome pstate :=
  if has_flag flags bit then
    r ← a st;
    match r with Some st' => Ret st' | None => rest st end
  else rest st.

(** The loop body for an unmarshalled line. *)
Definition parse_log (flags : Z) (log : auditlog) (st : pstate) : outcome pstate :=
  if decide (Stage log = "ResponseComplete") then
    flagged flags ParseCreate (create_action log)
      (flagged flags ParseScale (scale_action log)
        (flagged flags ParsePVCPod (pvcpod_action log) (save_action log))) st
  else Ret st.

(** The loop; the flag is [err != nil]. *)
Fixpoint parse_lines (flags : Z) (logs : list string) (st : pstate) : outcome (pstate * bool) :=
  match logs with
  | [] => Ret (st, false)
  | line :: logs' =>
      match unmarshal_log line with
      | None => Ret (st, true)
      | Some log => st' ← parse_log flags log st; parse_lines flags logs' st'
      end
  end.

Definition cleanup_keys : list string :=
  ["startTime"; "endTime"; "attachTime"; "boundTime"; "containerTime"; "pvName"].

Definition delete_keys (keys : list string) (rec : jsondict) : jsondict :=
  foldl (fun r k => delete k r) rec keys.
#[global] Arguments delete_keys : simpl never.

Definition set_deltas (startTime boundTime attachTime containerTime endTime : time)
    (rec : jsondict) : jsondict :=
  <["delta14" := VInt64 (timeDiff startTime containerTime)]>
  (<["delta45" := VInt64 (timeDiff containerTime endTime)]>
  (<["delta34" := VInt64 (timeDiff attachTime containerTime)]>
  (<["delta23" := VInt64 (timeDiff boundTime attachTime)]>
  (<["delta12" := VInt64 (timeDiff startTime boundTime)]> rec)))).

(** One iteration of [calculateDeltas]. *)
Definition calculateDelta (flags : Z) (result : jsondict) : outcome jsondict :=
  startTime ← as_time (result !! "startTime");
  endTime ← as_time (result !! "endTime");
  result' ←
    (if has_flag flags ParsePVCPod then
       match result !! "attachTime" with
       | Some at_ =>
           attachTime ← as_time (Some at_);
           boundTime ← as_time (result !! "boundTime");
           containerTime ← as_time (result !! "containerTime");
           Ret (set_deltas startTime boundTime attachTime containerTime endTime result)
       | None => Ret result
       end
     else Ret result);
  Ret (delete_keys cleanup_keys (<["duration" := VInt64 (timeDiff startTime endTime)]> result')).

Definition calculateDeltas (flags : Z) (results : list jsondict) : outcome (list jsondict) :=
  mapO (calculateDelta flags) results.

(** [ParseLogs(logs, flags)]: the records, and whether an error is returned. *)
Definition ParseLogs (logs : list string) (flags : Z) : outcome (list jsondict * bool) :=
  if (flags =? 0)%Z then Ret ([], false)
  else
    '(st, err) ← parse_lines flags logs init_pstate;
    if err : bool then Ret (results st, true)
    else
      let rs := if has_flag flags ParsePVCPod then boundTimes (results st) else results st in
      rs ← calculateDeltas flags rs;
      rs ← formatResourceNames rs;
      Ret (rs, false).
