(* ===== verification/ParseLogsInv.v ===== *)
(** * The state invariant of the log parser

    Every ongoing record identifies an object, has a start time and no end
    time; every finished record has both; the saved object information holds
    the two counts the scaling code asserts.  Every line preserves this, so the
    type assertions of the parser cannot fail in a reachable state, except
    those on the optional pod times. *)
From S2P Require Import Prelude GoStrings GoTime GoJson AuditLog TimingRecords CreateTiming.
From S2P Require Import ScaleTiming PvcPod ParseLogs.

Definition base_ok (rec : jsondict) : Prop :=
  (exists a n r ns, rec_for a n r ns rec) /\ exists t, rec !! "startTime" = Some (VTime t).

(** An optional field that holds a time when it is set. *)
Definition time_field (k : string) (rec : jsondict) : Prop :=
  forall v, rec !! k = Some v -> exists t, v = VTime t.

Definition pod_times_ok (rec : jsondict) : Prop :=
  time_field "attachTime" rec /\ time_field "containerTime" rec.

Definition scale_goal_ok (rec : jsondict) : Prop :=
  forall r, rec !! "resource" = Some (VStr r) -> rec !! "action" = Some (VStr strScale) ->
    exists n, rec !! endLabel r = Some (VUint8 n).

Definition ongoing_ok (rec : jsondict) : Prop :=
  base_ok rec /\ rec !! "endTime" = None /\ scale_goal_ok rec /\ pod_times_ok rec.

Definition result_ok (rec : jsondict) : Prop :=
  base_ok rec /\ (exists t, rec !! "endTime" = Some (VTime t)) /\ pod_times_ok rec.

Definition inv (st : pstate) : Prop :=
  Forall ongoing_ok (ongoing st) /\ Forall result_ok (results st) /\ store_ok (objstore st).

(** States reachable by reading lines. *)
Inductive reachable (flags : Z) : pstate -> Prop :=
  | reach_init : reachable flags init_pstate
  | reach_step st log st' :
      reachable flags st -> parse_log flags log st = Ret st' -> reachable flags st'.

(** At most one ongoing scaling per object. *)
Definition scale_unique (l : list jsondict) : Prop :=
  forall i j ri rj n r ns, l !! i = Some ri -> l !! j = Some rj ->
    rec_for strScale n r ns ri -> rec_for strScale n r ns rj -> i = j.

(** ** Records that agree on the fields the invariant reads *)
Definition agree (rec rec' : jsondict) : Prop :=
  forall k, k <> "endTime" -> k <> "labels" -> k <> "pvName" -> k <> "unfinished" ->
    rec' !! k = rec !! k.

Lemma rec_for_agree a n r ns rec rec' : agree rec rec' -> rec_for a n r ns rec -> rec_for a n r ns rec'.
Proof. intros H (?&?&?&?). unfold rec_for. rewrite !H by done. done. Qed.

Lemma base_ok_agree rec rec' : agree rec rec' -> base_ok rec -> base_ok rec'.
Proof.
  intros H [(a & n & r & ns & Hr) [t Ht]]. split.
  - exists a, n, r, ns. by eapply rec_for_agree.
  - exists t. by rewrite H.
Qed.

Lemma pod_times_ok_agree rec rec' : agree rec rec' -> pod_times_ok rec -> pod_times_ok rec'.
Proof. intros H [H1 H2]. split; intros v; rewrite H by done; auto. Qed.

Lemma setEndTime_spec log rec rec' :
  setEndTime log rec = Ret rec' ->
  agree rec rec' /\ exists t, parse_rfc3339nano (StageTimestamp log) = Some t /\
    rec' !! "endTime" = Some (VTime t).
Proof.
  unfold setEndTime, getEndTime, parseStrTime.
  destruct (parse_rfc3339nano _) as [t|]; simpl; [|discriminate]. intros [= <-].
  split.
  - intros k H1 H2 _ _. destruct (md_Labels _); by simplify_map_eq.
  - exists t. split; [done|]. destruct (md_Labels _); by simplify_map_eq.
Qed.

Lemma agree_insert k v rec rec' :
  k = "pvName" \/ k = "unfinished" -> agree rec rec' -> agree rec (<[k := v]> rec').
Proof. intros Hk H k' H1 H2 H3 H4. rewrite lookup_insert_ne by naive_solver. by apply H. Qed.

Lemma agree_refl rec : agree rec rec.
Proof. done. Qed.

Lemma result_ok_end rec rec' t :
  ongoing_ok rec -> agree rec rec' -> rec' !! "endTime" = Some (VTime t) -> result_ok rec'.
Proof.
  intros (Hb & _ & _ & Hp) Ha Ht. split_and!; eauto using base_ok_agree, pod_times_ok_agree.
Qed.

(** ** Preservation, operation by operation *)
Lemma end_record_spec log i st rec :
  inv st -> end_record log i st = Ret rec ->
  exists rec0 t, ongoing st !! i = Some rec0 /\ agree rec0 rec /\
    parse_rfc3339nano (StageTimestamp log) = Some t /\ rec !! "endTime" = Some (VTime t) /\ ongoing_ok rec0.
Proof.
  intros (Ho & _ & _). unfold end_record. destruct (ongoing st !! i) as [rec0|] eqn:E; [|done].
  intros (Ha & t & Hp & Ht)%setEndTime_spec. exists rec0, t. split_and!; try done.
  by eapply Forall_lookup_1 in E.
Qed.

Lemma Forall_delete_list {A} (P : A -> Prop) i l : Forall P l -> Forall P (delete i l).
Proof. intros H. rewrite delete_take_drop. apply Forall_app; auto using Forall_take, Forall_drop. Qed.

Lemma finish_inv i rec st : inv st -> result_ok rec -> inv (finish i rec st).
Proof.
  intros (Ho & Hr & Hs) Hrec. split_and!; simpl; [by apply Forall_delete_list| |done].
  apply Forall_app. by split; [|constructor].
Qed.

Lemma push_inv rec st : inv st -> ongoing_ok rec ->
  inv (PState (ongoing st ++ [rec]) (results st) (objstore st)).
Proof.
  intros (Ho & Hr & Hs) Hrec. split_and!; simpl; [|done|done].
  apply Forall_app. by split; [|constructor].
Qed.

Lemma getGenericStart_spec log action rec :
  getGenericStart log action = Ret rec ->
  exists t, parse_rfc3339nano (RequestReceivedTimestamp log) = Some t /\
    rec = initializeRecord action (getName log) (getResource log) (getNamespace log) t.
Proof.
  unfold getGenericStart, getStartTime, parseStrTime. simpl.
  destruct (parse_rfc3339nano _) as [t|]; simpl; [|discriminate]. intros [= <-]. eauto.
Qed.

Lemma initializeRecord_lookup_other op nm rs ns t k :
  k ∉ ["action"; "name"; "resource"; "namespace"; "startTime"] ->
  initializeRecord op nm rs ns t !! k = None.
Proof.
  intros H. unfold initializeRecord.
  rewrite !lookup_insert_ne by (intros <-; apply H; set_solver). apply lookup_empty.
Qed.

Lemma initializeRecord_ok nm rs ns t :
  ongoing_ok (initializeRecord strCreate nm rs ns t).
Proof.
  split_and!.
  - split; [repeat eexists; apply initializeRecord_for|].
    exists t. unfold initializeRecord. by simplify_map_eq.
  - apply initializeRecord_lookup_other. set_solver.
  - intros r _. unfold initializeRecord. by simplify_map_eq.
  - split; intros v; rewrite initializeRecord_lookup_other by set_solver; done.
Qed.

Lemma create_action_inv log st r :
  inv st -> create_action log st = Ret r -> from_option inv True r.
Proof.
  intros Hi. unfold create_action. destruct (isCreateStart log (ongoing st)).
  - unfold getCreateStart. intros H. apply outcome_bind_ret in H as (rec & Hrec & [= <-]).
    apply getGenericStart_spec in Hrec as (t & _ & ->). simpl.
    apply push_inv; [done|apply initializeRecord_ok].
  - intros H. apply outcome_bind_ret in H as ([i|] & _ & H); [|by injection H as <-].
    apply outcome_bind_ret in H as (rec & Hrec & [= <-]). simpl.
    eapply end_record_spec in Hrec as (rec0 & t & _ & Ha & _ & Ht & Hok); [|done].
    apply finish_inv; [done|]. case_decide.
    + eapply result_ok_end; [exact Hok|by apply agree_insert; [left|]|by simplify_map_eq].
    + by eapply result_ok_end.
Qed.

Lemma getScaleStart_ok log store rec :
  getScaleStart log store = Ret rec -> ongoing_ok rec /\
  rec_for strScale (getName log) (getResource log) (getNamespace log) rec.
Proof.
  unfold getScaleStart. intros H. apply outcome_bind_ret in H as (rec0 & Hrec & H).
  apply getGenericStart_spec in Hrec as (t & _ & ->).
  set (r := or_Resource (ObjectRef log)) in *.
  set (rec0 := initializeRecord _ _ _ _ _) in *.
  assert (exists n rec1, rec = <[endLabel r := VUint8 n]> rec1 /\
    forall k, k <> startLabel r -> rec1 !! k = rec0 !! k) as (n & rec1 & -> & Hk).
  { destruct (_ ≫= _) as [v|]; injection H as <-; eexists _, _; split; try reflexivity;
      intros k Hne; by simplify_map_eq. }
  assert (forall k, k <> startLabel r -> k <> endLabel r ->
    (<[endLabel r := VUint8 n]> rec1 : jsondict) !! k = rec0 !! k) as Hsame.
  { intros k H1 H2. rewrite lookup_insert_ne by done. by apply Hk. }
  assert (forall k, k ∈ ["action"; "name"; "resource"; "namespace"; "startTime";
     "endTime"; "attachTime"; "containerTime"] ->
     (<[endLabel r := VUint8 n]> rec1 : jsondict) !! k = rec0 !! k) as Hkeys.
  { intros k Hin. apply Hsame; unfold startLabel, endLabel; case_decide;
      intros ->; revert Hin; rewrite !elem_of_cons, elem_of_nil; naive_solver. }
  assert (rec_for strScale (getName log) (getResource log) (getNamespace log)
     (<[endLabel r := VUint8 n]> rec1)) as Hfor.
  { unfold rec_for. rewrite !Hkeys by set_solver. apply initializeRecord_for. }
  split; [|done]. split_and!.
  - split; [eauto 10|]. exists t. rewrite Hkeys by set_solver.
    unfold rec0, initializeRecord. by simplify_map_eq.
  - rewrite Hkeys by set_solver. apply initializeRecord_lookup_other. set_solver.
  - intros r' Hr' _. rewrite Hkeys in Hr' by set_solver.
    assert (r' = r) as ->.
    { unfold rec0, initializeRecord in Hr'. simplify_map_eq. done. }
    exists n. apply lookup_insert_eq.
  - split; intros v; rewrite Hkeys by set_solver;
      unfold rec0; rewrite initializeRecord_lookup_other by set_solver; done.
Qed.

Lemma force_end_inv log st st' : inv st -> force_end log st = Ret st' -> inv st'.
Proof.
  intros Hi. unfold force_end. destruct (getScaleEndIndex _ _) as [i|]; [|by intros [= <-]].
  intros H. apply outcome_bind_ret in H as (rec & Hrec & [= <-]).
  eapply end_record_spec in Hrec as (rec0 & t & _ & Ha & _ & Ht & Hok); [|done].
  apply finish_inv; [done|].
  eapply result_ok_end; [exact Hok|by apply agree_insert; [right|]|by simplify_map_eq].
Qed.

Lemma scale_action_inv log st r :
  inv st -> scale_action log st = Ret r -> from_option inv True r.
Proof.
  intros Hi. unfold scale_action. intros H.
  apply outcome_bind_ret in H as ([] & _ & H).
  - apply outcome_bind_ret in H as (st1 & Hf & H).
    apply outcome_bind_ret in H as (rec & Hrec & [= <-]). simpl.
    apply getScaleStart_ok in Hrec as [Hok _].
    apply push_inv; [by eapply force_end_inv|done].
  - apply outcome_bind_ret in H as ([i|] & _ & H); [|by injection H as <-].
    apply outcome_bind_ret in H as (rec & Hrec & [= <-]). simpl.
    eapply end_record_spec in Hrec as (rec0 & t & _ & Ha & _ & Ht & Hok); [|done].
    apply finish_inv; [done|]. by eapply result_ok_end.
Qed.

(** Setting a pod time or the volume name keeps a record well formed. *)
Lemma ongoing_ok_insert k v rec :
  k = "pvName" \/ ((k = "attachTime" \/ k = "containerTime") /\ exists t, v = VTime t) ->
  ongoing_ok rec -> ongoing_ok (<[k := v]> rec).
Proof.
  intros Hk (Hb & He & Hs & Hp1 & Hp2).
  assert (forall k', k' ∉ ["pvName"; "attachTime"; "containerTime"] ->
    (<[k := v]> rec : jsondict) !! k' = rec !! k') as Hsame.
  { intros k' Hin. apply lookup_insert_ne. intros ->. apply Hin. set_solver. }
  split_and!.
  - destruct Hb as [(a & n & r & ns & Hr) [t Ht]]. split.
    + exists a, n, r, ns. unfold rec_for. rewrite !Hsame by set_solver. exact Hr.
    + exists t. by rewrite Hsame by set_solver.
  - by rewrite Hsame by set_solver.
  - intros r Hr Ha. rewrite Hsame in Hr, Ha by set_solver. rewrite Hsame; [by apply Hs|].
    unfold endLabel. case_decide; set_solver.
  - split; intros v'; (destruct Hk as [->|[[->| ->] [t ->]]]; simplify_map_eq; naive_solver).
Qed.

Lemma alter_inv f i st :
  inv st -> (forall rec, ongoing_ok rec -> ongoing_ok (f rec)) ->
  inv (PState (alter f i (ongoing st)) (results st) (objstore st)).
Proof.
  intros (Ho & Hr & Hs) Hf. split_and!; simpl; [|done|done].
  apply Forall_alter; [done|]. intros x _ Hx. by apply Hf.
Qed.

Lemma pvcpod_action_inv log st r :
  inv st -> pvcpod_action log st = Ret r -> from_option inv True r.
Proof.
  intros Hi. unfold pvcpod_action. destruct (isAttachVolumeEvent log).
  - intros H. apply outcome_bind_ret in H as (l & Hl & [= <-]). simpl. revert Hl.
    unfold setAttachTime. destruct (findLog _ _ _ _ _) as [i|].
    + intros H. apply outcome_bind_ret in H as (t & _ & [= <-]). apply alter_inv; [done|].
      intros rec Hrec. apply ongoing_ok_insert; [by left|].
      apply ongoing_ok_insert; [right; eauto|done].
    + intros [= <-]. by destruct st.
  - intros H. apply outcome_bind_ret in H as ([] & _ & H); [|by injection H as <-].
    apply outcome_bind_ret in H as (l & Hl & [= <-]). simpl. revert Hl.
    unfold setContainerTime. destruct (findLog _ _ _ _ _) as [i|].
    + intros H. apply outcome_bind_ret in H as (t & _ & [= <-]). apply alter_inv; [done|].
      intros rec Hrec. apply ongoing_ok_insert; [right; eauto|done].
    + intros [= <-]. by destruct st.
Qed.

Lemma save_action_inv log st st' : inv st -> save_action log st = Ret st' -> inv st'.
Proof.
  intros (Ho & Hr & Hs). unfold save_action. destruct (isGetCreateRequest log); [|by intros [= <-]].
  intros H. apply outcome_bind_ret in H as (store & Hst & [= <-]).
  split_and!; simpl; [done..|]. by eapply saveObjInfo_ok.
Qed.

(** A property of states kept by every action the flags select is kept by every
    line. *)
Lemma parse_log_preserves_flagged (P : pstate -> Prop) flags log st st' :
  (forall r, has_flag flags ParseCreate = true -> P st -> create_action log st = Ret r ->
     from_option P True r) ->
  (forall r, has_flag flags ParseScale = true -> P st -> scale_action log st = Ret r ->
     from_option P True r) ->
  (forall r, has_flag flags ParsePVCPod = true -> P st -> pvcpod_action log st = Ret r ->
     from_option P True r) ->
  (forall s, P st -> save_action log st = Ret s -> P s) ->
  P st -> parse_log flags log st = Ret st' -> P st'.
Proof.
  intros Hc Hs Hp Hsv HP. unfold parse_log. case_decide; [|by intros [= <-]].
  assert (forall bit a rest,
    (forall r, has_flag flags bit = true -> P st -> a st = Ret r -> from_option P True r) ->
    (forall s, rest st = Ret s -> P s) ->
    forall s, flagged flags bit a rest st = Ret s -> P s) as Hfl.
  { intros bit a rest Ha Hrest s. unfold flagged. destruct (has_flag flags bit) eqn:Eb; [|apply Hrest].
    intros Hb. apply outcome_bind_ret in Hb as ([s'|] & Hb & Hb'); [|by apply Hrest].
    injection Hb' as <-. by apply (Ha (Some s')). }
  apply Hfl; [done|]. intros s. apply Hfl; [done|]. clear s. intros s. apply Hfl; [done|].
  intros s'. by apply Hsv.
Qed.

Lemma parse_log_preserves (P : pstate -> Prop) flags log st st' :
  (forall r, P st -> create_action log st = Ret r -> from_option P True r) ->
  (forall r, P st -> scale_action log st = Ret r -> from_option P True r) ->
  (forall r, P st -> pvcpod_action log st = Ret r -> from_option P True r) ->
  (forall s, P st -> save_action log st = Ret s -> P s) ->
  P st -> parse_log flags log st = Ret st' -> P st'.
Proof. intros Hc Hs Hp Hsv. apply parse_log_preserves_flagged; auto. Qed.

Lemma parse_log_inv flags log st st' : inv st -> parse_log flags log st = Ret st' -> inv st'.
Proof.
  intros Hi. apply parse_log_preserves; [..|done].
  - intros r. apply create_action_inv.
  - intros r. apply scale_action_inv.
  - intros r. apply pvcpod_action_inv.
  - intros s. apply save_action_inv.
Qed.

Lemma init_inv : inv init_pstate.
Proof. split_and!; [constructor..|apply store_ok_empty]. Qed.

Lemma reachable_inv flags st : reachable flags st -> inv st.
Proof. induction 1; [apply init_inv|by eapply parse_log_inv]. Qed.

Lemma parse_lines_reachable flags lines st st' err :
  reachable flags st -> parse_lines flags lines st = Ret (st', err) -> reachable flags st'.
Proof.
  revert st. induction lines as [|line lines IH]; intros st Hr; simpl; [by intros [= <- _]|].
  destruct (unmarshal_log line) as [log|]; [|by intros [= <- _]].
  intros H. apply outcome_bind_ret in H as (st1 & H1 & H2).
  eapply IH; [|exact H2]. by eapply reach_step.
Qed.

(** In a reachable state the end-time test of [findLog] never rejects. *)
Lemma reachable_findLog flags st a n r ns :
  reachable flags st ->
  findLog a n r ns (ongoing st) = None <-> Forall (fun rec => ~ rec_for a n r ns rec) (ongoing st).
Proof.
  intros (Ho & _ & _)%reachable_inv. unfold findLog.
  assert (forall i, i ≤ length (ongoing st) -> findLog_from i a n r ns (ongoing st) = None <->
     forall j rec, j < i -> ongoing st !! j = Some rec -> ~ rec_for a n r ns rec) as Hgen.
  { induction i as [|i IH]; intros Hi; simpl; [split; [lia|done]|].
    destruct (lookup_lt_is_Some_2 (ongoing st) i ltac:(lia)) as [rec Hrec].
    rewrite Hrec, rec_for_test.
    destruct (decide (rec_for a n r ns rec)) as [Hm|Hm].
    - rewrite bool_decide_true by done.
      assert (rec !! "endTime" = None) as -> by (eapply Forall_lookup_1 in Ho as (?&?&?); done).
      split; [done|]. intros H. exfalso. eapply (H i); eauto.
    - rewrite bool_decide_false by done. rewrite IH by lia. split; intros H j rec' Hj Hr'.
      + destruct (decide (j = i)) as [->|]; [congruence|]. apply (H j); [lia|done].
      + apply (H j); [lia|done]. }
  rewrite Hgen by lia. rewrite Forall_lookup. split; intros H j rec Hj.
  - apply (H j); [by eapply lookup_lt_Some|done].
  - intros Hr'. by apply (H j).
Qed.
