(* ===== verification/ParseLogsSpec.v ===== *)
(** * What the log parser guarantees

    Statements about [ParseLogs] and the loop it runs: totality on well-formed
    lines, the shape of the returned records, the accounting of started and
    finished actions, uniqueness of ongoing scalings, the functional behaviour
    of a creation, and the crash on pods with an attached volume whose claim
    was not seen. *)
From S2P Require Import Prelude GoStrings GoTime GoJson AuditLog TimingRecords CreateTiming.
From S2P Require Import ScaleTiming PvcPod ParseLogs ParseLogsInv.

(** A finished record as [ParseLogs] returns it. *)
Definition final_ok (rec : jsondict) : Prop :=
  (exists a n r ns, rec_for a n r ns rec) /\
  (exists d, rec !! "duration" = Some (VInt64 d) /\ in_int64 d) /\
  forall k, k ∈ cleanup_keys -> rec !! k = None.

(** Lines on which no conversion can fail: both time stamps parse, and the
    status objects have the types of the structs they are decoded into. *)
Definition wf_log (log : auditlog) : Prop :=
  is_Some (parse_rfc3339nano (RequestReceivedTimestamp log)) /\
  is_Some (parse_rfc3339nano (StageTimestamp log)) /\
  (forall s, rs_Status (ResponseObject log) = Some s ->
     (is_Some (createEndCrit !! or_Resource (ObjectRef log)) -> is_Some (dec_createStatus s "")) /\
     (is_Some (scaleEndCrit !! or_Resource (ObjectRef log)) ->
        is_Some (dec_scaleStatus s zero_scaleStatus))) /\
  (forall s, rq_Status (RequestObject log) = Some s ->
     is_Some (scaleEndCrit !! or_Resource (ObjectRef log)) ->
     is_Some (dec_scaleStatus s zero_scaleStatus)).

Definition wf_line (line : string) : Prop :=
  forall log, unmarshal_log line = Some log -> wf_log log.

(** ** Helper lemmas *)
Lemma lookup_delete_keys keys (rec : jsondict) k :
  delete_keys keys rec !! k = if bool_decide (k ∈ keys) then None else rec !! k.
Proof.
  unfold delete_keys. revert rec. induction keys as [|k' keys IH]; intros rec; [done|].
  cbn [foldl]. rewrite IH. destruct (decide (k = k')) as [->|Hk].
  - rewrite (bool_decide_true (k' ∈ k' :: keys)) by set_solver.
    case_bool_decide; [done|]. by rewrite lookup_delete_eq.
  - rewrite lookup_delete_ne by done.
    rewrite (bool_decide_ext (k ∈ k' :: keys) (k ∈ keys)) by set_solver. done.
Qed.

Lemma timeDiff_range t1 t2 : in_int64 (timeDiff t1 t2).
Proof.
  unfold timeDiff. pose proof (microseconds_bound _ (time_sub_range t2 t1)) as H.
  unfold in_int64, min_int64, max_int64. change (2 ^ 63 / 1000)%Z with 9223372036854775%Z in H. lia.
Qed.

(** Ordered instants that are less than 292 years apart. *)
Lemma timeDiff_exact t1 t2 :
  (t1 <= t2)%Z -> (t2 - t1 <= max_int64)%Z -> timeDiff t1 t2 = ((t2 - t1) / 1000)%Z.
Proof.
  intros H1 H2. unfold timeDiff. rewrite time_sub_exact.
  - apply microseconds_nonneg. lia.
  - unfold in_int64, min_int64 in *. lia.
Qed.

Lemma timeDiff_sum t1 t2 t3 t4 t5 :
  (t1 <= t2 <= t3)%Z -> (t3 <= t4 <= t5)%Z -> (t5 - t1 <= max_int64)%Z ->
  (0 <= timeDiff t1 t5 - (timeDiff t1 t2 + timeDiff t2 t3 + timeDiff t3 t4 + timeDiff t4 t5) <= 3)%Z.
Proof.
  intros [H1 H2] [H3 H4] H. rewrite !timeDiff_exact by lia. Z.to_euclidean_division_equations. lia.
Qed.

Lemma set_deltas_other t1 t2 t3 t4 t5 rec k :
  k ∉ ["delta12"; "delta23"; "delta34"; "delta45"; "delta14"] ->
  set_deltas t1 t2 t3 t4 t5 rec !! k = rec !! k.
Proof.
  intros H. unfold set_deltas. rewrite !lookup_insert_ne; [done|..]; intros <-; apply H; set_solver.
Qed.

(** Everything [calculateDelta] leaves alone. *)
Definition delta_keys : list string :=
  "duration" :: ["delta12"; "delta23"; "delta34"; "delta45"; "delta14"] ++ cleanup_keys.

Lemma calculateDelta_spec flags rec rec' :
  calculateDelta flags rec = Ret rec' ->
  exists t1 t5, rec !! "startTime" = Some (VTime t1) /\ rec !! "endTime" = Some (VTime t5) /\
    rec' !! "duration" = Some (VInt64 (timeDiff t1 t5)) /\
    (forall k, k ∈ cleanup_keys -> rec' !! k = None) /\
    (forall k, k ∉ delta_keys -> rec' !! k = rec !! k).
Proof.
  unfold calculateDelta. intros H.
  apply outcome_bind_ret in H as (t1 & H1 & H). apply outcome_bind_ret in H as (t5 & H5 & H).
  apply outcome_bind_ret in H as (r & Hr & [= <-]).
  exists t1, t5. split_and!.
  - destruct (rec !! "startTime") as [[]|]; simplify_eq/=; done.
  - destruct (rec !! "endTime") as [[]|]; simplify_eq/=; done.
  - rewrite lookup_delete_keys, bool_decide_false by set_solver. apply lookup_insert_eq.
  - intros k Hk. rewrite lookup_delete_keys. by rewrite bool_decide_true.
  - intros k Hk. unfold delta_keys in Hk. rewrite lookup_delete_keys, bool_decide_false by set_solver.
    rewrite lookup_insert_ne by set_solver.
    destruct (has_flag flags ParsePVCPod); [|by injection Hr as <-].
    destruct (rec !! "attachTime") as [v|]; [|by injection Hr as <-].
    apply outcome_bind_ret in Hr as (t3 & _ & Hr). apply outcome_bind_ret in Hr as (t2 & _ & Hr).
    apply outcome_bind_ret in Hr as (t4 & _ & [= <-]). apply set_deltas_other. set_solver.
Qed.

Lemma base_ok_delta flags rec rec' :
  base_ok rec -> calculateDelta flags rec = Ret rec' ->
  exists a n r ns, rec_for a n r ns rec'.
Proof.
  intros [(a & n & r & ns & H) _] (t1 & t5 & _ & _ & _ & _ & Hk)%calculateDelta_spec.
  exists a, n, r, ns. unfold rec_for. rewrite !Hk by (unfold delta_keys, cleanup_keys; set_solver).
  exact H.
Qed.

Lemma calculateDelta_returns flags rec :
  result_ok rec -> (has_flag flags ParsePVCPod = false \/ rec !! "attachTime" = None) ->
  returns (calculateDelta flags rec).
Proof.
  intros ([_ [t1 H1]] & [t5 H5] & _) Hf. unfold calculateDelta. rewrite H1, H5. simpl.
  destruct Hf as [->| ->]; [by eexists|]. destruct (has_flag _ _); by eexists.
Qed.

Lemma base_ok_same l l' i rec' :
  same_but_bound l l' -> l' !! i = Some rec' -> Forall base_ok l -> base_ok rec'.
Proof.
  intros [_ H] (rec & E & Hk)%H Hf. eapply Forall_lookup_1 in Hf as [(a & n & r & ns & Hr) [t Ht]];
    [|exact E]. split.
  - exists a, n, r, ns. unfold rec_for. by rewrite !Hk by done.
  - exists t. by rewrite Hk by done.
Qed.

Lemma formatResourceName_spec rec rec' :
  formatResourceName rec = Ret rec' ->
  exists r, rec !! "resource" = Some (VStr r) /\ rec' = <["resource" := VStr (convertName r)]> rec.
Proof.
  unfold formatResourceName, as_string. intros H. apply outcome_bind_ret in H as (r & Hr & [= <-]).
  exists r. destruct (rec !! "resource") as [[]|]; simplify_eq/=; done.
Qed.

Lemma Forall2_Forall_r {A B} (R : A -> B -> Prop) (P : A -> Prop) (Q : B -> Prop) l l' :
  Forall2 R l l' -> Forall P l -> (forall x y, P x -> R x y -> Q y) -> Forall Q l'.
Proof. intros H2 HP HQ. induction H2; inversion HP; subst; constructor; eauto. Qed.

(** ** Concrete audit log lines *)
Definition ex_create : string := quoted "{'stage':'ResponseComplete','verb':'create','requestReceivedTimestamp':'2020-07-10T20:12:33.000001Z','stageTimestamp':'2020-07-10T20:12:33.1Z','objectRef':{'resource':'pods','namespace':'default','name':'p'},'responseStatus':{'code':201}}".

Definition ex_attach : string := quoted "{'stage':'ResponseComplete','verb':'create','requestReceivedTimestamp':'2020-07-10T20:12:34Z','stageTimestamp':'2020-07-10T20:12:34.5Z','objectRef':{'resource':'events','namespace':'default'},'responseStatus':{'code':201},'requestObject':{'reason':'SuccessfulAttachVolume','message':'volume \u0022pv1\u0022 attached','involvedObject':{'kind':'Pod','namespace':'default','name':'p'}}}".

Definition ex_running : string := quoted "{'stage':'ResponseComplete','verb':'patch','requestReceivedTimestamp':'2020-07-10T20:12:35Z','stageTimestamp':'2020-07-10T20:12:36Z','objectRef':{'resource':'pods','namespace':'default','name':'p','subresource':'status'},'responseStatus':{'code':200},'requestObject':{'status':{'phase':'Running'}},'responseObject':{'status':{'phase':'Running'}}}".

Definition ex_log : auditlog := default zero_auditlog (unmarshal_log ex_create).
Definition ex_end_log : auditlog := default zero_auditlog (unmarshal_log ex_running).
