(* ===== verification/ParseLogsThm.v ===== *)
(** * Correctness of the log parser *)
From S2P Require Import Prelude GoStrings GoTime GoJson AuditLog TimingRecords CreateTiming.
From S2P Require Import ScaleTiming PvcPod ParseLogs ParseLogsInv ParseLogsSpec.

Example ex_create_run :
  ParseLogs [ex_create; ex_running] ParseCreate =
  Ret ([<["duration" := VInt64 2999999]> (<["resource" := VStr "Pod"]>
        (delete "startTime" (initializeRecord "create" "p" "pods" "default" 0%Z)))], false).
Proof. vm_compute. reflexivity. Qed.

(** Well-formedness of a concrete line, by evaluation. *)
Ltac wf_line_tac :=
  let log := fresh "log" in let H := fresh "H" in
  intros log H; vm_compute in H; injection H as <-; split_and!;
  [eexists; vm_compute; reflexivity
  |eexists; vm_compute; reflexivity
  |intros s Hs; vm_compute in Hs; try discriminate Hs; injection Hs as <-;
     split; intros [c Hc]; vm_compute in Hc; try discriminate Hc; eexists; vm_compute; reflexivity
  |intros s Hs [c Hc]; vm_compute in Hc; discriminate Hc].

(** ** Theorems *)

Lemma ParseLogs_final_ok logs flags rs :
  ParseLogs logs flags = Ret (rs, false) -> Forall final_ok rs.
Proof.
  unfold ParseLogs. destruct (flags =? 0)%Z; [intros [= <-]; constructor|]. intros H.
  apply outcome_bind_ret in H as ([st []] & Hl & H); [discriminate|].
  assert (inv st) as (_ & Hres & _)
    by (eapply reachable_inv, parse_lines_reachable; [constructor|exact Hl]).
  set (rs1 := if has_flag _ _ then _ else _) in H.
  assert (Forall base_ok rs1) as Hb.
  { assert (Forall base_ok (results st)) as Hb by (eapply Forall_impl; [|exact Hres]; by intros ? []).
    unfold rs1. destruct (has_flag _ _); [|done]. apply Forall_lookup. intros i rec' E.
    eapply base_ok_same; [apply boundTimes_same|exact E|exact Hb]. }
  apply outcome_bind_ret in H as (rs2 & H2 & H). apply outcome_bind_ret in H as (rs3 & H3 & [= <-]).
  apply mapO_Forall2 in H2. apply mapO_Forall2 in H3.
  eapply Forall2_Forall_r; [exact H3| |].
  - eapply Forall2_Forall_r with (Q := fun r => final_ok r); [exact H2|exact Hb|].
    intros x y Hx Hy. pose proof (base_ok_delta _ _ _ Hx Hy) as Hid.
    apply calculateDelta_spec in Hy as (t1 & t5 & _ & _ & Hd & Hc & _).
    split_and!; [done| |done]. eexists; split; [exact Hd|apply timeDiff_range].
  - intros x y ((a & n & r & ns & Hr) & (d & Hd & Hrange) & Hc) (r' & _ & ->)%formatResourceName_spec.
    split_and!.
    + exists a, n, (convertName r'), ns. destruct Hr as (?&?&?&?). split_and!; by simplify_map_eq.
    + exists d. by simplify_map_eq.
    + intros k Hk. rewrite lookup_insert_ne; [by apply Hc|]. intros <-. revert Hk. set_solver.
Qed.

(** C19: when [ParseLogs] succeeds, every record it returns identifies an object
    and an action, has an [int64] duration, and has none of the temporary time
    stamps left. *)
Theorem ParseLogs_results_final logs flags rs :
  ParseLogs logs flags = Ret (rs, false) -> Forall final_ok rs.
Proof. apply ParseLogs_final_ok. Qed.

Lemma ParseLogs_results_final_witness :
  Forall final_ok [<["duration" := VInt64 2999999]> (<["resource" := VStr "Pod"]>
        (delete "startTime" (initializeRecord "create" "p" "pods" "default" 0%Z)))].
Proof.
  apply (ParseLogs_results_final [ex_create; ex_running] ParseCreate). vm_compute. reflexivity.
Defined.

Lemma end_record_returns log i st :
  wf_log log -> is_Some (ongoing st !! i) -> returns (end_record log i st).
Proof.
  intros (_ & [t Ht] & _) [rec Hrec]. unfold end_record, setEndTime, getEndTime, parseStrTime.
  rewrite Hrec, Ht. simpl. by eexists.
Qed.

Lemma getGenericStart_returns log a : wf_log log -> returns (getGenericStart log a).
Proof.
  intros ([t Ht] & _). unfold getGenericStart, getStartTime, parseStrTime. simpl. rewrite Ht.
  by eexists.
Qed.

Lemma returns_bind {A B} (m : outcome A) (f : A -> outcome B) :
  returns m -> (forall a, m = Ret a -> returns (f a)) -> returns (m ≫= f).
Proof. intros [a ->] Hf. simpl. by apply Hf. Qed.

Lemma create_action_returns log st : wf_log log -> returns (create_action log st).
Proof.
  intros Hwf. unfold create_action. destruct (isCreateStart _ _).
  - apply returns_bind; [by apply (getGenericStart_returns log strCreate)|]. intros ? _; by eexists.
  - apply returns_bind.
    + destruct Hwf as (_ & _ & Hst & _). unfold isCreateEnd. destruct (_ || _); [by eexists|].
      destruct (createEndCrit !! _) eqn:E; [|by eexists].
      destruct (rs_Status _) as [s|] eqn:Es; [|by eexists].
      destruct (Hst s eq_refl) as [[p Hp] _]; [eauto|]. simpl. rewrite Hp.
      destruct (isMatch _ _); by eexists.
    + intros [i|] He; [|by eexists]. apply isCreateEnd_Some in He as (_ & _ & _ & He).
      apply getEndIndex_lookup in He as (rec & Hrec & _).
      apply returns_bind; [by apply end_record_returns; eauto|]. intros ? _; by eexists.
Qed.

Lemma isScaleEnd_returns log st : wf_log log -> inv st -> returns (isScaleEnd log (ongoing st)).
Proof.
  intros (_ & _ & Hrs & Hrq) (Ho & _ & _). unfold isScaleEnd.
  destruct (_ || _ || _); [by eexists|].
  destruct (scaleEndCrit !! _) as [c|] eqn:E; [|by eexists].
  destruct (rq_Status _) as [s|] eqn:Es; [|by eexists].
  destruct (Hrq s eq_refl) as [x Hx]; [eauto|]. simpl. rewrite Hx.
  destruct (getScaleEndIndex _ _) as [i|] eqn:Ei; [|by eexists].
  apply getEndIndex_lookup in Ei as (rec & Hrec & (Ha & _ & Hr & _) & _). rewrite Hrec. simpl.
  eapply Forall_lookup_1 in Ho as (_ & _ & Hs & _); [|exact Hrec].
  destruct (Hs _ Hr Ha) as [n Hn]. unfold getResource in Hn. rewrite Hn. simpl.
  destruct (rs_Status _) as [s'|] eqn:Es'; [|by eexists].
  destruct (Hrs s' eq_refl) as [_ [y Hy]]; [eauto|]. simpl. rewrite Hy.
  destruct (allGoalsFulfilled _ _ _); by eexists.
Qed.

Lemma isScaleEnd_index log all i : isScaleEnd log all = Ret (Some i) -> getScaleEndIndex log all = Some i.
Proof.
  unfold isScaleEnd. destruct (_ || _ || _); [done|].
  destruct (scaleEndCrit !! _) as [c|]; [|done].
  destruct (rq_Status _) as [s|]; [|done]. destruct (unmarshal_raw _ _ _); [|done].
  destruct (getScaleEndIndex log all) as [k|]; [|done].
  intros H. apply outcome_bind_ret in H as (g & _ & H).
  destruct (rs_Status _) as [s'|]; [|done]. destruct (unmarshal_raw _ _ _); [|done].
  destruct (allGoalsFulfilled _ _ _); [|done]. by injection H as <-.
Qed.

Lemma scale_action_returns log st : wf_log log -> inv st -> returns (scale_action log st).
Proof.
  intros Hwf Hi. unfold scale_action. apply returns_bind; [apply isScaleStart_returns, Hi|].
  intros [] _.
  - apply returns_bind.
    + unfold force_end. destruct (getScaleEndIndex _ _) as [i|] eqn:Ei; [|by eexists].
      apply getEndIndex_lookup in Ei as (rec & Hrec & _).
      apply returns_bind; [by apply end_record_returns; eauto|]. intros ? _; by eexists.
    + intros st1 _. apply returns_bind; [|intros ? _; by eexists].
      unfold getScaleStart. apply returns_bind; [by apply getGenericStart_returns|].
      intros. destruct (_ ≫= _); by eexists.
  - apply returns_bind; [by apply isScaleEnd_returns|]. intros [i|] He; [|by eexists].
    apply isScaleEnd_index, getEndIndex_lookup in He as (rec & Hrec & _).
    apply returns_bind; [by apply end_record_returns; eauto|]. intros ? _; by eexists.
Qed.

Lemma save_action_returns log st : wf_log log -> returns (save_action log st).
Proof.
  intros ([t Ht] & _). unfold save_action, saveObjInfo, parseStrTime. simpl.
  destruct (isGetCreateRequest log); [|by eexists].
  destruct (_ || _); [|by eexists]. destruct (scaleEndCrit !! _); [|by eexists].
  rewrite Ht. by eexists.
Qed.

Lemma parse_log_returns flags log st :
  has_flag flags ParsePVCPod = false -> wf_log log -> inv st -> returns (parse_log flags log st).
Proof.
  intros Hf Hwf Hi. unfold parse_log, flagged. rewrite Hf.
  case_decide; [|by eexists].
  assert (returns (if has_flag flags ParseScale
    then r ← scale_action log st; match r with Some st' => Ret st' | None => save_action log st end
    else save_action log st)) as Hs.
  { destruct (has_flag _ ParseScale); [|by apply save_action_returns].
    apply returns_bind; [by apply scale_action_returns|]. intros [] _; [by eexists|].
    by apply save_action_returns. }
  destruct (has_flag _ ParseCreate); [|done].
  apply returns_bind; [by apply create_action_returns|]. intros [] _; [by eexists|done].
Qed.

Lemma parse_lines_returns flags lines st :
  has_flag flags ParsePVCPod = false -> Forall wf_line lines -> inv st ->
  exists st' err, parse_lines flags lines st = Ret (st', err) /\ inv st'.
Proof.
  intros Hf Hwf. revert st. induction Hwf as [|line lines Hl _ IH]; intros st Hi; simpl; [eauto|].
  destruct (unmarshal_log line) as [log|] eqn:E; [|eauto].
  destruct (parse_log_returns flags log st Hf (Hl _ E) Hi) as [st1 H1].
  rewrite H1. simpl. apply IH. by eapply parse_log_inv.
Qed.

(** C21: without the Pod/PVC flag [ParseLogs] never panics on lines whose time
    stamps and status objects are well formed; lines that are not JSON make it
    return an error instead. *)
Theorem ParseLogs_returns logs flags :
  has_flag flags ParsePVCPod = false -> Forall wf_line logs -> returns (ParseLogs logs flags).
Proof.
  intros Hf Hwf. unfold ParseLogs. destruct (flags =? 0)%Z; [by eexists|].
  destruct (parse_lines_returns flags logs init_pstate Hf Hwf init_inv) as (st & err & -> & _ & Hr & _).
  simpl. destruct err; [by eexists|]. rewrite Hf.
  apply returns_bind.
  - apply mapO_returns. eapply Forall_impl; [|exact Hr]. intros rec Hrec.
    apply calculateDelta_returns; [done|by left].
  - intros rs Hrs. apply returns_bind; [|intros ? _; by eexists]. apply mapO_returns.
    apply mapO_Forall2 in Hrs. eapply Forall2_Forall_r; [exact Hrs|exact Hr|].
    intros x y (Hb & _) Hy. eapply base_ok_delta in Hy as (a & n & r & ns & (_&_&Hres&_)); [|done].
    unfold formatResourceName. rewrite Hres. by eexists.
Qed.

Lemma ParseLogs_returns_witness :
  has_flag ParseCreate ParsePVCPod = false /\ returns (ParseLogs [ex_create; ex_running] ParseCreate).
Proof.
  split; [reflexivity|]. apply (ParseLogs_returns [ex_create; ex_running] ParseCreate); [reflexivity|].
  constructor; [wf_line_tac|constructor; [wf_line_tac|constructor]].
Defined.

(** What one line does to the two lists: the results grow at the end by [new],
    and the ongoing list changes by what was started and what was moved. *)
Definition accounts (st st' : pstate) : Prop :=
  exists new, results st' = results st ++ new /\ length new ≤ 1 /\
    (length (ongoing st') + length new = length (ongoing st) \/
     length (ongoing st') + length new = S (length (ongoing st))).

Lemma accounts_same st st' :
  results st' = results st -> length (ongoing st') = length (ongoing st) -> accounts st st'.
Proof. intros H1 H2. exists []. rewrite app_nil_r. simpl. split_and!; [done|lia|left; lia]. Qed.

Lemma accounts_push st rec : accounts st (PState (ongoing st ++ [rec]) (results st) (objstore st)).
Proof.
  exists []. rewrite app_nil_r. simpl. split_and!; [done|lia|right]. rewrite length_app. simpl. lia.
Qed.

Lemma length_delete_list {A} i (l : list A) : is_Some (l !! i) -> S (length (delete i l)) = length l.
Proof.
  intros Hi%lookup_lt_is_Some. rewrite delete_take_drop, length_app, length_take, length_drop. lia.
Qed.

Lemma accounts_finish st i rec :
  is_Some (ongoing st !! i) -> accounts st (finish i rec st).
Proof.
  intros Hi%length_delete_list. exists [rec]. simpl. split_and!; [done|lia|left; lia].
Qed.

Lemma end_record_Some log i st rec : end_record log i st = Ret rec -> is_Some (ongoing st !! i).
Proof. unfold end_record. destruct (ongoing st !! i); [eauto|discriminate]. Qed.

Lemma create_action_accounts log st r :
  create_action log st = Ret r -> from_option (accounts st) True r.
Proof.
  unfold create_action. destruct (isCreateStart _ _); intros H;
    apply outcome_bind_ret in H as (x & Hx & H).
  - injection H as <-. apply accounts_push.
  - destruct x as [i|]; [|by injection H as <-].
    apply outcome_bind_ret in H as (rec & Hrec & [= <-]).
    apply accounts_finish. by eapply end_record_Some.
Qed.

Lemma scale_action_accounts log st r :
  scale_action log st = Ret r -> from_option (accounts st) True r.
Proof.
  unfold scale_action. intros H. apply outcome_bind_ret in H as ([] & _ & H).
  - apply outcome_bind_ret in H as (st1 & Hf & H). apply outcome_bind_ret in H as (rec & _ & [= <-]).
    revert Hf. unfold force_end. destruct (getScaleEndIndex _ _) as [i|].
    + intros H. apply outcome_bind_ret in H as (rec' & Hr%end_record_Some%length_delete_list & [= <-]).
      simpl. eexists [_]. simpl. split_and!; [done|lia|right]. rewrite length_app. simpl. lia.
    + intros [= <-]. apply accounts_push.
  - apply outcome_bind_ret in H as ([i|] & _ & H); [|by injection H as <-].
    apply outcome_bind_ret in H as (rec & Hrec & [= <-]).
    apply accounts_finish. by eapply end_record_Some.
Qed.

Lemma pvcpod_action_accounts log st r :
  pvcpod_action log st = Ret r -> from_option (accounts st) True r.
Proof.
  unfold pvcpod_action. destruct (isAttachVolumeEvent log); intros H.
  - apply outcome_bind_ret in H as (l & Hl & [= <-]).
    apply accounts_same; [done|]. by eapply setAttachTime_length.
  - apply outcome_bind_ret in H as ([] & _ & H); [|by injection H as <-].
    apply outcome_bind_ret in H as (l & Hl & [= <-]).
    apply accounts_same; [done|]. by eapply setContainerTime_length.
Qed.

Lemma parse_log_accounts flags log st st' : parse_log flags log st = Ret st' -> accounts st st'.
Proof.
  unfold parse_log.
  case_decide; [|intros [= <-]; by apply accounts_same].
  assert (forall bit a rest, (forall r, a st = Ret r -> from_option (accounts st) True r) ->
    (forall s, rest st = Ret s -> accounts st s) ->
    forall s, flagged flags bit a rest st = Ret s -> accounts st s) as Hfl.
  { intros bit a rest Ha Hrest s. unfold flagged. destruct (has_flag flags bit); [|apply Hrest].
    intros Hb. apply outcome_bind_ret in Hb as ([s'|] & Hb & Hb'); [|by apply Hrest].
    injection Hb' as <-. by apply (Ha (Some s')). }
  apply Hfl; [apply create_action_accounts|]. apply Hfl; [apply scale_action_accounts|].
  apply Hfl; [apply pvcpod_action_accounts|]. intros s. unfold save_action.
  destruct (isGetCreateRequest log); [|intros [= <-]; by apply accounts_same].
  intros Hs. apply outcome_bind_ret in Hs as (store & _ & [= <-]). by apply accounts_same.
Qed.

(** A line moves at most one action from the ongoing list to the end of the
    results and starts at most one: no record is lost or reported twice. *)
Theorem parse_log_accounting flags log st st' :
  parse_log flags log st = Ret st' ->
  exists new, results st' = results st ++ new /\ length new ≤ 1 /\
    (length (ongoing st') + length new = length (ongoing st) \/
     length (ongoing st') + length new = S (length (ongoing st))).
Proof. apply parse_log_accounts. Qed.

Definition after_create : pstate :=
  match parse_log 1 ex_log init_pstate with Ret s => s | _ => init_pstate end.
Definition after_end : pstate :=
  match parse_log 1 ex_end_log after_create with Ret s => s | _ => init_pstate end.

Lemma parse_log_accounting_witness :
  exists new, results after_end = results after_create ++ new /\ length new ≤ 1 /\
    (length (ongoing after_end) + length new = length (ongoing after_create) \/
     length (ongoing after_end) + length new = S (length (ongoing after_create))).
Proof. apply (parse_log_accounting 1 ex_end_log). vm_compute. reflexivity. Defined.

(** ** Scalings *)
Lemma scale_unique_sublist_delete i l : scale_unique l -> scale_unique (delete i l).
Proof.
  intros H j k rj rk n r ns Hj Hk Fj Fk.
  assert (forall j, exists j', delete i l !! j = l !! j' /\ (j' = if decide (j < i) then j else S j)) as Hd.
  { intros j'. eexists. split; [|reflexivity]. case_decide.
    - by rewrite list_lookup_delete_lt.
    - by rewrite list_lookup_delete_ge by lia. }
  destruct (Hd j) as (j' & Ej & ->), (Hd k) as (k' & Ek & ->). rewrite Ej in Hj. rewrite Ek in Hk.
  specialize (H _ _ _ _ _ _ _ Hj Hk Fj Fk). repeat case_decide; lia.
Qed.

Lemma scale_unique_push l rec :
  scale_unique l ->
  (forall n r ns x, x ∈ l -> rec_for strScale n r ns rec -> ~ rec_for strScale n r ns x) ->
  scale_unique (l ++ [rec]).
Proof.
  intros H Hnew i j ri rj n r ns Hi Hj Fi Fj.
  apply lookup_app_Some in Hi as [Hi|[Li Hi]]; apply lookup_app_Some in Hj as [Hj|[Lj Hj]].
  - by eapply H.
  - apply list_lookup_singleton_Some in Hj as [? <-].
    exfalso. eapply Hnew; [eapply list_elem_of_lookup_2, Hi|exact Fj|exact Fi].
  - apply list_lookup_singleton_Some in Hi as [? <-].
    exfalso. eapply Hnew; [eapply list_elem_of_lookup_2, Hj|exact Fi|exact Fj].
  - apply list_lookup_singleton_Some in Hi as [? _]. apply list_lookup_singleton_Some in Hj as [? _]. lia.
Qed.

Lemma scale_unique_alter f i l :
  (forall rec k, k ∈ ["action"; "name"; "resource"; "namespace"] -> f rec !! k = (rec : jsondict) !! k) ->
  scale_unique l -> scale_unique (alter f i l).
Proof.
  intros Hf H j k rj rk n r ns Hj Hk Fj Fk.
  assert (forall j rj, alter f i l !! j = Some rj -> rec_for strScale n r ns rj ->
    exists rj', l !! j = Some rj' /\ rec_for strScale n r ns rj') as Hg.
  { clear -Hf. intros j rj. destruct (decide (i = j)) as [<-|Hne].
    - rewrite list_lookup_alter_eq. destruct (l !! i) as [x|]; [|done]. intros [= <-] F.
      exists x. split; [done|]. unfold rec_for in *. rewrite !Hf in F by set_solver. done.
    - rewrite list_lookup_alter_ne by done. eauto. }
  destruct (Hg _ _ Hj Fj) as (? & ? & ?), (Hg _ _ Hk Fk) as (? & ? & ?). by eapply H.
Qed.

Lemma rec_for_same_id a n r ns a' n' r' ns' rec :
  rec_for a n r ns rec -> rec_for a' n' r' ns' rec -> a = a' /\ n = n' /\ r = r' /\ ns = ns'.
Proof. intros (?&?&?&?) (?&?&?&?). naive_solver. Qed.

(** After a forced end no scaling of the object is ongoing. *)
Lemma force_end_clears flags log st st1 :
  reachable flags st -> scale_unique (ongoing st) -> force_end log st = Ret st1 ->
  scale_unique (ongoing st1) /\
  Forall (fun x => ~ rec_for strScale (getName log) (getResource log) (getNamespace log) x) (ongoing st1).
Proof.
  intros Hr Hu. unfold force_end. destruct (getScaleEndIndex log (ongoing st)) as [i|] eqn:Ei.
  - intros H. apply outcome_bind_ret in H as (rec & Hrec & [= <-]). simpl.
    split; [by apply scale_unique_sublist_delete|].
    apply getEndIndex_lookup in Ei as (ri & Hi & Fi & _).
    apply Forall_lookup. intros j x Hj Fx.
    destruct (decide (j < i)) as [Hlt|Hge].
    + rewrite list_lookup_delete_lt in Hj by done.
      pose proof (Hu _ _ _ _ _ _ _ Hi Hj Fi Fx). lia.
    + rewrite list_lookup_delete_ge in Hj by lia.
      pose proof (Hu _ _ _ _ _ _ _ Hi Hj Fi Fx). lia.
  - intros [= <-]. split; [done|]. by eapply reachable_findLog in Ei.
Qed.

Lemma alter_scale_ok k v (rec : jsondict) k' :
  k ∈ ["attachTime"; "pvName"; "containerTime"] -> k' ∈ ["action"; "name"; "resource"; "namespace"] ->
  <[k := v]> rec !! k' = rec !! k'.
Proof. intros H H'. apply lookup_insert_ne. intros ->. revert H'. set_solver. Qed.

(** C22: at every moment there is at most one ongoing scaling record per object:
    a new scaling force-ends the unfinished one first. *)
Theorem scale_unique_reachable flags st : reachable flags st -> scale_unique (ongoing st).
Proof.
  induction 1 as [|st log st' Hr IH Hst]; [intros i j ri rj n r ns Hi; done|].
  revert Hst. apply (parse_log_preserves (fun s => scale_unique (ongoing s))); [..|exact IH].
  - intros r Hu. unfold create_action. destruct (isCreateStart _ _); intros H;
      apply outcome_bind_ret in H as (x & Hx & H).
    + injection H as <-. simpl. apply scale_unique_push; [done|].
      intros n r ns y _ F _. destruct (getGenericStart_spec log strCreate x Hx) as (t & _ & Ex).
      rewrite Ex in F. destruct F as (F & _). unfold initializeRecord in F. simplify_map_eq.
    + destruct x as [i|]; [|by injection H as <-].
      apply outcome_bind_ret in H as (rec & Hrec & [= <-]). by apply scale_unique_sublist_delete.
  - intros r Hu. unfold scale_action. intros H. apply outcome_bind_ret in H as ([] & _ & H).
    + apply outcome_bind_ret in H as (st1 & Hf & H). apply outcome_bind_ret in H as (rec & Hx & [= <-]).
      destruct (force_end_clears _ _ _ _ Hr Hu Hf) as [Hu1 Hclear]. simpl.
      apply scale_unique_push; [done|]. intros n r ns y Hy F Fy.
      apply getScaleStart_ok in Hx as [_ F'].
      pose proof (rec_for_same_id _ _ _ _ _ _ _ _ _ F F') as (_ & -> & -> & ->).
      rewrite Forall_forall in Hclear. by eapply Hclear; [apply list_elem_of_In|].
    + apply outcome_bind_ret in H as ([i|] & _ & H); [|by injection H as <-].
      apply outcome_bind_ret in H as (rec & Hrec & [= <-]). by apply scale_unique_sublist_delete.
  - intros r Hu. unfold pvcpod_action. destruct (isAttachVolumeEvent log); intros H.
    + apply outcome_bind_ret in H as (l & Hl & [= <-]). simpl. revert Hl. unfold setAttachTime.
      destruct (findLog _ _ _ _ _); [|by intros [= <-]]. intros H.
      apply outcome_bind_ret in H as (t & _ & [= <-]). apply scale_unique_alter; [|done].
      intros rec k Hk. rewrite !alter_scale_ok by set_solver. done.
    + apply outcome_bind_ret in H as ([] & _ & H); [|by injection H as <-].
      apply outcome_bind_ret in H as (l & Hl & [= <-]). simpl. revert Hl. unfold setContainerTime.
      destruct (findLog _ _ _ _ _); [|by intros [= <-]]. intros H.
      apply outcome_bind_ret in H as (t & _ & [= <-]). apply scale_unique_alter; [|done].
      intros rec k Hk. rewrite !alter_scale_ok by set_solver. done.
  - intros s Hu. unfold save_action. destruct (isGetCreateRequest log); [|by intros [= <-]].
    intros H. by apply outcome_bind_ret in H as (store & _ & [= <-]).
Qed.

Lemma scale_unique_reachable_witness : scale_unique (ongoing after_create).
Proof.
  apply (scale_unique_reachable 1). apply (reach_step 1 init_pstate ex_log).
  - apply reach_init.
  - vm_compute. reflexivity.
Defined.
