(* ===== verification/ParseLogsFun.v ===== *)
(** * Functional behaviour of the log parser

    What a creation, the search for a record, the deltas of a pod and the
    binding of pods to claims compute, on every input that satisfies the stated
    conditions; and the crash on a pod whose claim was not seen. *)
From S2P Require Import Prelude GoStrings GoTime GoJson AuditLog TimingRecords CreateTiming.
From S2P Require Import ScaleTiming PvcPod ParseLogs ParseLogsInv ParseLogsSpec.

(** ** Conditions on log lines *)

(** A successful create request for a supported resource, received at [t]. *)
Definition starts_creation (log : auditlog) (t : time) : Prop :=
  Stage log = "ResponseComplete" /\ Verb log = "create" /\ ResponseStatus_Code log = 201%Z /\
  is_Some (createEndCrit !! or_Resource (ObjectRef log)) /\
  parse_rfc3339nano (RequestReceivedTimestamp log) = Some t.

(** A successful update to one of the final phases, completed at [t]. *)
Definition ends_creation (log : auditlog) (t : time) : Prop :=
  Stage log = "ResponseComplete" /\ (Verb log = "patch" \/ Verb log = "update") /\
  ResponseStatus_Code log = 200%Z /\
  (exists phases status phase, createEndCrit !! or_Resource (ObjectRef log) = Some phases /\
     rs_Status (ResponseObject log) = Some status /\
     dec_createStatus status "" = Some phase /\ phase ∈ phases) /\
  parse_rfc3339nano (StageTimestamp log) = Some t.

(** ** Helper lemmas *)
Lemma findLog_push a n r ns all rec :
  rec_for a n r ns rec -> rec !! "endTime" = None ->
  findLog a n r ns (all ++ [rec]) = Some (length all).
Proof.
  intros Hr He. unfold findLog. rewrite length_app. simpl. replace (length all + 1) with (S (length all)) by lia.
  cbn [findLog_from]. rewrite lookup_app_r by lia. rewrite Nat.sub_diag. cbn [lookup list_lookup].
  rewrite rec_for_test, bool_decide_true by done. by rewrite decide_True.
Qed.

Lemma starts_creation_runs flags log st t :
  has_flag flags ParseCreate = true -> starts_creation log t ->
  parse_log flags log st = Ret (PState (ongoing st ++
    [initializeRecord strCreate (getName log) (getResource log) (getNamespace log) t])
    (results st) (objstore st)).
Proof.
  intros Hf (Hs & Hv & Hc & He & Ht). unfold parse_log, flagged, create_action.
  rewrite decide_True by done. rewrite Hf.
  rewrite (proj2 (isCreateStart_spec log (ongoing st))) by done.
  unfold getCreateStart, getGenericStart, getIdentification, getStartTime, parseStrTime.
  rewrite Ht. reflexivity.
Qed.

Lemma ends_creation_isCreateEnd log t all :
  ends_creation log t -> isCreateEnd log all = Ret (getCreateEndIndex log all).
Proof.
  intros (_ & Hv & Hc & (phases & status & phase & E & Es & Ep & Hin) & _).
  unfold isCreateEnd, unmarshal_raw. rewrite E, Es, Ep, Hc.
  rewrite (proj2 (isMatch_spec phase phases) Hin).
  destruct Hv as [-> | ->]; reflexivity.
Qed.

Lemma ends_creation_not_start log t all : ends_creation log t -> isCreateStart log all = false.
Proof.
  intros (_ & Hv & _). unfold isCreateStart. destruct Hv as [-> | ->]; reflexivity.
Qed.

(** The record of a finished creation. *)
Definition created (log1 log2 : auditlog) (t1 t2 : time) (rec : jsondict) : Prop :=
  rec_for strCreate (getName log1) (getResource log1) (getNamespace log1) rec /\
  rec !! "startTime" = Some (VTime t1) /\ rec !! "endTime" = Some (VTime t2).

Lemma created_setEndTime log1 log2 t1 t2 :
  parse_rfc3339nano (StageTimestamp log2) = Some t2 ->
  exists rec, setEndTime log2 (initializeRecord strCreate (getName log1) (getResource log1)
      (getNamespace log1) t1) = Ret rec /\ created log1 log2 t1 t2 rec.
Proof.
  intros Ht. unfold setEndTime, getEndTime, parseStrTime. rewrite Ht. simpl.
  eexists. split; [reflexivity|]. unfold created, rec_for, initializeRecord.
  destruct (md_Labels _); split_and!; by simplify_map_eq.
Qed.

Lemma created_pvName log1 log2 t1 t2 v rec :
  created log1 log2 t1 t2 rec -> created log1 log2 t1 t2 (<["pvName" := v]> rec).
Proof.
  unfold created, rec_for. intros ((?&?&?&?)&?&?). split_and!; by simplify_map_eq.
Qed.

Lemma delete_last {A} (l : list A) x : delete (length l) (l ++ [x]) = l.
Proof. induction l as [|y l IH]; simpl; [done|]. by f_equal. Qed.

(** C23: a create request followed by the status update that completes it adds
    exactly one record to the results, for that object and with the two time
    stamps, and leaves the ongoing actions as they were before. *)
Theorem create_start_end flags log1 log2 st t1 t2 :
  has_flag flags ParseCreate = true ->
  starts_creation log1 t1 -> ends_creation log2 t2 ->
  getIdentification log2 = getIdentification log1 ->
  exists st1 rec, parse_log flags log1 st = Ret st1 /\
    parse_log flags log2 st1 = Ret (PState (ongoing st) (results st ++ [rec]) (objstore st)) /\
    rec_for strCreate (getName log1) (getResource log1) (getNamespace log1) rec /\
    rec !! "startTime" = Some (VTime t1) /\ rec !! "endTime" = Some (VTime t2).
Proof.
  intros Hf H1 H2 Hid.
  destruct (created_setEndTime log1 log2 t1 t2) as (rec & Hrec & Hc); [by destruct H2 as (?&?&?&?&?)|].
  pose proof (starts_creation_runs _ _ st _ Hf H1) as Hs.
  set (rec0 := initializeRecord _ _ _ _ _) in *. set (st1 := PState _ _ _) in Hs.
  exists st1. rewrite Hs.
  assert (getCreateEndIndex log2 (ongoing st1) = Some (length (ongoing st))) as Hi.
  { unfold getCreateEndIndex, getEndIndex. rewrite Hid. apply findLog_push; [apply initializeRecord_for|].
    unfold rec0, initializeRecord. by simplify_map_eq. }
  unfold parse_log, flagged, create_action. rewrite decide_True by apply H2. rewrite Hf.
  rewrite (ends_creation_not_start log2 t2) by done.
  rewrite (ends_creation_isCreateEnd log2 t2) by done. rewrite Hi.
  assert (end_record log2 (length (ongoing st)) st1 = Ret rec) as He.
  { unfold end_record, st1. cbn [ongoing]. rewrite lookup_app_r by done.
    by rewrite Nat.sub_diag. }
  cbn [mbind outcome_bind]. rewrite He. cbn [mbind outcome_bind].
  unfold finish, st1. cbn [ongoing results objstore]. rewrite delete_last.
  case_decide; eexists; (split_and!; [reflexivity|reflexivity|..]); try apply Hc.
  all: apply (created_pvName _ _ _ _ _ _ Hc).
Qed.

(** [findLog] returns the position of the last record of the action and
    object, and only when that record has not ended. *)
Theorem findLog_last a n r ns all k :
  findLog a n r ns all = Some k <->
  (exists rec, all !! k = Some rec /\ rec_for a n r ns rec /\ rec !! "endTime" = None) /\
  (forall j rec, k < j -> all !! j = Some rec -> ~ rec_for a n r ns rec).
Proof.
  unfold findLog. rewrite findLog_from_spec by lia. split.
  - intros (Hk & Hex & Hl). split; [done|]. intros j rec Hj Hrec.
    apply (Hl j rec); [|done]. apply lookup_lt_Some in Hrec. lia.
  - intros (Hex & Hl). destruct Hex as (rec & Hrec & Hr). split_and!.
    + by eapply lookup_lt_Some.
    + eauto.
    + intros j rec' [Hj _]. by apply Hl.
Qed.

(** For a pod whose five time stamps are ordered, the four partial deltas
    add up to the duration, up to the three microseconds the truncation of each
    of them can lose. *)
Theorem deltas_sum_to_duration flags rec rec' t1 t2 t3 t4 t5 :
  has_flag flags ParsePVCPod = true -> calculateDelta flags rec = Ret rec' ->
  rec !! "startTime" = Some (VTime t1) -> rec !! "boundTime" = Some (VTime t2) ->
  rec !! "attachTime" = Some (VTime t3) -> rec !! "containerTime" = Some (VTime t4) ->
  rec !! "endTime" = Some (VTime t5) ->
  (t1 <= t2 <= t3)%Z -> (t3 <= t4 <= t5)%Z -> (t5 - t1 <= max_int64)%Z ->
  exists d d12 d23 d34 d45, rec' !! "duration" = Some (VInt64 d) /\
    rec' !! "delta12" = Some (VInt64 d12) /\ rec' !! "delta23" = Some (VInt64 d23) /\
    rec' !! "delta34" = Some (VInt64 d34) /\ rec' !! "delta45" = Some (VInt64 d45) /\
    rec' !! "delta14" = Some (VInt64 (timeDiff t1 t4)) /\
    (0 <= d - (d12 + d23 + d34 + d45) <= 3)%Z.
Proof.
  intros Hf Hd H1 H2 H3 H4 H5 L1 L2 L3. unfold calculateDelta in Hd.
  rewrite H1, H2, H3, H4, H5, Hf in Hd. simpl in Hd. injection Hd as <-.
  exists (timeDiff t1 t5), (timeDiff t1 t2), (timeDiff t2 t3), (timeDiff t3 t4), (timeDiff t4 t5).
  rewrite !lookup_delete_keys. rewrite !bool_decide_false by set_solver.
  unfold set_deltas. split_and!; try by simplify_map_eq.
  all: pose proof (timeDiff_sum t1 t2 t3 t4 t5 L1 L2 L3); lia.
Qed.

(** ** Pods and claims *)

(** The two records [boundTimes] joins, and no other record with the volume. *)
Definition bound_pair (l : list jsondict) (p j : nat) (v : value) (t : value) : Prop :=
  (exists pod, l !! p = Some pod /\ pod !! "pvName" = Some v /\
     pod !! "resource" = Some (VStr "pods")) /\
  (exists pvc, l !! j = Some pvc /\ pvc !! "pvName" = Some v /\
     pvc !! "resource" = Some (VStr "persistentvolumeclaims") /\ pvc !! "endTime" = Some t) /\
  (forall i rec, l !! i = Some rec -> rec !! "pvName" = Some v -> i = p \/ i = j).

(** The result of joining them. *)
Definition is_bound (l : list jsondict) (p : nat) (v t : value) : Prop :=
  (exists pod, l !! p = Some pod /\ pod !! "boundTime" = Some t /\
     pod !! "resource" = Some (VStr "pods")) /\
  (forall i rec, l !! i = Some rec -> rec !! "pvName" <> Some v).

Lemma bound_step_other p v l j i :
  i <> p -> i <> j -> bound_step p v l j !! i = l !! i.
Proof.
  intros H1 H2. unfold bound_step. destruct (l !! j); [|done]. destruct (_ && _); [|done].
  cbv zeta. by rewrite !list_lookup_alter_ne by congruence.
Qed.

Lemma bound_step_skip p v l j :
  (forall pvc, l !! j = Some pvc -> pvc !! "pvName" = Some v ->
     pvc !! "resource" <> Some (VStr "persistentvolumeclaims")) ->
  bound_step p v l j = l.
Proof.
  intros H. unfold bound_step. destruct (l !! j) as [pvc|] eqn:E; [|done].
  destruct (decide (pvc !! "pvName" = Some v)) as [Hv|Hv].
  - rewrite (bool_decide_false (_ = Some (VStr _))) by (by apply H). by rewrite andb_false_r.
  - by rewrite bool_decide_false.
Qed.

(** What one step of the inner loop can do to a record. *)
Lemma bound_step_rec p v l j i rec' :
  bound_step p v l j !! i = Some rec' -> rec' !! "pvName" <> None ->
  l !! i = Some rec' \/ (i <> p /\ i <> j).
Proof.
  unfold bound_step. destruct (l !! j) as [pvc|]; [|by left]. destruct (_ && _); [|by left]. cbv zeta.
  intros H Hn. destruct (decide (i = j)) as [->|Hj].
  - rewrite list_lookup_alter_eq in H. exfalso. destruct (alter _ p l !! j); [|done].
    injection H as <-. apply Hn. apply lookup_delete_eq.
  - rewrite list_lookup_alter_ne in H by congruence. destruct (decide (i = p)) as [->|Hp]; [|by right].
    rewrite list_lookup_alter_eq in H. exfalso. destruct (l !! p); [|done].
    injection H as <-. apply Hn. apply lookup_delete_eq.
Qed.

Lemma bound_step_pair_hit p j v t l :
  bound_pair l p j v t -> is_bound (bound_step p v l j) p v t.
Proof.
  intros ((pod & Hp & Hpv & Hpr) & (pvc & Hj & Hjv & Hjr & Hje) & Hu).
  assert (p <> j) as Hpj by (intros ->; simplify_eq).
  unfold bound_step. rewrite Hj, !bool_decide_true by done. rewrite Hje. cbn [andb]. cbv zeta. split.
  - exists (delete "pvName" (<["boundTime" := t]> pod)). split_and!.
    + rewrite list_lookup_alter_ne by done. by rewrite list_lookup_alter_eq, Hp.
    + by simplify_map_eq.
    + by simplify_map_eq.
  - intros i rec Hi Hv. destruct (decide (i = j)) as [->|Hij].
    + rewrite list_lookup_alter_eq, list_lookup_alter_ne, Hj in Hi by done. injection Hi as <-.
      by rewrite lookup_delete_eq in Hv.
    + rewrite list_lookup_alter_ne in Hi by congruence. destruct (decide (i = p)) as [->|Hip].
      * rewrite list_lookup_alter_eq, Hp in Hi. injection Hi as <-. by rewrite lookup_delete_eq in Hv.
      * rewrite list_lookup_alter_ne in Hi by congruence. by destruct (Hu _ _ Hi Hv).
Qed.

Lemma bound_step_is_bound p' v' p v t l j :
  p' <> p -> is_bound l p v t -> is_bound (bound_step p' v' l j) p v t.
Proof.
  intros Hne ((pod & Hp & Hb & Hr) & Hu). split.
  - destruct (decide (j = p)) as [->|].
    + rewrite bound_step_skip; [eauto|]. intros pvc. rewrite Hp. intros [= <-] _. by rewrite Hr.
    + exists pod. rewrite bound_step_other by done. done.
  - intros i rec Hi Hv. destruct (bound_step_rec _ _ _ _ _ _ Hi) as [Hi'|[H1 H2]]; [by rewrite Hv|by eapply Hu|].
    rewrite bound_step_other in Hi by done. by eapply Hu.
Qed.

Lemma bound_step_is_bound_same p v t l j : is_bound l p v t -> is_bound (bound_step p v l j) p v t.
Proof.
  intros H. rewrite bound_step_skip; [done|]. intros pvc Hj Hv. by apply H in Hj.
Qed.

Lemma bound_step_pair_miss p' v' p j v t l i :
  p' <> p -> p' <> j -> v' <> v -> bound_pair l p j v t -> bound_pair (bound_step p' v' l i) p j v t.
Proof.
  intros H1 H2 Hv ((pod & Hp & Hpv & Hpr) & (pvc & Hj & Hjv & Hjr & Hje) & Hu).
  assert (forall k, k = p \/ k = j -> bound_step p' v' l i !! k = l !! k) as Hk.
  { intros k Hk. destruct (decide (k = i)) as [->|Hki].
    - rewrite bound_step_skip; [done|]. intros r Hr Hr'. exfalso. destruct Hk; subst; simplify_eq.
    - apply bound_step_other; [|done]. by destruct Hk; subst. }
  split_and!.
  - exists pod. by rewrite Hk by (by left).
  - exists pvc. by rewrite Hk by (by right).
  - intros k rec Hk' Hv'. destruct (bound_step_rec _ _ _ _ _ _ Hk') as [Hi'|[H3 H4]]; [by rewrite Hv'|by eapply Hu|].
    rewrite bound_step_other in Hk' by done. by eapply Hu.
Qed.

Lemma foldl_preserves {A B} (P : A -> Prop) (f : A -> B -> A) l a :
  (forall a x, x ∈ l -> P a -> P (f a x)) -> P a -> P (foldl f a l).
Proof.
  revert a. induction l as [|x l IH]; intros a Hf Ha; simpl; [done|].
  apply IH; [|apply Hf; [by left|done]]. intros; apply Hf; [by right|done].
Qed.

Lemma bound_step_pair_same p j v t l i :
  i <> j -> bound_pair l p j v t -> bound_step p v l i = l.
Proof.
  intros Hij ((pod & Hp & Hpv & Hpr) & _ & Hu). apply bound_step_skip.
  intros r Hr Hrv Hres. destruct (Hu _ _ Hr Hrv) as [->|]; [simplify_eq|done].
Qed.

Lemma inner_loop_pair p j v t l js :
  j ∈ js -> bound_pair l p j v t -> is_bound (foldl (bound_step p v) l js) p v t.
Proof.
  induction js as [|i js IH]; intros Hin Hp; [by apply not_elem_of_nil in Hin|]. simpl.
  destruct (decide (i = j)) as [->|Hij].
  - apply foldl_preserves; [intros; by apply bound_step_is_bound_same|by apply bound_step_pair_hit].
  - rewrite (bound_step_pair_same p j v t) by done. apply IH; [|done].
    by apply elem_of_cons in Hin as [->|].
Qed.

Lemma bound_pod_pair_other l p j v t p' :
  p' <> p -> bound_pair l p j v t -> bound_pair (bound_pod l p') p j v t.
Proof.
  intros Hne Hp. unfold bound_pod. destruct (l !! p') as [r|] eqn:E; [|done].
  destruct (r !! "pvName") as [v'|] eqn:Ev; [|done].
  case_bool_decide as Hres; [|done].
  assert (p' <> j /\ v' <> v) as [H1 H2].
  { destruct Hp as (_ & (pvc & Hj & _ & Hjr & _) & Hu). split.
    - intros ->. simplify_eq.
    - intros ->. destruct (Hu _ _ E Ev) as [-> | ->]; [done|simplify_eq]. }
  apply foldl_preserves; [|done]. intros. by apply bound_step_pair_miss.
Qed.

Lemma bound_pod_is_bound l p v t p' :
  p' <> p -> is_bound l p v t -> is_bound (bound_pod l p') p v t.
Proof.
  intros Hne Hb. unfold bound_pod. destruct (l !! p') as [r|]; [|done].
  destruct (r !! "pvName") as [v'|]; [|done]. case_bool_decide; [|done].
  apply foldl_preserves; [|done]. intros. by apply bound_step_is_bound.
Qed.

Lemma outer_loop_pair p j v t l ps :
  p ∈ ps -> NoDup ps -> bound_pair l p j v t -> is_bound (foldl bound_pod l ps) p v t.
Proof.
  revert l. induction ps as [|i ps IH]; intros l Hin Hnd Hp; [by apply not_elem_of_nil in Hin|]. simpl.
  inversion Hnd as [|i' ps' Hni Hnd']; subst. destruct (decide (i = p)) as [->|Hne].
  - apply foldl_preserves.
    + intros l' p' Hp' Hb. apply bound_pod_is_bound; [|done]. by intros ->.
    + destruct Hp as ((pod & E & Ev & Er) & H2 & H3). unfold bound_pod at 1. rewrite E, Ev.
      rewrite bool_decide_true by done. apply (inner_loop_pair p j v t).
      * destruct H2 as (pvc & Hj%lookup_lt_Some & _). apply elem_of_seq. lia.
      * split; [eauto|done].
  - apply IH; [by apply elem_of_cons in Hin as [->|]|exact Hnd'|by apply bound_pod_pair_other].
Qed.

(** A finished pod whose volume belongs to exactly one finished claim gets
    the time that claim's creation ended as its [boundTime], whatever the
    positions of the two records and whatever other pods are joined before. *)
Theorem boundTimes_joins l p j v t pod pvc :
  l !! p = Some pod -> pod !! "pvName" = Some v -> pod !! "resource" = Some (VStr "pods") ->
  l !! j = Some pvc -> pvc !! "pvName" = Some v ->
  pvc !! "resource" = Some (VStr "persistentvolumeclaims") -> pvc !! "endTime" = Some t ->
  (forall i rec, l !! i = Some rec -> rec !! "pvName" = Some v -> i = p \/ i = j) ->
  exists pod', boundTimes l !! p = Some pod' /\ pod' !! "boundTime" = Some t.
Proof.
  intros Hp Hpv Hpr Hj Hjv Hjr Hjt Hu. unfold boundTimes.
  destruct (outer_loop_pair p j v t l (seq 0 (length l))) as ((pod' & E & Hb & _) & _).
  - apply elem_of_seq. apply lookup_lt_Some in Hp. lia.
  - apply NoDup_seq.
  - split_and!; [by exists pod|by exists pvc|done].
  - eauto.
Qed.

(** ** Pods without a claim *)
Lemma calculateDelta_unbound flags rec v :
  has_flag flags ParsePVCPod = true -> rec !! "attachTime" = Some v -> rec !! "boundTime" = None ->
  ~ returns (calculateDelta flags rec).
Proof.
  intros Hf Ha Hb [r Hr]. unfold calculateDelta in Hr.
  apply outcome_bind_ret in Hr as (t1 & _ & Hr). apply outcome_bind_ret in Hr as (t5 & _ & Hr).
  apply outcome_bind_ret in Hr as (r' & Hr & _). rewrite Hf, Ha, Hb in Hr.
  apply outcome_bind_ret in Hr as (t3 & _ & Hr). discriminate.
Qed.

Lemma mapO_not_returns {A B} (f : A -> outcome B) l x :
  x ∈ l -> ~ returns (f x) -> ~ returns (mapO f l).
Proof.
  intros Hin Hf [l' H%mapO_Forall2]. apply Hf.
  apply list_elem_of_lookup in Hin as [i Hi].
  destruct (Forall2_lookup_l _ _ _ _ _ H Hi) as (y & _ & Hy). by exists y.
Qed.

(** When Pod/PVC parsing is requested and some finished pod has an
    [attachTime] but no [boundTime] (its claim was not in the log), the parser
    does not return: the type assertion on the missing field panics. *)
Theorem ParseLogs_unbound_panics logs flags st rec v :
  has_flag flags ParsePVCPod = true -> parse_lines flags logs init_pstate = Ret (st, false) ->
  rec ∈ boundTimes (results st) -> rec !! "attachTime" = Some v -> rec !! "boundTime" = None ->
  ~ returns (ParseLogs logs flags).
Proof.
  intros Hf Hl Hin Ha Hb [r Hr]. unfold ParseLogs in Hr.
  destruct (flags =? 0)%Z eqn:E0; [apply Z.eqb_eq in E0 as ->; discriminate Hf|].
  rewrite Hl in Hr. cbn [mbind outcome_bind] in Hr. rewrite Hf in Hr.
  apply outcome_bind_ret in Hr as (rs & Hrs & _).
  eapply (mapO_not_returns (calculateDelta flags)); [exact Hin| |by exists rs].
  by eapply calculateDelta_unbound.
Qed.

(** ** Witnesses *)
Definition ex_t1 : time := Eval vm_compute in default 0%Z (parse_rfc3339nano (RequestReceivedTimestamp ex_log)).
Definition ex_t2 : time := Eval vm_compute in default 0%Z (parse_rfc3339nano (StageTimestamp ex_end_log)).

Lemma create_start_end_witness :
  exists st1 rec, parse_log ParseCreate ex_log init_pstate = Ret st1 /\
    parse_log ParseCreate ex_end_log st1 = Ret (PState [] [rec] ∅) /\
    rec_for strCreate (getName ex_log) (getResource ex_log) (getNamespace ex_log) rec /\
    rec !! "startTime" = Some (VTime ex_t1) /\ rec !! "endTime" = Some (VTime ex_t2).
Proof.
  apply (create_start_end ParseCreate ex_log ex_end_log init_pstate ex_t1 ex_t2).
  - vm_compute. reflexivity.
  - split_and!; [vm_compute; reflexivity..|eexists; vm_compute; reflexivity|vm_compute; reflexivity].
  - split_and!; [vm_compute; reflexivity|left; vm_compute; reflexivity|vm_compute; reflexivity| |vm_compute; reflexivity].
    exists ["Running"; "Succeeded"]. eexists _, "Running".
    split_and!; [vm_compute; reflexivity..|left].
  - vm_compute. reflexivity.
Defined.

Definition ex_pod_rec : jsondict :=
  <["attachTime" := VTime 5000%Z]> (<["boundTime" := VTime 3500%Z]> (<["containerTime" := VTime 9999%Z]>
  (<["endTime" := VTime 20000%Z]> (initializeRecord "create" "p" "pods" "default" 1001%Z)))).

Definition ex_pod_out : jsondict := Eval vm_compute in
  match calculateDelta ParsePVCPod ex_pod_rec with Ret r => r | _ => ∅ end.

Lemma deltas_sum_to_duration_witness :
  exists d d12 d23 d34 d45, ex_pod_out !! "duration" = Some (VInt64 d) /\
    ex_pod_out !! "delta12" = Some (VInt64 d12) /\ ex_pod_out !! "delta23" = Some (VInt64 d23) /\
    ex_pod_out !! "delta34" = Some (VInt64 d34) /\ ex_pod_out !! "delta45" = Some (VInt64 d45) /\
    ex_pod_out !! "delta14" = Some (VInt64 (timeDiff 1001%Z 9999%Z)) /\
    (0 <= d - (d12 + d23 + d34 + d45) <= 3)%Z.
Proof.
  apply (deltas_sum_to_duration ParsePVCPod ex_pod_rec ex_pod_out 1001%Z 3500%Z 5000%Z 9999%Z 20000%Z);
    [vm_compute; reflexivity..|lia|lia|unfold max_int64; lia].
Defined.

Definition ex_joined : list jsondict :=
  [<["pvName" := VStr "pv1"]> (initializeRecord "create" "p" "pods" "default" 0%Z);
   <["pvName" := VStr "pv1"]> (<["endTime" := VTime 7%Z]>
     (initializeRecord "create" "c" "persistentvolumeclaims" "default" 0%Z))].

Lemma boundTimes_joins_witness :
  exists pod', boundTimes ex_joined !! 0 = Some pod' /\ pod' !! "boundTime" = Some (VTime 7%Z).
Proof.
  eapply (boundTimes_joins ex_joined 0 1 (VStr "pv1") (VTime 7%Z)); [reflexivity..|].
  intros i rec Hi _. apply lookup_lt_Some in Hi. simpl in Hi. lia.
Defined.

Definition ex_unbound : pstate := Eval vm_compute in
  match parse_lines 5 [ex_create; ex_attach; ex_running] init_pstate with
  | Ret (st, _) => st
  | _ => init_pstate
  end.

Lemma ParseLogs_unbound_panics_witness :
  ~ returns (ParseLogs [ex_create; ex_attach; ex_running] (Z.lor ParseCreate ParsePVCPod)).
Proof.
  apply (ParseLogs_unbound_panics _ _ ex_unbound (nth 0 (boundTimes (results ex_unbound)) ∅)
    (VTime (default 0%Z (parse_rfc3339nano "2020-07-10T20:12:34.5Z")))).
  - reflexivity.
  - vm_compute. reflexivity.
  - apply list_elem_of_lookup_2 with 0. vm_compute. reflexivity.
  - vm_compute. reflexivity.
  - vm_compute. reflexivity.
Defined.
