(* ===== verification/TimingCopy.v ===== *)
(** * The copies of the streaming analyser (util/analysis/objecttiming)

    The analyser is a program of its own and has a copy of most of
    pkg/objecttiming: create.go, scale.go, pvcpod.go, objinfo.go, types.go,
    constants.go, helpers.go and parsetime.go (timing.go there) have the same
    text but for the package name, comments and the last function of helpers.go,
    and so has its [setEndTime].  So a function of the program is, by definition,
    the one modelled for the package; ObjectTiming.v calls it by its name here. *)
From S2P Require Import Prelude GoStrings GoTime GoJson AuditLog.
From S2P Require TimingRecords CreateTiming ScaleTiming PvcPod ParseLogs.

(** ** types.go, constants.go, parsetime.go *)
Definition auditlog := AuditLog.auditlog.
Definition objref := AuditLog.objref.
Definition reqobject := AuditLog.reqobject.
Definition involvedobject := AuditLog.involvedobject.
Definition respobject := AuditLog.respobject.
Definition spec := AuditLog.spec.

Definition ParseCreate := TimingRecords.ParseCreate.
Definition ParseScale := TimingRecords.ParseScale.
Definition ParsePVCPod := TimingRecords.ParsePVCPod.
Definition ParseDelete := TimingRecords.ParseDelete.
Definition ParseResize := TimingRecords.ParseResize.
Definition strCreate := TimingRecords.strCreate.
Definition strScale := TimingRecords.strScale.
Definition strDelete := TimingRecords.strDelete.
Definition strResize := TimingRecords.strResize.

Definition parseStrTime := TimingRecords.parseStrTime.
Definition getStartTime := TimingRecords.getStartTime.
Definition getEndTime := TimingRecords.getEndTime.
Definition timeDiff := TimingRecords.timeDiff.

(** ** helpers.go, objinfo.go *)
Definition initializeRecord := TimingRecords.initializeRecord.
Definition getGenericStart := TimingRecords.getGenericStart.
Definition objectMatch := TimingRecords.objectMatch.
Definition getName := TimingRecords.getName.
Definition getResource := TimingRecords.getResource.
Definition getNamespace := TimingRecords.getNamespace.
Definition getIdentification := TimingRecords.getIdentification.
Definition getEndIndex := TimingRecords.getEndIndex.
Definition findLog := TimingRecords.findLog.
Definition convertName := TimingRecords.convertName.

(** Here the function formats one record, where that of the package has a loop. *)
Definition formatResourceName (record : jsondict) : outcome jsondict :=
  resource ← as_string (record !! "resource");
  Ret (<["resource" := VStr (convertName resource)]> record).

Definition isGetCreateRequest := TimingRecords.isGetCreateRequest.
Definition saveObjInfo := ScaleTiming.saveObjInfo.
Definition addInfo := TimingRecords.addInfo.
Definition getObjInfo := TimingRecords.getObjInfo.
Definition setEndTime := TimingRecords.setEndTime.

(** ** create.go *)
Definition createStatus := CreateTiming.createStatus.
Definition createEndCrit := CreateTiming.createEndCrit.
Definition isCreateStart := CreateTiming.isCreateStart.
Definition isCreateEnd := CreateTiming.isCreateEnd.
Definition isMatch := CreateTiming.isMatch.
Definition getCreateStart := CreateTiming.getCreateStart.
Definition getCreateEndIndex := CreateTiming.getCreateEndIndex.

(** ** scale.go *)
Definition scaleStatus := ScaleTiming.scaleStatus.
Definition scaleEndCrit := ScaleTiming.scaleEndCrit.
Definition isScaleStart := ScaleTiming.isScaleStart.
Definition isScaleEnd := ScaleTiming.isScaleEnd.
Definition getScaleStart := ScaleTiming.getScaleStart.
Definition getScaleEndIndex := ScaleTiming.getScaleEndIndex.
Definition allGoalsFulfilled := ScaleTiming.allGoalsFulfilled.
Definition getGoalValue := ScaleTiming.getGoalValue.
Definition specLabel := ScaleTiming.specLabel.
Definition startLabel := ScaleTiming.startLabel.
Definition endLabel := ScaleTiming.endLabel.

(** ** pvcpod.go *)
Definition pvcPodStatus := PvcPod.pvcPodStatus.
Definition isAttachVolumeEvent := PvcPod.isAttachVolumeEvent.
Definition setAttachTime := PvcPod.setAttachTime.
Definition isContainerCreatingStatus := PvcPod.isContainerCreatingStatus.
Definition setContainerTime := PvcPod.setContainerTime.
Definition boundTimes := PvcPod.boundTimes.
