(* ===== verification/TimingOutput.v ===== *)
(** * Printing timing records (pkg/objecttiming/output.go)

    The rows of the result table.  [fmt.Fprintf] reports a missing field or a
    field of the wrong dynamic type inside the text instead of failing, so the
    two verbs are modelled with their error forms.  TabWriter.v aligns the
    columns. *)
From S2P Require Import Prelude GoStrings TabWriter GoTime GoJson AuditLog TimingRecords CreateTiming.
From S2P Require Import ScaleTiming PvcPod ParseLogs ParseLogsInv ParseLogsSpec ParseLogsThm.

Definition tab : string := String (ascii_of_nat 9) EmptyString.
Definition newline : string := String (ascii_of_nat 10) EmptyString.

Definition show_bool (b : bool) : string := if b then "true" else "false".

(** [%s] of an interface value; [None] where the text depends on a [String]
    method or on map printing, which no printed field of a record holds. *)
Definition fmt_s (x : option value) : option string :=
  match x with
  | None => Some "%!s(<nil>)"
  | Some (VStr s) => Some s
  | Some (VInt64 n) => Some ("%!s(int64=" +:+ itoa n +:+ ")")
  | Some (VUint8 n) => Some ("%!s(uint8=" +:+ itoa n +:+ ")")
  | Some (VBool b) => Some ("%!s(bool=" +:+ show_bool b +:+ ")")
  | Some (VTime _) | Some (VLabels _) => None
  end.

(** [%d] of an interface value. *)
Definition fmt_d (x : option value) : option string :=
  match x with
  | None => Some "%!d(<nil>)"
  | Some (VInt64 n) | Some (VUint8 n) => Some (itoa n)
  | Some (VStr s) => Some ("%!d(string=" +:+ s +:+ ")")
  | Some (VBool b) => Some ("%!d(bool=" +:+ show_bool b +:+ ")")
  | Some (VTime _) | Some (VLabels _) => None
  end.

Definition printCreateRow (rec : jsondict) : option string :=
  a ← fmt_s (rec !! "action"); n ← fmt_s (rec !! "name");
  r ← fmt_s (rec !! "resource"); d ← fmt_d (rec !! "duration");
  Some (a +:+ tab +:+ n +:+ tab +:+ r +:+ tab +:+ d +:+ tab +:+ tab +:+ newline).

Definition printScaleRow (rec : jsondict) : option string :=
  a ← fmt_s (rec !! "action"); n ← fmt_s (rec !! "name");
  r ← fmt_s (rec !! "resource"); d ← fmt_d (rec !! "duration");
  s ← fmt_d (rec !! "startReplicas"); e ← fmt_d (rec !! "endReplicas");
  Some (a +:+ tab +:+ n +:+ tab +:+ r +:+ tab +:+ d +:+ tab +:+ s +:+ tab +:+ e +:+ newline).

(** The type assertion on the action panics; the row is as above. *)
Definition printRow (rec : jsondict) : outcome (option string) :=
  a ← as_string (rec !! "action");
  Ret (if decide (a = strCreate) then printCreateRow rec
       else if decide (a = strScale) then printScaleRow rec
       else printCreateRow rec).

Definition table_header : string :=
  "action" +:+ tab +:+ "name" +:+ tab +:+ "resource" +:+ tab +:+ "duration(microsec)" +:+ tab
  +:+ "startReplicas" +:+ tab +:+ "endReplicas" +:+ newline.

(** Everything written to the tab writer, in order. *)
Definition table_rows (records : list jsondict) : outcome (list (option string)) :=
  rows ← mapO printRow records; Ret (Some table_header :: rows).

(** What [Flush] writes to the standard output. *)
Definition PrintTableResults (records : list jsondict) : outcome (option string) :=
  rows ← table_rows records;
  Ret (texts ← mapM id rows; Some (tabwriter (foldr String.append EmptyString texts))).

(** ** Theorems *)
Lemma fmt_s_str s : fmt_s (Some (VStr s)) = Some s.
Proof. reflexivity. Qed.

Lemma printCreateRow_base a n r ns d rec :
  rec_for a n r ns rec -> rec !! "duration" = Some (VInt64 d) ->
  printCreateRow rec =
    Some (a +:+ tab +:+ n +:+ tab +:+ r +:+ tab +:+ itoa d +:+ tab +:+ tab +:+ newline).
Proof. intros (Ha & Hn & Hr & _) Hd. unfold printCreateRow. by rewrite Ha, Hn, Hr, Hd. Qed.

(** The records that [ParseLogs] returns without an error can always be
    printed: one row per record after the header, and a creation's row shows
    its name, resource and duration. *)
Theorem table_rows_print logs flags rs :
  ParseLogs logs flags = Ret (rs, false) ->
  exists rows, table_rows rs = Ret (Some table_header :: rows) /\
    length rows = length rs /\
    forall i rec n r ns, rs !! i = Some rec -> rec_for strCreate n r ns rec ->
      exists d, rec !! "duration" = Some (VInt64 d) /\ rows !! i = Some (Some
        ("create" +:+ tab +:+ n +:+ tab +:+ r +:+ tab +:+ itoa d +:+ tab +:+ tab +:+ newline)).
Proof.
  intros Hok%ParseLogs_final_ok. unfold table_rows.
  destruct (mapO_returns printRow rs) as [rows Hrows].
  { eapply Forall_impl; [|exact Hok]. intros rec ((a & n & r & ns & Ha & _) & _).
    unfold printRow, as_string. rewrite Ha. by eexists. }
  rewrite Hrows. exists rows. split_and!; [done|by eapply mapO_length|].
  intros i rec n r ns Hi Hrec. apply mapO_Forall2 in Hrows.
  destruct (Forall2_lookup_l _ _ _ _ _ Hrows Hi) as (row & Hrow & Hp).
  eapply Forall_lookup_1 in Hok as (_ & (d & Hd & _) & _); [|exact Hi].
  exists d. split; [done|]. rewrite Hrow. f_equal. unfold printRow, as_string in Hp.
  rewrite (proj1 Hrec) in Hp. simpl in Hp. injection Hp as <-.
  by apply (printCreateRow_base strCreate n r ns).
Qed.

Lemma table_rows_print_witness :
  exists rows, table_rows
      [<["duration" := VInt64 2999999]> (<["resource" := VStr "Pod"]>
        (delete "startTime" (initializeRecord "create" "p" "pods" "default" 0%Z)))]
    = Ret (Some table_header :: rows) /\ length rows = 1.
Proof.
  destruct (table_rows_print [ex_create; ex_running] ParseCreate
    [<["duration" := VInt64 2999999]> (<["resource" := VStr "Pod"]>
        (delete "startTime" (initializeRecord "create" "p" "pods" "default" 0%Z)))])
    as (rows & H1 & H2 & _); [vm_compute; reflexivity|]. exists rows. split; [exact H1|exact H2].
Defined.

(** ** Scalings of jobs *)
Definition ex_job_create : string := quoted "{'stage':'ResponseComplete','verb':'create','requestReceivedTimestamp':'2020-07-10T20:12:33Z','stageTimestamp':'2020-07-10T20:12:33.1Z','objectRef':{'resource':'jobs','namespace':'default','name':'j'},'responseStatus':{'code':201},'responseObject':{'spec':{'parallelism':1}}}".
Definition ex_job_scale : string := quoted "{'stage':'ResponseComplete','verb':'patch','requestReceivedTimestamp':'2020-07-10T20:12:34Z','stageTimestamp':'2020-07-10T20:12:34.1Z','objectRef':{'resource':'jobs','namespace':'default','name':'j'},'responseStatus':{'code':200},'responseObject':{'spec':{'parallelism':3}}}".
Definition ex_job_done : string := quoted "{'stage':'ResponseComplete','verb':'update','requestReceivedTimestamp':'2020-07-10T20:12:36Z','stageTimestamp':'2020-07-10T20:12:36.5Z','objectRef':{'resource':'jobs','namespace':'default','name':'j','subresource':'status'},'responseStatus':{'code':200},'requestObject':{'status':{'active':3}},'responseObject':{'spec':{'parallelism':3},'status':{'active':3}}}".

Definition ex_job_rec : jsondict := Eval vm_compute in
  match ParseLogs [ex_job_create; ex_job_scale; ex_job_done] ParseScale with
  | Ret ([rec], false) => rec
  | _ => ∅
  end.

(** A job that is scaled from one to three is recorded with its
    [startParallelism] and [endParallelism], but the table reads
    [startReplicas] and [endReplicas], so its row shows two missing values. *)
Theorem job_scaling_row_has_nil :
  exists rec, ParseLogs [ex_job_create; ex_job_scale; ex_job_done] ParseScale = Ret ([rec], false) /\
    rec !! "startParallelism" = Some (VUint8 1) /\ rec !! "endParallelism" = Some (VUint8 3) /\
    printRow rec = Ret (Some ("scale" +:+ tab +:+ "j" +:+ tab +:+ "Job" +:+ tab +:+ "2500000" +:+ tab
      +:+ "%!d(<nil>)" +:+ tab +:+ "%!d(<nil>)" +:+ newline)).
Proof.
  exists ex_job_rec. split; [vm_compute; reflexivity|]. split; [vm_compute; reflexivity|].
  split; vm_compute; reflexivity.
Qed.
