(* ===== verification/ObjectTiming.v ===== *)
(** * The streaming analyser (util/analysis/objecttiming/parselogs.go, main.go)

    The command line tool follows an audit log and prints an action as soon as
    it has finished.  Its record types, criteria and helpers are copies of the
    files of pkg/objecttiming (TimingCopy.v); what differs is the test for a
    creation that is already ongoing, the loop that prints the finished actions,
    and the flags. *)
From S2P Require Import Prelude GoStrings GoTime GoJson AuditLog TimingRecords CreateTiming.
From S2P Require Import ScaleTiming PvcPod ParseLogs ParseLogsInv ParseLogsSpec ParseLogsThm.
From S2P Require TimingCopy.

(** ** parseLog *)

(** The loop [for _, o := range ongoing]: is an action for an object of the
    same name ongoing?  The assertion on the name can panic. *)
Fixpoint name_ongoing (name : string) (ongoing : list jsondict) : outcome bool :=
  match ongoing with
  | [] => Ret false
  | o :: ongoing' =>
      n ← as_string (o !! "name");
      if decide (n = name) then Ret true else name_ongoing name ongoing'
  end.

(** Create action parsing; a creation for a name that is already ongoing is
    dropped.  The end is handled as in [ParseLogs.create_action]. *)
Definition create_action (log : auditlog) (st : pstate) : outcome (option pstate) :=
  if TimingCopy.isCreateStart log (ongoing st) then
    record ← TimingCopy.getCreateStart log;
    dup ← name_ongoing (or_Name (ObjectRef log)) (ongoing st);
    if dup : bool then Ret (Some st)
    else Ret (Some (PState (ongoing st ++ [record]) (results st) (objstore st)))
  else ParseLogs.create_action log st.

Definition parseLog (flags : Z) (log : auditlog) (st : pstate) : outcome pstate :=
  if decide (Stage log = "ResponseComplete") then
    flagged flags ParseCreate (create_action log)
      (flagged flags ParseScale (scale_action log)
        (flagged flags ParsePVCPod (pvcpod_action log) (save_action log))) st
  else Ret st.

(** ** outputFinishedActions *)

(** The first loop: the durations of the finished actions. *)
Definition finish_result (flags : Z) (result : jsondict) : outcome jsondict :=
  startTime ← as_time (result !! "startTime");
  endTime ← as_time (result !! "endTime");
  if has_flag flags ParsePVCPod && bool_decide (result !! "resource" = Some (VStr "pod")) then
    match result !! "attachTime" with
    | Some at_ =>
        attachTime ← as_time (Some at_);
        boundTime ← as_time (result !! "boundTime");
        containerTime ← as_time (result !! "containerTime");
        Ret (delete_keys cleanup_keys (<["duration" := VInt64 (TimingCopy.timeDiff startTime endTime)]>
          (set_deltas startTime boundTime attachTime containerTime endTime result)))
    | None => Ret result
    end
  else Ret (delete_keys ["startTime"; "endTime"]
              (<["duration" := VInt64 (TimingCopy.timeDiff startTime endTime)]> result)).

(** [formatResourceName] and [OutputJson] for every entry of [namespaces] that
    is the record's namespace; the printed records. *)
Fixpoint output_in (namespaces : list string) (result : jsondict) : outcome (list jsondict) :=
  match namespaces with
  | [] => Ret []
  | ns :: namespaces' =>
      if bool_decide (result !! "namespace" = Some (VStr ns)) then
        result' ← TimingCopy.formatResourceName result;
        out ← output_in namespaces' result';
        Ret (result' :: out)
      else output_in namespaces' result
  end.

(** The second loop: [range] reads the backing array up to the length the slice
    had at its start, while the body cuts [results]. *)
Definition output_step (namespaces : list string) (s : slice jsondict * list jsondict) (i : nat)
    : outcome (slice jsondict * list jsondict) :=
  let '(results, out) := s in
  match sl_arr results !! i with
  | None => Ret (results, out)
  | Some result =>
      match result !! "duration" with
      | None => Ret (results, out)
      | Some _ =>
          results' ← slice_cut i results;
          o ← output_in namespaces result;
          Ret (results', out ++ o)
      end
  end.

Definition outputFinishedActions (flags : Z) (namespaces : list string) (results : list jsondict)
    : outcome (list jsondict * list jsondict) :=
  rs ← mapO (finish_result flags) results;
  '(s, out) ← foldM (output_step namespaces) (slice_of rs, []) (seq 0 (length rs));
  Ret (slice_list s, out).

(** ** The callback and the stream *)

(** [callback]: the new state, whether an error is returned, and the output. *)
Definition callback (flags : Z) (namespaces : list string) (line : string) (st : pstate)
    : outcome (pstate * bool * list jsondict) :=
  match unmarshal_log line with
  | None => Ret (st, true, [])
  | Some log =>
      st' ← parseLog flags log st;
      '(rs, out) ← outputFinishedActions flags namespaces (results st');
      Ret (PState (ongoing st') rs (objstore st'), false, out)
  end.

(** The lines the log reader hands to the callback, whose error it drops. *)
Fixpoint stream (flags : Z) (namespaces : list string) (lines : list string) (st : pstate)
    : outcome (pstate * list jsondict) :=
  match lines with
  | [] => Ret (st, [])
  | line :: lines' =>
      '(st', _, out) ← callback flags namespaces line st;
      '(st'', outs) ← stream flags namespaces lines' st';
      Ret (st'', out ++ outs)
  end.

(** ** main *)
Definition resource_flags (s : Z * bool * bool) (r : string) : Z * bool * bool :=
  let '(flags, pod, pvc) := s in
  if decide (r = "pod") then (Z.lor flags TimingCopy.ParseCreate, true, pvc)
  else if decide (r = "pvc") then (Z.lor flags TimingCopy.ParseCreate, pod, true)
  else if decide (r = "pv") then (Z.lor flags TimingCopy.ParseCreate, pod, pvc)
  else if decide (r = "deployment" \/ r = "job" \/ r = "replicaset" \/ r = "statefulset")
  then (Z.lor flags TimingCopy.ParseScale, pod, pvc)
  else (flags, pod, pvc).

Definition parse_flags (resourcePtr : string) : Z :=
  let '(flags, pod, pvc) := foldl resource_flags (0%Z, false, false) (split ","%char resourcePtr) in
  if pod && pvc then Z.lor flags TimingCopy.ParsePVCPod else flags.

Definition default_file : string := "/var/log/apiserver/audit.log".

(** The file, the flags and the namespaces of a command line. *)
Definition main_args (args : list string) (resourcePtr nsPtr : string) : string * Z * list string :=
  (hd default_file args, parse_flags resourcePtr, split ","%char nsPtr).

(** ** Invariant of the stream *)
Definition not_pod (rec : jsondict) : Prop := rec !! "resource" <> Some (VStr "pod").

Definition stream_inv (st : pstate) : Prop :=
  inv st /\ Forall not_pod (ongoing st) /\ Forall not_pod (results st).

(** Output of a record: its duration instead of the two time stamps, and the
    resource under its capitalised name. *)
Definition printed (rec o : jsondict) : Prop :=
  exists t1 t5 r, rec !! "startTime" = Some (VTime t1) /\ rec !! "endTime" = Some (VTime t5) /\
    rec !! "resource" = Some (VStr r) /\
    o !! "duration" = Some (VInt64 (timeDiff t1 t5)) /\ o !! "resource" = Some (VStr (convertName r)) /\
    o !! "startTime" = None /\ o !! "endTime" = None /\
    forall k, k ∉ ["startTime"; "endTime"; "duration"; "resource"] -> o !! k = rec !! k.

Lemma not_pod_agree rec rec' : rec' !! "resource" = rec !! "resource" -> not_pod rec -> not_pod rec'.
Proof. unfold not_pod. by intros ->. Qed.

Lemma end_record_not_pod log i st rec :
  stream_inv st -> end_record log i st = Ret rec -> not_pod rec /\ result_ok rec.
Proof.
  intros (Hi & Ho & _) H. eapply end_record_spec in H as (rec0 & t & E & Ha & _ & Ht & Hok); [|done].
  split; [|by eapply result_ok_end]. eapply not_pod_agree; [by apply Ha|].
  by eapply Forall_lookup_1 in Ho.
Qed.

Lemma finish_not_pod i rec st :
  Forall not_pod (ongoing st) -> Forall not_pod (results st) -> not_pod rec ->
  Forall not_pod (ongoing (finish i rec st)) /\ Forall not_pod (results (finish i rec st)).
Proof.
  intros Ho Hr Hrec. split; simpl; [by apply Forall_delete_list|].
  apply Forall_app. by split; [|constructor].
Qed.

Definition no_pods (st : pstate) : Prop := Forall not_pod (ongoing st) /\ Forall not_pod (results st).

Lemma stream_inv_no_pods st : stream_inv st -> no_pods st.
Proof. by intros (_ & ? & ?). Qed.

Lemma push_no_pods rec st : no_pods st -> not_pod rec ->
  no_pods (PState (ongoing st ++ [rec]) (results st) (objstore st)).
Proof. intros [Ho Hr] Hrec. split; simpl; [|done]. apply Forall_app. by split; [|constructor]. Qed.

Lemma finish_no_pods log i rec st f :
  stream_inv st -> end_record log i st = Ret rec ->
  (f rec : jsondict) !! "resource" = rec !! "resource" -> no_pods (finish i (f rec) st).
Proof.
  intros Hi Hrec Hf. destruct (end_record_not_pod _ _ _ _ Hi Hrec) as [Hn _].
  destruct Hi as (_ & Ho & Hr). apply finish_not_pod; [done..|]. by eapply not_pod_agree.
Qed.

Lemma create_start_not_pod log st rec :
  isCreateStart log (ongoing st) = true -> getCreateStart log = Ret rec -> not_pod rec.
Proof.
  intros (_ & _ & [ph Hp])%isCreateStart_spec Hr.
  destruct (getGenericStart_spec log strCreate rec Hr) as (t & _ & ->).
  destruct (initializeRecord_for strCreate (getName log) (getResource log) (getNamespace log) t)
    as (_ & _ & Hres & _).
  unfold not_pod. rewrite Hres. intros [= E]. unfold getResource in E. rewrite E in Hp. discriminate Hp.
Qed.

Lemma create_action_no_pods log st r :
  stream_inv st -> ParseLogs.create_action log st = Ret r -> from_option no_pods True r.
Proof.
  intros Hi. unfold ParseLogs.create_action. destruct (isCreateStart log (ongoing st)) eqn:Es; intros H;
    apply outcome_bind_ret in H as (x & Hx & H).
  - injection H as <-. apply push_no_pods; [by apply stream_inv_no_pods|]. by eapply create_start_not_pod.
  - destruct x as [i|]; [|by injection H as <-].
    apply outcome_bind_ret in H as (rec & Hrec & [= <-]). cbn [from_option]. case_decide.
    + apply (finish_no_pods log i rec st (fun r => <["pvName" := _]> r)); [done..|].
      by rewrite lookup_insert_ne.
    + by apply (finish_no_pods log i rec st (fun r => r)).
Qed.

Lemma isScaleStart_supported log store all :
  isScaleStart log store all = Ret true -> is_Some (scaleEndCrit !! or_Resource (ObjectRef log)).
Proof.
  unfold isScaleStart. destruct (_ && _); [done|]. destruct (negb _); [done|].
  destruct (scaleEndCrit !! _); [eauto|done].
Qed.

Lemma scale_action_no_pods log st r :
  stream_inv st -> scale_action log st = Ret r -> from_option no_pods True r.
Proof.
  intros Hi. unfold scale_action. intros H. apply outcome_bind_ret in H as ([] & Hs & H).
  - apply outcome_bind_ret in H as (st1 & Hf & H). apply outcome_bind_ret in H as (rec & Hx & [= <-]).
    apply push_no_pods.
    + revert Hf. unfold force_end. destruct (getScaleEndIndex _ _) as [i|]; [|intros [= <-]; by apply stream_inv_no_pods].
      intros H. apply outcome_bind_ret in H as (rec' & Hrec & [= <-]).
      apply (finish_no_pods log i rec' st (fun r => <["unfinished" := _]> r)); [done..|].
      by rewrite lookup_insert_ne.
    + apply getScaleStart_ok in Hx as [_ (_ & _ & Hres & _)]. unfold not_pod. rewrite Hres.
      intros [= E]. apply isScaleStart_supported in Hs as [c Hc]. unfold getResource in E.
      rewrite E in Hc. discriminate Hc.
  - apply outcome_bind_ret in H as ([i|] & _ & H); [|by injection H as <-].
    apply outcome_bind_ret in H as (rec & Hrec & [= <-]).
    by apply (finish_no_pods log i rec st (fun r => r)).
Qed.

Lemma alter_no_pods f i l :
  (forall rec, f rec !! "resource" = (rec : jsondict) !! "resource") ->
  Forall not_pod l -> Forall not_pod (alter f i l).
Proof.
  intros Hf Hl. apply Forall_alter; [done|]. intros x _ Hx. eapply not_pod_agree; [apply Hf|exact Hx].
Qed.

Lemma pvcpod_action_no_pods log st r :
  stream_inv st -> pvcpod_action log st = Ret r -> from_option no_pods True r.
Proof.
  intros (_ & Ho & Hr). unfold pvcpod_action. destruct (isAttachVolumeEvent log); intros H.
  - apply outcome_bind_ret in H as (l & Hl & [= <-]). split; [|done]. simpl. revert Hl.
    unfold setAttachTime. destruct (findLog _ _ _ _ _) as [i|]; [|by intros [= <-]].
    intros H. apply outcome_bind_ret in H as (t & _ & [= <-]).
    apply alter_no_pods; [|done]. intros rec. by rewrite !lookup_insert_ne.
  - apply outcome_bind_ret in H as ([] & _ & H); [|by injection H as <-].
    apply outcome_bind_ret in H as (l & Hl & [= <-]). split; [|done]. simpl. revert Hl.
    unfold setContainerTime. destruct (findLog _ _ _ _ _) as [i|]; [|by intros [= <-]].
    intros H. apply outcome_bind_ret in H as (t & _ & [= <-]).
    apply alter_no_pods; [|done]. intros rec. by rewrite lookup_insert_ne.
Qed.

(** Creations of the stream are creations of the batch parser, or dropped. *)
Lemma create_action_cases log st r :
  create_action log st = Ret r -> r = Some st \/ ParseLogs.create_action log st = Ret r.
Proof.
  unfold create_action, TimingCopy.isCreateStart, TimingCopy.getCreateStart.
  destruct (isCreateStart log (ongoing st)) eqn:E; [|by right].
  intros H. apply outcome_bind_ret in H as (rec & Hrec & H).
  apply outcome_bind_ret in H as ([] & _ & H); [by left; injection H as <-|].
  right. unfold ParseLogs.create_action. rewrite E, Hrec. exact H.
Qed.

Lemma parseLog_cases flags log st st' :
  parseLog flags log st = Ret st' -> st' = st \/ parse_log flags log st = Ret st'.
Proof.
  unfold parseLog, parse_log. case_decide; [|intros [= <-]; by left].
  unfold flagged at 1. intros Hp. unfold flagged at 1. destruct (has_flag flags ParseCreate); [|by right].
  apply outcome_bind_ret in Hp as (r & Hc & Hr).
  destruct (create_action_cases _ _ _ Hc) as [->|Hb].
  - left. by injection Hr as <-.
  - right. rewrite Hb. simpl. destruct r; exact Hr.
Qed.

Lemma parseLog_inv flags log st st' :
  stream_inv st -> parseLog flags log st = Ret st' -> stream_inv st'.
Proof.
  intros Hi [->|H]%parseLog_cases; [done|].
  split; [by eapply parse_log_inv; [apply Hi|]|]. change (no_pods st'). revert H.
  apply (parse_log_preserves no_pods); [..|by apply stream_inv_no_pods].
  - intros r _. by apply create_action_no_pods.
  - intros r _. by apply scale_action_no_pods.
  - intros r _. by apply pvcpod_action_no_pods.
  - intros s _. unfold save_action. destruct (isGetCreateRequest log); [|intros [= <-]; by apply stream_inv_no_pods].
    intros H. apply outcome_bind_ret in H as (store & _ & [= <-]). by apply stream_inv_no_pods in Hi.
Qed.

(** ** Printing one finished action *)
Lemma convertName_idemp r : convertName (convertName r) = convertName r.
Proof. unfold convertName at 2 3. repeat (case_decide; [reflexivity|]). unfold convertName. by rewrite !decide_False. Qed.

Lemma finish_result_spec flags rec :
  result_ok rec -> not_pod rec -> exists t1 t5,
    rec !! "startTime" = Some (VTime t1) /\ rec !! "endTime" = Some (VTime t5) /\
    finish_result flags rec = Ret (delete_keys ["startTime"; "endTime"]
      (<["duration" := VInt64 (timeDiff t1 t5)]> rec)).
Proof.
  intros ([_ [t1 H1]] & [t5 H5] & _) Hn. exists t1, t5. split_and!; [done..|].
  unfold finish_result, TimingCopy.timeDiff. rewrite H1, H5. simpl. by rewrite (bool_decide_false _ Hn), andb_false_r.
Qed.

(** Printing in every matching namespace. *)
Definition count_ns (nss : list string) (rec : jsondict) : nat :=
  length (filter (fun ns => rec !! "namespace" = Some (VStr ns)) nss).

Lemma output_in_spec nss rec r :
  rec !! "resource" = Some (VStr r) ->
  output_in nss rec = Ret (replicate (count_ns nss rec) (<["resource" := VStr (convertName r)]> rec)).
Proof.
  revert rec r. induction nss as [|ns nss IH]; intros rec r Hr; [done|]. cbn [output_in].
  unfold count_ns. rewrite filter_cons. case_bool_decide as Hn.
  - rewrite decide_True by done. unfold TimingCopy.formatResourceName, as_string. rewrite Hr. simpl.
    rewrite (IH _ (convertName r)) by apply lookup_insert_eq. simpl.
    rewrite insert_insert_eq, convertName_idemp.
    unfold count_ns. do 3 f_equal. f_equal. apply list_filter_iff. intros x.
    by rewrite lookup_insert_ne.
  - rewrite decide_False by done. by apply IH.
Qed.

Lemma outputFinishedActions_nil flags nss : outputFinishedActions flags nss [] = Ret ([], []).
Proof. reflexivity. Qed.

Lemma outputFinishedActions_one flags nss rec :
  result_ok rec -> not_pod rec ->
  exists o, outputFinishedActions flags nss [rec] = Ret ([], replicate (count_ns nss rec) o) /\
    printed rec o.
Proof.
  intros Hok Hn. destruct (finish_result_spec flags rec Hok Hn) as (t1 & t5 & H1 & H5 & Hf).
  destruct Hok as ([(a & n & r & ns & (_ & _ & Hr & _)) _] & _).
  set (rec1 := delete_keys _ _) in Hf. exists (<["resource" := VStr (convertName r)]> rec1).
  assert (forall k, k ∉ ["startTime"; "endTime"; "duration"] -> rec1 !! k = rec !! k) as Hsame.
  { intros k Hk. unfold rec1. rewrite lookup_delete_keys, bool_decide_false by set_solver.
    rewrite lookup_insert_ne; [done|set_solver]. }
  assert (rec1 !! "duration" = Some (VInt64 (timeDiff t1 t5))) as Hd.
  { unfold rec1. rewrite lookup_delete_keys, bool_decide_false by set_solver. apply lookup_insert_eq. }
  split.
  - unfold outputFinishedActions. cbn [mapO]. rewrite Hf. cbn [mbind outcome_bind mapO length seq foldM].
    unfold output_step at 1, slice_of at 1. cbn [sl_arr lookup list_lookup]. rewrite Hd.
    change (slice_cut 0 (slice_of [rec1])) with (Ret (Slice [rec1] 0)). cbn [mbind outcome_bind].
    rewrite (output_in_spec nss rec1 r) by (rewrite Hsame; [done|set_solver]).
    simpl. unfold slice_list. simpl. do 3 f_equal. unfold count_ns. f_equal.
    apply list_filter_iff. intros x. rewrite Hsame; [done|set_solver].
  - exists t1, t5, r. split_and!; try done.
    + by rewrite lookup_insert_ne.
    + apply lookup_insert_eq.
    + rewrite lookup_insert_ne by done. unfold rec1. rewrite lookup_delete_keys. by rewrite bool_decide_true by set_solver.
    + rewrite lookup_insert_ne by done. unfold rec1. rewrite lookup_delete_keys. by rewrite bool_decide_true by set_solver.
    + intros k Hk. rewrite lookup_insert_ne by set_solver. apply Hsame. set_solver.
Qed.

(** ** Theorems *)
Lemma parseLog_results flags log st st1 :
  results st = [] -> parseLog flags log st = Ret st1 -> length (results st1) ≤ 1.
Proof.
  intros Hr [->|H]%parseLog_cases; [rewrite Hr; simpl; lia|].
  destruct (parse_log_accounts _ _ _ _ H) as (new & -> & Hn & _). by rewrite Hr.
Qed.

Definition stream_state (st : pstate) : Prop := stream_inv st /\ results st = [].

Lemma callback_step flags nss line st log st1 :
  stream_state st -> unmarshal_log line = Some log -> parseLog flags log st = Ret st1 ->
  exists out, callback flags nss line st = Ret (PState (ongoing st1) [] (objstore st1), false, out) /\
    stream_state (PState (ongoing st1) [] (objstore st1)) /\
    (results st1 = [] /\ out = [] \/
     exists rec o, results st1 = [rec] /\ printed rec o /\ out = replicate (count_ns nss rec) o).
Proof.
  intros [Hi Hr] Hu Hp. pose proof (parseLog_inv _ _ _ _ Hi Hp) as Hi1.
  pose proof (parseLog_results _ _ _ _ Hr Hp) as Hl.
  assert (stream_state (PState (ongoing st1) [] (objstore st1))) as Hst.
  { destruct Hi1 as ((Ho & _ & Hs) & Hn & _). split; [|done]. split; [split_and!; [done|constructor|done]|].
    split; [done|constructor]. }
  unfold callback. rewrite Hu, Hp. cbn [mbind outcome_bind].
  destruct (results st1) as [|rec [|]] eqn:E; [..|simpl in Hl; lia].
  - exists []. rewrite outputFinishedActions_nil. split_and!; [done..|by left].
  - destruct Hi1 as ((_ & Hres & _) & _ & Hn). rewrite E in Hres, Hn.
    inversion Hres; inversion Hn; subst.
    destruct (outputFinishedActions_one flags nss rec) as (o & -> & Ho); [done..|].
    exists (replicate (count_ns nss rec) o). split_and!; [done..|]. right. by exists rec, o.
Qed.

(** States of the stream between two lines. *)
Inductive stream_reachable (flags : Z) (nss : list string) : pstate -> Prop :=
  | stream_init : stream_reachable flags nss init_pstate
  | stream_step st line st' err out :
      stream_reachable flags nss st -> callback flags nss line st = Ret (st', err, out) ->
      stream_reachable flags nss st'.

Lemma stream_reachable_state flags nss st : stream_reachable flags nss st -> stream_state st.
Proof.
  induction 1 as [|st line st' err out _ IH H].
  - split; [|done]. split; [apply init_inv|]. split; constructor.
  - destruct (unmarshal_log line) as [log|] eqn:E.
    + pose proof H as H'. unfold callback in H'. rewrite E in H'.
      apply outcome_bind_ret in H' as (st1 & Hp & _).
      destruct (callback_step flags nss line st log st1 IH E Hp) as (out' & Hc & Hs & _).
      rewrite Hc in H. by injection H as <- _ _.
    + unfold callback in H. rewrite E in H. by injection H as <- _ _.
Qed.

(** C37: although the printing loop cuts the slice it ranges over, it is safe:
    in every state the stream can reach, a line that parses is followed by
    output that prints the at most one action it finished, once per matching
    entry of the namespace list and with its duration, and empties the results. *)
Theorem stream_prints_finished flags nss st line log st1 :
  stream_reachable flags nss st -> unmarshal_log line = Some log -> parseLog flags log st = Ret st1 ->
  exists out, callback flags nss line st = Ret (PState (ongoing st1) [] (objstore st1), false, out) /\
    (results st1 = [] /\ out = [] \/
     exists rec o, results st1 = [rec] /\ printed rec o /\ out = replicate (count_ns nss rec) o).
Proof.
  intros Hr Hu Hp. destruct (callback_step flags nss line st log st1) as (out & H1 & _ & H2);
    [by eapply stream_reachable_state|done..|]. by exists out.
Qed.

Lemma stream_prints_finished_witness :
  exists out, callback 1 ["default"] ex_running after_create = Ret (init_pstate, false, out) /\
    (results after_end = [] /\ out = [] \/
     exists rec o, results after_end = [rec] /\ printed rec o /\
       out = replicate (count_ns ["default"] rec) o).
Proof.
  apply (stream_prints_finished 1 ["default"] after_create ex_running ex_end_log after_end).
  - eapply (stream_step 1 ["default"] init_pstate ex_create); [apply stream_init|].
    vm_compute. reflexivity.
  - vm_compute. reflexivity.
  - vm_compute. reflexivity.
Defined.

(** ** Creations that are dropped *)
Lemma name_ongoing_true name l rec n :
  Forall base_ok l -> rec ∈ l -> rec !! "name" = Some (VStr n) -> n = name ->
  name_ongoing name l = Ret true.
Proof.
  intros Hb Hin Hn ->. induction Hb as [|o l [(a & m & r & ns & (_ & Hm & _)) _] _ IH].
  { by apply not_elem_of_nil in Hin. }
  cbn [name_ongoing]. unfold as_string. rewrite Hm. simpl. case_decide; [done|].
  apply IH. apply elem_of_cons in Hin as [->|]; [|done]. congruence.
Qed.

(** The stream ignores the creation of an object while an action for any
    object of the same name is ongoing, even one of another resource type or in
    another namespace. *)
Theorem stream_drops_same_name flags nss st log rec t :
  stream_reachable flags nss st -> has_flag flags ParseCreate = true ->
  Stage log = "ResponseComplete" -> isCreateStart log (ongoing st) = true ->
  parse_rfc3339nano (RequestReceivedTimestamp log) = Some t ->
  rec ∈ ongoing st -> rec !! "name" = Some (VStr (or_Name (ObjectRef log))) ->
  parseLog flags log st = Ret st.
Proof.
  intros Hr Hf Hs Hc Ht Hin Hn. apply stream_reachable_state in Hr as [((Ho & _) & _) _].
  unfold parseLog, flagged, create_action, TimingCopy.isCreateStart, TimingCopy.getCreateStart.
  rewrite decide_True by done. rewrite Hf, Hc.
  unfold getCreateStart, getGenericStart, getIdentification, getStartTime, parseStrTime. rewrite Ht.
  cbn [mbind outcome_bind]. rewrite (name_ongoing_true _ _ rec (or_Name (ObjectRef log))); [done| |done..].
  eapply Forall_impl; [|exact Ho]. by intros ? [].
Qed.

(** A pod of the same name in another namespace. *)
Definition ex_create_other : string := quoted "{'stage':'ResponseComplete','verb':'create','requestReceivedTimestamp':'2020-07-10T20:12:33.000001Z','stageTimestamp':'2020-07-10T20:12:33.1Z','objectRef':{'resource':'pods','namespace':'other','name':'p'},'responseStatus':{'code':201}}".
Definition ex_other_log : auditlog := default zero_auditlog (unmarshal_log ex_create_other).

Lemma stream_drops_same_name_witness : parseLog 1 ex_other_log after_create = Ret after_create.
Proof.
  apply (stream_drops_same_name 1 ["default"] after_create ex_other_log
    (nth 0 (ongoing after_create) ∅) (default 0%Z (parse_rfc3339nano "2020-07-10T20:12:33.000001Z"))).
  - eapply (stream_step 1 ["default"] init_pstate ex_create); [apply stream_init|].
    vm_compute. reflexivity.
  - reflexivity.
  - vm_compute. reflexivity.
  - vm_compute. reflexivity.
  - vm_compute. reflexivity.
  - apply list_elem_of_lookup_2 with 0. vm_compute. reflexivity.
  - vm_compute. reflexivity.
Defined.

Definition ex_stream : pstate * list jsondict := Eval vm_compute in
  match stream (Z.lor ParseCreate ParsePVCPod) ["default"] [ex_create; ex_attach; ex_running]
      init_pstate with
  | Ret s => s
  | _ => (init_pstate, [])
  end.

(** The stream compares the resource with "pod" where the records hold
    "pods": a pod with an attached volume is printed with its duration only, and
    its [attachTime] is left in the output. *)
Theorem stream_has_no_deltas :
  exists st o, stream (Z.lor ParseCreate ParsePVCPod) ["default"] [ex_create; ex_attach; ex_running]
      init_pstate = Ret (st, [o]) /\
    o !! "delta14" = None /\ is_Some (o !! "attachTime") /\ is_Some (o !! "duration").
Proof.
  exists (fst ex_stream), (nth 0 (snd ex_stream) ∅). split; [vm_compute; reflexivity|].
  split; [vm_compute; reflexivity|]. split; eexists; vm_compute; reflexivity.
Qed.
