(* ===== verification/StreamSim.v ===== *)
(** * The streaming analyser and the batch parser

    The two parsers of the audit log were copied from one another.  On a log
    without pod and claim timings, in which no creation is dropped for its name,
    the stream prints exactly the records the batch parser returns, in the same
    order, once per matching namespace; the records of claims carry the volume's
    name in addition.  The proof is a simulation line by line: both keep the same
    ongoing actions, and the results of the batch parser are what the stream has
    printed. *)
From S2P Require Import Prelude GoStrings GoTime GoJson AuditLog TimingRecords CreateTiming.
From S2P Require Import ScaleTiming PvcPod ParseLogs ParseLogsInv ParseLogsSpec ParseLogsThm ObjectTiming.

(** ** Earlier results do not matter to a line *)
Definition add_results (rs : list jsondict) (st : pstate) : pstate :=
  PState (ongoing st) (rs ++ results st) (objstore st).

Lemma add_results_finish rs i rec st :
  finish i rec (add_results rs st) = add_results rs (finish i rec st).
Proof. unfold finish, add_results. simpl. by rewrite (assoc_L (++)). Qed.

Lemma create_action_add rs log st :
  ParseLogs.create_action log (add_results rs st) =
    fmap (M := option) (add_results rs) <$> ParseLogs.create_action log st.
Proof.
  unfold ParseLogs.create_action. cbn [ongoing add_results].
  destruct (isCreateStart log (ongoing st)).
  - by destruct (getCreateStart log).
  - destruct (isCreateEnd log (ongoing st)) as [[i|]| |]; try done. simpl.
    change (end_record log i (add_results rs st)) with (end_record log i st).
    destruct (end_record log i st) as [rec| |]; try done. simpl. by rewrite add_results_finish.
Qed.

Lemma force_end_add rs log st :
  force_end log (add_results rs st) = add_results rs <$> force_end log st.
Proof.
  unfold force_end. cbn [ongoing add_results]. destruct (getScaleEndIndex log (ongoing st)) as [i|]; [|done].
  change (end_record log i (add_results rs st)) with (end_record log i st).
  destruct (end_record log i st) as [rec| |]; try done. simpl. by rewrite add_results_finish.
Qed.

Lemma scale_action_add rs log st :
  scale_action log (add_results rs st) = fmap (M := option) (add_results rs) <$> scale_action log st.
Proof.
  unfold scale_action. cbn [ongoing objstore add_results].
  destruct (isScaleStart log (objstore st) (ongoing st)) as [[]| |]; try done; simpl.
  - rewrite force_end_add. destruct (force_end log st) as [st1| |]; try done. simpl.
    by destruct (getScaleStart log (objstore st1)).
  - destruct (isScaleEnd log (ongoing st)) as [[i|]| |]; try done. simpl.
    change (end_record log i (add_results rs st)) with (end_record log i st).
    destruct (end_record log i st) as [rec| |]; try done. simpl. by rewrite add_results_finish.
Qed.

Lemma pvcpod_action_add rs log st :
  pvcpod_action log (add_results rs st) = fmap (M := option) (add_results rs) <$> pvcpod_action log st.
Proof.
  unfold pvcpod_action. cbn [ongoing add_results]. destruct (isAttachVolumeEvent log).
  - by destruct (setAttachTime log (ongoing st)).
  - destruct (isContainerCreatingStatus log) as [[]| |]; try done. simpl.
    by destruct (setContainerTime log (ongoing st)).
Qed.

Lemma save_action_add rs log st :
  save_action log (add_results rs st) = add_results rs <$> save_action log st.
Proof.
  unfold save_action. cbn [objstore add_results]. destruct (isGetCreateRequest log); [|done].
  by destruct (saveObjInfo log (objstore st)).
Qed.

Lemma flagged_add rs flags bit a rest st :
  (forall s, a (add_results rs s) = fmap (M := option) (add_results rs) <$> a s) ->
  (forall s, rest (add_results rs s) = add_results rs <$> rest s) ->
  flagged flags bit a rest (add_results rs st) = add_results rs <$> flagged flags bit a rest st.
Proof.
  intros Ha Hr. unfold flagged. destruct (has_flag flags bit); [|done].
  rewrite Ha. destruct (a st) as [[s|]| |]; try done. apply Hr.
Qed.

Lemma parse_log_add rs flags log st :
  parse_log flags log (add_results rs st) = (add_results rs <$> parse_log flags log st).
Proof.
  unfold parse_log. case_decide; [|done].
  apply flagged_add; [intros; apply create_action_add|intros s].
  apply flagged_add; [intros; apply scale_action_add|clear s; intros s].
  apply flagged_add; [intros; apply pvcpod_action_add|intros; apply save_action_add].
Qed.

(** ** Records without pod times

    Without the flag for pods and claims no record ever has one of their times. *)
Definition pod_keys : list string := ["attachTime"; "boundTime"; "containerTime"].

Definition no_pod_times (rec : jsondict) : Prop := forall k, k ∈ pod_keys -> rec !! k = None.

Definition lists_no_pod_times (st : pstate) : Prop :=
  Forall no_pod_times (ongoing st) /\ Forall no_pod_times (results st).

Lemma other_key k : bool_decide (k ∈ pod_keys) = false -> k ∉ pod_keys.
Proof. apply bool_decide_eq_false_1. Qed.

Lemma no_pod_times_insert k v rec :
  k ∉ pod_keys -> no_pod_times rec -> no_pod_times (<[k := v]> rec).
Proof. intros Hk Hr k' Hk'. rewrite lookup_insert_ne; [by apply Hr|]. by intros ->. Qed.

Lemma no_pod_times_delete k rec : no_pod_times rec -> no_pod_times (delete k rec).
Proof. intros Hr k' Hk'. rewrite lookup_delete. case_decide; [done|by apply Hr]. Qed.

Lemma initializeRecord_no_pod_times op nm rs ns t : no_pod_times (initializeRecord op nm rs ns t).
Proof. intros k Hk. apply initializeRecord_lookup_other. unfold pod_keys in Hk. set_solver. Qed.

Lemma getScaleStart_no_pod_times log store rec : getScaleStart log store = Ret rec -> no_pod_times rec.
Proof.
  unfold getScaleStart. intros H. apply outcome_bind_ret in H as (rec0 & Hrec & H).
  apply getGenericStart_spec in Hrec as (t & _ & ->).
  assert (forall r, (startLabel r ∉ pod_keys) /\ (endLabel r ∉ pod_keys)) as Hl.
  { intros r. unfold startLabel, endLabel. case_decide; split; by apply other_key. }
  pose proof (Hl (or_Resource (ObjectRef log))) as [H1 H2].
  destruct (_ ≫= _); injection H as <-; apply no_pod_times_insert; try done.
  - apply no_pod_times_insert; [done|]. apply initializeRecord_no_pod_times.
  - apply no_pod_times_delete, initializeRecord_no_pod_times.
Qed.

Lemma end_record_no_pod_times log i st rec :
  Forall no_pod_times (ongoing st) -> end_record log i st = Ret rec -> no_pod_times rec.
Proof.
  intros Ho. unfold end_record. destruct (ongoing st !! i) as [rec0|] eqn:E; [|done].
  eapply Forall_lookup_1 in E; [|done]. unfold setEndTime. intros H.
  apply outcome_bind_ret in H as (t & _ & H).
  assert (no_pod_times (<["endTime" := VTime t]> rec0)) as Hn.
  { apply no_pod_times_insert; [by apply other_key|done]. }
  destruct (md_Labels _); injection H as <-; [|done].
  apply no_pod_times_insert; [by apply other_key|done].
Qed.

Lemma finish_no_pod_times i rec st :
  lists_no_pod_times st -> no_pod_times rec -> lists_no_pod_times (finish i rec st).
Proof.
  intros [Ho Hr] Hrec. split; simpl; [by apply Forall_delete_list|]. apply Forall_app. by split; [|constructor].
Qed.

Lemma push_no_pod_times rec st store :
  lists_no_pod_times st -> no_pod_times rec ->
  lists_no_pod_times (PState (ongoing st ++ [rec]) (results st) store).
Proof. intros [Ho Hr] Hrec. split; simpl; [|done]. apply Forall_app. by split; [|constructor]. Qed.

Lemma parse_log_no_pod_times flags log st st' :
  has_flag flags ParsePVCPod = false -> lists_no_pod_times st ->
  parse_log flags log st = Ret st' -> lists_no_pod_times st'.
Proof.
  intros Hf. apply parse_log_preserves_flagged.
  - intros r _ Hst H. unfold ParseLogs.create_action in H.
    destruct (isCreateStart _ _); apply outcome_bind_ret in H as (x & Hx & H).
    + injection H as <-. unfold getCreateStart in Hx. apply getGenericStart_spec in Hx as (t & _ & ->).
      cbn [from_option]. apply push_no_pod_times; [exact Hst|apply initializeRecord_no_pod_times].
    + destruct x as [i|]; [|by injection H as <-].
      apply outcome_bind_ret in H as (rec & Hrec & [= <-]).
      apply end_record_no_pod_times in Hrec; [|by destruct Hst]. cbn [from_option].
      apply finish_no_pod_times; [exact Hst|]. case_decide; [|done]. apply no_pod_times_insert; [by apply other_key|done].
  - intros r _ Hst H. unfold scale_action in H. apply outcome_bind_ret in H as ([] & _ & H).
    + apply outcome_bind_ret in H as (st1 & H1 & H). apply outcome_bind_ret in H as (rec & Hrec & [= <-]).
      cbn [from_option]. apply push_no_pod_times; [|by eapply getScaleStart_no_pod_times]. revert H1. unfold force_end.
      destruct (getScaleEndIndex _ _); [|by intros [= <-]]. intros H1.
      apply outcome_bind_ret in H1 as (rec1 & Hrec1 & [= <-]).
      apply end_record_no_pod_times in Hrec1; [|by destruct Hst].
      apply finish_no_pod_times; [exact Hst|].
      apply no_pod_times_insert; [by apply other_key|done].
    + apply outcome_bind_ret in H as ([i|] & _ & H); [|by injection H as <-].
      apply outcome_bind_ret in H as (rec & Hrec & [= <-]).
      apply end_record_no_pod_times in Hrec; [|by destruct Hst]. cbn [from_option].
      by apply finish_no_pod_times.
  - intros r Hf'. congruence.
  - intros s Hst. unfold save_action. destruct (isGetCreateRequest log); [|by intros [= <-]].
    intros H. by apply outcome_bind_ret in H as (store & _ & [= <-]).
Qed.

(** ** Lines on which the parsers agree *)

(** The stream drops the creation of this line. *)
Definition drops (flags : Z) (log : auditlog) (st : pstate) : bool :=
  bool_decide (Stage log = "ResponseComplete") && has_flag flags ParseCreate &&
  isCreateStart log (ongoing st) &&
  match name_ongoing (or_Name (ObjectRef log)) (ongoing st) with Ret false => false | _ => true end.

(** No creation of these lines is dropped. *)
Fixpoint no_drops (flags : Z) (lines : list string) (st : pstate) : bool :=
  match lines with
  | [] => true
  | line :: lines' =>
      match unmarshal_log line with
      | None => true
      | Some log =>
          negb (drops flags log st) &&
          match parse_log flags log st with
          | Ret st' => no_drops flags lines' st'
          | _ => true
          end
      end
  end.

Lemma no_drops_add rs flags lines st : no_drops flags lines (add_results rs st) = no_drops flags lines st.
Proof.
  revert st. induction lines as [|line lines IH]; intros st; [done|]. cbn [no_drops].
  destruct (unmarshal_log line) as [log|]; [|done]. rewrite parse_log_add.
  destruct (parse_log flags log st) as [st'| |]; [|done..]. simpl. by rewrite IH.
Qed.

Lemma parseLog_agrees flags log st :
  drops flags log st = false -> parseLog flags log st = parse_log flags log st.
Proof.
  unfold drops, parseLog, parse_log. case_decide as Hs; [|done]. rewrite bool_decide_true by done.
  unfold flagged at 1 4. destruct (has_flag flags ParseCreate); [|done]. simpl.
  unfold create_action, TimingCopy.isCreateStart, TimingCopy.getCreateStart, ParseLogs.create_action.
  destruct (isCreateStart log (ongoing st)) eqn:E; [|done]. simpl.
  by destruct (name_ongoing _ _) as [[]| |].
Qed.

(** What is printed for a list of finished actions. *)
Inductive emits (nss : list string) : list jsondict -> list jsondict -> Prop :=
  | emits_nil : emits nss [] []
  | emits_cons rec o recs outs :
      printed rec o -> emits nss recs outs ->
      emits nss (rec :: recs) (replicate (count_ns nss rec) o ++ outs).

Lemma emits_app nss recs1 outs1 recs2 outs2 :
  emits nss recs1 outs1 -> emits nss recs2 outs2 -> emits nss (recs1 ++ recs2) (outs1 ++ outs2).
Proof.
  intros H1 H2. induction H1 as [|rec o recs outs Hp H1 IH]; [done|].
  rewrite <- (assoc_L (++)). by constructor.
Qed.

(** The simulation. *)
Lemma stream_simulates flags nss lines : forall acc s stf,
  has_flag flags ParsePVCPod = false -> stream_state s -> lists_no_pod_times s ->
  no_drops flags lines s = true -> parse_lines flags lines (add_results acc s) = Ret (stf, false) ->
  exists s' new outs, stream flags nss lines s = Ret (s', outs) /\ results stf = acc ++ new /\
    emits nss new outs /\ Forall no_pod_times new.
Proof.
  induction lines as [|line lines IH]; intros acc s stf Hf Hs Hn Hd Hl.
  - cbn [parse_lines] in Hl. injection Hl as <-. exists s, [], []. destruct Hs as [_ Hr].
    cbn [results add_results]. rewrite Hr. split_and!; [done..|constructor|constructor].
  - cbn [parse_lines no_drops] in *. destruct (unmarshal_log line) as [log|] eqn:Hu; [|discriminate].
    apply andb_true_iff in Hd as [Hdrop Hd]. apply negb_true_iff in Hdrop.
    rewrite parse_log_add in Hl. destruct (parse_log flags log s) as [st1| |] eqn:Hp; try discriminate.
    cbn [mbind outcome_bind fmap outcome_fmap] in Hl.
    destruct (callback_step flags nss line s log st1 Hs Hu) as (out & Hc & Hs1 & Hout).
    { by rewrite parseLog_agrees. }
    set (s1 := PState (ongoing st1) [] (objstore st1)) in *.
    assert (add_results acc st1 = add_results (acc ++ results st1) s1) as Eacc.
    { unfold add_results, s1. simpl. by rewrite (right_id_L [] (++)). }
    rewrite Eacc in Hl.
    pose proof (parse_log_no_pod_times _ _ _ _ Hf Hn Hp) as [Hn1 Hn2].
    assert (no_drops flags lines s1 = true) as Hd1.
    { rewrite <- Hd. rewrite <- (no_drops_add (results st1) flags lines s1). f_equal.
      unfold add_results, s1. simpl. rewrite (right_id_L [] (++)). by destruct st1. }
    destruct (IH (acc ++ results st1) s1 stf) as (s' & new & outs & Hst & Hr & He & Hnew); [done..| |done|done|].
    { by split; [|constructor]. }
    exists s', (results st1 ++ new), (out ++ outs). split_and!.
    + cbn [stream]. rewrite Hc. cbn [mbind outcome_bind]. by rewrite Hst.
    + by rewrite Hr, (assoc_L (++)).
    + apply emits_app; [|done]. destruct Hout as [[-> ->]|(rec & o & -> & Ho & ->)]; [constructor|].
      rewrite <- (right_id_L [] (++) (replicate _ _)). constructor; [done|constructor].
    + by apply Forall_app.
Qed.

(** ** From the printed records to the returned ones *)

(** Membership in lists of keys. *)
Ltac keys := unfold cleanup_keys; rewrite !elem_of_cons, elem_of_nil; naive_solver.

Definition batch_record (flags : Z) (rec r : jsondict) : Prop :=
  exists r1, calculateDelta flags rec = Ret r1 /\ formatResourceName r1 = Ret r.

Lemma batch_record_printed flags rec r o :
  has_flag flags ParsePVCPod = false -> no_pod_times rec -> batch_record flags rec r -> printed rec o ->
  delete "pvName" o = r.
Proof.
  intros Hf Hn (r1 & Hc & (rs & Hrs & ->)%formatResourceName_spec)
    (t1 & t5 & rs' & H1 & H5 & Hr & Hd & Ho & Hs1 & Hs5 & Hk).
  unfold calculateDelta in Hc. rewrite H1, H5, Hf in Hc. injection Hc as <-.
  assert (rs' = rs) as ->.
  { rewrite lookup_delete_keys, bool_decide_false in Hrs by keys.
    rewrite lookup_insert_ne in Hrs by done. congruence. }
  apply map_eq. intros k. destruct (decide (k = "resource")) as [->|Hk1].
  { by rewrite lookup_insert_eq, lookup_delete_ne. }
  rewrite lookup_insert_ne by done. rewrite lookup_delete_keys.
  destruct (decide (k = "pvName")) as [->|Hk2]; [by rewrite lookup_delete_eq|].
  rewrite lookup_delete_ne by done.
  destruct (decide (k = "duration")) as [->|Hk3].
  { rewrite bool_decide_false by keys. by rewrite lookup_insert_eq. }
  rewrite lookup_insert_ne by done. destruct (decide (k = "startTime")) as [->|Hk4].
  { by rewrite bool_decide_true by keys. }
  destruct (decide (k = "endTime")) as [->|Hk5].
  { by rewrite bool_decide_true by keys. }
  rewrite Hk by keys.
  case_bool_decide as Hin; [|done]. apply Hn. unfold cleanup_keys in Hin. unfold pod_keys.
  rewrite !elem_of_cons, elem_of_nil in *. naive_solver.
Qed.

Lemma emits_batch flags nss recs outs rs :
  has_flag flags ParsePVCPod = false -> Forall no_pod_times recs -> emits nss recs outs ->
  Forall2 (batch_record flags) recs rs ->
  delete "pvName" <$> outs = rs ≫= (fun r => replicate (count_ns nss r) r).
Proof.
  intros Hf Hn He. revert rs. induction He as [|rec o recs outs Hp He IH]; intros rs Hb.
  { by inversion Hb. }
  inversion Hb as [|? r ? rs' Hr Hb']; subst. inversion Hn as [|? ? Hn1 Hn2]; subst.
  pose proof (batch_record_printed _ _ _ _ Hf Hn1 Hr Hp) as Ho.
  assert (count_ns nss rec = count_ns nss r) as Hc.
  { unfold count_ns. f_equal. apply list_filter_iff. intros ns.
    destruct Hp as (t1 & t5 & r0 & _ & _ & _ & _ & _ & _ & _ & Hk). rewrite <- Ho.
    rewrite lookup_delete_ne by done. by rewrite Hk by keys. }
  rewrite fmap_app, fmap_replicate, Ho, Hc. cbn [mbind list_bind]. by rewrite (IH Hn2 rs' Hb').
Qed.

Lemma ParseLogs_batch lines flags rs :
  flags <> 0%Z -> has_flag flags ParsePVCPod = false -> ParseLogs.ParseLogs lines flags = Ret (rs, false) ->
  exists stf, parse_lines flags lines init_pstate = Ret (stf, false) /\
    Forall2 (batch_record flags) (results stf) rs.
Proof.
  intros Hz Hf. unfold ParseLogs.ParseLogs. rewrite (proj2 (Z.eqb_neq _ _) Hz). intros H.
  apply outcome_bind_ret in H as ([stf []] & Hl & H); [discriminate|]. rewrite Hf in H.
  apply outcome_bind_ret in H as (rs1 & H1 & H). apply outcome_bind_ret in H as (rs2 & H2 & [= <-]).
  exists stf. split; [done|]. apply mapO_Forall2 in H1. apply mapO_Forall2 in H2.
  revert rs2 H2. clear Hl. induction H1 as [|x y l l' Hx H1 IH]; intros rs2 H2; inversion H2; subst; constructor.
  - by exists y.
  - by apply IH.
Qed.

(** ** Theorem *)

(** C4: without pod and claim timings, on lines none of whose creations the
    stream drops, the streaming analyser prints what the batch parser returns:
    its records in their order, each once per matching entry of the namespace
    list; apart from [pvName], which the batch parser removes, they are equal. *)
Theorem stream_prints_batch flags nss lines rs :
  flags <> 0%Z -> has_flag flags ParsePVCPod = false -> no_drops flags lines init_pstate = true ->
  ParseLogs.ParseLogs lines flags = Ret (rs, false) ->
  exists st outs, stream flags nss lines init_pstate = Ret (st, outs) /\
    delete "pvName" <$> outs = rs ≫= (fun r => replicate (count_ns nss r) r).
Proof.
  intros Hz Hf Hd Hp. destruct (ParseLogs_batch _ _ _ Hz Hf Hp) as (stf & Hl & Hb).
  destruct (stream_simulates flags nss lines [] init_pstate stf) as (st & new & outs & Hs & Hr & He & Hn);
    [done|apply (stream_reachable_state flags nss); constructor|by split; constructor|done|exact Hl|].
  exists st, outs. split; [done|]. rewrite Hr in Hb. by eapply emits_batch.
Qed.

(** A creation, a pod of another namespace, and the end of the first. *)
Definition ex_lines : list string := [ex_create; ex_running; ex_create_other].

Lemma stream_prints_batch_witness :
  exists rs, ParseLogs.ParseLogs ex_lines 3 = Ret (rs, false) /\ length rs = 1 /\
  exists st outs, stream 3 ["default"; "x"; "default"] ex_lines init_pstate = Ret (st, outs) /\
    delete "pvName" <$> outs = rs ≫= (fun r => replicate (count_ns ["default"; "x"; "default"] r) r).
Proof.
  destruct (ParseLogs.ParseLogs ex_lines 3) as [[rs []]| |] eqn:E.
  1, 3, 4: vm_compute in E; discriminate E.
  exists rs. split_and!; [done| |].
  - vm_compute in E. by injection E as <-.
  - apply (stream_prints_batch 3 ["default"; "x"; "default"] ex_lines rs).
    + discriminate.
    + vm_compute. reflexivity.
    + vm_compute. reflexivity.
    + exact E.
Defined.
