(* ===== verification/LogTail.v ===== *)
(** * Following a log file (util/analysis/objecttiming/tail.go)

    The reader hands complete lines to a callback and reacts to file system
    events.  The file system is the environment: every event comes with the
    content of the file behind the open descriptor, with what opening the path
    again would give, and with the errors of reading and of [Stat].  A read that
    reaches the end of the file leaves the offset there. *)
From S2P Require Import Prelude GoStrings GoTime GoJson AuditLog TimingRecords CreateTiming.
From S2P Require Import ScaleTiming PvcPod ParseLogs ParseLogsInv ParseLogsSpec ParseLogsThm.
From S2P Require Import ObjectTiming.

Abbreviation bytes := (list ascii).
Definition nl : ascii := ascii_of_nat 10.

(** [curReadPos] counts the bytes of the lines without their newlines. *)
Record logreader := LogReader {
  fd_offset : nat; curReadPos : Z; handed : list bytes }.

Inductive read_result := EOF | IOError.

(** The complete lines of what is left to read; [cur] is the line being read. *)
Fixpoint complete_lines (cur s : bytes) : list bytes :=
  match s with
  | [] => []
  | c :: s' => if decide (c = nl) then cur :: complete_lines [] s'
               else complete_lines (cur ++ [c]) s'
  end.

Definition lines_of (s : bytes) : list bytes := complete_lines [] s.

Definition add_line (pos : Z) (line : bytes) : Z := wrap64 (pos + Z.of_nat (length line)).

(** [readLines]: [ReadString] consumes an unterminated rest of the file and
    returns it with the error, and the rest is dropped. *)
Definition readLines (content : bytes) (err : bool) (l : logreader) : logreader * read_result :=
  let lines := lines_of (drop (fd_offset l) content) in
  (LogReader (fd_offset l `max` length content) (foldl add_line (curReadPos l) lines) (handed l ++ lines),
   if err then IOError else EOF).

Definition handleFsnotifyWrite (content : bytes) (read_err stat_err : bool) (l : logreader)
    : logreader * read_result :=
  match readLines content read_err l with
  | (l, IOError) => (l, IOError)
  | (l, EOF) =>
      if stat_err then (l, IOError)
      else if (Z.of_nat (length content) <? curReadPos l)%Z
      then readLines content read_err (LogReader 0 0 (handed l))
      else (l, EOF)
  end.

(** What the environment shows at an event. *)
Record fsview := FsView {
  fv_content : bytes;
  fv_reopen : option bytes;
  fv_read_err : bool; fv_stat_err : bool }.

Inductive fsevent :=
  | EvSignal
  | EvClosed
  | EvFile (create write same_name : bool) (view : fsview).

(** The loop of [tail]: still running, or what was sent on [errchan]. *)
Inductive tail_state :=
  | Running (l : logreader)
  | Stopped (l : logreader) (err : option string).

Definition tail_reopen (create same_name : bool) (view : fsview) (l : logreader)
    : option (logreader * bytes) :=
  if create && same_name then
    match fv_reopen view with
    | Some content => Some (LogReader 0 0 (handed l), content)
    | None => None
    end
  else Some (l, fv_content view).

Definition tail_step (s : tail_state) (e : fsevent) : tail_state :=
  match s with
  | Stopped l err => Stopped l err
  | Running l =>
      match e with
      | EvSignal => Stopped l None
      | EvClosed => Stopped l (Some "watcher.Events error")
      | EvFile create write same_name view =>
          match tail_reopen create same_name view l with
          | None => Stopped l (Some "open")
          | Some (l, content) =>
              if write && same_name then
                match handleFsnotifyWrite content (fv_read_err view) (fv_stat_err view) l with
                | (l, EOF) => Running l
                | (l, IOError) => Stopped l (Some "read")
                end
              else Running l
          end
      end
  end.

(** [tail]: the existing lines, then the events. *)
Definition tail_ (opened : option (bytes * bool)) (events : list fsevent) : tail_state :=
  match opened with
  | None => Stopped (LogReader 0 0 []) (Some "open")
  | Some (content, err) =>
      match readLines content err (LogReader 0 0 []) with
      | (l, IOError) => Stopped l (Some "read")
      | (l, EOF) => foldl tail_step (Running l) events
      end
  end.

Definition handed_lines (s : tail_state) : list string :=
  match s with Running l | Stopped l _ => String.string_of_list_ascii <$> handed l end.

(** ** Lemmas *)
Definition terminated (s : bytes) : Prop := s = [] \/ exists s', s = s' ++ [nl].

Lemma complete_lines_app cur s1 s2 :
  complete_lines cur ((s1 ++ [nl]) ++ s2) = complete_lines cur (s1 ++ [nl]) ++ lines_of s2.
Proof.
  revert cur. induction s1 as [|c s IH]; intros cur; [done|].
  cbn [app complete_lines]. case_decide; [cbn [app]; f_equal; apply IH|apply IH].
Qed.

Lemma lines_of_app s1 s2 : terminated s1 -> lines_of (s1 ++ s2) = lines_of s1 ++ lines_of s2.
Proof. intros [->|[s ->]]; [done|]. apply complete_lines_app. Qed.

(** The bytes of the lines are fewer than the bytes of the file. *)
Lemma complete_lines_length cur s :
  length (concat (complete_lines cur s)) ≤ length cur + length s.
Proof.
  revert cur. induction s as [|c s IH]; intros cur; cbn [complete_lines]; [simpl; lia|].
  case_decide; simpl.
  - rewrite length_app. specialize (IH []). simpl in IH. lia.
  - specialize (IH (cur ++ [c])). rewrite length_app in IH. simpl in IH. lia.
Qed.

Lemma foldl_add_line pos lines :
  (0 <= pos)%Z -> (pos + Z.of_nat (length (concat lines)) <= max_int64)%Z ->
  foldl add_line pos lines = (pos + Z.of_nat (length (concat lines)))%Z.
Proof.
  revert pos. induction lines as [|x lines IH]; intros pos Hp Hm; [simpl; lia|].
  cbn [concat foldl] in *. rewrite length_app in *.
  unfold add_line at 2. rewrite wrap64_small by (unfold in_int64, min_int64; lia).
  rewrite IH by lia. lia.
Qed.

Lemma lines_bytes s : length (concat (lines_of s)) ≤ length s.
Proof. apply (complete_lines_length []). Qed.

(** The reader has read all of [content]. *)
Definition caught_up (content : bytes) (l : logreader) : Prop :=
  fd_offset l = length content /\ handed l = lines_of content /\
  curReadPos l = Z.of_nat (length (concat (lines_of content))).

Lemma readLines_caught_up content chunk l :
  caught_up content l -> terminated content ->
  (Z.of_nat (length (content ++ chunk)) <= max_int64)%Z ->
  exists l', readLines (content ++ chunk) false l = (l', EOF) /\ caught_up (content ++ chunk) l'.
Proof.
  intros (Ho & Hh & Hp) Ht Hm. eexists. split; [reflexivity|]. unfold caught_up. cbn.
  rewrite Ho, drop_app_length, Hh, Hp, lines_of_app, concat_app by done.
  pose proof (lines_bytes content). pose proof (lines_bytes chunk).
  rewrite !length_app in *. split_and!; [lia|done|].
  rewrite foldl_add_line by lia. lia.
Qed.

(** An event of a write to the file, which has grown to [content]. *)
Definition write_event (content : bytes) : fsevent := EvFile false true true (FsView content None false false).

Lemma write_event_step content chunk l :
  caught_up content l -> terminated content ->
  (Z.of_nat (length (content ++ chunk)) <= max_int64)%Z ->
  exists l', tail_step (Running l) (write_event (content ++ chunk)) = Running l' /\
    caught_up (content ++ chunk) l'.
Proof.
  intros Hc Ht Hm. destruct (readLines_caught_up content chunk l Hc Ht Hm) as (l' & Hr & Hc').
  exists l'. split; [|done]. unfold tail_step, write_event, tail_reopen. cbn [andb fv_content fv_read_err fv_stat_err].
  unfold handleFsnotifyWrite. rewrite Hr.
  destruct (Z.ltb_spec (Z.of_nat (length (content ++ chunk))) (curReadPos l')) as [H|_]; [|done].
  destruct Hc' as (_ & _ & Hp). rewrite Hp in H. pose proof (lines_bytes (content ++ chunk)). lia.
Qed.

(** The contents of a file that grows by [chunks]. *)
Fixpoint growing (content : bytes) (chunks : list bytes) : list bytes :=
  match chunks with
  | [] => []
  | c :: chunks' => (content ++ c) :: growing (content ++ c) chunks'
  end.

Lemma terminated_app s1 s2 : terminated s1 -> terminated s2 -> terminated (s1 ++ s2).
Proof.
  intros H1 [->|[s ->]]; [by rewrite app_nil_r|]. right. exists (s1 ++ s). by rewrite app_assoc.
Qed.

Lemma tail_growing content chunks l :
  caught_up content l -> terminated content -> Forall terminated chunks ->
  (Z.of_nat (length (content ++ concat chunks)) <= max_int64)%Z ->
  exists l', foldl tail_step (Running l) (write_event <$> growing content chunks) = Running l' /\
    caught_up (content ++ concat chunks) l'.
Proof.
  intros Hc Ht Hch. revert content l Hc Ht. induction Hch as [|c chunks Htc _ IH]; intros content l Hc Ht Hm.
  - exists l. simpl. by rewrite app_nil_r.
  - simpl in Hm. rewrite app_assoc in Hm.
    destruct (write_event_step content c l Hc Ht) as (l1 & Hs & Hc1).
    { rewrite length_app in Hm. lia. }
    cbn [growing fmap list_fmap foldl]. rewrite Hs. simpl. rewrite app_assoc.
    apply IH; [done|by apply terminated_app|done].
Qed.

(** ** Theorems *)

(** C38: as long as the file only grows and every event finds it ending with a
    complete line, every line written is handed over exactly once, in order. *)
Theorem tail_hands_over_lines content chunks :
  terminated content -> Forall terminated chunks ->
  (Z.of_nat (length (content ++ concat chunks)) <= max_int64)%Z ->
  exists l, tail_ (Some (content, false)) (write_event <$> growing content chunks) = Running l /\
    handed l = lines_of (content ++ concat chunks).
Proof.
  intros Ht Hch Hm.
  destruct (readLines_caught_up [] content (LogReader 0 0 [])) as (l0 & Hr & Hc).
  { done. } { by left. } { simpl. rewrite length_app in Hm. lia. }
  destruct (tail_growing content chunks l0 Hc Ht Hch Hm) as (l & Hf & _ & Hh & _).
  exists l. split; [|done]. unfold tail_. simpl app in Hr. rewrite Hr. exact Hf.
Qed.

Definition text (s : string) : bytes := String.list_ascii_of_string s ++ [nl].

Lemma tail_hands_over_lines_witness :
  exists l, tail_ (Some (text "a", false)) (write_event <$> growing (text "a") [text "b"; text "c"]) = Running l /\
    handed l = lines_of (text "a" ++ concat [text "b"; text "c"]).
Proof.
  apply (tail_hands_over_lines (text "a") [text "b"; text "c"]).
  - right. by exists (String.list_ascii_of_string "a").
  - constructor; [right; eexists; reflexivity|]. constructor; [right; eexists; reflexivity|constructor].
  - vm_compute. discriminate.
Defined.

(** Truncation is noticed only when the file became shorter than the bytes
    of the lines without their newlines: a file truncated and rewritten to a
    length between that and the old offset is not read again, and what was
    written is lost. *)
Theorem tail_misses_truncation old new l :
  caught_up old l -> (curReadPos l <= Z.of_nat (length new))%Z -> length new ≤ length old ->
  exists l', tail_step (Running l) (write_event new) = Running l' /\ handed l' = handed l.
Proof.
  intros (Ho & Hh & Hp) Hlow Hhigh. eexists. split; [|shelve].
  unfold tail_step, write_event, tail_reopen, handleFsnotifyWrite, readLines. cbn.
  rewrite (drop_ge new) by lia. cbn.
  replace (Z.of_nat (length new) <? curReadPos l)%Z with false by (symmetry; apply Z.ltb_ge; lia).
  reflexivity. Unshelve. cbn. apply app_nil_r.
Qed.

Definition reader_of (s : bytes) : logreader := fst (readLines s false (LogReader 0 0 [])).

Lemma tail_misses_truncation_witness :
  exists l', tail_step (Running (reader_of (text "a" ++ text "b"))) (write_event (text "xyz")) = Running l' /\
    handed l' = handed (reader_of (text "a" ++ text "b")).
Proof.
  apply (tail_misses_truncation (text "a" ++ text "b") (text "xyz")).
  - split_and!; vm_compute; reflexivity.
  - vm_compute. discriminate.
  - vm_compute. lia.
Defined.

(** A file truncated below that count is read again from its start. *)
Theorem tail_detects_truncation old new l :
  caught_up old l -> length old ≥ length new -> (Z.of_nat (length new) < curReadPos l)%Z ->
  exists l', tail_step (Running l) (write_event new) = Running l' /\ handed l' = handed l ++ lines_of new.
Proof.
  intros (Ho & Hh & Hp) Hle Hlow. eexists. split; [|shelve].
  unfold tail_step, write_event, tail_reopen, handleFsnotifyWrite, readLines. cbn.
  rewrite (drop_ge new) by lia. cbn.
  replace (Z.of_nat (length new) <? curReadPos l)%Z with true by (symmetry; apply Z.ltb_lt; lia).
  reflexivity. Unshelve. cbn. by rewrite app_nil_r.
Qed.

Lemma tail_detects_truncation_witness :
  exists l', tail_step (Running (reader_of (text "abc" ++ text "def"))) (write_event (text "x")) = Running l' /\
    handed l' = handed (reader_of (text "abc" ++ text "def")) ++ lines_of (text "x").
Proof.
  apply (tail_detects_truncation (text "abc" ++ text "def") (text "x")).
  - split_and!; vm_compute; reflexivity.
  - vm_compute. lia.
  - vm_compute. reflexivity.
Defined.

(** A line of which one event finds only the first part is handed over
    without that part. *)
Theorem tail_drops_partial_line :
  exists l, tail_ (Some ([], false))
      [write_event (String.list_ascii_of_string "ab"); write_event (text "abcd")] = Running l /\
    handed l = [String.list_ascii_of_string "cd"].
Proof. eexists. split; vm_compute; reflexivity. Qed.
