(* ===== verification/StreamMain.v ===== *)
(** * The command line of the streaming analyser (util/analysis/objecttiming/main.go)

    The program reads its flags, follows the audit log until a signal or an error
    ends it, and exits.  The file system is what is found under the path of the
    log: [Class LogFiles]. *)
From S2P Require Import Prelude GoStrings GoFlags GoTime GoJson AuditLog TimingRecords.
From S2P Require Import ParseLogs ObjectTiming LogTail.

(** What happens to a log file while it is followed: whether a watcher is
    available, whether its directory can be watched, the file at the start and
    the events; and, when the directory cannot be watched, how many lines the
    other goroutine hands over before the program ends. *)
Record logfile := {
  lf_watcher_err : option string;
  lf_add_err : option string;
  lf_opened : option (bytes * bool);
  lf_events : list fsevent;
  lf_race : nat }.

(** The lines handed over, and what was received from [errchan]; [None] is
    a program that still waits for events. *)
Definition readLogFile (f : logfile) : list string * option (option string) :=
  match lf_watcher_err f with
  | Some err => ([], Some (Some err))
  | None =>
      let t := tail_ (lf_opened f) (lf_events f) in
      match lf_add_err f with
      | Some err => (take (lf_race f) (handed_lines t), Some (Some err))
      | None => (handed_lines t, match t with Running _ => None | Stopped _ err => Some err end)
      end
  end.

(** How a run ends: with an exit code, or not yet. *)
Inductive ending := Exited (code : Z) | Following.

(** [ParseLogs]: without flags nothing is done; otherwise every line the reader
    hands over goes through the callback.  What is printed, and the error that is
    returned, if it returns. *)
Definition ParseLogs (f : logfile) (flags : Z) (namespaces : list string)
    : outcome (list jsondict * option (option string)) :=
  if (flags =? 0)%Z then Ret ([], Some None)
  else
    let '(lines, err) := readLogFile f in
    '(_, out) ← stream flags namespaces lines init_pstate;
    Ret (out, err).

Definition formal (name : string) : option flag_spec :=
  if decide (name = "rs" \/ name = "ns") then Some string_flag else None.

Definition main_ (fs : string -> logfile) (args : list string) : outcome (list jsondict * ending) :=
  match GoFlags.parse_flags formal args with
  | Help => Ret ([], Exited 0)
  | BadFlags => Ret ([], Exited 2)
  | Parsed values tail =>
      let '(file, flags, namespaces) :=
        main_args tail (default "pod" (values !! "rs")) (default "default" (values !! "ns")) in
      '(out, err) ← ParseLogs (fs file) flags namespaces;
      Ret (out, match err with
                | None => Following
                | Some None => Exited 0
                | Some (Some _) => Exited 1
                end)
  end.

(** ** Theorems *)

(** What a run with these flags does. *)
Definition run_with (fs : string -> logfile) (file rs ns : string) : outcome (list jsondict * ending) :=
  '(out, err) ← ParseLogs (fs file) (ObjectTiming.parse_flags rs) (split ","%char ns);
  Ret (out, match err with None => Following | Some None => Exited 0 | Some (Some _) => Exited 1 end).

Lemma formal_names fs :
  Forall (fun f => f.1 = "rs" \/ f.1 = "ns") fs ->
  Forall (fun f : string * string =>
    flag_name f.1 /\ exists spec, formal f.1 = Some spec /\ accepts spec f.2 = true) fs.
Proof.
  intros H. eapply Forall_impl; [|exact H]. intros [n v] [Hn|Hn]; simpl in *; subst; split; try (by eexists);
    (split; [repeat constructor; discriminate|]); by eexists _, _.
Qed.

(** The value of a flag in a list of settings: the last one, or the default. *)
Definition setting (fs : list (string * string)) (name dflt : string) : string :=
  foldl (fun v f => if decide (f.1 = name) then f.2 else v) dflt fs.

Lemma setting_lookup fs name : forall dflt m,
  default dflt (foldl (fun m f => <[f.1 := f.2]> m) m fs !! name) =
  setting fs name (default dflt ((m : gmap string string) !! name)).
Proof.
  induction fs as [|[n v] fs IH]; intros dflt m; [done|]. cbn [foldl fst snd]. rewrite IH.
  unfold setting at 2. cbn [foldl fst snd]. fold (setting fs name). f_equal.
  destruct (decide (n = name)) as [->|Hn]; [by rewrite lookup_insert_eq|by rewrite lookup_insert_ne].
Qed.

(** Flags that come before the name of the log set the resources and the
    namespaces, the last one of each counts, and the log is the first argument
    after them or the default one. *)
Theorem main_reads_flags fs settings rest :
  Forall (fun f => f.1 = "rs" \/ f.1 = "ns") settings ->
  match rest with [] => True | s :: _ => classify s = NotFlag end ->
  main_ fs (map print_flag settings ++ rest) =
    run_with fs (hd default_file rest) (setting settings "rs" "pod") (setting settings "ns" "default").
Proof.
  intros Hs Hr. unfold main_, GoFlags.parse_flags. rewrite parse_args_print by (done || by apply formal_names).
  rewrite !setting_lookup, lookup_empty. reflexivity.
Qed.

(** The usage message puts the name of the log first; but then the flags are
    arguments, and the defaults are used. *)
Theorem flags_after_file_ignored fs file args :
  classify file = NotFlag -> main_ fs (file :: args) = run_with fs file "pod" "default".
Proof. intros Hf. unfold main_, GoFlags.parse_flags. cbn [parse_args]. by rewrite Hf. Qed.

(** ** Witnesses *)
Definition ex_files (file : string) : logfile :=
  {| lf_watcher_err := None; lf_add_err := None; lf_opened := Some ([], false);
     lf_events := [EvSignal]; lf_race := 0 |}.

Lemma main_reads_flags_witness :
  main_ ex_files ["--rs=job"; "--ns=a,b"; "--rs=pod"; "audit.log"] = run_with ex_files "audit.log" "pod" "a,b".
Proof.
  apply (main_reads_flags ex_files [("rs", "job"); ("ns", "a,b"); ("rs", "pod")] ["audit.log"]).
  - repeat constructor; simpl; tauto.
  - reflexivity.
Defined.

Lemma flags_after_file_ignored_witness :
  main_ ex_files ["audit.log"; "--rs=deployment"] = run_with ex_files "audit.log" "pod" "default".
Proof. apply (flags_after_file_ignored ex_files "audit.log" ["--rs=deployment"]). reflexivity. Defined.
