(* ===== verification/BenchmarkTypes.v ===== *)
(** * The Benchmark resource (api/v1alpha1/benchmark_types.go)

    The structs of the custom resource.  Times are instants ([GoTime.time]); the
    zero [metav1.Time] is [zero_time].  Structs of the Kubernetes libraries that
    the controller only passes on are kept as their JSON. *)
From S2P Require Import Prelude GoStrings GoTime GoJson.

(** metav1.LabelSelector: equality labels, and set expressions (key, operator,
    values). *)
Record LabelSelector := {
  matchLabels : gmap string string;
  matchExpressions : list (string * string * list string) }.

(** corev1.PersistentVolumeClaimSpec *)
Definition PersistentVolumeClaimSpec : Type := json.

Record HttpPost := { URL : string }.

Record ActionOutput := { OutputName : string }.

Record Output := { out_Name : string; HttpPostSpec : HttpPost }.

Record ConstantIncreaseDecreaseRate := {
  IncInterval : Z; DecInterval : Z; Max : Z; Min : Z }.

Record ConstantRate := { Interval : Z }.

Record Rate := {
  rate_Name : string;
  ConstantRateSpec : ConstantRate;
  ConstantIncreaseDecreaseRateSpec : ConstantIncreaseDecreaseRate }.

Record Snapshot := { sn_WorkloadName : string; sn_VolumeName : string; SnapshotClass : string }.

Record Delete := { APIVersion : string; Kind : string; Selector : LabelSelector }.

Record Scale := {
  ObjName : string; ScaleScripts : string; sc_WorkloadName : string; ServiceAccountName : string }.

Record OutputFile := { Filename : string; Parser : string; Target : string; Sink : string }.

Record Volume := {
  vol_Name : string; vol_Count : Z; vol_Spec : PersistentVolumeClaimSpec; vol_RateName : string }.

Record Workload := {
  wl_Name : string; wl_Workload : string; Vars : gmap string string; wl_Count : Z;
  SyncGroup : string; OutputFiles : list OutputFile; wl_RateName : string }.

Record ControlOperation := {
  op_Name : string; SnapshotSpec : Snapshot; ScaleSpec : Scale; DeleteSpec : Delete;
  op_Outputs : ActionOutput; op_RateName : string }.

Record BenchmarkSpec := {
  Runtime : string;
  Volumes : list Volume;
  Workloads : list Workload;
  ControlOperations : list ControlOperation;
  Rates : list Rate;
  WorkloadsOutput : string;
  MetadataOutput : string;
  MetricsOutput : string;
  Outputs : list Output }.

(** [BenchmarkState] is a string type with three named values; a new object has
    the empty state. *)
Definition BenchmarkState : Type := string.
Definition Complete : BenchmarkState := "Complete".
Definition Running : BenchmarkState := "Running".
Definition Initializing : BenchmarkState := "Initializing".

Record BenchmarkCondition := {
  LastProbeTime : time; LastTransitionTime : time;
  cond_Message : string; cond_Reason : string; cond_Status : string; cond_Type : string }.

Record BenchmarkStatus := {
  State : BenchmarkState;
  CompletionTime : time;
  InitCompletionTime : time;
  TargetCompletionTimeUnix : Z;
  TargetCompletionTime : time;
  CompletionTimeUnix : Z;
  StartTimeUnix : Z;
  InitCompletionTimeUnix : Z;
  NumCompletedObjs : Z;
  RunningWorkloads : Z;
  RunningRates : Z;
  Conditions : list BenchmarkCondition }.

(** The fields of the embedded [metav1.ObjectMeta] that the controller reads or
    writes. *)
Record Benchmark := {
  bm_Name : string;
  bm_Finalizers : list string;
  bm_DeletionTimestamp : option time;
  bm_CreationTimestamp : time;
  bm_Spec : BenchmarkSpec;
  bm_Status : BenchmarkStatus }.

(** ** Assignments to fields *)
Definition with_status (st : BenchmarkStatus) (b : Benchmark) : Benchmark :=
  {| bm_Name := bm_Name b; bm_Finalizers := bm_Finalizers b;
     bm_DeletionTimestamp := bm_DeletionTimestamp b; bm_CreationTimestamp := bm_CreationTimestamp b;
     bm_Spec := bm_Spec b; bm_Status := st |}.

Definition with_finalizers (l : list string) (b : Benchmark) : Benchmark :=
  {| bm_Name := bm_Name b; bm_Finalizers := l;
     bm_DeletionTimestamp := bm_DeletionTimestamp b; bm_CreationTimestamp := bm_CreationTimestamp b;
     bm_Spec := bm_Spec b; bm_Status := bm_Status b |}.

Definition with_outputs (l : list Output) (b : Benchmark) : Benchmark :=
  let s := bm_Spec b in
  {| bm_Name := bm_Name b; bm_Finalizers := bm_Finalizers b;
     bm_DeletionTimestamp := bm_DeletionTimestamp b; bm_CreationTimestamp := bm_CreationTimestamp b;
     bm_Spec := {| Runtime := Runtime s; Volumes := Volumes s; Workloads := Workloads s;
       ControlOperations := ControlOperations s; Rates := Rates s;
       WorkloadsOutput := WorkloadsOutput s; MetadataOutput := MetadataOutput s;
       MetricsOutput := MetricsOutput s; Outputs := l |};
     bm_Status := bm_Status b |}.

Definition set_State (x : BenchmarkState) (s : BenchmarkStatus) : BenchmarkStatus :=
  {| State := x; CompletionTime := CompletionTime s; InitCompletionTime := InitCompletionTime s;
     TargetCompletionTimeUnix := TargetCompletionTimeUnix s;
     TargetCompletionTime := TargetCompletionTime s; CompletionTimeUnix := CompletionTimeUnix s;
     StartTimeUnix := StartTimeUnix s; InitCompletionTimeUnix := InitCompletionTimeUnix s;
     NumCompletedObjs := NumCompletedObjs s; RunningWorkloads := RunningWorkloads s;
     RunningRates := RunningRates s; Conditions := Conditions s |}.

Definition set_RunningRates (x : Z) (s : BenchmarkStatus) : BenchmarkStatus :=
  {| State := State s; CompletionTime := CompletionTime s; InitCompletionTime := InitCompletionTime s;
     TargetCompletionTimeUnix := TargetCompletionTimeUnix s;
     TargetCompletionTime := TargetCompletionTime s; CompletionTimeUnix := CompletionTimeUnix s;
     StartTimeUnix := StartTimeUnix s; InitCompletionTimeUnix := InitCompletionTimeUnix s;
     NumCompletedObjs := NumCompletedObjs s; RunningWorkloads := RunningWorkloads s;
     RunningRates := x; Conditions := Conditions s |}.

Definition set_NumCompletedObjs (x : Z) (s : BenchmarkStatus) : BenchmarkStatus :=
  {| State := State s; CompletionTime := CompletionTime s; InitCompletionTime := InitCompletionTime s;
     TargetCompletionTimeUnix := TargetCompletionTimeUnix s;
     TargetCompletionTime := TargetCompletionTime s; CompletionTimeUnix := CompletionTimeUnix s;
     StartTimeUnix := StartTimeUnix s; InitCompletionTimeUnix := InitCompletionTimeUnix s;
     NumCompletedObjs := x; RunningWorkloads := RunningWorkloads s;
     RunningRates := RunningRates s; Conditions := Conditions s |}.

(** [instance.Status.f = v] for the functions above. *)
Definition upd_status (f : BenchmarkStatus -> BenchmarkStatus) (b : Benchmark) : Benchmark :=
  with_status (f (bm_Status b)) b.
