(* ===== verification/GoHeap.v ===== *)
(** * The memory of a Go program

    Slices and maps are references, so that what a function shares with its
    caller matters.  A memory is a finite map from locations to blocks; a block
    is the array behind a slice or a variable made by [new], or a map.  Pointers
    may point inside a block, to an element or to a field: they are a location
    with a way to read and to write the part they point to.  Everything is
    parametric in the type of blocks. *)
From S2P Require Import Prelude.

Abbreviation loc := positive.
Abbreviation heap block := (gmap loc block).

(** Computations on a memory. *)
Definition MemM (block A : Type) : Type := heap block -> outcome (A * heap block).

#[export] Instance mem_ret {block} : MRet (MemM block) := fun A a h => Ret (a, h).
#[export] Instance mem_bind {block} : MBind (MemM block) := fun A B f m h =>
  match m h with
  | Ret (a, h') => f a h'
  | Panic why => Panic why
  | Blocked => Blocked
  end.

(** Values of [T] are kept in blocks that are arrays of [T]; [zero] is the value
    a variable has when it is made. *)
Class Stored (block T : Type) := {
  zero : T;
  to_block : list T -> block;
  of_block : block -> option (list T);
  of_to_block l : of_block (to_block l) = Some l }.

(** Maps from strings to strings are kept in blocks of their own. *)
Class StoredMap (block : Type) := {
  to_map : gmap string string -> block;
  of_map : block -> option (gmap string string);
  of_to_map m : of_map (to_map m) = Some m }.

(** A field of a struct. *)
Record field (S T : Type) := Field {
  f_get : S -> T;
  f_set : T -> S -> S;
  f_get_set v s : f_get (f_set v s) = v;
  f_set_set v w s : f_set w (f_set v s) = f_set w s;
  f_set_get s : f_set (f_get s) s = s }.
Arguments Field {S T}. Arguments f_get {S T}. Arguments f_set {S T}.
Arguments f_get_set {S T}. Arguments f_set_set {S T}. Arguments f_set_get {S T}.

(** A pointer [*T] that is not nil. *)
Record ptr (block T : Type) := Ptr {
  p_loc : loc;
  p_get : block -> option T;
  p_set : T -> block -> block }.
Arguments Ptr {block T}. Arguments p_loc {block T}. Arguments p_get {block T}. Arguments p_set {block T}.

(** A slice that is not nil; [None] is the nil slice. *)
Record slice (T : Type) := Slice { s_loc : loc; s_off : nat; s_len : nat }.
Arguments Slice {T}. Arguments s_loc {T}. Arguments s_off {T}. Arguments s_len {T}.

Definition goslice (T : Type) : Type := option (slice T).

(** A [map[string]string]; [None] is the nil map. *)
Definition gomap : Type := option loc.

Section heap.
Context {block : Type}.
Implicit Types h m : heap block.

Definition store_at (l : loc) (b : block) : MemM block unit := fun h => Ret (tt, <[l := b]> h).

Definition alloc (b : block) : MemM block loc := fun h =>
  let l := fresh (dom h) in Ret (l, <[l := b]> h).

(** [*p] and [*p = v]. *)
Definition load {T} (p : ptr block T) : MemM block T := fun h =>
  match h !! p_loc p ≫= p_get p with
  | Some v => Ret (v, h)
  | None => Panic "invalid memory address"
  end.

Definition store {T} (p : ptr block T) (v : T) : MemM block unit := fun h =>
  match h !! p_loc p with
  | Some b => Ret (tt, <[p_loc p := p_set p v b]> h)
  | None => Panic "invalid memory address"
  end.

(** [&p.f] *)
Definition ptr_field {S T} (p : ptr block S) (f : field S T) : ptr block T :=
  {| p_loc := p_loc p;
     p_get b := f_get f <$> p_get p b;
     p_set v b := match p_get p b with Some s => p_set p (f_set f v s) b | None => b end |}.

(** The [i]-th variable of the array at [l]. *)
Definition ptr_elem {T} `{Stored block T} (l : loc) (i : nat) : ptr block T :=
  {| p_loc := l;
     p_get b := of_block b ≫= (.!! i);
     p_set v b := match of_block b with Some vs => to_block (<[i := v]> vs) | None => b end |}.

(** [new(T)] and [make([]T, n)]. *)
Definition new_ (T : Type) `{Stored block T} : MemM block (ptr block T) :=
  l ← alloc (to_block [zero]); mret (ptr_elem l 0).

Definition make_slice (T : Type) `{Stored block T} (n : nat) : MemM block (slice T) :=
  l ← alloc (to_block (replicate n (zero (T := T)))); mret (Slice l 0 n).

(** [&s[i]] *)
Definition index {T} `{Stored block T} (s : goslice T) (i : nat) : MemM block (ptr block T) :=
  match s with
  | Some s => if decide (i < s_len s) then mret (ptr_elem (s_loc s) (s_off s + i))
              else fun _ => Panic "index out of range"
  | None => fun _ => Panic "index out of range"
  end.

Definition len {T} (s : goslice T) : nat := from_option s_len 0 s.

(** [for i := range s], given the indices or keys it visits. *)
Fixpoint for_range {I} (f : I -> MemM block unit) (l : list I) : MemM block unit :=
  match l with
  | [] => mret tt
  | i :: l' => f i ;; for_range f l'
  end.

(** [copy(dst, src)]: as many elements as both have. *)
Definition copy_slice {T} `{Stored block T} (dst src : goslice T) : MemM block unit :=
  for_range (fun i => q ← index src i; v ← load q; p ← index dst i; store p v)
    (seq 0 (len dst `min` len src)).

(** [make(map[string]string)], the entries of a map, and [m[k] = v]. *)
Definition make_map `{StoredMap block} : MemM block loc := alloc (to_map ∅).

Definition map_entries `{StoredMap block} (m : gomap) : MemM block (gmap string string) := fun h =>
  match m with
  | None => Ret (∅, h)
  | Some l => match h !! l ≫= of_map with
              | Some e => Ret (e, h)
              | None => Panic "invalid memory address"
              end
  end.

Definition map_set `{StoredMap block} (m : gomap) (k v : string) : MemM block unit :=
  match m with
  | None => fun _ => Panic "assignment to entry in nil map"
  | Some l => e ← map_entries m; store_at l (to_map (<[k := v]> e))
  end.

(** ** Rules *)

(** A pointer into a block of the right type: what is written is read back, a
    second write hides the first, and writing what is there changes nothing. *)
Record ptr_ok {T} (p : ptr block T) (b : block) : Prop := {
  ok_get : is_Some (p_get p b);
  ok_get_set v : p_get p (p_set p v b) = Some v;
  ok_set_set v w : p_set p w (p_set p v b) = p_set p w b;
  ok_set_get v : p_get p b = Some v -> p_set p v b = b }.

Lemma ptr_ok_set {T} (p : ptr block T) b v : ptr_ok p b -> ptr_ok p (p_set p v b).
Proof.
  intros [_ Hgs Hss _]. split; [by rewrite Hgs|..].
  - intros w. by rewrite Hss, Hgs.
  - intros w x. by rewrite !Hss.
  - intros w. rewrite Hgs. intros [= ->]. apply Hss.
Qed.

Lemma ptr_field_set {S T} (p : ptr block S) (f : field S T) b x v :
  ptr_ok p b -> p_set (ptr_field p f) v (p_set p x b) = p_set p (f_set f v x) b.
Proof. intros Hp. simpl. by rewrite (ok_get_set _ _ Hp), (ok_set_set _ _ Hp). Qed.

Lemma ptr_field_ok {S T} (p : ptr block S) (f : field S T) b x :
  ptr_ok p b -> ptr_ok (ptr_field p f) (p_set p x b).
Proof.
  intros Hp. pose proof Hp as [_ Hgs Hss _]. split.
  - simpl. rewrite Hgs. by eexists.
  - intros v. rewrite ptr_field_set by done. simpl. rewrite Hgs. simpl. by rewrite f_get_set.
  - intros v w. rewrite !ptr_field_set by done. by rewrite f_set_set.
  - intros v. rewrite ptr_field_set by done. simpl. rewrite Hgs. simpl. intros [= <-].
    by rewrite f_set_get.
Qed.

Lemma ptr_elem_ok {T} `{Stored block T} l i (vs : list T) :
  i < length vs -> ptr_ok (ptr_elem l i) (to_block vs).
Proof.
  intros Hi. split; simpl; rewrite ?of_to_block; simpl.
  - by apply lookup_lt_is_Some.
  - intros v. rewrite of_to_block. simpl. by rewrite list_lookup_insert_eq.
  - intros v w. rewrite !of_to_block. by rewrite list_insert_insert_eq.
  - intros v Hv. by rewrite list_insert_id.
Qed.

Lemma load_at {T} (p : ptr block T) h b v :
  h !! p_loc p = Some b -> p_get p b = Some v -> load p h = Ret (v, h).
Proof. intros Hl Hb. unfold load. by rewrite Hl; simpl; rewrite Hb. Qed.

(** A pointer reads [v] in the memory [h]. *)
Definition reads {T} h (p : ptr block T) (v : T) : Prop := (h !! p_loc p ≫= p_get p) = Some v.

Lemma reads_load {T} h (p : ptr block T) v : reads h p v -> load p h = Ret (v, h).
Proof. unfold reads, load. by intros ->. Qed.

Lemma reads_mono {T} h h' (p : ptr block T) v : reads h p v -> h ⊆ h' -> reads h' p v.
Proof.
  unfold reads. intros (b & Hb & Hv)%bind_Some Hs. by rewrite (lookup_weaken _ _ _ _ Hb Hs).
Qed.

Lemma reads_field {S T} h (p : ptr block S) (f : field S T) s :
  reads h p s -> reads h (ptr_field p f) (f_get f s).
Proof.
  unfold reads. intros (b & Hb & Hv)%bind_Some. simpl. rewrite Hb. simpl. by rewrite Hv.
Qed.

Lemma store_new {T} (p : ptr block T) h m b v :
  h ##ₘ m -> m !! p_loc p = Some b ->
  store p v (h ∪ m) = Ret (tt, h ∪ <[p_loc p := p_set p v b]> m).
Proof.
  intros Hd Hm. unfold store. rewrite (lookup_union_Some_r _ _ _ _ Hd Hm).
  do 2 f_equal. rewrite insert_union_r; [done|]. by eapply map_disjoint_Some_l.
Qed.

Lemma alloc_new b h m :
  exists l, alloc b (h ∪ m) = Ret (l, h ∪ <[l := b]> m) /\ h !! l = None /\ m !! l = None.
Proof.
  exists (fresh (dom (h ∪ m))). pose proof (is_fresh (dom (h ∪ m))) as Hf.
  apply not_elem_of_dom, lookup_union_None in Hf as [Hh Hm].
  split; [|done]. unfold alloc. do 2 f_equal. by rewrite insert_union_r.
Qed.
End heap.
