(* ===== verification/DeepCopy.v ===== *)
(** * Deep copies of the Benchmark resource (api/v1alpha1/zz_generated.deepcopy.go)

    The methods controller-gen writes for the structs of benchmark_types.go, on
    the memory of GoHeap.v.  A struct is modelled at two kinds: [mem], as it lies
    in memory, where a slice and a map are references, and [val], the value it
    stands for, where they are lists and finite maps.  Structs without
    references are those of BenchmarkTypes.v.

    The structs of the Kubernetes libraries and their deep copies are not part of
    the program: [Class LibTypes] and [Class LibOps] have them as parameters. *)
From S2P Require Import Prelude GoHeap BenchmarkTypes.

(** ** The statements the methods are made of *)
Section statements.
Context {block : Type}.
Abbreviation Mem := (MemM block).

(** [*out = *in] *)
Definition assign {T} (inp out : ptr block T) : Mem unit := v ← load inp; store out v.

(** [out.F = in.F] *)
Definition assign_field {S T} (inp out : ptr block S) (f : field S T) : Mem unit :=
  assign (ptr_field inp f) (ptr_field out f).

(** [in.F.DeepCopyInto(&out.F)] *)
Definition copy_field {S T} (inp out : ptr block S) (f : field S T)
    (copy : ptr block T -> ptr block T -> Mem unit) : Mem unit :=
  copy (ptr_field inp f) (ptr_field out f).

(** The body of [if in.F != nil] for a field that is a slice of structs with
    references: [make], then a deep copy of each element. *)
Definition copy_items {T} `{Stored block T} (copy : ptr block T -> ptr block T -> Mem unit)
    (inp out : ptr block (goslice T)) : Mem unit :=
  s ← load inp;
  match s with
  | None => mret tt
  | Some _ =>
      o ← make_slice T (len s);
      store out (Some o) ;;
      for_range (fun i =>
        s ← load inp; p ← index s i;
        o ← load out; q ← index o i;
        copy p q) (seq 0 (len s))
  end.

(** The same for a slice of structs without: [make] and [copy]. *)
Definition copy_flat {T} `{Stored block T} (inp out : ptr block (goslice T)) : Mem unit :=
  s ← load inp;
  match s with
  | None => mret tt
  | Some _ =>
      o ← make_slice T (len s);
      store out (Some o) ;;
      o ← load out; s ← load inp; copy_slice o s
  end.

(** The same for a map. *)
Definition copy_map `{StoredMap block} (range_keys : gmap string string -> list string)
    (inp out : ptr block gomap) : Mem unit :=
  s ← load inp;
  match s with
  | None => mret tt
  | Some _ =>
      o ← make_map;
      store out (Some o) ;;
      e ← map_entries s;
      for_range (fun key => o ← load out; map_set o key (default EmptyString (e !! key)))
        (range_keys e)
  end.

(** [DeepCopy]: nil for nil, else a copy into a new variable. *)
Definition deep_copy {T} `{Stored block T} (copy : ptr block T -> ptr block T -> Mem unit)
    (inp : option (ptr block T)) : Mem (option (ptr block T)) :=
  match inp with
  | None => mret None
  | Some p => out ← new_ T; copy p out ;; mret (Some out)
  end.
End statements.

(** ** The structs *)

(** The structs of the libraries: metav1.ObjectMeta, metav1.ListMeta,
    corev1.PersistentVolumeClaimSpec, metav1.LabelSelector, metav1.Time. *)
Record libkind := LibKind {
  ObjectMeta : Type; ListMeta : Type; PVCSpec : Type; LabelSelector : Type; Time : Type }.

Record kind := MkKind { SL : Type -> Type; MP : Type; LK : libkind }.

(** metav1.TypeMeta *)
Record TypeMeta := { tm_Kind : string; tm_APIVersion : string }.

Section structs.
Context (K : kind).

Record Delete := { APIVersion : string; Kind : string; Selector : LabelSelector (LK K) }.

Record Volume := {
  vol_Name : string; vol_Count : Z; vol_Spec : PVCSpec (LK K); vol_RateName : string }.

Record Workload := {
  wl_Name : string; wl_Workload : string; Vars : MP K; wl_Count : Z;
  SyncGroup : string; OutputFiles : SL K OutputFile; wl_RateName : string }.

Record ControlOperation := {
  op_Name : string; SnapshotSpec : Snapshot; ScaleSpec : Scale; DeleteSpec : Delete;
  op_Outputs : ActionOutput; op_RateName : string }.

Record BenchmarkSpec := {
  Runtime : string;
  Volumes : SL K Volume;
  Workloads : SL K Workload;
  ControlOperations : SL K ControlOperation;
  Rates : SL K Rate;
  WorkloadsOutput : string;
  MetadataOutput : string;
  MetricsOutput : string;
  Outputs : SL K Output }.

Record BenchmarkCondition := {
  LastProbeTime : Time (LK K); LastTransitionTime : Time (LK K);
  cond_Message : string; cond_Reason : string; cond_Status : string; cond_Type : string }.

Record BenchmarkStatus := {
  State : string;
  CompletionTime : Time (LK K);
  InitCompletionTime : Time (LK K);
  TargetCompletionTimeUnix : Z;
  TargetCompletionTime : Time (LK K);
  CompletionTimeUnix : Z;
  StartTimeUnix : Z;
  InitCompletionTimeUnix : Z;
  NumCompletedObjs : Z;
  RunningWorkloads : Z;
  RunningRates : Z;
  Conditions : SL K BenchmarkCondition }.

Record Benchmark := {
  bm_TypeMeta : TypeMeta; bm_ObjectMeta : ObjectMeta (LK K);
  bm_Spec : BenchmarkSpec; bm_Status : BenchmarkStatus }.

Record BenchmarkList := {
  bl_TypeMeta : TypeMeta; bl_ListMeta : ListMeta (LK K); Items : SL K Benchmark }.
End structs.
Arguments Build_Delete {K}. Arguments Build_Volume {K}. Arguments Build_Workload {K}.
Arguments Build_ControlOperation {K}. Arguments Build_BenchmarkSpec {K}.
Arguments Build_BenchmarkCondition {K}. Arguments Build_BenchmarkStatus {K}.
Arguments Build_Benchmark {K}. Arguments Build_BenchmarkList {K}.
Arguments APIVersion {K}. Arguments Kind {K}. Arguments Selector {K}.
Arguments vol_Name {K}. Arguments vol_Count {K}. Arguments vol_Spec {K}. Arguments vol_RateName {K}.
Arguments wl_Name {K}. Arguments wl_Workload {K}. Arguments Vars {K}. Arguments wl_Count {K}.
Arguments SyncGroup {K}. Arguments OutputFiles {K}. Arguments wl_RateName {K}.
Arguments op_Name {K}. Arguments SnapshotSpec {K}. Arguments ScaleSpec {K}.
Arguments DeleteSpec {K}. Arguments op_Outputs {K}. Arguments op_RateName {K}.
Arguments Runtime {K}. Arguments Volumes {K}. Arguments Workloads {K}.
Arguments ControlOperations {K}. Arguments Rates {K}. Arguments WorkloadsOutput {K}.
Arguments MetadataOutput {K}. Arguments MetricsOutput {K}. Arguments Outputs {K}.
Arguments LastProbeTime {K}. Arguments LastTransitionTime {K}. Arguments cond_Message {K}.
Arguments cond_Reason {K}. Arguments cond_Status {K}. Arguments cond_Type {K}.
Arguments State {K}. Arguments CompletionTime {K}. Arguments InitCompletionTime {K}.
Arguments TargetCompletionTimeUnix {K}. Arguments TargetCompletionTime {K}.
Arguments CompletionTimeUnix {K}. Arguments StartTimeUnix {K}. Arguments InitCompletionTimeUnix {K}.
Arguments NumCompletedObjs {K}. Arguments RunningWorkloads {K}. Arguments RunningRates {K}.
Arguments Conditions {K}. Arguments bm_TypeMeta {K}. Arguments bm_ObjectMeta {K}.
Arguments bm_Spec {K}. Arguments bm_Status {K}.
Arguments bl_TypeMeta {K}. Arguments bl_ListMeta {K}. Arguments Items {K}.

(** ** Assignable fields: [f_T] is the field [T] of its struct *)
Definition f_Selector {K} : field (Delete K) (LabelSelector (LK K)) :=
  Field Selector (fun v s =>
    Build_Delete (APIVersion s) (Kind s) v)
    (fun v s => eq_refl) (fun v w s => eq_refl)
    (fun s => match s with Build_Delete _ _ _ => eq_refl end).
Definition f_vol_Spec {K} : field (Volume K) (PVCSpec (LK K)) :=
  Field vol_Spec (fun v s =>
    Build_Volume (vol_Name s) (vol_Count s) v (vol_RateName s))
    (fun v s => eq_refl) (fun v w s => eq_refl)
    (fun s => match s with Build_Volume _ _ _ _ => eq_refl end).
Definition f_Vars {K} : field (Workload K) (MP K) :=
  Field Vars (fun v s =>
    Build_Workload (wl_Name s) (wl_Workload s) v (wl_Count s) (SyncGroup s) (OutputFiles s)
    (wl_RateName s))
    (fun v s => eq_refl) (fun v w s => eq_refl)
    (fun s => match s with Build_Workload _ _ _ _ _ _ _ => eq_refl end).
Definition f_OutputFiles {K} : field (Workload K) (SL K OutputFile) :=
  Field OutputFiles (fun v s =>
    Build_Workload (wl_Name s) (wl_Workload s) (Vars s) (wl_Count s) (SyncGroup s) v
    (wl_RateName s))
    (fun v s => eq_refl) (fun v w s => eq_refl)
    (fun s => match s with Build_Workload _ _ _ _ _ _ _ => eq_refl end).
Definition f_SnapshotSpec {K} : field (ControlOperation K) Snapshot :=
  Field SnapshotSpec (fun v s =>
    Build_ControlOperation (op_Name s) v (ScaleSpec s) (DeleteSpec s) (op_Outputs s)
    (op_RateName s))
    (fun v s => eq_refl) (fun v w s => eq_refl)
    (fun s => match s with Build_ControlOperation _ _ _ _ _ _ => eq_refl end).
Definition f_ScaleSpec {K} : field (ControlOperation K) Scale :=
  Field ScaleSpec (fun v s =>
    Build_ControlOperation (op_Name s) (SnapshotSpec s) v (DeleteSpec s) (op_Outputs s)
    (op_RateName s))
    (fun v s => eq_refl) (fun v w s => eq_refl)
    (fun s => match s with Build_ControlOperation _ _ _ _ _ _ => eq_refl end).
Definition f_DeleteSpec {K} : field (ControlOperation K) (Delete K) :=
  Field DeleteSpec (fun v s =>
    Build_ControlOperation (op_Name s) (SnapshotSpec s) (ScaleSpec s) v (op_Outputs s)
    (op_RateName s))
    (fun v s => eq_refl) (fun v w s => eq_refl)
    (fun s => match s with Build_ControlOperation _ _ _ _ _ _ => eq_refl end).
Definition f_op_Outputs {K} : field (ControlOperation K) ActionOutput :=
  Field op_Outputs (fun v s =>
    Build_ControlOperation (op_Name s) (SnapshotSpec s) (ScaleSpec s) (DeleteSpec s) v
    (op_RateName s))
    (fun v s => eq_refl) (fun v w s => eq_refl)
    (fun s => match s with Build_ControlOperation _ _ _ _ _ _ => eq_refl end).
Definition f_Volumes {K} : field (BenchmarkSpec K) (SL K (Volume K)) :=
  Field Volumes (fun v s =>
    Build_BenchmarkSpec (Runtime s) v (Workloads s) (ControlOperations s) (Rates s)
    (WorkloadsOutput s) (MetadataOutput s) (MetricsOutput s) (Outputs s))
    (fun v s => eq_refl) (fun v w s => eq_refl)
    (fun s => match s with Build_BenchmarkSpec _ _ _ _ _ _ _ _ _ => eq_refl end).
Definition f_Workloads {K} : field (BenchmarkSpec K) (SL K (Workload K)) :=
  Field Workloads (fun v s =>
    Build_BenchmarkSpec (Runtime s) (Volumes s) v (ControlOperations s) (Rates s)
    (WorkloadsOutput s) (MetadataOutput s) (MetricsOutput s) (Outputs s))
    (fun v s => eq_refl) (fun v w s => eq_refl)
    (fun s => match s with Build_BenchmarkSpec _ _ _ _ _ _ _ _ _ => eq_refl end).
Definition f_ControlOperations {K} : field (BenchmarkSpec K) (SL K (ControlOperation K)) :=
  Field ControlOperations (fun v s =>
    Build_BenchmarkSpec (Runtime s) (Volumes s) (Workloads s) v (Rates s) (WorkloadsOutput
    s) (MetadataOutput s) (MetricsOutput s) (Outputs s))
    (fun v s => eq_refl) (fun v w s => eq_refl)
    (fun s => match s with Build_BenchmarkSpec _ _ _ _ _ _ _ _ _ => eq_refl end).
Definition f_Rates {K} : field (BenchmarkSpec K) (SL K Rate) :=
  Field Rates (fun v s =>
    Build_BenchmarkSpec (Runtime s) (Volumes s) (Workloads s) (ControlOperations s) v
    (WorkloadsOutput s) (MetadataOutput s) (MetricsOutput s) (Outputs s))
    (fun v s => eq_refl) (fun v w s => eq_refl)
    (fun s => match s with Build_BenchmarkSpec _ _ _ _ _ _ _ _ _ => eq_refl end).
Definition f_Outputs {K} : field (BenchmarkSpec K) (SL K Output) :=
  Field Outputs (fun v s =>
    Build_BenchmarkSpec (Runtime s) (Volumes s) (Workloads s) (ControlOperations s) (Rates
    s) (WorkloadsOutput s) (MetadataOutput s) (MetricsOutput s) v)
    (fun v s => eq_refl) (fun v w s => eq_refl)
    (fun s => match s with Build_BenchmarkSpec _ _ _ _ _ _ _ _ _ => eq_refl end).
Definition f_LastProbeTime {K} : field (BenchmarkCondition K) (Time (LK K)) :=
  Field LastProbeTime (fun v s =>
    Build_BenchmarkCondition v (LastTransitionTime s) (cond_Message s) (cond_Reason s)
    (cond_Status s) (cond_Type s))
    (fun v s => eq_refl) (fun v w s => eq_refl)
    (fun s => match s with Build_BenchmarkCondition _ _ _ _ _ _ => eq_refl end).
Definition f_LastTransitionTime {K} : field (BenchmarkCondition K) (Time (LK K)) :=
  Field LastTransitionTime (fun v s =>
    Build_BenchmarkCondition (LastProbeTime s) v (cond_Message s) (cond_Reason s)
    (cond_Status s) (cond_Type s))
    (fun v s => eq_refl) (fun v w s => eq_refl)
    (fun s => match s with Build_BenchmarkCondition _ _ _ _ _ _ => eq_refl end).
Definition f_CompletionTime {K} : field (BenchmarkStatus K) (Time (LK K)) :=
  Field CompletionTime (fun v s =>
    Build_BenchmarkStatus (State s) v (InitCompletionTime s) (TargetCompletionTimeUnix s)
    (TargetCompletionTime s) (CompletionTimeUnix s) (StartTimeUnix s)
    (InitCompletionTimeUnix s) (NumCompletedObjs s) (RunningWorkloads s) (RunningRates s)
    (Conditions s))
    (fun v s => eq_refl) (fun v w s => eq_refl)
    (fun s => match s with Build_BenchmarkStatus _ _ _ _ _ _ _ _ _ _ _ _ => eq_refl end).
Definition f_InitCompletionTime {K} : field (BenchmarkStatus K) (Time (LK K)) :=
  Field InitCompletionTime (fun v s =>
    Build_BenchmarkStatus (State s) (CompletionTime s) v (TargetCompletionTimeUnix s)
    (TargetCompletionTime s) (CompletionTimeUnix s) (StartTimeUnix s)
    (InitCompletionTimeUnix s) (NumCompletedObjs s) (RunningWorkloads s) (RunningRates s)
    (Conditions s))
    (fun v s => eq_refl) (fun v w s => eq_refl)
    (fun s => match s with Build_BenchmarkStatus _ _ _ _ _ _ _ _ _ _ _ _ => eq_refl end).
Definition f_TargetCompletionTime {K} : field (BenchmarkStatus K) (Time (LK K)) :=
  Field TargetCompletionTime (fun v s =>
    Build_BenchmarkStatus (State s) (CompletionTime s) (InitCompletionTime s)
    (TargetCompletionTimeUnix s) v (CompletionTimeUnix s) (StartTimeUnix s)
    (InitCompletionTimeUnix s) (NumCompletedObjs s) (RunningWorkloads s) (RunningRates s)
    (Conditions s))
    (fun v s => eq_refl) (fun v w s => eq_refl)
    (fun s => match s with Build_BenchmarkStatus _ _ _ _ _ _ _ _ _ _ _ _ => eq_refl end).
Definition f_Conditions {K} : field (BenchmarkStatus K) (SL K (BenchmarkCondition K)) :=
  Field Conditions (fun v s =>
    Build_BenchmarkStatus (State s) (CompletionTime s) (InitCompletionTime s)
    (TargetCompletionTimeUnix s) (TargetCompletionTime s) (CompletionTimeUnix s)
    (StartTimeUnix s) (InitCompletionTimeUnix s) (NumCompletedObjs s) (RunningWorkloads s)
    (RunningRates s) v)
    (fun v s => eq_refl) (fun v w s => eq_refl)
    (fun s => match s with Build_BenchmarkStatus _ _ _ _ _ _ _ _ _ _ _ _ => eq_refl end).
Definition f_bm_TypeMeta {K} : field (Benchmark K) TypeMeta :=
  Field bm_TypeMeta (fun v s =>
    Build_Benchmark v (bm_ObjectMeta s) (bm_Spec s) (bm_Status s))
    (fun v s => eq_refl) (fun v w s => eq_refl)
    (fun s => match s with Build_Benchmark _ _ _ _ => eq_refl end).
Definition f_bm_ObjectMeta {K} : field (Benchmark K) (ObjectMeta (LK K)) :=
  Field bm_ObjectMeta (fun v s =>
    Build_Benchmark (bm_TypeMeta s) v (bm_Spec s) (bm_Status s))
    (fun v s => eq_refl) (fun v w s => eq_refl)
    (fun s => match s with Build_Benchmark _ _ _ _ => eq_refl end).
Definition f_bm_Spec {K} : field (Benchmark K) (BenchmarkSpec K) :=
  Field bm_Spec (fun v s =>
    Build_Benchmark (bm_TypeMeta s) (bm_ObjectMeta s) v (bm_Status s))
    (fun v s => eq_refl) (fun v w s => eq_refl)
    (fun s => match s with Build_Benchmark _ _ _ _ => eq_refl end).
Definition f_bm_Status {K} : field (Benchmark K) (BenchmarkStatus K) :=
  Field bm_Status (fun v s =>
    Build_Benchmark (bm_TypeMeta s) (bm_ObjectMeta s) (bm_Spec s) v)
    (fun v s => eq_refl) (fun v w s => eq_refl)
    (fun s => match s with Build_Benchmark _ _ _ _ => eq_refl end).
Definition f_bl_TypeMeta {K} : field (BenchmarkList K) TypeMeta :=
  Field bl_TypeMeta (fun v s =>
    Build_BenchmarkList v (bl_ListMeta s) (Items s))
    (fun v s => eq_refl) (fun v w s => eq_refl)
    (fun s => match s with Build_BenchmarkList _ _ _ => eq_refl end).
Definition f_bl_ListMeta {K} : field (BenchmarkList K) (ListMeta (LK K)) :=
  Field bl_ListMeta (fun v s =>
    Build_BenchmarkList (bl_TypeMeta s) v (Items s))
    (fun v s => eq_refl) (fun v w s => eq_refl)
    (fun s => match s with Build_BenchmarkList _ _ _ => eq_refl end).
Definition f_Items {K} : field (BenchmarkList K) (SL K (Benchmark K)) :=
  Field Items (fun v s =>
    Build_BenchmarkList (bl_TypeMeta s) (bl_ListMeta s) v)
    (fun v s => eq_refl) (fun v w s => eq_refl)
    (fun s => match s with Build_BenchmarkList _ _ _ => eq_refl end).
Definition f_HttpPostSpec : field Output HttpPost :=
  Field HttpPostSpec (fun v s =>
    Build_Output (out_Name s) v)
    (fun v s => eq_refl) (fun v w s => eq_refl)
    (fun s => match s with Build_Output _ _ => eq_refl end).
Definition f_ConstantRateSpec : field Rate ConstantRate :=
  Field ConstantRateSpec (fun v s =>
    Build_Rate (rate_Name s) v (ConstantIncreaseDecreaseRateSpec s))
    (fun v s => eq_refl) (fun v w s => eq_refl)
    (fun s => match s with Build_Rate _ _ _ => eq_refl end).
Definition f_ConstantIncreaseDecreaseRateSpec : field Rate ConstantIncreaseDecreaseRate :=
  Field ConstantIncreaseDecreaseRateSpec (fun v s =>
    Build_Rate (rate_Name s) (ConstantRateSpec s) v)
    (fun v s => eq_refl) (fun v w s => eq_refl)
    (fun s => match s with Build_Rate _ _ _ => eq_refl end).

(** ** The memory of the program *)

(** The structs of the libraries as they lie in memory and the values they stand
    for, their zero values, and the blocks only they use. *)
Class LibTypes := {
  lib_mem : libkind;
  lib_val : libkind;
  lib_block : Type;
  zero_ObjectMeta : ObjectMeta lib_mem;
  zero_ListMeta : ListMeta lib_mem;
  zero_PVCSpec : PVCSpec lib_mem;
  zero_LabelSelector : LabelSelector lib_mem;
  zero_Time : Time lib_mem }.

Section memory.
Local Open Scope Z_scope.
Context {L : LibTypes}.

Definition mem : kind := {| SL := goslice; MP := gomap; LK := lib_mem |}.
Definition val : kind :=
  {| SL T := option (list T); MP := option (gmap string string); LK := lib_val |}.

Inductive block :=
  | BActionOutput (l : list ActionOutput)
  | BBenchmark (l : list (Benchmark mem))
  | BBenchmarkCondition (l : list (BenchmarkCondition mem))
  | BBenchmarkList (l : list (BenchmarkList mem))
  | BBenchmarkSpec (l : list (BenchmarkSpec mem))
  | BBenchmarkStatus (l : list (BenchmarkStatus mem))
  | BConstantIncreaseDecreaseRate (l : list ConstantIncreaseDecreaseRate)
  | BConstantRate (l : list ConstantRate)
  | BControlOperation (l : list (ControlOperation mem))
  | BDelete (l : list (Delete mem))
  | BHttpPost (l : list HttpPost)
  | BOutput (l : list Output)
  | BOutputFile (l : list OutputFile)
  | BRate (l : list Rate)
  | BScale (l : list Scale)
  | BSnapshot (l : list Snapshot)
  | BVolume (l : list (Volume mem))
  | BWorkload (l : list (Workload mem))
  | BMap (m : gmap string string)
  | BLib (b : lib_block).

#[global] Instance stored_map : StoredMap block := {|
  to_map := BMap; of_map b := match b with BMap m => Some m | _ => None end;
  of_to_map m := eq_refl |}.

Definition zero_TypeMeta : TypeMeta := {| tm_Kind := EmptyString; tm_APIVersion := EmptyString |}.

#[global] Instance stored_ActionOutput : Stored block ActionOutput := {|
  zero := {| OutputName := EmptyString |};
  to_block := BActionOutput;
  of_block b := match b with BActionOutput l => Some l | _ => None end;
  of_to_block l := eq_refl |}.

#[global] Instance stored_HttpPost : Stored block HttpPost := {|
  zero := {| URL := EmptyString |};
  to_block := BHttpPost;
  of_block b := match b with BHttpPost l => Some l | _ => None end;
  of_to_block l := eq_refl |}.

#[global] Instance stored_ConstantRate : Stored block ConstantRate := {|
  zero := {| Interval := 0 |};
  to_block := BConstantRate;
  of_block b := match b with BConstantRate l => Some l | _ => None end;
  of_to_block l := eq_refl |}.

#[global] Instance stored_ConstantIncreaseDecreaseRate :
  Stored block ConstantIncreaseDecreaseRate := {|
  zero := {| IncInterval := 0; DecInterval := 0; Max := 0; Min := 0 |};
  to_block := BConstantIncreaseDecreaseRate;
  of_block b := match b with BConstantIncreaseDecreaseRate l => Some l | _ => None end;
  of_to_block l := eq_refl |}.

#[global] Instance stored_Snapshot : Stored block Snapshot := {|
  zero := {| sn_WorkloadName := EmptyString; sn_VolumeName := EmptyString; SnapshotClass :=
     EmptyString |};
  to_block := BSnapshot;
  of_block b := match b with BSnapshot l => Some l | _ => None end;
  of_to_block l := eq_refl |}.

#[global] Instance stored_Scale : Stored block Scale := {|
  zero := {| ObjName := EmptyString; ScaleScripts := EmptyString; sc_WorkloadName := EmptyString;
     ServiceAccountName := EmptyString |};
  to_block := BScale;
  of_block b := match b with BScale l => Some l | _ => None end;
  of_to_block l := eq_refl |}.

#[global] Instance stored_OutputFile : Stored block OutputFile := {|
  zero := {| Filename := EmptyString; Parser := EmptyString; Target := EmptyString;
     Sink := EmptyString |};
  to_block := BOutputFile;
  of_block b := match b with BOutputFile l => Some l | _ => None end;
  of_to_block l := eq_refl |}.

#[global] Instance stored_Output : Stored block Output := {|
  zero := {| out_Name := EmptyString; HttpPostSpec := zero (block := block) |};
  to_block := BOutput;
  of_block b := match b with BOutput l => Some l | _ => None end;
  of_to_block l := eq_refl |}.

#[global] Instance stored_Rate : Stored block Rate := {|
  zero := {| rate_Name := EmptyString; ConstantRateSpec := zero (block := block);
     ConstantIncreaseDecreaseRateSpec := zero (block := block) |};
  to_block := BRate;
  of_block b := match b with BRate l => Some l | _ => None end;
  of_to_block l := eq_refl |}.

#[global] Instance stored_Delete : Stored block (Delete mem) := {|
  zero := Build_Delete (K := mem) EmptyString EmptyString zero_LabelSelector;
  to_block := BDelete;
  of_block b := match b with BDelete l => Some l | _ => None end;
  of_to_block l := eq_refl |}.

#[global] Instance stored_Volume : Stored block (Volume mem) := {|
  zero := Build_Volume (K := mem) EmptyString 0 zero_PVCSpec EmptyString;
  to_block := BVolume;
  of_block b := match b with BVolume l => Some l | _ => None end;
  of_to_block l := eq_refl |}.

#[global] Instance stored_Workload : Stored block (Workload mem) := {|
  zero := Build_Workload (K := mem) EmptyString EmptyString None 0 EmptyString None EmptyString;
  to_block := BWorkload;
  of_block b := match b with BWorkload l => Some l | _ => None end;
  of_to_block l := eq_refl |}.

#[global] Instance stored_ControlOperation : Stored block (ControlOperation mem) := {|
  zero := Build_ControlOperation (K := mem) EmptyString (zero (block := block)) (zero (block := block))
     (zero (block := block)) (zero (block := block)) EmptyString;
  to_block := BControlOperation;
  of_block b := match b with BControlOperation l => Some l | _ => None end;
  of_to_block l := eq_refl |}.

#[global] Instance stored_BenchmarkSpec : Stored block (BenchmarkSpec mem) := {|
  zero := Build_BenchmarkSpec (K := mem) EmptyString None None None None EmptyString
     EmptyString EmptyString None;
  to_block := BBenchmarkSpec;
  of_block b := match b with BBenchmarkSpec l => Some l | _ => None end;
  of_to_block l := eq_refl |}.

#[global] Instance stored_BenchmarkCondition : Stored block (BenchmarkCondition mem) := {|
  zero := Build_BenchmarkCondition (K := mem) zero_Time zero_Time EmptyString EmptyString
     EmptyString EmptyString;
  to_block := BBenchmarkCondition;
  of_block b := match b with BBenchmarkCondition l => Some l | _ => None end;
  of_to_block l := eq_refl |}.

#[global] Instance stored_BenchmarkStatus : Stored block (BenchmarkStatus mem) := {|
  zero := Build_BenchmarkStatus (K := mem) EmptyString zero_Time zero_Time 0 zero_Time 0 0 0 0
     0 0 None;
  to_block := BBenchmarkStatus;
  of_block b := match b with BBenchmarkStatus l => Some l | _ => None end;
  of_to_block l := eq_refl |}.

#[global] Instance stored_Benchmark : Stored block (Benchmark mem) := {|
  zero := Build_Benchmark (K := mem) zero_TypeMeta zero_ObjectMeta (zero (block := block))
     (zero (block := block));
  to_block := BBenchmark;
  of_block b := match b with BBenchmark l => Some l | _ => None end;
  of_to_block l := eq_refl |}.

#[global] Instance stored_BenchmarkList : Stored block (BenchmarkList mem) := {|
  zero := Build_BenchmarkList (K := mem) zero_TypeMeta zero_ListMeta None;
  to_block := BBenchmarkList;
  of_block b := match b with BBenchmarkList l => Some l | _ => None end;
  of_to_block l := eq_refl |}.

End memory.

(** ** The methods *)

(** The deep copies of the structs of the libraries, and the order in which
    [range] visits the keys of a map. *)
Class LibOps `{LibTypes} := {
  ObjectMeta_DeepCopyInto :
    ptr block (ObjectMeta lib_mem) -> ptr block (ObjectMeta lib_mem) -> MemM block unit;
  ListMeta_DeepCopyInto : ptr block (ListMeta lib_mem) -> ptr block (ListMeta lib_mem) -> MemM block unit;
  PVCSpec_DeepCopyInto : ptr block (PVCSpec lib_mem) -> ptr block (PVCSpec lib_mem) -> MemM block unit;
  LabelSelector_DeepCopyInto :
    ptr block (LabelSelector lib_mem) -> ptr block (LabelSelector lib_mem) -> MemM block unit;
  Time_DeepCopyInto : ptr block (Time lib_mem) -> ptr block (Time lib_mem) -> MemM block unit;
  range_keys : gmap string string -> list string }.

Section copies.
Context `{LibOps}.
Abbreviation Mem := (MemM block).

Definition ActionOutput_DeepCopyInto (inp out : ptr block ActionOutput) : Mem unit :=
  assign inp out.

Definition ActionOutput_DeepCopy := deep_copy ActionOutput_DeepCopyInto.

Definition HttpPost_DeepCopyInto (inp out : ptr block HttpPost) : Mem unit :=
  assign inp out.

Definition HttpPost_DeepCopy := deep_copy HttpPost_DeepCopyInto.

Definition ConstantRate_DeepCopyInto (inp out : ptr block ConstantRate) : Mem unit :=
  assign inp out.

Definition ConstantRate_DeepCopy := deep_copy ConstantRate_DeepCopyInto.

Definition ConstantIncreaseDecreaseRate_DeepCopyInto
    (inp out : ptr block ConstantIncreaseDecreaseRate) : Mem unit :=
  assign inp out.

Definition ConstantIncreaseDecreaseRate_DeepCopy := deep_copy ConstantIncreaseDecreaseRate_DeepCopyInto.

Definition OutputFile_DeepCopyInto (inp out : ptr block OutputFile) : Mem unit :=
  assign inp out.

Definition OutputFile_DeepCopy := deep_copy OutputFile_DeepCopyInto.

Definition Scale_DeepCopyInto (inp out : ptr block Scale) : Mem unit :=
  assign inp out.

Definition Scale_DeepCopy := deep_copy Scale_DeepCopyInto.

Definition Snapshot_DeepCopyInto (inp out : ptr block Snapshot) : Mem unit :=
  assign inp out.

Definition Snapshot_DeepCopy := deep_copy Snapshot_DeepCopyInto.

Definition Output_DeepCopyInto (inp out : ptr block Output) : Mem unit :=
  assign inp out ;;
  assign_field inp out f_HttpPostSpec.

Definition Output_DeepCopy := deep_copy Output_DeepCopyInto.

Definition Rate_DeepCopyInto (inp out : ptr block Rate) : Mem unit :=
  assign inp out ;;
  assign_field inp out f_ConstantRateSpec ;;
  assign_field inp out f_ConstantIncreaseDecreaseRateSpec.

Definition Rate_DeepCopy := deep_copy Rate_DeepCopyInto.

Definition Delete_DeepCopyInto (inp out : ptr block (Delete mem)) : Mem unit :=
  assign inp out ;;
  copy_field inp out f_Selector LabelSelector_DeepCopyInto.

Definition Delete_DeepCopy := deep_copy Delete_DeepCopyInto.

Definition Volume_DeepCopyInto (inp out : ptr block (Volume mem)) : Mem unit :=
  assign inp out ;;
  copy_field inp out f_vol_Spec PVCSpec_DeepCopyInto.

Definition Volume_DeepCopy := deep_copy Volume_DeepCopyInto.

Definition Workload_DeepCopyInto (inp out : ptr block (Workload mem)) : Mem unit :=
  assign inp out ;;
  copy_field inp out f_Vars (copy_map range_keys) ;;
  copy_field inp out f_OutputFiles copy_flat.

Definition Workload_DeepCopy := deep_copy Workload_DeepCopyInto.

Definition ControlOperation_DeepCopyInto (inp out : ptr block (ControlOperation mem)) : Mem unit :=
  assign inp out ;;
  assign_field inp out f_SnapshotSpec ;;
  assign_field inp out f_ScaleSpec ;;
  copy_field inp out f_DeleteSpec Delete_DeepCopyInto ;;
  assign_field inp out f_op_Outputs.

Definition ControlOperation_DeepCopy := deep_copy ControlOperation_DeepCopyInto.

Definition BenchmarkCondition_DeepCopyInto (inp out : ptr block (BenchmarkCondition mem)) : Mem unit :=
  assign inp out ;;
  copy_field inp out f_LastProbeTime Time_DeepCopyInto ;;
  copy_field inp out f_LastTransitionTime Time_DeepCopyInto.

Definition BenchmarkCondition_DeepCopy := deep_copy BenchmarkCondition_DeepCopyInto.

Definition BenchmarkSpec_DeepCopyInto (inp out : ptr block (BenchmarkSpec mem)) : Mem unit :=
  assign inp out ;;
  copy_field inp out f_Volumes (copy_items Volume_DeepCopyInto) ;;
  copy_field inp out f_Workloads (copy_items Workload_DeepCopyInto) ;;
  copy_field inp out f_ControlOperations (copy_items ControlOperation_DeepCopyInto) ;;
  copy_field inp out f_Rates copy_flat ;;
  copy_field inp out f_Outputs copy_flat.

Definition BenchmarkSpec_DeepCopy := deep_copy BenchmarkSpec_DeepCopyInto.

Definition BenchmarkStatus_DeepCopyInto (inp out : ptr block (BenchmarkStatus mem)) : Mem unit :=
  assign inp out ;;
  copy_field inp out f_CompletionTime Time_DeepCopyInto ;;
  copy_field inp out f_InitCompletionTime Time_DeepCopyInto ;;
  copy_field inp out f_TargetCompletionTime Time_DeepCopyInto ;;
  copy_field inp out f_Conditions (copy_items BenchmarkCondition_DeepCopyInto).

Definition BenchmarkStatus_DeepCopy := deep_copy BenchmarkStatus_DeepCopyInto.

Definition Benchmark_DeepCopyInto (inp out : ptr block (Benchmark mem)) : Mem unit :=
  assign inp out ;;
  assign_field inp out f_bm_TypeMeta ;;
  copy_field inp out f_bm_ObjectMeta ObjectMeta_DeepCopyInto ;;
  copy_field inp out f_bm_Spec BenchmarkSpec_DeepCopyInto ;;
  copy_field inp out f_bm_Status BenchmarkStatus_DeepCopyInto.

Definition Benchmark_DeepCopy := deep_copy Benchmark_DeepCopyInto.

Definition BenchmarkList_DeepCopyInto (inp out : ptr block (BenchmarkList mem)) : Mem unit :=
  assign inp out ;;
  assign_field inp out f_bl_TypeMeta ;;
  copy_field inp out f_bl_ListMeta ListMeta_DeepCopyInto ;;
  copy_field inp out f_Items (copy_items Benchmark_DeepCopyInto).

Definition BenchmarkList_DeepCopy := deep_copy BenchmarkList_DeepCopyInto.

(** A value of the interface runtime.Object: [None] is the nil interface, which
    is not the same as an interface that holds a nil pointer. *)
Inductive Object :=
  | ObjBenchmark (p : option (ptr block (Benchmark mem)))
  | ObjBenchmarkList (p : option (ptr block (BenchmarkList mem))).

Definition Benchmark_DeepCopyObject (inp : option (ptr block (Benchmark mem))) : Mem (option Object) :=
  c ← Benchmark_DeepCopy inp;
  match c with Some _ => mret (Some (ObjBenchmark c)) | None => mret None end.

Definition BenchmarkList_DeepCopyObject (inp : option (ptr block (BenchmarkList mem)))
    : Mem (option Object) :=
  c ← BenchmarkList_DeepCopy inp;
  match c with Some _ => mret (Some (ObjBenchmarkList c)) | None => mret None end.
End copies.
