(* ===== verification/DeepCopyThm.v ===== *)
(** * Deep copies: theorems

    What a deep copy promises, [deep_copies]: whatever the memory, it writes to
    its target and to new memory only, and the new memory alone holds everything
    the target then refers to.  So the copy stands for the same value as the
    original, and no write through one can be seen through the other.  The rules
    below follow the code of a method, one rule per kind of statement. *)
From S2P Require Import Prelude GoHeap BenchmarkTypes DeepCopy.

Section rules.
Context {block : Type}.
Implicit Types h m : heap block.

(** [rep h x a]: the struct [x] stands for the value [a] when its references are
    followed in the memory [h].  More memory changes nothing. *)
Definition monotone {T A} (rep : heap block -> T -> A -> Prop) : Prop :=
  forall h h' x a, rep h x a -> h ⊆ h' -> rep h' x a.

(** The memory is [h], which holds what the original refers to, and a new part
    [m] that holds the target. *)
Definition deep_copies {T A} (rep : heap block -> T -> A -> Prop)
    (f : ptr block T -> ptr block T -> MemM block unit) : Prop :=
  forall h m inp out x a b,
    h ##ₘ m -> reads h inp x -> rep h x a -> m !! p_loc out = Some b -> ptr_ok out b ->
    exists y m', f inp out (h ∪ m) = Ret (tt, h ∪ (<[p_loc out := p_set out y b]> m ∪ m')) /\
      h ∪ m ##ₘ m' /\ rep m' y a.

(** Structs without references stand for themselves. *)
Definition flat_rep {T} (h : heap block) (x y : T) : Prop := x = y.

Lemma flat_mono {T} : monotone (flat_rep (T := T)).
Proof. by intros h h' x a. Qed.

(** The same for a target that already holds a copy of the struct itself, as the
    fields do after [*out = *in]. *)
Definition deepens {T A} (rep : heap block -> T -> A -> Prop)
    (f : ptr block T -> ptr block T -> MemM block unit) : Prop :=
  forall h m inp out x a b,
    h ##ₘ m -> reads h inp x -> rep h x a -> m !! p_loc out = Some b -> ptr_ok out b ->
    p_get out b = Some x ->
    exists y m', f inp out (h ∪ m) = Ret (tt, h ∪ (<[p_loc out := p_set out y b]> m ∪ m')) /\
      h ∪ m ##ₘ m' /\ rep m' y a.

Lemma deep_copies_deepens {T A} (rep : heap block -> T -> A -> Prop) f :
  deep_copies rep f -> deepens rep f.
Proof. intros Hf h m inp out x a b Hd Hr Ha Hb Hok _. by apply (Hf h m inp out x a b). Qed.

Lemma monotone_use {T A} (rep : heap block -> T -> A -> Prop) h h' x a :
  monotone rep -> rep h x a -> h ⊆ h' -> rep h' x a.
Proof. intros Hm. apply Hm. Qed.

(** ** Methods that fill a struct *)
Section struct.
Context (h m : heap block) {T : Type} (out : ptr block T) (b : block).

(** The memory when the target holds [x] and [m1] was allocated so far. *)
Definition at_ (x : T) (m1 : heap block) : heap block := h ∪ (<[p_loc out := p_set out x b]> m ∪ m1).

Definition wr (c : MemM block unit) (x : T) (m1 : heap block) (Q : T -> heap block -> Prop) : Prop :=
  h ∪ m ##ₘ m1 ->
  exists y m2, c (at_ x m1) = Ret (tt, at_ y m2) /\ m1 ⊆ m2 /\ h ∪ m ##ₘ m2 /\ Q y m2.

Lemma wr_bind c k x m1 R Q :
  wr c x m1 R -> (forall y m2, m1 ⊆ m2 -> R y m2 -> wr k y m2 Q) -> wr (c ;; k) x m1 Q.
Proof.
  intros Hc Hk Hd. destruct (Hc Hd) as (y & m2 & Ec & Hs & Hd2 & HR).
  destruct (Hk _ _ Hs HR Hd2) as (z & m3 & Ek & Hs3 & Hd3 & HQ).
  exists z, m3. split_and!; [|by etrans|done..]. unfold mbind, mem_bind. by rewrite Ec.
Qed.

Lemma wr_done x m1 (Q : T -> heap block -> Prop) : Q x m1 -> wr (mret tt) x m1 Q.
Proof. intros HQ Hd. by exists x, m1. Qed.

(** The target is in [m], and [inp] reads the original [s] in [h]. *)
Context (inp : ptr block T) (s : T).
Context (Hd : h ##ₘ m) (Hb : m !! p_loc out = Some b) (Hok : ptr_ok out b) (Hs : reads h inp s).

Abbreviation new_part x m1 := (<[p_loc out := p_set out x b]> m ∪ m1).

Lemma new_part_disjoint x m1 : h ∪ m ##ₘ m1 -> h ##ₘ new_part x m1.
Proof.
  intros H. apply map_disjoint_union_l in H as [H1 H2]. apply map_disjoint_union_r. split; [|done].
  apply map_disjoint_insert_r. split; [|done]. exact (map_disjoint_Some_r _ _ _ _ Hd Hb).
Qed.

Lemma new_part_lookup x m1 : new_part x m1 !! p_loc out = Some (p_set out x b).
Proof. apply lookup_union_Some_l, lookup_insert_eq. Qed.

Lemma new_part_insert x c m1 : <[p_loc out := c]> (new_part x m1) = <[p_loc out := c]> m ∪ m1.
Proof. by rewrite insert_union_l, insert_insert_eq. Qed.

Lemma wr_assign {U} (fd : field T U) x m1 (Q : T -> heap block -> Prop) :
  Q (f_set fd (f_get fd s) x) m1 -> wr (assign_field inp out fd) x m1 Q.
Proof.
  intros HQ Hd1. exists (f_set fd (f_get fd s) x), m1. split_and!; [|done..].
  unfold assign_field, assign, mbind, mem_bind.
  rewrite (reads_load _ _ (f_get fd s)).
  2:{ apply reads_field. eapply reads_mono; [exact Hs|]. apply map_union_subseteq_l. }
  unfold at_. rewrite (store_new (ptr_field out fd) _ _ (p_set out x b))
    by (done || by apply new_part_disjoint || apply new_part_lookup).
  cbn [p_loc ptr_field]. rewrite new_part_insert. by rewrite ptr_field_set.
Qed.

Lemma wr_copy {U A} (rep : heap block -> U -> A -> Prop) (fd : field T U) f a x m1
    (Q : T -> heap block -> Prop) :
  deepens rep f -> rep h (f_get fd s) a -> f_get fd x = f_get fd s ->
  (forall y m2, m1 ⊆ m2 -> rep m2 y a -> Q (f_set fd y x) m2) -> monotone rep ->
  wr (copy_field inp out fd f) x m1 Q.
Proof.
  intros Hf Ha Hx HQ Hm Hd1. pose proof (new_part_disjoint x m1 Hd1) as Hn.
  destruct (Hf h (new_part x m1) (ptr_field inp fd) (ptr_field out fd) (f_get fd s) a (p_set out x b))
    as (y & m' & Ef & Hd' & Hy); [done|by apply reads_field|done|apply new_part_lookup|by apply ptr_field_ok| |].
  { simpl. by rewrite (ok_get_set _ _ Hok), <- Hx. }
  apply map_disjoint_union_l in Hd' as [H1 H2]. apply map_disjoint_union_l in H2 as [H2 H3].
  apply map_disjoint_insert_l in H2 as [_ H2].
  assert (h ∪ m ##ₘ m1 ∪ m') as Hd2.
  { apply map_disjoint_union_r. split; [done|]. by apply map_disjoint_union_l. }
  exists (f_set fd y x), (m1 ∪ m'). split_and!; [| |done|].
  - unfold copy_field, at_. rewrite Ef. cbn [p_loc ptr_field].
    rewrite new_part_insert, ptr_field_set by done. by rewrite <- !(assoc_L (∪)).
  - apply map_union_subseteq_l.
  - apply HQ; [apply map_union_subseteq_l|]. eapply Hm; [exact Hy|]. by apply map_union_subseteq_r.
Qed.
End struct.

(** A method begins with [*out = *in]. *)
Lemma deep_copies_struct {T A} (rep : heap block -> T -> A -> Prop)
    (rest : ptr block T -> ptr block T -> MemM block unit) :
  (forall h m inp out s a b, h ##ₘ m -> reads h inp s -> rep h s a -> m !! p_loc out = Some b ->
    ptr_ok out b -> wr h m out b (rest inp out) s ∅ (fun y m' => rep m' y a)) ->
  deep_copies rep (fun inp out => assign inp out ;; rest inp out).
Proof.
  intros H h m inp out s a b Hd Hs Ha Hb Hok.
  destruct (H h m inp out s a b Hd Hs Ha Hb Hok) as (y & m' & Er & _ & Hd' & Hy).
  { apply map_disjoint_empty_r. }
  exists y, m'. split_and!; [|done..]. etrans; [|exact Er]. unfold assign, mbind, mem_bind.
  rewrite (reads_load _ _ s) by (eapply reads_mono; [done|apply map_union_subseteq_l]).
  rewrite (store_new _ _ _ b) by done. unfold at_. by rewrite (right_id_L ∅ (∪)).
Qed.

(** The rules followed by the rest of the method. *)
Lemma wr_assign_then h m {T U} (out : ptr block T) b inp s (fd : field T U) k x m1
    (Q : T -> heap block -> Prop) :
  h ##ₘ m -> m !! p_loc out = Some b -> ptr_ok out b -> reads h inp s ->
  wr h m out b k (f_set fd (f_get fd s) x) m1 Q ->
  wr h m out b (assign_field inp out fd ;; k) x m1 Q.
Proof.
  intros Hd Hb Hok Hs Hk. eapply (wr_bind _ _ _ _ _ _ _ _ (fun y m2 => y = f_set fd (f_get fd s) x /\ m2 = m1)).
  - by eapply wr_assign.
  - by intros y m2 _ [-> ->].
Qed.

Lemma wr_copy_then h m {T U A} (rep : heap block -> U -> A -> Prop) (out : ptr block T) b inp s
    (fd : field T U) f a k x m1 (Q : T -> heap block -> Prop) :
  h ##ₘ m -> m !! p_loc out = Some b -> ptr_ok out b -> reads h inp s ->
  deepens rep f -> monotone rep -> rep h (f_get fd s) a -> f_get fd x = f_get fd s ->
  (forall y m2, m1 ⊆ m2 -> rep m2 y a -> wr h m out b k (f_set fd y x) m2 Q) ->
  wr h m out b (copy_field inp out fd f ;; k) x m1 Q.
Proof.
  intros Hd Hb Hok Hs Hf Hm Ha Hx Hk.
  eapply (wr_bind _ _ _ _ _ _ _ _ (fun z m2 => exists y, m1 ⊆ m2 /\ z = f_set fd y x /\ rep m2 y a)).
  - eapply (wr_copy _ _ _ _ _ s); [done..| |done]. intros y m2 Hm2 Hy. by exists y.
  - intros z m2 _ (y & Hm2 & -> & Hy). by apply Hk.
Qed.

Lemma deep_copies_assign {T} : deep_copies flat_rep (@assign block T).
Proof.
  intros h m inp out s a b Hd Hs Ha Hb Hok. exists s, ∅. split_and!; [|apply map_disjoint_empty_r|done].
  unfold assign, mbind, mem_bind.
  rewrite (reads_load _ _ s) by (eapply reads_mono; [done|apply map_union_subseteq_l]).
  rewrite (store_new _ _ _ b) by done. by rewrite (right_id_L ∅ (∪)).
Qed.

(** ** Slices *)

(** A slice stands for the list of the values of its elements, nil for none. *)
Definition slice_rep {T A} `{Stored block T} (rep : heap block -> T -> A -> Prop) h
    (s : goslice T) (l : option (list A)) : Prop :=
  match s, l with
  | None, None => True
  | Some s, Some vs => exists arr,
      (h !! s_loc s ≫= of_block) = Some arr /\ s_off s + s_len s <= length arr /\
      Forall2 (rep h) (take (s_len s) (drop (s_off s) arr)) vs
  | _, _ => False
  end.

Lemma slice_rep_mono {T A} `{Stored block T} (rep : heap block -> T -> A -> Prop) :
  monotone rep -> monotone (slice_rep rep).
Proof.
  intros Hm h h' [s|] [vs|]; simpl; try done. intros (arr & (c & Hc & Ha)%bind_Some & Hl & Hf) Hs.
  exists arr. split_and!; [|done|].
  - by rewrite (lookup_weaken _ _ _ _ Hc Hs).
  - eapply Forall2_impl; [|exact Hf]. intros x a Hx. by eapply Hm.
Qed.

(** The slice [make] gives, and the pointer to one of its elements. *)
Lemma make_slice_new {T} `{Stored block T} n h m :
  h ##ₘ m ->
  exists l, make_slice T n (h ∪ m) =
      Ret (Slice l 0 n, h ∪ <[l := to_block (replicate n (zero (block := block)))]> m) /\
    h !! l = None /\ m !! l = None.
Proof.
  intros Hd. unfold make_slice, mbind, mem_bind.
  destruct (alloc_new (to_block (replicate n (zero (block := block) (T := T)))) h m) as (l & -> & Hh & Hm).
  by exists l.
Qed.

Lemma index_ok {T} `{Stored block T} (s : slice T) i h :
  i < s_len s -> index (Some s) i h = Ret (ptr_elem (s_loc s) (s_off s + i), h).
Proof. intros Hi. unfold index. by rewrite decide_True. Qed.

Lemma reads_elem {T} `{Stored block T} h l i (arr : list T) x :
  (h !! l ≫= of_block) = Some arr -> arr !! i = Some x -> reads h (ptr_elem l i) x.
Proof. intros (c & Hc & Ha)%bind_Some Hx. unfold reads. simpl. rewrite Hc. simpl. by rewrite Ha. Qed.

Lemma elem_set {T} `{Stored block T} l (ys zs : list T) z y :
  p_set (ptr_elem l (length ys)) y (to_block (ys ++ z :: zs)) = to_block ((ys ++ [y]) ++ zs).
Proof. simpl. rewrite of_to_block. by rewrite insert_app_r_alt, Nat.sub_diag, <- (assoc_L (++)). Qed.

(** The loops: the elements [ys] of the new array are done, [zs] are not.  The
    body copies an element, as long as the block [c] of the target, where the
    header of the new slice is, does not change. *)
Lemma copy_loop {T A} `{Stored block T} (rep : heap block -> T -> A -> Prop) copy body
    h (si : slice T) lo l c xs vs arr :
  deep_copies rep copy -> monotone rep ->
  (h !! s_loc si ≫= of_block) = Some arr ->
  (forall i M, i < s_len si -> h ##ₘ M -> M !! l = Some c ->
     body i (h ∪ M) = copy (ptr_elem (s_loc si) (s_off si + i)) (ptr_elem lo i) (h ∪ M)) ->
  l <> lo -> Forall2 (rep h) xs vs -> forall ys zs M,
  (forall j x, xs !! j = Some x -> arr !! (s_off si + (length ys + j)) = Some x) ->
  length zs = length xs -> length ys + length xs = s_len si ->
  h ##ₘ M -> M !! l = Some c -> M !! lo = Some (to_block (ys ++ zs)) ->
  exists ys' m',
    for_range body (seq (length ys) (length xs)) (h ∪ M) =
      Ret (tt, h ∪ (<[lo := to_block (ys ++ ys')]> M ∪ m')) /\
    h ∪ M ##ₘ m' /\ Forall2 (rep m') ys' vs.
Proof.
  intros Hcopy Hmono Harr Hbody Hne Hf. induction Hf as [|x v xs vs Hx Hf IH];
    intros ys zs M Hxs Hz Hlen Hd Hc Hlo.
  - destruct zs; [|done]. exists [], ∅. split_and!; [|apply map_disjoint_empty_r|done].
    simpl. rewrite insert_id by done. by rewrite (right_id_L ∅ (∪)).
  - destruct zs as [|z zs]; [done|]. cbn [length] in *.
    destruct (Hcopy h M (ptr_elem (s_loc si) (s_off si + length ys)) (ptr_elem lo (length ys)) x v
      (to_block (ys ++ z :: zs))) as (y & m1 & E1 & Hd1 & Hy); [done| |done|done| |].
    { eapply reads_elem; [done|]. rewrite <- (Hxs 0 x) by done. f_equal. lia. }
    { apply ptr_elem_ok. rewrite length_app. simpl. lia. }
    rewrite elem_set in E1. set (M1 := <[_ := _]> M ∪ m1) in E1.
    apply map_disjoint_union_l in Hd1 as [Hd1 Hd1'].
    assert (h ##ₘ M1) as HdM1.
    { apply map_disjoint_union_r. split; [|done]. apply map_disjoint_insert_r.
      split; [|done]. exact (map_disjoint_Some_r _ _ _ _ Hd Hlo). }
    destruct (IH (ys ++ [y]) zs M1) as (ys' & m2 & E2 & Hd2 & Hys); [..|].
    { intros j w Hw. rewrite length_app. simpl. rewrite <- (Hxs (S j) w) by done. f_equal. lia. }
    { simpl in Hz. lia. }
    { rewrite length_app. simpl. lia. }
    { done. }
    { unfold M1. rewrite (lookup_union_Some_l _ _ _ c); [done|]. by rewrite lookup_insert_ne. }
    { unfold M1. by rewrite (lookup_union_Some_l _ _ _ _ (lookup_insert_eq _ _ _)). }
    exists (y :: ys'), (m1 ∪ m2). apply map_disjoint_union_l in Hd2 as [Hd2 Hd2'].
    assert (M ##ₘ m2 /\ m1 ##ₘ m2) as [HdM2 Hd12].
    { unfold M1 in Hd2'. apply map_disjoint_union_l in Hd2' as [Hd2' ?].
      apply map_disjoint_insert_l in Hd2' as [_ ?]. done. }
    split_and!.
    + cbn [seq for_range]. unfold mbind, mem_bind.
      rewrite Hbody by (done || lia). rewrite E1.
      rewrite length_app, Nat.add_1_r in E2. rewrite E2. unfold M1.
      rewrite insert_union_l, insert_insert_eq, <- !(assoc_L (++)). by rewrite <- (assoc_L (∪)).
    + apply map_disjoint_union_l. rewrite !map_disjoint_union_r. done.
    + constructor.
      * eapply Hmono; [done|]. apply map_union_subseteq_l.
      * eapply Forall2_impl; [|exact Hys]. intros w a Hw. eapply Hmono; [done|].
        by apply map_union_subseteq_r.
Qed.

(** [make], the store of the new header, and the loop. *)
Lemma copy_array {T A} `{Stored block T} (rep : heap block -> T -> A -> Prop) copy rest body
    h m (out : ptr block (goslice T)) si vs b :
  deep_copies rep copy -> monotone rep -> h ##ₘ m -> slice_rep rep h (Some si) (Some vs) ->
  m !! p_loc out = Some b -> ptr_ok out b ->
  (forall lo M, h ##ₘ M -> M !! p_loc out = Some (p_set out (Some (Slice lo 0 (s_len si))) b) ->
     rest (h ∪ M) = for_range (body lo) (seq 0 (s_len si)) (h ∪ M)) ->
  (forall lo i M, i < s_len si -> h ##ₘ M ->
     M !! p_loc out = Some (p_set out (Some (Slice lo 0 (s_len si))) b) ->
     body lo i (h ∪ M) = copy (ptr_elem (s_loc si) (s_off si + i)) (ptr_elem lo i) (h ∪ M)) ->
  exists y m', (o ← make_slice T (s_len si); store out (Some o) ;; rest) (h ∪ m)
      = Ret (tt, h ∪ (<[p_loc out := p_set out y b]> m ∪ m')) /\
    h ∪ m ##ₘ m' /\ slice_rep rep m' y (Some vs).
Proof.
  intros Hcopy Hmono Hd (arr & Harr & Hlen & Hf) Hb Hok Hrest Hbody.
  destruct (make_slice_new (s_len si) h m Hd) as (lo & Em & Hlh & Hlm).
  assert (p_loc out <> lo) as Hne by congruence.
  set (n := s_len si) in *. set (b1 := p_set out (Some (Slice lo 0 n)) b).
  set (arr0 := replicate n zero). set (M := <[p_loc out := b1]> (<[lo := to_block arr0]> m)).
  assert (h ##ₘ M) as HdM.
  { unfold M. rewrite !map_disjoint_insert_r. split_and!; [|done..]. exact (map_disjoint_Some_r _ _ _ _ Hd Hb). }
  pose proof (Forall2_length Hf) as Hlx. rewrite length_take, length_drop in Hlx.
  set (xs := take n (drop (s_off si) arr)) in *.
  assert (length xs = n) as Hxn by (unfold xs; rewrite length_take, length_drop; lia).
  destruct (copy_loop rep copy (body lo) h si lo (p_loc out) b1 xs vs arr Hcopy Hmono Harr
    (Hbody lo) Hne Hf [] arr0 M) as (ys & m' & El & Hd' & Hys).
  { intros j x Hx. unfold xs in Hx. apply lookup_take_Some in Hx as [Hx _].
    by rewrite lookup_drop in Hx. }
  { unfold arr0. by rewrite length_replicate. }
  { done. }
  { done. }
  { apply lookup_insert_eq. }
  { unfold M. rewrite lookup_insert_ne by done. apply lookup_insert_eq. }
  cbn [length app] in El. rewrite Hxn in El. pose proof (Forall2_length Hys) as Hly.
  apply map_disjoint_union_l in Hd' as [Hdh HdM'].
  assert (m ##ₘ m' /\ m' !! lo = None) as [Hdm Hlm'].
  { unfold M in HdM'. rewrite !map_disjoint_insert_l in HdM'. tauto. }
  exists (Some (Slice lo 0 n)), (<[lo := to_block ys]> m'). split_and!.
  - unfold mbind, mem_bind. rewrite Em.
    rewrite (store_new out h (<[lo := to_block arr0]> m) b).
    + fold b1 arr0 M. rewrite (Hrest lo M HdM) by apply lookup_insert_eq. rewrite El.
      do 3 f_equal. unfold M.
      rewrite <- (insert_union_r (<[p_loc out := b1]> m) m' lo) by (by rewrite lookup_insert_ne).
      rewrite insert_union_l. f_equal. rewrite (insert_insert_ne _ (p_loc out) lo) by done.
      by rewrite insert_insert_eq.
    + apply map_disjoint_insert_r. done.
    + by rewrite lookup_insert_ne.
  - apply map_disjoint_insert_r. split; [by apply lookup_union_None|]. by apply map_disjoint_union_l.
  - exists ys. cbn [s_loc s_off s_len]. rewrite lookup_insert_eq. simpl. rewrite of_to_block.
    assert (length ys = n) as Hyn by lia. split_and!; [done|lia|].
    rewrite drop_0, take_ge by lia. eapply Forall2_impl; [|exact Hys]. intros x a Hx.
    eapply Hmono; [exact Hx|]. by apply insert_subseteq.
Qed.

Lemma keep_new {T} (p : ptr block T) b v (m : heap block) :
  m !! p_loc p = Some b -> ptr_ok p b -> p_get p b = Some v -> <[p_loc p := p_set p v b]> m = m.
Proof. intros Hb Hok Hv. rewrite (ok_set_get _ _ Hok) by done. by rewrite insert_id. Qed.

(** A nil slice or map is left as it is. *)
Lemma deepens_nil {T A} (rep : heap block -> T -> A -> Prop) (f : MemM block unit) h m out x a b :
  f = mret tt -> m !! p_loc out = Some b -> ptr_ok out b -> p_get out b = Some x -> rep ∅ x a ->
  exists y m', f (h ∪ m) = Ret (tt, h ∪ (<[p_loc out := p_set out y b]> m ∪ m')) /\
    h ∪ m ##ₘ m' /\ rep m' y a.
Proof.
  intros -> Hb Hok Hx Hr. exists x, ∅. split_and!; [|apply map_disjoint_empty_r|done].
  by rewrite (keep_new out b x), (right_id_L ∅ (∪)).
Qed.

Lemma reads_new {T} (p : ptr block T) h m b v :
  h ##ₘ m -> m !! p_loc p = Some (p_set p v b) -> ptr_ok p b -> load p (h ∪ m) = Ret (v, h ∪ m).
Proof.
  intros Hd Hb Hok. eapply load_at; [by apply lookup_union_Some_r|]. apply (ok_get_set _ _ Hok).
Qed.

Lemma copy_items_deepens {T A} `{Stored block T} (rep : heap block -> T -> A -> Prop) copy :
  deep_copies rep copy -> monotone rep -> deepens (slice_rep rep) (copy_items copy).
Proof.
  intros Hcopy Hmono h m inp out x a b Hd Hs Ha Hb Hok Hx.
  assert (forall M, load inp (h ∪ M) = Ret (x, h ∪ M)) as Hload.
  { intros M. apply reads_load. eapply reads_mono; [done|]. apply map_union_subseteq_l. }
  unfold copy_items, mbind at 1, mem_bind at 1. rewrite Hload.
  destruct x as [si|], a as [vs|]; try done; [|by apply (deepens_nil _ _ _ _ _ None)].
  apply (copy_array rep copy _ (fun lo i => s ← load inp; p ← index s i; o ← load out; q ← index o i; copy p q));
    [done..| |].
  - intros lo M HdM HM. reflexivity.
  - intros lo i M Hi HdM HM. unfold mbind, mem_bind. rewrite Hload, index_ok by done.
    rewrite (reads_new out h M b (Some (Slice lo 0 (s_len si)))) by done. by rewrite index_ok.
Qed.

Lemma copy_flat_deepens {T} `{Stored block T} :
  deepens (slice_rep (flat_rep (T := T))) copy_flat.
Proof.
  intros h m inp out x a b Hd Hs Ha Hb Hok Hx.
  assert (forall M, load inp (h ∪ M) = Ret (x, h ∪ M)) as Hload.
  { intros M. apply reads_load. eapply reads_mono; [done|]. apply map_union_subseteq_l. }
  unfold copy_flat, mbind at 1, mem_bind at 1. rewrite Hload.
  destruct x as [si|], a as [vs|]; try done; [|by apply (deepens_nil _ _ _ _ _ None)].
  apply (copy_array _ assign _ (fun lo i => q ← index (Some si) i; v ← load q;
    p ← index (Some (Slice lo 0 (s_len si))) i; store p v)); [apply deep_copies_assign|by intros ?|done..| |].
  - intros lo M HdM HM. unfold mbind at 1 2, mem_bind at 1 2.
    rewrite (reads_new out h M b (Some (Slice lo 0 (s_len si)))) by done. rewrite Hload.
    unfold copy_slice. cbn [len from_option s_len]. by rewrite Nat.min_id.
  - intros lo i M Hi HdM HM. unfold assign, mbind, mem_bind. rewrite index_ok by done.
    destruct (load _ _) as [[v h']| |]; [|done..]. by rewrite index_ok.
Qed.

(** ** Maps *)
Definition map_rep `{StoredMap block} h (x : gomap) (a : option (gmap string string)) : Prop :=
  match x, a with
  | None, None => True
  | Some l, Some e => (h !! l ≫= of_map) = Some e
  | _, _ => False
  end.

Lemma map_rep_mono `{StoredMap block} : monotone map_rep.
Proof.
  intros h h' [l|] [e|]; simpl; try done. intros (c & Hc & He)%bind_Some Hs.
  by rewrite (lookup_weaken _ _ _ _ Hc Hs).
Qed.

Lemma copy_keys_loop `{StoredMap block} h out b lo (e : gmap string string) keys : forall d m,
  h ##ₘ m -> m !! p_loc out = Some (p_set out (Some lo) b) -> ptr_ok out b ->
  p_loc out <> lo -> m !! lo = Some (to_map d) -> (forall k, k ∈ keys -> is_Some (e !! k)) ->
  exists d',
    for_range (fun key => o ← load out; map_set o key (default EmptyString (e !! key)))
      keys (h ∪ m) = Ret (tt, h ∪ <[lo := to_map d']> m) /\
    (forall k, d' !! k = if decide (k ∈ keys) then e !! k else d !! k).
Proof.
  induction keys as [|key keys IH]; intros d m Hd Hb Hok Hne Hlo Hk.
  - exists d. split; [by rewrite insert_id|]. intros k. by rewrite decide_False by set_solver.
  - destruct (Hk key) as [v Hv]; [set_solver|].
    destruct (IH (<[key := v]> d) (<[lo := to_map (<[key := v]> d)]> m)) as (d' & E & Hd'); [..|].
    { apply map_disjoint_insert_r. split; [|done]. exact (map_disjoint_Some_r _ _ _ _ Hd Hlo). }
    { by rewrite lookup_insert_ne. }
    { done. }
    { done. }
    { apply lookup_insert_eq. }
    { intros k Hin. apply Hk. set_solver. }
    exists d'. split.
    + cbn [for_range]. unfold mbind, mem_bind in E |- *.
      rewrite (reads_new out h m b (Some lo)) by done.
      unfold map_set at 1, map_entries at 1, mbind, mem_bind. rewrite (lookup_union_Some_r _ _ _ _ Hd Hlo).
      simpl. rewrite of_to_map, Hv. cbn [default from_option id]. unfold store_at.
      rewrite insert_union_r by exact (map_disjoint_Some_r _ _ _ _ Hd Hlo).
      rewrite E. by rewrite insert_insert_eq.
    + intros k. rewrite Hd'. destruct (decide (k = key)) as [->|Hk'].
      * rewrite lookup_insert_eq, (decide_True _ _ (P := key ∈ key :: keys)) by set_solver.
        by destruct (decide (key ∈ keys)).
      * rewrite lookup_insert_ne by done. destruct (decide (k ∈ keys)).
        -- by rewrite decide_True by set_solver.
        -- by rewrite decide_False by set_solver.
Qed.

Lemma copy_map_deepens `{StoredMap block} range_keys :
  (forall e, range_keys e ≡ₚ (map_to_list e).*1) -> deepens map_rep (copy_map range_keys).
Proof.
  intros Hrange h m inp out x a b Hd Hs Ha Hb Hok Hx.
  assert (forall M, load inp (h ∪ M) = Ret (x, h ∪ M)) as Hload.
  { intros M. apply reads_load. eapply reads_mono; [done|]. apply map_union_subseteq_l. }
  unfold copy_map, mbind at 1, mem_bind at 1. rewrite Hload.
  destruct x as [l|], a as [e|]; try done; [|by apply (deepens_nil _ _ _ _ _ None)].
  unfold make_map, mbind, mem_bind.
  destruct (alloc_new (to_map ∅) h m) as (lo & -> & Hlh & Hlm).
  assert (p_loc out <> lo) as Hne by congruence.
  rewrite (store_new out h (<[lo := to_map ∅]> m) b);
    [|by apply map_disjoint_insert_r|by rewrite lookup_insert_ne].
  set (m1 := <[p_loc out := _]> _).
  assert (h ##ₘ m1) as Hd1.
  { unfold m1. rewrite !map_disjoint_insert_r. split_and!; [|done..]. exact (map_disjoint_Some_r _ _ _ _ Hd Hb). }
  assert (map_entries (Some l) (h ∪ m1) = Ret (e, h ∪ m1)) as ->.
  { unfold map_entries. simpl in Ha. apply bind_Some in Ha as (c & Hc & He).
    rewrite (lookup_union_Some_l _ _ _ _ Hc). simpl. by rewrite He. }
  assert (forall k, k ∈ range_keys e <-> is_Some (e !! k)) as Hkeys.
  { intros k. rewrite (Hrange e), list_elem_of_fmap. split.
    - intros ((k' & v) & -> & Hkv%elem_of_map_to_list). by exists v.
    - intros [v Hv]. exists (k, v). split; [done|]. by apply elem_of_map_to_list. }
  destruct (copy_keys_loop h out b lo e (range_keys e) ∅ m1) as (d' & E & Hd'); [done| |done|done| | |].
  { apply lookup_insert_eq. }
  { unfold m1. rewrite lookup_insert_ne by done. apply lookup_insert_eq. }
  { intros k Hk. by apply Hkeys. }
  assert (d' = e) as ->.
  { apply map_eq. intros k. rewrite Hd'. destruct (decide (k ∈ range_keys e)) as [|Hk]; [done|].
    rewrite lookup_empty. symmetry. rewrite <- not_elem_of_dom, elem_of_dom. by rewrite <- Hkeys. }
  exists (Some lo), {[lo := to_map e]}. split_and!.
  - etrans; [exact E|]. do 3 f_equal. unfold m1.
    rewrite insert_insert_ne by done. rewrite insert_insert_eq.
    rewrite <- insert_union_singleton_r; [|by rewrite lookup_insert_ne].
    by rewrite insert_insert_ne.
  - apply map_disjoint_singleton_r. by apply lookup_union_None.
  - simpl. rewrite lookup_singleton_eq. simpl. apply of_to_map.
Qed.
(** ** DeepCopy *)

(** A deep copy lies in new memory [m], which holds everything it refers to;
    what the old memory holds does not change. *)
Lemma deep_copy_new {T A} `{Stored block T} (rep : heap block -> T -> A -> Prop) f h p x a :
  deep_copies rep f -> monotone rep -> reads h p x -> rep h x a ->
  exists q m y, deep_copy f (Some p) h = Ret (Some q, h ∪ m) /\ h ##ₘ m /\ reads m q y /\ rep m y a.
Proof.
  intros Hf Hm Hx Ha. unfold deep_copy, new_, mbind, mem_bind.
  destruct (alloc_new (to_block [zero]) h ∅) as (l & E & Hl & _). rewrite (right_id_L ∅ (∪)) in E.
  rewrite E. cbn [mret mem_ret]. rewrite insert_empty.
  assert (h ##ₘ {[l := to_block [zero]]}) as Hd by (by apply map_disjoint_singleton_r).
  assert (ptr_ok (ptr_elem l 0) (to_block [zero])) as Hok by (apply ptr_elem_ok; simpl; lia).
  destruct (Hf h _ p (ptr_elem l 0) x a _ Hd Hx Ha (lookup_singleton_eq _ _) Hok) as (y & m' & -> & Hd' & Hy).
  set (b := p_set _ _ _). rewrite insert_singleton_eq.
  exists (ptr_elem l 0), ({[l := b]} ∪ m'), y. apply map_disjoint_union_l in Hd' as [Hd1 Hd2].
  assert ({[l := b]} ##ₘ m') as Hd3.
  { apply map_disjoint_singleton_l. by apply map_disjoint_singleton_l in Hd2. }
  split_and!.
  - done.
  - apply map_disjoint_union_r. split; [|done]. by apply map_disjoint_singleton_r.
  - unfold reads. cbn [p_loc ptr_elem].
    rewrite (lookup_union_Some_l _ _ _ b) by apply lookup_singleton_eq. apply (ok_get_set _ _ Hok).
  - eapply Hm; [exact Hy|]. by apply map_union_subseteq_r.
Qed.
End rules.

(** ** What the structs stand for *)

(** What the program relies on: the deep copies of the libraries are deep copies,
    and [range] visits every key of a map once. *)
Class LibSpec `{LibOps} := {
  ObjectMeta_rep : heap block -> ObjectMeta lib_mem -> ObjectMeta lib_val -> Prop;
  ListMeta_rep : heap block -> ListMeta lib_mem -> ListMeta lib_val -> Prop;
  PVCSpec_rep : heap block -> PVCSpec lib_mem -> PVCSpec lib_val -> Prop;
  LabelSelector_rep : heap block -> LabelSelector lib_mem -> LabelSelector lib_val -> Prop;
  Time_rep : heap block -> Time lib_mem -> Time lib_val -> Prop;
  ObjectMeta_mono : monotone ObjectMeta_rep;
  ListMeta_mono : monotone ListMeta_rep;
  PVCSpec_mono : monotone PVCSpec_rep;
  LabelSelector_mono : monotone LabelSelector_rep;
  Time_mono : monotone Time_rep;
  ObjectMeta_copies : deep_copies ObjectMeta_rep ObjectMeta_DeepCopyInto;
  ListMeta_copies : deep_copies ListMeta_rep ListMeta_DeepCopyInto;
  PVCSpec_copies : deep_copies PVCSpec_rep PVCSpec_DeepCopyInto;
  LabelSelector_copies : deep_copies LabelSelector_rep LabelSelector_DeepCopyInto;
  Time_copies : deep_copies Time_rep Time_DeepCopyInto;
  range_keys_all e : range_keys e ≡ₚ (map_to_list e).*1 }.

(** The database of the facts on fields. *)
Create HintDb copies.
#[export] Hint Resolve ObjectMeta_mono ListMeta_mono PVCSpec_mono LabelSelector_mono Time_mono
  flat_mono slice_rep_mono map_rep_mono copy_flat_deepens copy_items_deepens deep_copies_deepens
  ObjectMeta_copies ListMeta_copies PVCSpec_copies LabelSelector_copies Time_copies
  range_keys_all : copies.
#[export] Hint Extern 2 (deepens _ (copy_map _)) => apply copy_map_deepens : copies.

(** From a memory to one that was made larger, in one or several steps. *)
Ltac larger := first [eassumption | etrans; [eassumption|larger]].
Ltac grow := eapply monotone_use; [by auto with copies | eassumption | larger].

(** Representations are monotone field by field. *)
Ltac monotone_tac := intros h h' x a Hr Hs; hnf in Hr |- *; destruct_and!; split_and!; first [done | grow].

(** Follow a method, statement by statement. *)
Ltac copies_tac f :=
  unfold f; apply deep_copies_struct; intros h m inp out s a b Hd Hs Hr Hb Hok; cbv beta; hnf in Hr; destruct_and!;
  repeat lazymatch goal with
  | |- wr _ _ _ _ (assign_field _ _ _ ;; _) _ _ _ => eapply wr_assign_then; [eassumption..|]
  | |- wr _ _ _ _ (assign_field _ _ _) _ _ _ => eapply wr_assign; [eassumption..|]
  | |- wr _ _ _ _ (copy_field _ _ _ _ ;; _) _ _ _ =>
      eapply wr_copy_then; [eassumption..|by eauto with copies|by auto with copies|eassumption|reflexivity|];
      intros ? ? ? ?
  | |- wr _ _ _ _ (copy_field _ _ _ _) _ _ _ =>
      eapply wr_copy; [eassumption..|by eauto with copies|eassumption|reflexivity| |by auto with copies];
      intros ? ? ? ?
  end; hnf; cbn; split_and!; first [done | grow].

Section methods.
Context `{LibSpec}.

Definition Delete_rep (h : heap block) (x : Delete mem) (a : Delete val) : Prop :=
  APIVersion x = APIVersion a /\ Kind x = Kind a /\ LabelSelector_rep h (Selector x) (Selector a).

Definition Volume_rep (h : heap block) (x : Volume mem) (a : Volume val) : Prop :=
  vol_Name x = vol_Name a /\ vol_Count x = vol_Count a /\
  PVCSpec_rep h (vol_Spec x) (vol_Spec a) /\ vol_RateName x = vol_RateName a.

Definition Workload_rep (h : heap block) (x : Workload mem) (a : Workload val) : Prop :=
  wl_Name x = wl_Name a /\ wl_Workload x = wl_Workload a /\ map_rep h (Vars x) (Vars a) /\
  wl_Count x = wl_Count a /\ SyncGroup x = SyncGroup a /\
  slice_rep flat_rep h (OutputFiles x) (OutputFiles a) /\ wl_RateName x = wl_RateName a.

Definition ControlOperation_rep (h : heap block) (x : ControlOperation mem) (a : ControlOperation val) : Prop :=
  op_Name x = op_Name a /\ SnapshotSpec x = SnapshotSpec a /\ ScaleSpec x = ScaleSpec a /\
  Delete_rep h (DeleteSpec x) (DeleteSpec a) /\ op_Outputs x = op_Outputs a /\
  op_RateName x = op_RateName a.

Definition BenchmarkCondition_rep (h : heap block) (x : BenchmarkCondition mem) (a : BenchmarkCondition val) : Prop :=
  Time_rep h (LastProbeTime x) (LastProbeTime a) /\
  Time_rep h (LastTransitionTime x) (LastTransitionTime a) /\ cond_Message x = cond_Message a /\
  cond_Reason x = cond_Reason a /\ cond_Status x = cond_Status a /\ cond_Type x = cond_Type a.

Definition BenchmarkSpec_rep (h : heap block) (x : BenchmarkSpec mem) (a : BenchmarkSpec val) : Prop :=
  Runtime x = Runtime a /\ slice_rep Volume_rep h (Volumes x) (Volumes a) /\
  slice_rep Workload_rep h (Workloads x) (Workloads a) /\
  slice_rep ControlOperation_rep h (ControlOperations x) (ControlOperations a) /\
  slice_rep flat_rep h (Rates x) (Rates a) /\ WorkloadsOutput x = WorkloadsOutput a /\
  MetadataOutput x = MetadataOutput a /\ MetricsOutput x = MetricsOutput a /\
  slice_rep flat_rep h (Outputs x) (Outputs a).

Definition BenchmarkStatus_rep (h : heap block) (x : BenchmarkStatus mem) (a : BenchmarkStatus val) : Prop :=
  State x = State a /\ Time_rep h (CompletionTime x) (CompletionTime a) /\
  Time_rep h (InitCompletionTime x) (InitCompletionTime a) /\
  TargetCompletionTimeUnix x = TargetCompletionTimeUnix a /\
  Time_rep h (TargetCompletionTime x) (TargetCompletionTime a) /\
  CompletionTimeUnix x = CompletionTimeUnix a /\ StartTimeUnix x = StartTimeUnix a /\
  InitCompletionTimeUnix x = InitCompletionTimeUnix a /\
  NumCompletedObjs x = NumCompletedObjs a /\ RunningWorkloads x = RunningWorkloads a /\
  RunningRates x = RunningRates a /\
  slice_rep BenchmarkCondition_rep h (Conditions x) (Conditions a).

Definition Benchmark_rep (h : heap block) (x : Benchmark mem) (a : Benchmark val) : Prop :=
  bm_TypeMeta x = bm_TypeMeta a /\ ObjectMeta_rep h (bm_ObjectMeta x) (bm_ObjectMeta a) /\
  BenchmarkSpec_rep h (bm_Spec x) (bm_Spec a) /\
  BenchmarkStatus_rep h (bm_Status x) (bm_Status a).

Definition BenchmarkList_rep (h : heap block) (x : BenchmarkList mem) (a : BenchmarkList val) : Prop :=
  bl_TypeMeta x = bl_TypeMeta a /\ ListMeta_rep h (bl_ListMeta x) (bl_ListMeta a) /\
  slice_rep Benchmark_rep h (Items x) (Items a).

Lemma Delete_mono : monotone Delete_rep.
Proof. monotone_tac. Qed.
#[local] Hint Resolve Delete_mono : copies.

Lemma Delete_copies : deep_copies Delete_rep Delete_DeepCopyInto.
Proof. copies_tac @Delete_DeepCopyInto. Qed.
#[local] Hint Resolve Delete_copies : copies.

Lemma Volume_mono : monotone Volume_rep.
Proof. monotone_tac. Qed.
#[local] Hint Resolve Volume_mono : copies.

Lemma Volume_copies : deep_copies Volume_rep Volume_DeepCopyInto.
Proof. copies_tac @Volume_DeepCopyInto. Qed.
#[local] Hint Resolve Volume_copies : copies.

Lemma Workload_mono : monotone Workload_rep.
Proof. monotone_tac. Qed.
#[local] Hint Resolve Workload_mono : copies.

Lemma Workload_copies : deep_copies Workload_rep Workload_DeepCopyInto.
Proof. copies_tac @Workload_DeepCopyInto. Qed.
#[local] Hint Resolve Workload_copies : copies.

Lemma ControlOperation_mono : monotone ControlOperation_rep.
Proof. monotone_tac. Qed.
#[local] Hint Resolve ControlOperation_mono : copies.

Lemma ControlOperation_copies : deep_copies ControlOperation_rep ControlOperation_DeepCopyInto.
Proof. copies_tac @ControlOperation_DeepCopyInto. Qed.
#[local] Hint Resolve ControlOperation_copies : copies.

Lemma BenchmarkCondition_mono : monotone BenchmarkCondition_rep.
Proof. monotone_tac. Qed.
#[local] Hint Resolve BenchmarkCondition_mono : copies.

Lemma BenchmarkCondition_copies : deep_copies BenchmarkCondition_rep BenchmarkCondition_DeepCopyInto.
Proof. copies_tac @BenchmarkCondition_DeepCopyInto. Qed.
#[local] Hint Resolve BenchmarkCondition_copies : copies.

Lemma BenchmarkSpec_mono : monotone BenchmarkSpec_rep.
Proof. monotone_tac. Qed.
#[local] Hint Resolve BenchmarkSpec_mono : copies.

Lemma BenchmarkSpec_copies : deep_copies BenchmarkSpec_rep BenchmarkSpec_DeepCopyInto.
Proof. copies_tac @BenchmarkSpec_DeepCopyInto. Qed.
#[local] Hint Resolve BenchmarkSpec_copies : copies.

Lemma BenchmarkStatus_mono : monotone BenchmarkStatus_rep.
Proof. monotone_tac. Qed.
#[local] Hint Resolve BenchmarkStatus_mono : copies.

Lemma BenchmarkStatus_copies : deep_copies BenchmarkStatus_rep BenchmarkStatus_DeepCopyInto.
Proof. copies_tac @BenchmarkStatus_DeepCopyInto. Qed.
#[local] Hint Resolve BenchmarkStatus_copies : copies.

Lemma Benchmark_mono : monotone Benchmark_rep.
Proof. monotone_tac. Qed.
#[local] Hint Resolve Benchmark_mono : copies.

Lemma Benchmark_copies : deep_copies Benchmark_rep Benchmark_DeepCopyInto.
Proof. copies_tac @Benchmark_DeepCopyInto. Qed.
#[local] Hint Resolve Benchmark_copies : copies.

Lemma BenchmarkList_mono : monotone BenchmarkList_rep.
Proof. monotone_tac. Qed.
#[local] Hint Resolve BenchmarkList_mono : copies.

Lemma BenchmarkList_copies : deep_copies BenchmarkList_rep BenchmarkList_DeepCopyInto.
Proof. copies_tac @BenchmarkList_DeepCopyInto. Qed.
#[local] Hint Resolve BenchmarkList_copies : copies.


(** ** Theorems *)

(** C2: [DeepCopy] of a benchmark returns a pointer to new memory that alone
    holds a struct standing for the same value, and leaves the old memory as it
    was.  So the two are independent: whatever becomes of the old memory, the
    copy still stands for that value, and whatever becomes of the new one, the
    original does. *)
Theorem Benchmark_DeepCopy_independent h p x a :
  reads h p x -> Benchmark_rep h x a ->
  exists q m y, Benchmark_DeepCopy (Some p) h = Ret (Some q, h ∪ m) /\ h ##ₘ m /\
    reads m q y /\ Benchmark_rep m y a /\
    (forall h', h' ##ₘ m -> reads (h' ∪ m) q y /\ Benchmark_rep (h' ∪ m) y a) /\
    (forall m', h ##ₘ m' -> reads (h ∪ m') p x /\ Benchmark_rep (h ∪ m') x a).
Proof.
  intros Hx Ha. destruct (deep_copy_new Benchmark_rep Benchmark_DeepCopyInto h p x a)
    as (q & m & y & E & Hd & Hy & Hr); [apply Benchmark_copies|apply Benchmark_mono|done..|].
  exists q, m, y. split_and!; [done..| |].
  - intros h' Hd'. split; [eapply reads_mono; [done|]|eapply Benchmark_mono; [done|]];
      by apply map_union_subseteq_r.
  - intros m' Hd'. split; [eapply reads_mono; [done|]|eapply Benchmark_mono; [done|]];
      by apply map_union_subseteq_l.
Qed.

(** [DeepCopyObject] of a list gives an object with an independent copy of every
    benchmark in it, and the nil interface, not a nil pointer in one, for nil. *)
Theorem BenchmarkList_DeepCopyObject_copies inp h :
  match inp with
  | None => BenchmarkList_DeepCopyObject None h = Ret (None, h)
  | Some p => forall x a, reads h p x -> BenchmarkList_rep h x a ->
      exists q m y, BenchmarkList_DeepCopyObject (Some p) h = Ret (Some (ObjBenchmarkList (Some q)), h ∪ m) /\
        h ##ₘ m /\ reads m q y /\ BenchmarkList_rep m y a
  end.
Proof.
  destruct inp as [p|]; [|done]. intros x a Hx Ha.
  destruct (deep_copy_new BenchmarkList_rep BenchmarkList_DeepCopyInto h p x a)
    as (q & m & y & E & Hd & Hy & Hr); [apply BenchmarkList_copies|apply BenchmarkList_mono|done..|].
  exists q, m, y. split_and!; [|done..]. unfold BenchmarkList_DeepCopyObject, BenchmarkList_DeepCopy.
  unfold mbind, mem_bind. by rewrite E.
Qed.
End methods.

(** ** An example

    Libraries whose structs are a string and a map, and whose deep copies copy
    the map; times are numbers. *)
Definition ex_kind (M : Type) : libkind :=
  {| ObjectMeta := string * M; ListMeta := string * M; PVCSpec := string * M;
     LabelSelector := string * M; Time := Z |}.

#[export] Instance ex_types : LibTypes := {|
  lib_mem := ex_kind gomap; lib_val := ex_kind (option (gmap string string)); lib_block := Empty_set;
  zero_ObjectMeta := (EmptyString, None); zero_ListMeta := (EmptyString, None);
  zero_PVCSpec := (EmptyString, None); zero_LabelSelector := (EmptyString, None); zero_Time := 0%Z |}.

Definition ex_keys (e : gmap string string) : list string := (map_to_list e).*1.

Definition f_map : field (string * gomap) gomap :=
  Field snd (fun v s => (fst s, v)) (fun v s => eq_refl) (fun v w s => eq_refl)
    (fun s => match s with (_, _) => eq_refl end).

Definition ex_copy (inp out : ptr block (string * gomap)) : MemM block unit :=
  assign inp out ;; copy_field inp out f_map (copy_map ex_keys).

Definition ex_rep (h : heap block) (x : string * gomap) (a : string * option (gmap string string)) : Prop :=
  fst x = fst a /\ map_rep h (snd x) (snd a).

Lemma ex_mono : monotone ex_rep.
Proof. monotone_tac. Qed.

Lemma ex_keys_all e : ex_keys e ≡ₚ (map_to_list e).*1.
Proof. done. Qed.

Lemma ex_copies : deep_copies ex_rep ex_copy.
Proof. pose proof ex_keys_all as Hk. copies_tac ex_copy. Qed.

#[export] Instance ex_ops : LibOps := {|
  ObjectMeta_DeepCopyInto := ex_copy; ListMeta_DeepCopyInto := ex_copy; PVCSpec_DeepCopyInto := ex_copy;
  LabelSelector_DeepCopyInto := ex_copy; Time_DeepCopyInto := assign; range_keys := ex_keys |}.

#[export] Instance ex_libs : LibSpec := {|
  ObjectMeta_rep := ex_rep; ListMeta_rep := ex_rep; PVCSpec_rep := ex_rep; LabelSelector_rep := ex_rep;
  Time_rep := flat_rep; ObjectMeta_mono := ex_mono; ListMeta_mono := ex_mono; PVCSpec_mono := ex_mono;
  LabelSelector_mono := ex_mono; Time_mono := flat_mono; ObjectMeta_copies := ex_copies;
  ListMeta_copies := ex_copies; PVCSpec_copies := ex_copies; LabelSelector_copies := ex_copies;
  Time_copies := deep_copies_assign; range_keys_all := ex_keys_all |}.

(** A benchmark with a workload whose variables are the map of its own labels,
    and a volume that is the second element of an array. *)
Definition ex_workload (K : kind) (vars : MP K) (files : SL K OutputFile) : Workload K :=
  Build_Workload "w" "fio" vars 2 "" files "".
Definition ex_volume (K : kind) (spec : PVCSpec (LK K)) : Volume K := Build_Volume "v" 1 spec "".
Definition ex_bench (K : kind) (meta : ObjectMeta (LK K)) (vols : SL K (Volume K))
    (wls : SL K (Workload K)) (ops : SL K (ControlOperation K)) (rates : SL K Rate)
    (outs : SL K Output) (conds : SL K (BenchmarkCondition K)) (t : Time (LK K)) : Benchmark K :=
  Build_Benchmark {| tm_Kind := "Benchmark"; tm_APIVersion := "v1alpha1" |} meta
    (Build_BenchmarkSpec "1m" vols wls ops rates "" "" "" outs)
    (Build_BenchmarkStatus "Running" t t 0 t 0 0 0 0 0 0 conds).

Definition ex_vars : gmap string string := {["size" := "1G"; "rw" := "read"]}.

Definition ex_mem_bm : Benchmark mem :=
  ex_bench mem ("bm", Some 3%positive) (Some (Slice 4 1 1)) (Some (Slice 2 0 1)) None None (Some (Slice 5 0 0))
    None 7%Z.
Definition ex_val_bm : Benchmark val :=
  ex_bench val ("bm", Some ex_vars) (Some [ex_volume val ("1Gi", None)])
    (Some [ex_workload val (Some ex_vars) None]) None None (Some []) None 7%Z.

Definition ex_heap : heap block :=
  {[1%positive := BBenchmark [ex_mem_bm];
    2%positive := BWorkload [ex_workload mem (Some 3%positive) None];
    3%positive := BMap ex_vars;
    4%positive := BVolume [zero (T := Volume mem); ex_volume mem ("1Gi", None)];
    5%positive := BOutput []]}.

Lemma ex_rep_bm : Benchmark_rep ex_heap ex_mem_bm ex_val_bm.
Proof.
  assert ((ex_heap !! 3%positive ≫= of_map) = Some ex_vars) as Hm by reflexivity.
  repeat (split || (eexists; split_and!; [reflexivity|simpl; lia|repeat constructor]) || done).
Qed.

Lemma Benchmark_DeepCopy_independent_witness :
  exists q m y, Benchmark_DeepCopy (Some (ptr_elem 1 0)) ex_heap = Ret (Some q, ex_heap ∪ m) /\
    ex_heap ##ₘ m /\ reads m q y /\ Benchmark_rep m y ex_val_bm /\
    (forall h', h' ##ₘ m -> reads (h' ∪ m) q y /\ Benchmark_rep (h' ∪ m) y ex_val_bm) /\
    (forall m', ex_heap ##ₘ m' -> reads (ex_heap ∪ m') (ptr_elem 1 0) ex_mem_bm /\
       Benchmark_rep (ex_heap ∪ m') ex_mem_bm ex_val_bm).
Proof.
  apply (Benchmark_DeepCopy_independent ex_heap (ptr_elem 1 0) ex_mem_bm ex_val_bm).
  - vm_compute. reflexivity.
  - apply ex_rep_bm.
Defined.

(** The copy of the example, computed: six new blocks, and the workload and the
    labels, which shared a map, have one each. *)
Example ex_copy_computed :
  match Benchmark_DeepCopy (Some (ptr_elem 1 0)) ex_heap with
  | Ret (Some q, h) => (dom h ∖ dom ex_heap : gset positive) = list_to_set [6; 7; 8; 9; 10; 11]%positive
  | _ => False
  end.
Proof. vm_compute. reflexivity. Qed.
