(* ===== verification/KubeEnv.v ===== *)
(** * The cluster and the controller's effects

    The controller talks to the API server, the clock, the file system and HTTP
    end points.  All of them are the environment: every interaction is a
    [request], appended to the trace, and the environment answers it as a
    function of the requests made before.  The rest of the state is what the
    reconciler keeps in memory.  Functions of the Kubernetes libraries that
    compute on values only are operations of the environment as well. *)
From S2P Require Import Prelude GoStrings GoTime GoJson BenchmarkTypes.

(** ** Errors *)
Inductive kerr := ErrAlreadyExists | ErrNotFound | ErrOther (msg : string).

#[export] Instance kerr_eq_dec : EqDecision kerr.
Proof. solve_decision. Defined.

(** A Go [error]: [None] is [nil]. *)
Abbreviation error := (option kerr).

(** ** Objects

    The parts of Kubernetes objects the controller reads or changes; [rest]
    stands for the fields it keeps as they are. *)
Record ObjectMeta := {
  TypeKind : string; (* Kind of the embedded TypeMeta *)
  Name : string; Namespace : string;
  Labels : option (gmap string string); Annotations : option (gmap string string);
  Owners : list string }.

Record VolumeMount := { MountPath : string; SubPath : string; vm_Name : string }.

(** An environment variable: a literal value or a reference to a field. *)
Inductive EnvVar := EnvValue (name value : string) | EnvField (name fieldPath : string).

Record Container := {
  c_Name : string; c_Image : string; c_Command : list string;
  VolumeMounts : list VolumeMount; c_Env : list EnvVar; c_rest : json }.

Inductive VolumeSource :=
  | SrcConfigMap (name : string) (mode : Z)
  | SrcSecret (name : string)
  | SrcEmptyDir
  | SrcOther (rest : json).

Record PodVolume := { pv_Name : string; pv_Source : VolumeSource }.

Record PodSpec := {
  RestartPolicy : string; ps_ServiceAccountName : string;
  InitContainers : list Container; Containers : list Container;
  ps_Volumes : list PodVolume; ps_rest : json }.

Inductive object :=
  | Pod (m : ObjectMeta) (spec : PodSpec)
  | Job (m : ObjectMeta) (templateLabels : option (gmap string string)) (spec : PodSpec) (rest : json)
  | StatefulSet (m : ObjectMeta) (templateLabels : option (gmap string string)) (spec : PodSpec) (rest : json)
  | PersistentVolumeClaim (m : ObjectMeta) (spec : PersistentVolumeClaimSpec)
  | ConfigMap (m : ObjectMeta) (data : gmap string string)
  | VolumeSnapshot (m : ObjectMeta) (class source : string)
  | OtherObject (m : ObjectMeta) (rest : json).

Definition obj_meta (o : object) : ObjectMeta :=
  match o with
  | Pod m _ | Job m _ _ _ | StatefulSet m _ _ _ | PersistentVolumeClaim m _
  | ConfigMap m _ | VolumeSnapshot m _ _ | OtherObject m _ => m
  end.

Definition set_meta (m : ObjectMeta) (o : object) : object :=
  match o with
  | Pod _ s => Pod m s
  | Job _ l s r => Job m l s r
  | StatefulSet _ l s r => StatefulSet m l s r
  | PersistentVolumeClaim _ s => PersistentVolumeClaim m s
  | ConfigMap _ d => ConfigMap m d
  | VolumeSnapshot _ c s => VolumeSnapshot m c s
  | OtherObject _ r => OtherObject m r
  end.

(** ** Answers to list requests *)
Record ContainerStatus := { RestartCount : Z; Terminated : option time (* FinishedAt *) }.
Record PodItem := { pi_Name : string; Phase : string; ContainerStatuses : list ContainerStatus }.
Record JobItem := { Succeeded : Z; Completions : option Z (* a pointer *) }.
Record StatefulSetItem := { sts_Selector : LabelSelector }.
Record PVCItem := { pvc_Name : string; pvc_Phase : string }.
Record ListItem := { li_Name : string; li_CreationTimestamp : time }.
Record ConfigMapData := { cm_Annotations : gmap string string; cm_Data : gmap string string }.

(** A [labels.Selector], by its string form. *)
Definition selector : Type := string.

(** ** Requests *)
Inductive request :=
  | RGetBenchmark (ns name : string)
  | RGetConfigMap (ns name : string)
  | RListPods (ns : string) (s : selector)
  | RListJobs (ns : string) (s : selector)
  | RListStatefulSets (ns : string) (s : selector)
  | RListPVCs (ns : string) (s : selector)
  | RListObjects (apiVersion kind ns : string) (s : selector)
  | RCreate (o : object)
  | RDeletePod (p : PodItem)
  | RDelete (apiVersion kind : string) (i : ListItem)
  | RUpdate (b : Benchmark)
  | RStatusUpdate (b : Benchmark)
  | RWatch (o : object)
  | RNow
  | RGenerateName (base : string)
  | RReadFile (dir name : string)
  | RPost (url body : string)
  | RRange (m : gmap string string).

(** Updates answer with the object as the server stored it, which the client
    writes back into its argument. *)
Definition response (r : request) : Type :=
  match r with
  | RGetBenchmark _ _ | RUpdate _ | RStatusUpdate _ => Benchmark + kerr
  | RGetConfigMap _ _ => ConfigMapData + kerr
  | RListPods _ _ => list PodItem + kerr
  | RListJobs _ _ => list JobItem + kerr
  | RListStatefulSets _ _ => list StatefulSetItem + kerr
  | RListPVCs _ _ => list PVCItem + kerr
  | RListObjects _ _ _ _ => list ListItem + kerr
  | RCreate _ | RDeletePod _ | RDelete _ _ _ | RWatch _ | RPost _ _ => error
  | RNow => time
  | RGenerateName _ => string
  | RReadFile _ _ => string + kerr
  | RRange _ => list string
  end%type.

(** What the controller is given by the cluster and the libraries.  [range] in
    Go visits the keys of a map in an unspecified order, each exactly once. *)
Class Env := {
  answer : list request -> forall r : request, response r;
  answer_range : forall tr m, answer tr (RRange m) ≡ₚ (map_to_list m).*1;
  decode_yaml : string -> object + kerr;
  addLabelToSelector : LabelSelector -> string -> string -> LabelSelector;
  labelSelectorAsSelector : LabelSelector -> selector + kerr;
  parseToLabelSelector : string -> LabelSelector + kerr;
  formatLabelSelector : LabelSelector -> string;
  setControllerReference : Benchmark -> ObjectMeta -> ObjectMeta + kerr;
  setOwnerReference : Benchmark -> ObjectMeta -> ObjectMeta + kerr;
  encodeOutput : string -> BenchmarkSpec -> Z -> Z -> Z -> option string }.

(** ** State and effects

    A channel is a number; [listeners c] is how many goroutines wait for a
    message on the control channel [c]: the rate and the operation loop of each
    rate that was started on it. *)
Record gst := GSt {
  trace : list request;
  controlChannels : gmap string nat;
  listeners : gmap nat nat;
  next_chan : nat;
  workloadInstance : gmap string Z }.

Definition init_gst : gst := GSt [] ∅ ∅ 0 ∅.

Definition GoM (A : Type) : Type := gst -> outcome (A * gst).

#[export] Instance gom_ret : MRet GoM := fun A a s => Ret (a, s).
#[export] Instance gom_bind : MBind GoM := fun A B f m s =>
  match m s with
  | Ret (a, s') => f a s'
  | Panic why => Panic why
  | Blocked => Blocked
  end.

Definition panicM {A} (why : string) : GoM A := fun _ => Panic why.
Definition getS {A} (f : gst -> A) : GoM A := fun s => Ret (f s, s).
Definition putS (f : gst -> gst) : GoM unit := fun s => Ret (tt, f s).

Section effects.
Context {E : Env}.

Definition ask (r : request) : GoM (response r) := fun s =>
  Ret (answer (trace s) r,
       GSt (trace s ++ [r]) (controlChannels s) (listeners s) (next_chan s) (workloadInstance s)).
End effects.

(** [for _, x := range l { if err := f(x); err != nil { return err } }]. *)
Fixpoint forM_err {A} (f : A -> GoM error) (l : list A) : GoM error :=
  match l with
  | [] => mret None
  | x :: l' =>
      err ← f x;
      match err with
      | Some e => mret (Some e)
      | None => forM_err f l'
      end
  end.

(** A loop whose body never leaves it. *)
Fixpoint forM_ {A} (f : A -> GoM unit) (l : list A) : GoM unit :=
  match l with
  | [] => mret tt
  | x :: l' => f x ;; forM_ f l'
  end.

(** Send on a control channel: a goroutine that waits there takes the message
    and stops listening; without one the sender blocks forever, as it does on
    the nil channel a missing map entry gives. *)
Definition send (c : option nat) : GoM unit := fun s =>
  match c with
  | None => Blocked
  | Some c =>
      match listeners s !! c with
      | Some (S n) => Ret (tt, GSt (trace s) (controlChannels s) (<[c := n]> (listeners s))
                                 (next_chan s) (workloadInstance s))
      | _ => Blocked
      end
  end.

(** ** A concrete environment for examples

    A cluster in which every request succeeds, updates are stored as sent, and
    nothing but [cm] and [items] is there to be read; time is the number of
    requests made, in seconds; [decode] reads the object texts. *)
Definition sample_answer (bm : Benchmark) (cm : ConfigMapData) (pods : list PodItem)
    (tr : list request) (r : request) : response r :=
  match r with
  | RGetBenchmark _ _ => inl bm
  | RUpdate b | RStatusUpdate b => inl b
  | RGetConfigMap _ _ => inl cm
  | RListPods _ _ => inl pods
  | RListJobs _ _ => inl []
  | RListStatefulSets _ _ => inl []
  | RListPVCs _ _ => inl []
  | RListObjects _ _ _ _ => inl []
  | RCreate _ | RDeletePod _ | RDelete _ _ _ | RWatch _ | RPost _ _ => None
  | RNow => (nanos * Z.of_nat (length tr))%Z
  | RGenerateName base => base +:+ pretty (length tr)
  | RReadFile _ name => inl name
  | RRange m => (map_to_list m).*1
  end.

Definition plain_meta (kind name : string) : ObjectMeta :=
  {| TypeKind := kind; Name := name; Namespace := "default"; Labels := None; Annotations := None;
     Owners := [] |}.

Definition plain_spec : PodSpec :=
  {| RestartPolicy := "Never"; ps_ServiceAccountName := ""; InitContainers := [];
     Containers := []; ps_Volumes := []; ps_rest := JNull |}.

Definition sample_env (bm : Benchmark) (cm : ConfigMapData) (pods : list PodItem)
    (decode : string -> object + kerr) : Env.
Proof.
  refine {| answer := sample_answer bm cm pods;
     decode_yaml := decode;
     addLabelToSelector ls k v :=
       {| matchLabels := <[k := v]> (matchLabels ls); matchExpressions := matchExpressions ls |};
     labelSelectorAsSelector ls :=
       inl (foldr (fun kv s => kv.1 +:+ "=" +:+ kv.2 +:+ "," +:+ s) EmptyString (map_to_list (matchLabels ls)));
     parseToLabelSelector s := inl {| matchLabels := {["workloadname" := s]}; matchExpressions := [] |};
     formatLabelSelector ls := if decide (matchLabels ls = ∅) then "<none>" else "labels";
     setControllerReference b m := inl m;
     setOwnerReference b m := inl m;
     encodeOutput n _ _ _ _ := Some n |}.
  intros tr m. reflexivity.
Defined.

Definition no_selector : LabelSelector := {| matchLabels := ∅; matchExpressions := [] |}.

Definition sample_spec : BenchmarkSpec :=
  {| Runtime := ""; Volumes := []; Workloads := []; ControlOperations := []; Rates := [];
     WorkloadsOutput := ""; MetadataOutput := ""; MetricsOutput := ""; Outputs := [] |}.

Definition sample_status (st : BenchmarkState) : BenchmarkStatus :=
  {| State := st; CompletionTime := zero_time; InitCompletionTime := zero_time;
     TargetCompletionTimeUnix := 0; TargetCompletionTime := zero_time; CompletionTimeUnix := 0;
     StartTimeUnix := 0; InitCompletionTimeUnix := 0; NumCompletedObjs := 0; RunningWorkloads := 0;
     RunningRates := 0; Conditions := [] |}.

Definition sample_bm (spec : BenchmarkSpec) (status : BenchmarkStatus) : Benchmark :=
  {| bm_Name := "bm"; bm_Finalizers := []; bm_DeletionTimestamp := None;
     bm_CreationTimestamp := zero_time; bm_Spec := spec; bm_Status := status |}.

Definition sample_cm : ConfigMapData := {| cm_Annotations := ∅; cm_Data := {["pod.yaml" := "pod"]} |}.

Definition decode_pod (s : string) : object + kerr := inl (Pod (plain_meta "Pod" s) plain_spec).

Definition simple_env (spec : BenchmarkSpec) (st : BenchmarkState) : Env :=
  sample_env (sample_bm spec (sample_status st)) sample_cm [] decode_pod.
