(* ===== verification/Manager.v ===== *)
(** * The program of the controller (main.go, SetupWithManager)

    The program reads its flags, makes a manager of the controller-runtime
    library, registers the reconciler and two health checks with it and starts
    it.  Every call of a library is recorded; [Class ManagerEnv] says which fail,
    and which flags the logger adds. *)
From S2P Require Import Prelude GoStrings GoFlags GoTime GoJson BenchmarkTypes KubeEnv.

(** ctrl.Options *)
Record Options := {
  MetricsBindAddress : string; Port : Z; HealthProbeBindAddress : string;
  LeaderElection : bool; LeaderElectionID : string }.

Inductive mcall :=
  | MAddClientGoScheme
  | MAddCnsbenchScheme
  | MGetConfig
  | MNewManager (o : Options)
  | MBuild (for_ : string)
  | MAddHealthzCheck (name : string)
  | MAddReadyzCheck (name : string)
  | MStart.

Class ManagerEnv := {
  fails : list mcall -> mcall -> bool;
  zap_flags : string -> option flag_spec }.

(** The reconciler as main makes it; its maps are nil until [SetupWithManager],
    and an assignment to a key of a nil map panics. *)
Record BenchmarkReconciler := {
  r_ScriptsDir : string;
  r_controlChannels : option (gmap string nat);
  r_workloadInstance : option (gmap string Z) }.

(** How a part of the program ends, with the calls made so far. *)
Inductive mres (A : Type) :=
  | Done (a : A) (tr : list mcall)
  | Exit (code : Z) (tr : list mcall)
  | Panicked (tr : list mcall).
Arguments Done {A} a tr. Arguments Exit {A} code tr. Arguments Panicked {A} tr.

Definition MainM (A : Type) : Type := list mcall -> mres A.

#[export] Instance main_ret : MRet MainM := fun A a tr => Done a tr.
#[export] Instance main_bind : MBind MainM := fun A B f m tr =>
  match m tr with
  | Done a tr' => f a tr'
  | Exit code tr' => Exit code tr'
  | Panicked tr' => Panicked tr'
  end.

Section main.
Context {M : ManagerEnv}.

(** A call; [true] when it returned an error. *)
Definition do_call (c : mcall) : MainM bool := fun tr => Done (fails tr c) (tr ++ [c]).

Definition os_Exit {A} (code : Z) : MainM A := fun tr => Exit code tr.

Definition panic_ {A} : MainM A := fun tr => Panicked tr.

(** [utilruntime.Must]: an error is a panic. *)
Definition must (c : mcall) : MainM unit :=
  err ← do_call c; if err : bool then panic_ else mret tt.

(** A call whose error is logged before the program exits with 1. *)
Definition or_exit (c : mcall) : MainM unit :=
  err ← do_call c; if err : bool then os_Exit 1 else mret tt.

Definition init : MainM unit := must MAddClientGoScheme ;; must MAddCnsbenchScheme.

(** The flags of main, and those [opts.BindFlags] adds. *)
Definition formal (name : string) : option flag_spec :=
  if decide (name ∈ ["metrics-bind-address"; "health-probe-bind-address"; "scripts-dir"]) then Some string_flag
  else if decide (name = "leader-elect") then Some bool_flag
  else zap_flags name.

Definition manager_options (values : gmap string string) : Options :=
  {| MetricsBindAddress := default ":8080" (values !! "metrics-bind-address");
     Port := 9443;
     HealthProbeBindAddress := default ":8081" (values !! "health-probe-bind-address");
     LeaderElection := parse_bool (default "false" (values !! "leader-elect"));
     LeaderElectionID := "d01eb01b.example.com" |}.

(** The maps are made whether or not the controller can be built. *)
Definition SetupWithManager (r : BenchmarkReconciler) : MainM (BenchmarkReconciler * bool) :=
  err ← do_call (MBuild "Benchmark");
  mret ({| r_ScriptsDir := r_ScriptsDir r; r_controlChannels := Some ∅; r_workloadInstance := Some ∅ |}, err).

(** [main]: the reconciler that was running when the manager stopped. *)
Definition main (args : list string) : MainM BenchmarkReconciler :=
  match parse_flags formal args with
  | Help => os_Exit 0
  | BadFlags => os_Exit 2
  | Parsed values _ =>
      or_exit MGetConfig ;;
      or_exit (MNewManager (manager_options values)) ;;
      '(r, err) ← SetupWithManager
        {| r_ScriptsDir := default "/scripts/" (values !! "scripts-dir");
           r_controlChannels := None; r_workloadInstance := None |};
      (if err : bool then os_Exit 1 else mret tt) ;;
      or_exit (MAddHealthzCheck "health") ;;
      or_exit (MAddReadyzCheck "check") ;;
      or_exit MStart ;;
      mret r
  end.

Definition program (args : list string) : mres BenchmarkReconciler := (init ;; main args) [].

(** ** Theorem *)

(** The state the reconciler begins with; it needs maps that were made. *)
Definition begins_with (r : BenchmarkReconciler) : option gst :=
  match r_controlChannels r, r_workloadInstance r with
  | Some c, Some w => Some (GSt [] c ∅ 0 w)
  | _, _ => None
  end.

(** The calls of a run whose flags are good. *)
Definition calls (values : gmap string string) : list mcall :=
  [MAddClientGoScheme; MAddCnsbenchScheme; MGetConfig; MNewManager (manager_options values);
   MBuild "Benchmark"; MAddHealthzCheck "health"; MAddReadyzCheck "check"; MStart].

(** The calls before [n] succeeded. *)
Definition succeeded (l : list mcall) (n : nat) : Prop :=
  forall i c, i < n -> l !! i = Some c -> fails (take i l) c = false.

(** The call number [n] was made last, and failed. *)
Definition stops_at (l : list mcall) (n : nat) (tr : list mcall) : Prop :=
  succeeded l n /\ exists c, l !! n = Some c /\ fails (take n l) c = true /\ tr = take (S n) l.

Ltac succeeds :=
  intros i c Hi Hl;
  do 8 (destruct i as [|i]; [first [lia | cbn in Hl; injection Hl as <-; assumption]|try lia]).

(** The run that stops at the call number [k]. *)
Ltac stops k :=
  exists k; split; [lia|]; split; [succeeds|]; eexists; split; [reflexivity|]; split; [assumption|reflexivity].

(** C17: with flags that can be parsed the program makes its calls in one order,
    each only after all before it succeeded, and the manager as the flags say:
    so the manager is started only when everything is set up, with a reconciler
    whose maps were made and are empty.  The program ends normally when all
    succeeded, exits with 1 at the first call of [main] that fails, and panics
    when one of the two schemes cannot be registered. *)
Theorem program_starts args values rest :
  parse_flags formal args = Parsed values rest ->
  match program args with
  | Done r tr => succeeded (calls values) 8 /\ tr = calls values /\ begins_with r = Some init_gst /\
      r_ScriptsDir r = default "/scripts/" (values !! "scripts-dir")
  | Exit code tr => code = 1%Z /\ exists n, 2 <= n /\ stops_at (calls values) n tr
  | Panicked tr => exists n, n < 2 /\ stops_at (calls values) n tr
  end.
Proof.
  intros Hp. unfold program, init, must, or_exit, main. rewrite Hp.
  unfold or_exit, SetupWithManager, do_call, os_Exit, panic_, mbind, main_bind, mret, main_ret.
  cbn [app]. clear Hp. set (o := manager_options values). unfold calls. fold o.
  set (dir := default _ _). clearbody o dir. clear values.
  destruct (fails [] _) eqn:F0; cbn; [stops 0|].
  destruct (fails [_] _) eqn:F1; cbn; [stops 1|].
  destruct (fails [_;_] _) eqn:F2; cbn; [split; [done|stops 2]|].
  destruct (fails [_;_;_] _) eqn:F3; cbn; [split; [done|stops 3]|].
  destruct (fails [_;_;_;_] _) eqn:F4; cbn; [split; [done|stops 4]|].
  destruct (fails [_;_;_;_;_] _) eqn:F5; cbn; [split; [done|stops 5]|].
  destruct (fails [_;_;_;_;_;_] _) eqn:F6; cbn; [split; [done|stops 6]|].
  destruct (fails [_;_;_;_;_;_;_] _) eqn:F7; cbn; [split; [done|stops 7]|].
  split_and!; [succeeds|reflexivity..].
Qed.
End main.

(** ** Witness *)
Definition ex_manager : ManagerEnv := {| fails _ _ := false; zap_flags _ := None |}.

Lemma program_starts_witness :
  match program (M := ex_manager) ["--leader-elect"; "-scripts-dir"; "/s/"] with
  | Done r tr => tr = calls {["leader-elect" := "true"; "scripts-dir" := "/s/"]} /\ begins_with r = Some init_gst /\
      r_ScriptsDir r = "/s/"
  | _ => False
  end.
Proof.
  pose proof (program_starts (M := ex_manager) ["--leader-elect"; "-scripts-dir"; "/s/"]
    {["leader-elect" := "true"; "scripts-dir" := "/s/"]} [] eq_refl) as H.
  vm_compute in H |- *. destruct H as (_ & H1 & H2 & H3). split_and!; [exact H1|exact H2|exact H3].
Defined.
