(* ===== verification/Utils.v ===== *)
(** * Helpers on lists and decoded JSON (pkg/utils/utils.go)

    [Remove] cuts the slice it ranges over in place: the loop reads the backing
    array up to the length the slice had at the start. *)
From S2P Require Import Prelude GoStrings GoTime GoJson.

(** [lastVal.(map[string]interface{})] panics on anything but an object; the
    last of several members with the same key is the one a Go map holds, and a
    missing key gives the nil interface. *)
Fixpoint last_member (key : string) (members : list (string * json)) : option json :=
  match members with
  | [] => None
  | (k, v) :: members' =>
      match last_member key members' with
      | Some v' => Some v'
      | None => if decide (k = key) then Some v else None
      end
  end.

Fixpoint ParseInterface (m : option json) (keys : list string) : outcome (option json) :=
  match keys with
  | [] => Ret m
  | key :: keys' =>
      match m with
      | Some (JObj members) => ParseInterface (last_member key members) keys'
      | _ => Panic "interface conversion"
      end
  end.

Fixpoint Contains (list_ : list string) (s : string) : bool :=
  match list_ with
  | [] => false
  | v :: list' => if decide (v = s) then true else Contains list' s
  end.

Definition remove_step (s : string) (l : slice string) (i : nat) : outcome (slice string) :=
  match sl_arr l !! i with
  | Some v => if decide (v = s) then slice_cut i l else Ret l
  | None => Ret l
  end.

Definition Remove (list_ : list string) (s : string) : outcome (list string) :=
  l ← foldM (remove_step s) (slice_of list_) (seq 0 (length list_));
  Ret (slice_list l).

(** ** Lemmas *)
Lemma Contains_spec l s : Contains l s = true <-> s ∈ l.
Proof.
  induction l as [|v l IH]; simpl.
  - split; [done|]. intros H. by apply not_elem_of_nil in H.
  - case_decide; rewrite elem_of_cons; [split; [intros _; by left|done]|].
    rewrite IH. split; [by right|]. intros [->|]; done.
Qed.

Lemma Contains_false l s : Contains l s = false <-> s ∉ l.
Proof. rewrite <- Contains_spec. destruct (Contains l s); split; congruence. Qed.

Lemma remove_step_skip s l i :
  (forall v, sl_arr l !! i = Some v -> v <> s) -> remove_step s l i = Ret l.
Proof.
  intros H. unfold remove_step. destruct (sl_arr l !! i) as [v|]; [|done].
  rewrite decide_False; [done|]. by apply H.
Qed.

Lemma remove_steps_skip s l idx :
  (forall i v, i ∈ idx -> sl_arr l !! i = Some v -> v <> s) -> foldM (remove_step s) l idx = Ret l.
Proof.
  induction idx as [|i idx IH]; intros H; [done|]. cbn [foldM].
  rewrite remove_step_skip by (intros v; apply H; left). simpl. apply IH.
  intros j v Hj. apply H. by right.
Qed.

Lemma remove_step_hit s (l : list string) i :
  l !! i = Some s -> remove_step s (slice_of l) i = slice_cut i (slice_of l).
Proof. intros H. unfold remove_step. simpl. by rewrite H, decide_True. Qed.

Lemma Remove_absent l s : s ∉ l -> Remove l s = Ret l.
Proof.
  intros H. unfold Remove. rewrite remove_steps_skip.
  - simpl. unfold slice_list, slice_of. simpl. by rewrite take_ge.
  - intros i v _ Hv ->. apply H. by eapply list_elem_of_lookup_2.
Qed.

(** The loop when the string occurs once, [pre] before it and [post] behind:
    unless it is last, the cut moves the tail of the array forward, but no later
    position holds the string again. *)
Lemma Remove_once pre post s :
  s ∉ pre -> s ∉ post -> Remove (pre ++ s :: post) s = Ret (pre ++ post).
Proof.
  intros Hpre Hpost. unfold Remove. set (l := pre ++ s :: post).
  assert (length l = length pre + S (length post)) as Hl by (unfold l; rewrite length_app; done).
  replace (seq 0 (length l)) with (seq 0 (length pre) ++ length pre :: seq (S (length pre)) (length post))
    by (rewrite Hl, seq_app; done).
  rewrite foldM_app, remove_steps_skip.
  2: { intros i v Hi Hv ->. apply elem_of_seq in Hi. simpl in Hv. unfold l in Hv.
       rewrite lookup_app_l in Hv by lia. apply Hpre. by eapply list_elem_of_lookup_2. }
  cbn [mbind outcome_bind foldM].
  rewrite remove_step_hit by (unfold l; by apply list_lookup_middle).
  rewrite slice_cut_of by lia. cbn [mbind outcome_bind].
  assert (take (length pre) l = pre) as -> by (unfold l; by apply take_app_length).
  assert (drop (S (length pre)) l = post) as ->.
  { unfold l. rewrite cons_middle, app_assoc. apply drop_app_length'. rewrite length_app. simpl. lia. }
  rewrite remove_steps_skip.
  - simpl. unfold slice_list. simpl. f_equal. rewrite app_assoc, take_app_length'; [done|].
    rewrite length_app, Hl. lia.
  - intros i v Hi Hv ->. cbn [sl_arr] in Hv. apply elem_of_seq in Hi.
    rewrite lookup_app_r in Hv by lia.
    apply lookup_app_Some in Hv as [Hv|[Hge Hv]].
    + apply Hpost. by eapply list_elem_of_lookup_2.
    + destruct post as [|x post'] using rev_ind; [simpl in Hi; lia|]. clear IHpost'.
      apply Hpost. rewrite lookup_drop in Hv.
      assert (length l - 1 + (i - length pre - length (post' ++ [x])) = length l - 1) as Ei
        by (apply lookup_lt_Some in Hv; lia).
      rewrite Ei in Hv. unfold l in Hv. rewrite cons_middle, 2!app_assoc in Hv.
      rewrite lookup_app_r in Hv by (rewrite !length_app in *; simpl in *; lia).
      apply list_elem_of_lookup_2 in Hv. apply elem_of_app. by right.
Qed.
