(* ===== verification/JsonMaps.v ===== *)
(** * Members of decoded objects

    A JSON object that is decoded into a Go map keeps the last member of each
    name.  The object that a Go map is marshalled to has one member per key. *)
From stdpp Require Import sorting.
From S2P Require Import Prelude GoStrings GoTime GoJson GoJsonPrint Utils.

Lemma printable_map {A} (f : A -> json) m : (forall a, printable (f a)) -> printable (json_map f m).
Proof. intros Hf. cbn. rewrite Forall_map, Forall_fmap. apply Forall_true. intros [k a]. apply Hf. Qed.

Lemma last_member_None k ms : last_member k ms = None <-> k ∉ ms.*1.
Proof.
  induction ms as [|[k' v] ms IH]; cbn [last_member fmap list_fmap fst].
  - split; [|done]. intros _ H. by apply not_elem_of_nil in H.
  - rewrite not_elem_of_cons. destruct (last_member k ms) as [v'|] eqn:E.
    + split; [done|]. intros [_ H]. by apply IH in H.
    + case_decide; [subst; split; [done|intros []; done]|].
      split; [|done]. intros _. split; [done|by apply IH].
Qed.

Lemma last_member_elem k ms v : last_member k ms = Some v -> (k, v) ∈ ms.
Proof.
  induction ms as [|[k' v'] ms IH]; [done|]. cbn [last_member]. destruct (last_member k ms) as [w|].
  - intros [= ->]. right. by apply IH.
  - case_decide; [|done]. intros [= ->]. subst. by left.
Qed.

(** Looking up a key in a list of pairs without duplicate keys. *)
Lemma last_member_NoDup k v ms :
  NoDup ms.*1 -> (last_member k ms = Some v <-> (k, v) ∈ ms).
Proof.
  intros Hnd. induction ms as [|[k' v'] ms IH].
  - split; [done|]. intros H. by apply not_elem_of_nil in H.
  - rewrite fmap_cons, list.NoDup_cons in Hnd. destruct Hnd as [Hnin Hnd]. cbn in Hnin.
    specialize (IH Hnd). rewrite elem_of_cons. cbn [last_member].
    assert (forall x, (k', x) ∈ ms -> False) as Hno.
    { intros x Hx. apply Hnin. by apply (list_elem_of_fmap_2 fst) in Hx. }
    destruct (last_member k ms) as [w|] eqn:E.
    + rewrite <- IH. split; [by right|]. intros [[= -> ->]|H]; [|done].
      destruct (Hno w). apply last_member_elem. done.
    + apply last_member_None in E. case_decide as Hk; subst.
      * split; [intros [= ->]; by left|]. intros [[= ->]|H]; [done|]. by apply Hno in H.
      * split; [done|]. intros [[= -> _]|H]; [done|]. by apply (list_elem_of_fmap_2 fst) in H.
Qed.

(** The members of a marshalled map are those of the map. *)
Lemma json_map_lookup {A} (f : A -> json) `{!Inj (=) (=) f} (m : gmap string A) k a :
  exists ms, json_map f m = JObj ms /\ (last_member k ms = Some (f a) <-> m !! k = Some a).
Proof.
  eexists. split; [reflexivity|]. rewrite last_member_NoDup.
  - rewrite <- elem_of_map_to_list. split.
    + intros H. apply list_elem_of_fmap in H as ([k' a'] & [= -> Ha] & H). apply (inj f) in Ha as ->.
      by rewrite merge_sort_Permutation in H.
    + intros H. apply list_elem_of_fmap. exists (k, a). by rewrite merge_sort_Permutation.
  - rewrite <- list_fmap_compose. change (NoDup (fst <$> merge_sort key_le (map_to_list m))).
    rewrite merge_sort_Permutation. apply NoDup_fst_map_to_list.
Qed.

#[export] Instance JStr_inj : Inj (=) (=) JStr.
Proof. by intros a b [=]. Qed.
