(* ===== verification/TimingJson.v ===== *)
(** * The types of timing records and their JSON form (pkg/objecttiming/output.go)

    Records are maps from field names to values of any type.  The parser keeps
    a discipline: every field has one dynamic type.  Times, whose JSON form
    depends on their zone, are gone from the records that are printed. *)
From stdpp Require Import sorting.
From S2P Require Import Prelude GoStrings GoTime GoJson GoJsonPrint AuditLog TimingRecords CreateTiming.
From S2P Require Import ScaleTiming PvcPod ParseLogs ParseLogsInv ParseLogsSpec Utils JsonMaps.

(** ** Printing *)

(** [json.Marshal] of a field; [None] for a time. *)
Definition value_json (v : value) : option json :=
  match v with
  | VStr s => Some (JStr s)
  | VTime _ => None
  | VInt64 n | VUint8 n => Some (json_int n)
  | VBool b => Some (JBool b)
  | VLabels m => Some (json_map JStr m)
  end.

Definition field_json (kv : string * value) : option (string * json) := j ← value_json kv.2; Some (kv.1, j).

(** [json.Marshal] of a record: its fields by name. *)
Definition record_line (rec : jsondict) : option string :=
  fields ← mapM field_json (merge_sort key_le (map_to_list rec));
  Some (Marshal (JObj fields)).

(** One line per record. *)
Definition OutputJson (records : list jsondict) : list (option string) := record_line <$> records.

(** ** Types *)
Definition time_fields : list string :=
  ["startTime"; "endTime"; "attachTime"; "boundTime"; "containerTime"].
Definition count_fields : list string :=
  ["startReplicas"; "endReplicas"; "startParallelism"; "endParallelism"].
Definition duration_fields : list string :=
  ["duration"; "delta12"; "delta23"; "delta34"; "delta45"; "delta14"].

Definition has_type (k : string) (v : value) : Prop :=
  match v with
  | VStr _ => k ∈ ["action"; "name"; "resource"; "namespace"; "pvName"]
  | VTime _ => k ∈ time_fields
  | VInt64 n => k ∈ duration_fields /\ in_int64 n
  | VUint8 _ => k ∈ count_fields
  | VBool _ => k = "unfinished"
  | VLabels _ => k = "labels"
  end.

Definition typed (rec : jsondict) : Prop := map_Forall has_type rec.

Lemma typed_insert k v rec : has_type k v -> typed rec -> typed (<[k := v]> rec).
Proof. apply map_Forall_insert_2. Qed.

Lemma typed_delete k rec : typed rec -> typed (delete k rec).
Proof. apply map_Forall_delete. Qed.

Lemma typed_empty : typed ∅.
Proof. apply map_Forall_empty. Qed.

(** The name and the value of one assignment are known. *)
Ltac field := cbn; unfold time_fields, count_fields, duration_fields; rewrite ?elem_of_cons; tauto.

#[local] Hint Resolve typed_delete typed_empty : go.
#[local] Hint Extern 2 (typed (<[_ := _]> _)) => apply typed_insert; [field|] : go.

Lemma typed_initialize op nm rs ns t : typed (initializeRecord op nm rs ns t).
Proof. unfold initializeRecord. eauto 10 with go. Qed.

Lemma typed_start log action rec : getGenericStart log action = Ret rec -> typed rec.
Proof. intros (t & _ & ->)%getGenericStart_spec. apply typed_initialize. Qed.

Lemma typed_setEndTime log rec rec' : typed rec -> setEndTime log rec = Ret rec' -> typed rec'.
Proof.
  unfold setEndTime. intros Hr H. apply outcome_bind_ret in H as (t & _ & [= <-]).
  destruct (md_Labels _); eauto with go.
Qed.

Lemma typed_labels r n rec : typed rec -> typed (<[endLabel r := VUint8 n]> rec).
Proof. intros H. apply typed_insert; [|done]. cbn. unfold endLabel. case_decide; field. Qed.

Lemma typed_getScaleStart log store rec : store_ok store -> getScaleStart log store = Ret rec -> typed rec.
Proof.
  unfold getScaleStart. intros Hs H. apply outcome_bind_ret in H as (rec0 & Hrec & H).
  apply typed_start in Hrec. destruct (_ ≫= _) as [v|] eqn:E; injection H as <-; apply typed_labels.
  - destruct (getObjInfo log store) as [info|] eqn:Ei; [|discriminate E]. cbn in E.
    destruct (info_ok_specLabel info (or_Resource (ObjectRef log)) (Hs _ _ Ei)) as [n Hn].
    rewrite Hn in E. injection E as <-. apply typed_insert; [|done].
    cbn. unfold startLabel. case_decide; field.
  - by apply typed_delete.
Qed.

(** ** The parser *)
Definition typed_state (st : pstate) : Prop :=
  inv st /\ Forall typed (ongoing st) /\ Forall typed (results st).

Lemma end_record_typed log i st rec : typed_state st -> end_record log i st = Ret rec -> typed rec.
Proof.
  intros (_ & Ho & _). unfold end_record. destruct (ongoing st !! i) as [rec0|] eqn:E; [|done].
  apply typed_setEndTime. by eapply Forall_lookup_1 in E.
Qed.

(** The three ways an action changes the lists. *)
Lemma finish_typed i rec (st : pstate) :
  Forall typed (ongoing st) -> Forall typed (results st) -> typed rec ->
  Forall typed (ongoing (finish i rec st)) /\ Forall typed (results (finish i rec st)).
Proof.
  intros Ho Hr Hrec. split; cbn; [by apply Forall_delete_list|]. apply Forall_app. by split; [|constructor].
Qed.

Lemma snoc_typed rec l : Forall typed l -> typed rec -> Forall typed (l ++ [rec]).
Proof. intros Hl Hrec. apply Forall_app. by split; [|constructor]. Qed.

Definition lists_typed (st : pstate) : Prop := Forall typed (ongoing st) /\ Forall typed (results st).

Lemma create_action_typed log st r :
  typed_state st -> create_action log st = Ret r -> from_option lists_typed True r.
Proof.
  intros Hst. pose proof Hst as (Hi & Ho & Hr). unfold create_action. destruct (isCreateStart log (ongoing st)).
  - intros H. apply outcome_bind_ret in H as (rec & Hrec & [= <-]). cbn.
    split; [|done]. apply snoc_typed; [done|by eapply typed_start].
  - intros H. apply outcome_bind_ret in H as ([i|] & _ & H); [|by injection H as <-].
    apply outcome_bind_ret in H as (rec & Hrec & [= <-]). apply (end_record_typed _ _ _ _ Hst) in Hrec.
    apply finish_typed; [done|done|]. case_decide; eauto with go.
Qed.

Lemma force_end_typed log st st' : typed_state st -> force_end log st = Ret st' -> lists_typed st'.
Proof.
  intros Hst. pose proof Hst as (Hi & Ho & Hr). unfold force_end.
  destruct (getScaleEndIndex _ _) as [i|]; [|by intros [= <-]].
  intros H. apply outcome_bind_ret in H as (rec & Hrec & [= <-]). apply (end_record_typed _ _ _ _ Hst) in Hrec.
  apply finish_typed; eauto with go.
Qed.

Lemma force_end_store log st st' : force_end log st = Ret st' -> objstore st' = objstore st.
Proof.
  unfold force_end. destruct (getScaleEndIndex _ _) as [i|]; [|by intros [= <-]].
  intros H. by apply outcome_bind_ret in H as (rec & _ & [= <-]).
Qed.

Lemma scale_action_typed log st r :
  typed_state st -> scale_action log st = Ret r -> from_option lists_typed True r.
Proof.
  intros Hst. pose proof Hst as (Hi & Ho & Hr). unfold scale_action. intros H.
  apply outcome_bind_ret in H as ([] & _ & H).
  - apply outcome_bind_ret in H as (st1 & Hf & H). apply outcome_bind_ret in H as (rec & Hrec & [= <-]).
    pose proof (force_end_inv _ _ _ Hi Hf) as (_ & _ & Hs).
    apply force_end_typed in Hf as [Ho1 Hr1]; [|done].
    split; [|done]. apply snoc_typed; [done|by eapply typed_getScaleStart].
  - apply outcome_bind_ret in H as ([i|] & _ & H); [|by injection H as <-].
    apply outcome_bind_ret in H as (rec & Hrec & [= <-]). apply (end_record_typed _ _ _ _ Hst) in Hrec.
    by apply finish_typed.
Qed.

Lemma alter_typed (f : jsondict -> jsondict) i l :
  (forall rec, typed rec -> typed (f rec)) -> Forall typed l -> Forall typed (alter f i l).
Proof. intros Hf Hl. apply Forall_alter; [done|]. intros x _ Hx. by apply Hf. Qed.

Lemma pvcpod_action_typed log st r :
  typed_state st -> pvcpod_action log st = Ret r -> from_option lists_typed True r.
Proof.
  intros (Hi & Ho & Hr). unfold pvcpod_action, setAttachTime, setContainerTime.
  destruct (isAttachVolumeEvent log).
  - intros H. apply outcome_bind_ret in H as (l & Hl & [= <-]). split; [|done]. cbn.
    destruct (findLog _ _ _ _ _) as [i|]; [|by injection Hl as <-].
    apply outcome_bind_ret in Hl as (t & _ & [= <-]). apply alter_typed; [|done]. intros; eauto with go.
  - intros H. apply outcome_bind_ret in H as ([] & _ & H); [|by injection H as <-].
    apply outcome_bind_ret in H as (l & Hl & [= <-]). split; [|done]. cbn.
    destruct (findLog _ _ _ _ _) as [i|]; [|by injection Hl as <-].
    apply outcome_bind_ret in Hl as (t & _ & [= <-]). apply alter_typed; [|done]. intros; eauto with go.
Qed.

Lemma parse_log_typed flags log st st' :
  typed_state st -> parse_log flags log st = Ret st' -> typed_state st'.
Proof.
  intros Hst H. split; [destruct Hst as [Hi _]; by eapply parse_log_inv|].
  change (lists_typed st'). revert H.
  assert (lists_typed st) as Hl by by destruct Hst.
  apply (parse_log_preserves lists_typed); [..|exact Hl].
  - intros r _. by apply create_action_typed.
  - intros r _. by apply scale_action_typed.
  - intros r _. by apply pvcpod_action_typed.
  - intros s _. unfold save_action. destruct (isGetCreateRequest log); [|by intros [= <-]].
    intros H. by apply outcome_bind_ret in H as (store & _ & [= <-]).
Qed.

Lemma reachable_typed flags st : reachable flags st -> typed_state st.
Proof. induction 1; [split; [apply init_inv|by repeat constructor]|by eapply parse_log_typed]. Qed.

(** ** The last pass *)
Lemma has_type_endTime v : has_type "endTime" v -> exists t, v = VTime t.
Proof.
  destruct v; cbn; unfold count_fields, duration_fields; rewrite ?elem_of_cons, ?elem_of_nil; naive_solver.
Qed.

Lemma bound_step_typed p v l j : Forall typed l -> Forall typed (bound_step p v l j).
Proof.
  intros Hl. unfold bound_step. destruct (l !! j) as [pvc|] eqn:E; [|done].
  destruct (_ && _); [|done]. apply (Forall_lookup_1 _ _ _ _ Hl) in E.
  apply alter_typed; [eauto with go|]. apply alter_typed; [|done]. intros rec Hrec. apply typed_delete.
  destruct (pvc !! "endTime") as [w|] eqn:Ew; [|eauto with go].
  apply E in Ew. apply has_type_endTime in Ew as [t ->]. eauto with go.
Qed.

Lemma foldl_typed {A} (f : list jsondict -> A -> list jsondict) js l :
  (forall l j, Forall typed l -> Forall typed (f l j)) -> Forall typed l -> Forall typed (foldl f l js).
Proof. intros Hf. revert l. induction js; cbn; eauto. Qed.

Lemma boundTimes_typed l : Forall typed l -> Forall typed (boundTimes l).
Proof.
  apply foldl_typed. intros l' p Hl. unfold bound_pod. destruct (l' !! p) as [r|]; [|done].
  destruct (r !! "pvName"); [|done]. case_bool_decide; [|done].
  apply foldl_typed; [|done]. intros. by apply bound_step_typed.
Qed.

Lemma typed_duration k t1 t2 rec :
  k ∈ duration_fields -> typed rec -> typed (<[k := VInt64 (timeDiff t1 t2)]> rec).
Proof. intros Hk. apply typed_insert. split; [done|apply timeDiff_range]. Qed.

Lemma typed_delete_keys keys rec : typed rec -> typed (delete_keys keys rec).
Proof.
  intros Hr k v. rewrite lookup_delete_keys. case_bool_decide; [done|]. apply Hr.
Qed.

(** A record that is returned: well typed, and no time is left in it. *)
Definition printable_record (rec : jsondict) : Prop :=
  typed rec /\ forall k t, rec !! k <> Some (VTime t).

Lemma calculateDelta_typed flags rec rec' :
  typed rec -> calculateDelta flags rec = Ret rec' -> printable_record rec'.
Proof.
  intros Hr H. assert (typed rec') as Ht.
  { unfold calculateDelta in H. apply outcome_bind_ret in H as (t1 & _ & H).
    apply outcome_bind_ret in H as (t5 & _ & H). apply outcome_bind_ret in H as (r & Hr' & [= <-]).
    apply typed_delete_keys, typed_duration; [by left|]. revert Hr'.
    destruct (has_flag flags ParsePVCPod); [|by intros [= <-]].
    destruct (rec !! "attachTime"); [|by intros [= <-]]. intros H.
    apply outcome_bind_ret in H as (? & _ & H). apply outcome_bind_ret in H as (? & _ & H).
    apply outcome_bind_ret in H as (? & _ & [= <-]). unfold set_deltas.
    repeat (apply typed_duration; [unfold duration_fields; rewrite !elem_of_cons; tauto|]). done. }
  split; [done|]. intros k t Hk. apply calculateDelta_spec in H as (_ & _ & _ & _ & _ & Hgone & _).
  rewrite Hgone in Hk; [done|]. specialize (Ht k _ Hk). cbn in Ht. unfold time_fields in Ht.
  unfold cleanup_keys. rewrite !elem_of_cons in *. tauto.
Qed.

Lemma formatResourceName_typed rec rec' :
  printable_record rec -> formatResourceName rec = Ret rec' -> printable_record rec'.
Proof.
  intros [Ht Hn] (r & _ & ->)%formatResourceName_spec. split; [eauto with go|]. intros k t.
  rewrite lookup_insert_Some. intros [[_ [=]]|[_ H]]. by apply (Hn k t).
Qed.

Lemma ParseLogs_printable logs flags rs :
  ParseLogs logs flags = Ret (rs, false) -> Forall printable_record rs.
Proof.
  unfold ParseLogs. destruct (flags =? 0)%Z; [by intros [= <-]|]. intros H.
  apply outcome_bind_ret in H as ([st err] & Hst & H). destruct err; [discriminate H|].
  apply outcome_bind_ret in H as (rs1 & H1 & H). apply outcome_bind_ret in H as (rs2 & H2 & [= <-]).
  apply (parse_lines_reachable flags) in Hst; [|apply reach_init].
  apply reachable_typed in Hst as (_ & _ & Hr).
  assert (Forall typed (if has_flag flags ParsePVCPod then boundTimes (results st) else results st)) as Hb
    by (destruct (has_flag _ _); [by apply boundTimes_typed|done]).
  apply mapO_Forall2 in H1. apply mapO_Forall2 in H2.
  apply (Forall2_Forall_r _ printable_record _ _ _ H2); [|intros ? ? ? ?; by eapply formatResourceName_typed].
  apply (Forall2_Forall_r _ _ _ _ _ H1 Hb). intros ? ? ? ?. by eapply calculateDelta_typed.
Qed.

(** C20: every record that [ParseLogs] returns without an error has the same
    types: each field holds a value of the one type that belongs to its name,
    durations are 64-bit integers, and no time is left. *)
Theorem ParseLogs_typed logs flags rs :
  ParseLogs logs flags = Ret (rs, false) -> Forall printable_record rs.
Proof. apply ParseLogs_printable. Qed.

(** ** The printed lines *)
Lemma value_json_Some k v :
  has_type k v -> (forall t, v <> VTime t) -> exists j, value_json v = Some j /\ printable j.
Proof.
  intros _ Hn. destruct v as [s|t|n|n|b|m]; cbn [value_json]; try (eexists; split; [reflexivity|]; by eexists).
  - by destruct (Hn t).
  - eexists. split; [done|]. by apply printable_map.
Qed.

Lemma printable_fields l :
  (forall k v, (k, v) ∈ l -> exists j, value_json v = Some j /\ printable j) ->
  exists fields, mapM field_json l = Some fields /\ fields.*1 = l.*1 /\
    Forall (fun kv => printable kv.2) fields /\
    forall k j, (k, j) ∈ fields <-> exists v, (k, v) ∈ l /\ value_json v = Some j.
Proof.
  induction l as [|[k v] l IH]; intros Hl.
  - exists []. split_and!; [done|done|constructor|]. intros k j. set_solver.
  - destruct (Hl k v) as (j & Hj & Hp); [set_solver|].
    destruct IH as (fields & Hm & Hk & Hf & He); [intros; apply (Hl k0); set_solver|].
    assert (field_json (k, v) = Some (k, j)) as Ef by (unfold field_json; cbn; by rewrite Hj).
    exists ((k, j) :: fields). cbn [mapM]. rewrite Ef, Hm. split_and!; [done|cbn; by rewrite Hk|by constructor|].
    intros k' j'. rewrite !elem_of_cons, He. split.
    + intros [[= -> ->]|(w & Hw & E)]; [exists v; set_solver|exists w; set_solver].
    + intros (w & [[= -> ->]|Hw]%elem_of_cons & E); [left; congruence|right; eauto].
Qed.

Lemma record_line_parses rec :
  printable_record rec -> exists line ms, record_line rec = Some line /\ parse_json line = Some (JObj ms) /\
    forall k j, last_member k ms = Some j <-> exists v, rec !! k = Some v /\ value_json v = Some j.
Proof.
  intros [Ht Hn]. assert (forall k v, (k, v) ∈ merge_sort key_le (map_to_list rec) <-> rec !! k = Some v) as Hmem.
  { intros k v. by rewrite merge_sort_Permutation, elem_of_map_to_list. }
  destruct (printable_fields (merge_sort key_le (map_to_list rec))) as (fields & Hm & Hk & Hp & He).
  { intros k v Hv%Hmem. apply (value_json_Some k); [by apply Ht|]. intros t ->. by apply (Hn k t). }
  exists (Marshal (JObj fields)), fields. unfold record_line. rewrite Hm.
  split_and!; [done|apply parse_Marshal; cbn; by rewrite List.Forall_map|].
  intros k j. rewrite last_member_NoDup, He; [by setoid_rewrite Hmem|].
  rewrite Hk, merge_sort_Permutation. apply NoDup_fst_map_to_list.
Qed.

(** C29: the records that [ParseLogs] returns without an error can always be
    marshalled: one line per record, and each line decodes to an object with
    exactly the fields of its record, its strings, integers and labels as they
    were. *)
Theorem OutputJson_parses logs flags rs :
  ParseLogs logs flags = Ret (rs, false) ->
  Forall2 (fun rec out => exists line ms, out = Some line /\ parse_json line = Some (JObj ms) /\
    forall k j, last_member k ms = Some j <-> exists v, rec !! k = Some v /\ value_json v = Some j)
    rs (OutputJson rs).
Proof.
  intros H%ParseLogs_printable. unfold OutputJson. apply Forall2_fmap_r.
  apply Forall_Forall2_diag. eapply list.Forall_impl; [exact H|]. intros rec Hrec.
  destruct (record_line_parses rec Hrec) as (line & ms & H1 & H2 & H3). by exists line, ms.
Qed.

(** A created pod's line, and what it decodes to. *)
Definition ex_pod_line : string := quoted "{'action':'create','duration':2999999,'name':'p','namespace':'default','resource':'Pod'}".

Definition ex_pod_record : jsondict :=
  <["duration" := VInt64 2999999]> (<["resource" := VStr "Pod"]>
    (delete "startTime" (initializeRecord "create" "p" "pods" "default" 0%Z))).

Lemma OutputJson_parses_witness :
  OutputJson [ex_pod_record] = [Some ex_pod_line] /\
  exists ms, parse_json ex_pod_line = Some (JObj ms) /\ last_member "duration" ms = Some (JNum "2999999").
Proof.
  assert (OutputJson [ex_pod_record] = [Some ex_pod_line]) as E by (vm_compute; reflexivity). split; [exact E|].
  pose proof (OutputJson_parses [ex_create; ex_running] ParseCreate [ex_pod_record]) as H.
  rewrite E in H. apply Forall2_cons_1 in H as [(line & ms & [= <-] & Hp & Hms) _]; [|vm_compute; reflexivity].
  exists ms. split; [exact Hp|]. apply Hms. exists (VInt64 2999999). split; vm_compute; reflexivity.
Defined.

Lemma ParseLogs_typed_witness : typed ex_pod_record.
Proof.
  pose proof (ParseLogs_typed [ex_create; ex_running] ParseCreate [ex_pod_record]) as H.
  apply Forall_cons_1 in H as [[H _] _]; [exact H|vm_compute; reflexivity].
Defined.
