(* ===== verification/TimingTable.v ===== *)
(** * The printed table is aligned

    From the records that [ParseLogs] returns over the rows of output.go and the
    tab writer to the text on the standard output. *)
From S2P Require Import Prelude GoStrings TabWriter GoTime GoJson GoJsonPrint AuditLog TimingRecords CreateTiming.
From S2P Require Import ScaleTiming PvcPod ParseLogs ParseLogsInv ParseLogsSpec ParseLogsThm TimingOutput TimingJson.

(** The names in a record have no tab and no newline. *)
Definition plain_record (rec : jsondict) : Prop := forall k s, rec !! k = Some (VStr s) -> plain s.

Lemma plain_app s1 s2 : plain s1 -> plain s2 -> plain (s1 +:+ s2).
Proof. intros H1 H2. unfold plain. rewrite chars_app. by apply Forall_app. Qed.

Lemma plain_text s : forallb (fun c => negb (bool_decide (c = tab_char)) && negb (bool_decide (c = newline_char)))
  (String.list_ascii_of_string s) = true -> plain s.
Proof.
  intros H. rewrite forallb_forall in H. apply List.Forall_forall. intros c Hc. apply H, andb_prop in Hc as [H1 H2].
  apply negb_true_iff, bool_decide_eq_false in H1. apply negb_true_iff, bool_decide_eq_false in H2. done.
Qed.

Lemma digit_plain c : is_digit c -> c <> tab_char /\ c <> newline_char.
Proof. intros [v Hv]. by split; intros ->. Qed.

Lemma plain_itoa z : plain (itoa z).
Proof.
  eapply list.Forall_impl; [apply itoa_chars|]. intros c [Hc|Hc]; [by apply digit_plain|by subst].
Qed.

(** [%d] of a count or a duration, or of nothing. *)
Lemma fmt_d_plain x :
  match x with None | Some (VInt64 _) | Some (VUint8 _) => True | _ => False end ->
  exists s, fmt_d x = Some s /\ plain s.
Proof.
  destruct x as [[]|]; try done; intros _; (eexists; split; [reflexivity|]); [apply plain_itoa..|by apply plain_text].
Qed.

Lemma tab_app s : tab +:+ s = String tab_char s.
Proof. reflexivity. Qed.

(** A row is the text of six cells. *)
Definition row_cells (cells : line) (text : option string) : Prop :=
  text = Some (cells_text cells +:+ newline) /\ length cells = 6 /\ Forall plain cells.

Lemma header_cells :
  row_cells ["action"; "name"; "resource"; "duration(microsec)"; "startReplicas"; "endReplicas"] (Some table_header).
Proof.
  split; [reflexivity|]. split; [reflexivity|].
  repeat (apply list.Forall_cons; split; [by apply plain_text|]). constructor.
Qed.

Lemma count_typed rec k : printable_record rec -> k ∈ ["startReplicas"; "endReplicas"] ->
  match rec !! k with None | Some (VInt64 _) | Some (VUint8 _) => True | _ => False end.
Proof.
  intros [Ht Hn] Hk. destruct (rec !! k) as [v|] eqn:E; [|done]. specialize (Ht k v E). specialize (Hn k).
  destruct v; try done; cbn in Ht; exfalso; [|by destruct (Hn t)|subst k..];
    rewrite !elem_of_cons, elem_of_nil in *; naive_solver.
Qed.

Lemma printRow_cells rec :
  printable_record rec -> final_ok rec -> plain_record rec ->
  exists cells text, printRow rec = Ret text /\ row_cells cells text.
Proof.
  intros Ht ((a & n & r & ns & Ha & Hn & Hr & _) & (d & Hd & _) & _) Hp.
  assert (plain a /\ plain n /\ plain r) as (Pa & Pn & Pr) by (split_and!; eapply Hp; eauto).
  destruct (fmt_d_plain (rec !! "startReplicas")) as (s & Hs & Ps); [apply count_typed; [done|set_solver]|].
  destruct (fmt_d_plain (rec !! "endReplicas")) as (e & He & Pe); [apply count_typed; [done|set_solver]|].
  pose proof (plain_itoa d) as Pd. assert (plain EmptyString) as P0 by constructor.
  assert (printCreateRow rec = Some (cells_text [a; n; r; itoa d; EmptyString; EmptyString] +:+ newline)) as Hc.
  { unfold printCreateRow. rewrite Ha, Hn, Hr, Hd. cbn [fmt_s fmt_d mbind option_bind cells_text].
    rewrite <- !tab_app, !append_assoc. reflexivity. }
  unfold printRow. rewrite Ha. cbn [as_string mbind outcome_bind]. case_decide; [|case_decide].
  - exists [a; n; r; itoa d; EmptyString; EmptyString]. eexists. split; [reflexivity|]. rewrite Hc.
    split_and!; [done|done|]. by repeat constructor.
  - exists [a; n; r; itoa d; s; e]. eexists. split; [reflexivity|]. split_and!; [|done|by repeat constructor].
    unfold printScaleRow. rewrite Ha, Hn, Hr, Hd, Hs, He. cbn [fmt_s fmt_d mbind option_bind cells_text].
    rewrite <- !tab_app, !append_assoc. reflexivity.
  - exists [a; n; r; itoa d; EmptyString; EmptyString]. eexists. split; [reflexivity|]. rewrite Hc.
    split_and!; [done|done|]. by repeat constructor.
Qed.

Lemma rows_cells rs :
  Forall printable_record rs -> Forall final_ok rs -> Forall plain_record rs ->
  exists table texts, mapO printRow rs = Ret texts /\ Forall2 row_cells table texts.
Proof.
  intros Ht Hf Hp. induction rs as [|rec rs IH]; [by exists [], []; split; [|constructor]|].
  apply list.Forall_cons in Ht as [Ht Hts]. apply list.Forall_cons in Hf as [Hf Hfs].
  apply list.Forall_cons in Hp as [Hp Hps].
  destruct (printRow_cells rec Ht Hf Hp) as (cells & text & E & Hc).
  destruct (IH Hts Hfs Hps) as (table & texts & E2 & Hts2).
  exists (cells :: table), (text :: texts). cbn [mapO]. rewrite E, E2. split; [done|by constructor].
Qed.

Lemma rows_all (Q : line -> Prop) table texts :
  Forall2 row_cells table texts -> (forall cells text, row_cells cells text -> Q cells) -> Forall Q table.
Proof. induction 1; constructor; eauto. Qed.

Lemma rows_text table texts :
  Forall2 row_cells table texts ->
  exists ts, mapM id texts = Some ts /\ foldr String.append EmptyString ts = table_text table.
Proof.
  induction 1 as [|cells text table texts (-> & _) _ (ts & E & Et)]; [by exists []|].
  exists ((cells_text cells +:+ newline) :: ts). cbn [mapM id]. rewrite E. split; [done|].
  cbn [foldr table_text]. rewrite Et. change (String.append ?a ?b) with (a +:+ b). by rewrite append_assoc.
Qed.

(** C36: the table of the results is aligned.  When the names in the records have
    no tab or newline, the text that is printed consists of one line for the
    header and one per record, each made of the cells of its row, and on a
    terminal with the usual tab stops the [j]-th cells of all lines begin in
    the same column. *)
Theorem PrintTableResults_aligned logs flags rs :
  ParseLogs logs flags = Ret (rs, false) -> Forall plain_record rs ->
  exists table lines starts, PrintTableResults rs = Ret (Some (join (lines ++ [EmptyString]))) /\
    Forall2 (fun cells rec => printRow rec = Ret (Some (cells_text cells +:+ newline))) (tail table) rs /\
    Forall2 (fun cells l => forall j c, cells !! j = Some c ->
      exists before after, l = before +:+ c +:+ after /\ cursor 0 before = nth j starts 0) table lines.
Proof.
  intros Hrs Hp. pose proof (ParseLogs_printable logs flags rs Hrs) as Ht.
  pose proof (ParseLogs_final_ok logs flags rs Hrs) as Hf.
  destruct (rows_cells rs Ht Hf Hp) as (table & texts & E & Hc).
  set (full := ["action"; "name"; "resource"; "duration(microsec)"; "startReplicas"; "endReplicas"] :: table).
  assert (Forall2 row_cells full (Some table_header :: texts)) as Hfull by (constructor; [apply header_cells|done]).
  assert (Forall (fun l => length l = 6) full) as Hlen by (by eapply rows_all; [exact Hfull|intros ? ? (_ & ? & _)]).
  assert (Forall (Forall plain) full) as Hpl by (by eapply rows_all; [exact Hfull|intros ? ? (_ & _ & ?)]).
  destruct (rows_text full _ Hfull) as (ts & Ets & Htext).
  exists full, (write_line (table_widths full 5) <$> full), (column_start (table_widths full 5) <$> seq 0 6).
  split_and!.
  - unfold PrintTableResults, table_rows. rewrite E. cbn [mbind outcome_bind]. rewrite Ets.
    cbn [mbind option_bind]. rewrite Htext. by rewrite (tabwriter_table 5 full) by (done || lia).
  - cbn [tail full]. apply mapO_Forall2 in E. apply Forall2_flip. clear -E Hc.
    revert table Hc. induction E as [|rec text rs texts Er _ IH]; intros table Hc.
    + apply Forall2_nil_inv_r in Hc as ->. constructor.
    + apply Forall2_cons_inv_r in Hc as (cells & table' & (-> & _) & Hc & ->). constructor; [done|by apply IH].
  - apply Forall2_fmap_r. apply list.Forall_Forall2_diag. apply list.Forall_forall. intros l Hl j c Hc2.
    destruct (table_aligned 5 full l j c Hlen Hpl Hl Hc2) as (before & after & Hw & Hcur).
    exists before, after. split; [done|]. rewrite Hcur.
    assert (j < 6) as Hj by (rewrite <- (proj1 (list.Forall_forall _ _) Hlen l Hl); by eapply lookup_lt_Some).
    do 6 (destruct j as [|j]; [reflexivity|]). lia.
Qed.

(** Two pods with names of different lengths. *)
Definition ex_rows : list jsondict :=
  [<["duration" := VInt64 2999999]> (<["resource" := VStr "Pod"]>
     (delete "startTime" (initializeRecord "create" "p" "pods" "default" 0%Z)))].

Lemma PrintTableResults_aligned_witness :
  exists lines, PrintTableResults ex_rows = Ret (Some (join (lines ++ [EmptyString]))) /\ length lines = 2.
Proof.
  destruct (PrintTableResults_aligned [ex_create; ex_running] ParseCreate ex_rows) as (table & lines & starts & H1 & H2 & H3).
  - vm_compute. reflexivity.
  - apply list.Forall_cons. split; [|constructor]. intros k s Hk. apply plain_text. revert Hk.
    unfold ex_rows, initializeRecord. rewrite !lookup_insert_Some, lookup_delete_Some, !lookup_insert_Some, lookup_empty.
    naive_solver.
  - exists lines. split; [exact H1|]. apply Forall2_length in H2, H3. rewrite <- H3.
    destruct table as [|cells table]; [discriminate H2|]. cbn in H2 |- *. by rewrite H2.
Defined.
