(* ===== verification/Es.v ===== *)
(** * Reading the audit log from Elasticsearch (pkg/utils/es.go)

    [QueryES] asks for pages of a hundred documents, each after the time stamp
    of the last document of the page before, until a page is empty.  The client
    library and the server are parameters. *)
From S2P Require Import Prelude GoStrings GoTime GoJson GoJsonPrint Utils JsonMaps.

(** What [es.Search] returns: an error of its own, or a response with its
    status ([IsError]) and body. *)
Inductive search_result :=
  | SearchErr (e : string)
  | SearchOk (isError : bool) (body : string).

(** The client library: whether a client can be made for an address, and the
    answer to a search, given the bodies of the searches made before.  An
    encoder's and a decoder's error are [err_decode]. *)
Class EsEnv := {
  new_client : string -> bool;
  search : list string -> forall (url index body : string), search_result;
  err_decode : string -> string }.

Abbreviation query_map := (gmap string json).

(** [json.NewEncoder(&buf).Encode(query)]. *)
Definition encode_query (query : query_map) : string := Encode (json_map id query).

(** [json.NewDecoder(res.Body).Decode(&r)]: the first value of the body, whose
    rest is not read; [null] leaves the map [nil]. *)
Definition decode_map (body : string) : option (list (string * json)) :=
  let cs := String.list_ascii_of_string body in
  match p_value (2 * length cs + 2) cs with
  | Some (JObj ms, _) => Some ms
  | Some (JNull, _) => Some []
  | _ => None
  end.

(** Type assertions. *)
Definition as_object (x : option json) : outcome (list (string * json)) :=
  match x with Some (JObj ms) => Ret ms | _ => Panic "interface conversion" end.
Definition as_array (x : option json) : outcome (list json) :=
  match x with Some (JArr l) => Ret l | _ => Panic "interface conversion" end.
Definition as_str (x : option json) : outcome string :=
  match x with Some (JStr s) => Ret s | _ => Panic "interface conversion" end.

(** [r["hits"].(map[string]interface{})["hits"].([]interface{})]. *)
Definition hits_of (r : list (string * json)) : outcome (list json) :=
  h ← as_object (last_member "hits" r); as_array (last_member "hits" h).

Definition source_of (hit : json) : outcome (option json) :=
  h ← as_object (Some hit); Ret (last_member "_source" h).

(** The variables of the loop; [sent] are the bodies of the searches so far. *)
Record es_state := EsState {
  es_query : query_map; lastTS : string; es_results : list (option json); sent : list string }.

(** An iteration goes on or returns the results and the error. *)
Inductive es_next :=
  | More (st : es_state)
  | Done (results : list (option json)) (err : option string).

Section client.
Context {C : EsEnv}.

Definition es_iteration (url index timeField : string) (st : es_state) : outcome es_next :=
  let query :=
    if decide (lastTS st = "") then es_query st
    else <["search_after" := JArr [JStr (lastTS st)]]> (es_query st) in
  let buf := encode_query query in
  match search (sent st) url index buf with
  | SearchErr e => Ret (Done (es_results st) (Some e))
  | SearchOk true _ => Ret (Done (es_results st) None)
  | SearchOk false body =>
      match decode_map body with
      | None => Ret (Done (es_results st) (Some (err_decode body)))
      | Some r =>
          resSlice ← hits_of r;
          match list.last resSlice with
          | None => Ret (Done (es_results st) None)
          | Some lastHit =>
              sources ← mapO source_of resSlice;
              ts ← ParseInterface (Some lastHit) ["_source"; timeField];
              lastTS ← as_str ts;
              Ret (More (EsState query lastTS (es_results st ++ sources) (sent st ++ [buf])))
          end
      end
  end.

(** The loop, for at most [fuel] iterations; [None] when they do not suffice. *)
Fixpoint es_loop (fuel : nat) (url index timeField : string) (st : es_state) :
    option (outcome (list (option json) * option string)) :=
  match fuel with
  | O => None
  | S k =>
      match es_iteration url index timeField st with
      | Ret (More st') => es_loop k url index timeField st'
      | Ret (Done results err) => Some (Ret (results, err))
      | Panic why => Some (Panic why)
      | Blocked => Some Blocked
      end
  end.

(** The error of [NewClient] is ignored; the [nil] client is dereferenced. *)
Definition QueryES (fuel : nat) (url : string) (query : query_map) (index timeField : string) :
    option (outcome (list (option json) * option string)) :=
  let timeField := if decide (timeField = "") then "@timestamp" else timeField in
  let query := <["size" := json_int 100]> query in
  if new_client url then es_loop fuel url index timeField (EsState query "" [] [])
  else Some (Panic "nil pointer dereference").

(** ** GetAuditLogs *)
Definition audit_sort : json := JArr [JObj [("@timestamp", JStr "asc")]].

Definition audit_range (start stop : Z) : json :=
  JObj [("range", JObj [("@timestamp",
    JObj [("format", JStr "epoch_second"); ("gte", JStr (itoa start)); ("lte", JStr (itoa stop))])])].

Definition audit_query (start stop : Z) : query_map :=
  {["sort" := audit_sort; "query" := audit_range start stop]}.

Definition message_of (r : option json) : outcome string :=
  m ← as_object r; as_str (last_member "message" m).

Definition GetAuditLogs (fuel : nat) (start stop : Z) (url : string) :
    option (outcome (list string * option string)) :=
  res ← QueryES fuel url (audit_query start stop) "filebeat*" "";
  Some ('(res, err) ← res;
        match err with
        | Some e => Ret ([], Some e)
        | None => logStrings ← mapO message_of res; Ret (logStrings, None)
        end).
End client.
