(* ===== verification/EsThm.v ===== *)
(** * What the Elasticsearch client returns

    The server keeps its part when it answers a search with the first hundred
    of the documents that match the query, behind the time stamp of
    [search_after] if there is one.  A server that does so is given, so the
    hypotheses can hold. *)
From stdpp Require Import sorting.
From S2P Require Import Prelude GoStrings GoTime GoJson GoJsonPrint Utils JsonMaps Es.

Lemma filter_all {A} (P : A -> Prop) `{!forall x, Decision (P x)} (l : list A) : (forall x, x ∈ l -> P x) -> filter P l = l.
Proof.
  induction l as [|x l IH]; intros Hl; [done|]. rewrite filter_cons_True by (apply Hl; left).
  f_equal. apply IH. intros y Hy. apply Hl. by right.
Qed.

Lemma filter_none {A} (P : A -> Prop) `{!forall x, Decision (P x)} (l : list A) : (forall x, x ∈ l -> ~ P x) -> filter P l = [].
Proof.
  induction l as [|x l IH]; intros Hl; [done|]. rewrite filter_cons_False by (apply Hl; left).
  apply IH. intros y Hy. apply Hl. by right.
Qed.

(** A document: its source object. *)
Abbreviation doc := (list (string * json)).

Definition stamp (timeField : string) (d : doc) : string :=
  match last_member timeField d with Some (JStr s) => s | _ => "" end.

(** The documents have a time stamp. *)
Definition stamped (timeField : string) (d : doc) : Prop :=
  exists s, last_member timeField d = Some (JStr s) /\ s <> "".

(** A hit of the answer that holds a document. *)
Definition hit_for (d : doc) (hit : json) : Prop := source_of hit = Ret (Some (JObj d)).

(** The [search_after] of a query. *)
Definition after_of (q : query_map) : option string :=
  match q !! "search_after" with Some (JArr [JStr t]) => Some t | _ => None end.

Section server.
Context (rank : string -> Z) (timeField : string).

Definition after (t : string) (d : doc) : Prop := (rank t < rank (stamp timeField d))%Z.
#[export] Instance after_dec t d : Decision (after t d).
Proof. unfold after. apply _. Defined.

Definition from (a : option string) (docs : list doc) : list doc :=
  match a with None => docs | Some t => filter (after t) docs end.

Definition page (a : option string) (docs : list doc) : list doc := take 100 (from a docs).

(** The answers a query needs from the server; [matches] are the documents for
    a query and a sort order, in that order. *)
Definition conforming {C : EsEnv} (url index : string) (matches : option json -> option json -> list doc) : Prop :=
  forall tr q, q !! "size" = Some (json_int 100) -> map_Forall (fun _ => printable) q ->
    exists body r hits, search tr url index (encode_query q) = SearchOk false body /\
      decode_map body = Some r /\ hits_of r = Ret hits /\
      Forall2 hit_for (page (after_of q) (matches (q !! "query") (q !! "sort"))) hits.

(** ** What the loop collects: page after page *)
Fixpoint pages (fuel : nat) (docs : list doc) : list doc :=
  match fuel with
  | O => []
  | S k =>
      match list.last (take 100 docs) with
      | None => []
      | Some d => take 100 docs ++ pages k (filter (after (stamp timeField d)) docs)
      end
  end.

Lemma last_take_elem (docs : list doc) d : list.last (take 100 docs) = Some d -> d ∈ docs.
Proof.
  intros H. apply last_Some in H as (l & E). rewrite <- (take_drop 100 docs), E, !elem_of_app.
  left. right. by left.
Qed.

(** The next page starts behind the last one. *)
Lemma from_next a docs d :
  d ∈ from a docs -> filter (after (stamp timeField d)) (from a docs) = from (Some (stamp timeField d)) docs.
Proof.
  destruct a as [t|]; [|done]. cbn. intros [Ht _]%list_elem_of_filter.
  rewrite list_filter_filter. apply list_filter_iff. intros x. unfold after in *. lia.
Qed.

Lemma filter_after_shorter docs d :
  d ∈ docs -> length (filter (after (stamp timeField d)) docs) < length docs.
Proof.
  intros H. apply (length_filter_lt _ _ d H). unfold after. lia.
Qed.

(** More fuel than documents collects the same. *)
Lemma pages_fuel n m docs : length docs < n -> length docs < m -> pages n docs = pages m docs.
Proof.
  revert m docs. induction n as [|n IH]; intros m docs Hn Hm; [lia|]. destruct m as [|m]; [lia|]. cbn [pages].
  destruct (list.last _) as [d|] eqn:E; [|done]. f_equal.
  apply last_take_elem, filter_after_shorter in E. apply IH; lia.
Qed.

(** All documents, when they have distinct time stamps in order. *)
Definition increasing (docs : list doc) : Prop :=
  StronglySorted (fun d d' => after (stamp timeField d) d') docs.

Lemma filter_behind l1 d l2 :
  increasing (l1 ++ d :: l2) -> filter (after (stamp timeField d)) (l1 ++ d :: l2) = l2.
Proof.
  intros [H1 [_ H2]]%StronglySorted_app. apply StronglySorted_inv in H2 as [_ H2].
  rewrite list.filter_app, filter_cons_False by (unfold after; lia).
  rewrite filter_none, filter_all; [done|by apply list.Forall_forall|].
  intros x Hx. specialize (H1 x d Hx ltac:(set_solver)). unfold after in *. lia.
Qed.

Lemma pages_increasing fuel docs : increasing docs -> length docs < fuel -> pages fuel docs = docs.
Proof.
  revert docs. induction fuel as [|fuel IH]; intros docs Hs Hf; [lia|]. cbn [pages].
  destruct (list.last (take 100 docs)) as [d|] eqn:E.
  - apply last_Some in E as (l & E).
    assert (docs = l ++ d :: drop 100 docs) as Ed by (rewrite <- (take_drop 100 docs) at 1; by rewrite E, <- app_assoc).
    rewrite Ed at 2. rewrite Ed in Hs. rewrite filter_behind by done.
    apply StronglySorted_app_1_r in Hs. apply StronglySorted_inv in Hs as [Hs _].
    rewrite IH; [apply take_drop|done|]. rewrite length_drop.
    assert (length docs = length l + S (length (drop 100 docs))) as Hl by (rewrite Ed at 1; by rewrite length_app).
    rewrite length_drop in Hl. lia.
  - apply last_None in E. destruct docs; done.
Qed.

Section loop.
Context {C : EsEnv} (url index : string) (matches : option json -> option json -> list doc).
Hypothesis server : conforming url index matches.

(** The parts of a query the loop keeps. *)
Definition asks (q : query_map) (docs : list doc) : Prop :=
  q !! "size" = Some (json_int 100) /\ map_Forall (fun _ => printable) q /\
  matches (q !! "query") (q !! "sort") = docs.

Lemma asks_after q docs t : asks q docs -> asks (<["search_after" := JArr [JStr t]]> q) docs.
Proof.
  intros (H1 & H2 & H3). unfold asks. rewrite !lookup_insert_ne by done. split_and!; [done| |done].
  apply map_Forall_insert_2; [|done]. cbn. by repeat constructor.
Qed.

Lemma mapO_sources docs hits :
  Forall2 hit_for docs hits -> mapO source_of hits = Ret ((fun d => Some (JObj d)) <$> docs).
Proof. induction 1 as [|d h docs hits H _ IH]; [done|]. cbn [mapO fmap list_fmap]. rewrite H. cbn. by rewrite IH. Qed.

(** The query that an iteration sends. *)
Definition next_query (st : es_state) : query_map :=
  if decide (lastTS st = "") then es_query st
  else <["search_after" := JArr [JStr (lastTS st)]]> (es_query st).

Lemma source_last d h :
  hit_for d h -> stamped timeField d ->
  ParseInterface (Some h) ["_source"; timeField] = Ret (Some (JStr (stamp timeField d))).
Proof.
  intros Hh (s & Hs & _). unfold stamp. rewrite Hs. unfold hit_for, source_of in Hh.
  destruct h as [| | | | |ms]; try discriminate Hh. cbn in Hh. injection Hh as Hh. cbn. rewrite Hh. cbn. by rewrite Hs.
Qed.

Lemma es_iteration_spec docs st :
  asks (es_query st) docs -> Forall (stamped timeField) docs ->
  es_iteration url index timeField st =
    Ret match list.last (page (after_of (next_query st)) docs) with
        | None => Done (es_results st) None
        | Some d => More (EsState (next_query st) (stamp timeField d)
            (es_results st ++ ((fun d => Some (JObj d)) <$> page (after_of (next_query st)) docs))
            (sent st ++ [encode_query (next_query st)]))
        end.
Proof.
  intros Hq Hst. assert (asks (next_query st) docs) as (H1 & H2 & <-)
    by (unfold next_query; case_decide; [done|by apply asks_after]).
  destruct (server (sent st) (next_query st) H1 H2) as (body & r & hits & Hs & Hr & Hh & Hf).
  unfold es_iteration. fold (next_query st). cbv zeta. rewrite Hs, Hr, Hh. cbn [mbind outcome_bind].
  set (p := page _ _) in *. destruct (list.last p) as [d|] eqn:E.
  - apply last_Some in E as (l & E). assert (d ∈ p) as Hd by (rewrite E; set_solver). rewrite E in Hf.
    apply Forall2_app_inv_l in Hf as (hs & [|h []] & Hl & Hdh & ->);
      [by inversion Hdh| |inversion Hdh as [|? ? ? ? _ H]; by inversion H].
    apply Forall2_cons_1 in Hdh as [Hdh _]. rewrite last_snoc.
    rewrite (mapO_sources p) by (rewrite E; apply Forall2_app; [done|by constructor]).
    cbn [mbind outcome_bind]. rewrite (source_last d h Hdh); [reflexivity|].
    eapply list.Forall_forall; [exact Hst|]. unfold p, page, from in Hd. apply elem_of_take in Hd as (i & Hd & _).
    apply list_elem_of_lookup_2 in Hd. destruct (after_of _); [|done]. by apply list_elem_of_filter in Hd as [_ Hd].
  - apply last_None in E. rewrite E in Hf. apply Forall2_nil_inv_l in Hf as ->. done.
Qed.

Lemma after_of_next q t : after_of (<["search_after" := JArr [JStr t]]> q) = Some t.
Proof. unfold after_of. by rewrite lookup_insert_eq. Qed.

(** Behind the last document collected, or at the start. *)
Definition es_next_after (st : es_state) : option string :=
  if decide (lastTS st = "") then None else Some (lastTS st).

Lemma es_loop_spec fuel docs st :
  asks (es_query st) docs -> Forall (stamped timeField) docs ->
  (lastTS st = "" -> after_of (es_query st) = None) ->
  length (from (es_next_after st) docs) < fuel ->
  es_loop fuel url index timeField st =
    Some (Ret (es_results st ++ ((fun d => Some (JObj d)) <$> pages fuel (from (es_next_after st) docs)), None)).
Proof.
  intros Hq Hst. revert st Hq. induction fuel as [|fuel IH]; intros st Hq Ha Hfuel; [lia|].
  assert (after_of (next_query st) = es_next_after st) as En.
  { unfold next_query, es_next_after. case_decide; [auto|apply after_of_next]. }
  cbn [es_loop pages]. rewrite (es_iteration_spec docs st Hq Hst), En. unfold page.
  set (rest := from (es_next_after st) docs) in *.
  destruct (list.last (take 100 rest)) as [d|] eqn:E; [|by rewrite app_nil_r].
  pose proof (last_take_elem _ _ E) as Hd.
  assert (stamp timeField d <> "") as Hs.
  { assert (stamped timeField d) as (s & Hs & Hne).
    { eapply list.Forall_forall; [exact Hst|]. unfold rest, from in Hd. destruct (es_next_after st); [|done].
      by apply list_elem_of_filter in Hd as [_ Hd]. }
    unfold stamp. by rewrite Hs. }
  rewrite IH; cbn [es_query lastTS es_results].
  - unfold es_next_after at 1. cbn [lastTS]. rewrite decide_False by done.
    rewrite fmap_app, app_assoc. unfold rest at 3. rewrite from_next by done. done.
  - unfold next_query. case_decide; [done|by apply asks_after].
  - done.
  - unfold es_next_after. cbn [lastTS]. rewrite decide_False by done.
    rewrite <- (from_next (es_next_after st)) by done. pose proof (filter_after_shorter rest d Hd). unfold rest in *. lia.
Qed.
End loop.
End server.

(** ** Theorems *)
Section theorems.
Context (rank : string -> Z) {C : EsEnv} (url : string).
Context (matches : option json -> option json -> list doc).

(** What [QueryES] returns, whatever the time stamps. *)
Lemma QueryES_pages index fuel query docs :
  new_client url = true -> conforming rank "@timestamp" url index matches ->
  map_Forall (fun _ => printable) query -> query !! "search_after" = None ->
  matches (query !! "query") (query !! "sort") = docs -> Forall (stamped "@timestamp") docs ->
  length docs < fuel ->
  QueryES fuel url query index "" = Some (Ret ((fun d => Some (JObj d)) <$> pages rank "@timestamp" fuel docs, None)).
Proof.
  intros Hc Hs Hp Ha Hm Hd Hf. unfold QueryES. rewrite Hc. cbn [decide].
  rewrite (es_loop_spec rank "@timestamp" url index matches Hs fuel docs); [done|..|done| |done].
  - cbn [es_query]. unfold asks. rewrite lookup_insert_eq, !lookup_insert_ne by done. split_and!; [done| |done].
    apply map_Forall_insert_2; [by eexists|done].
  - intros _. unfold after_of. cbn [es_query]. rewrite lookup_insert_ne by done. by rewrite Ha.
Qed.


(** Documents that share a time stamp with the last one of a page are passed
    over. *)
Theorem QueryES_skips_ties index fuel query docs t :
  new_client url = true -> conforming rank "@timestamp" url index matches ->
  map_Forall (fun _ => printable) query -> query !! "search_after" = None ->
  matches (query !! "query") (query !! "sort") = docs -> Forall (stamped "@timestamp") docs ->
  Forall (fun d => stamp "@timestamp" d = t) docs -> length docs < fuel ->
  QueryES fuel url query index "" = Some (Ret ((fun d => Some (JObj d)) <$> take 100 docs, None)).
Proof.
  intros Hc Hs Hp Ha Hm Hd Ht Hf. rewrite (QueryES_pages index fuel query docs) by done.
  destruct fuel as [|fuel]; [lia|]. cbn [pages]. destruct (list.last _) as [d|] eqn:E.
  - assert (filter (after rank "@timestamp" (stamp "@timestamp" d)) docs = []) as ->.
    { apply last_take_elem in E. rewrite list.Forall_forall in Ht. apply filter_none. intros x Hx.
      unfold after. rewrite (Ht x Hx), (Ht d E). lia. }
    destruct fuel; cbn; by rewrite app_nil_r.
  - apply last_None in E. by rewrite E.
Qed.

(** An error response of the server, also one in the middle of the
    documents, is not reported: what was collected so far is returned without
    an error, and the audit log that is analysed is silently incomplete. *)
Theorem QueryES_hides_error_response index fuel timeField st :
  (exists body, search (sent st) url index (encode_query (next_query st)) = SearchOk true body) ->
  es_loop (S fuel) url index timeField st = Some (Ret (es_results st, None)).
Proof.
  intros [body H]. cbn [es_loop]. unfold es_iteration. fold (next_query st). cbv zeta. by rewrite H.
Qed.

(** The messages of all documents in the range, in order. *)
Theorem GetAuditLogs_complete fuel start stop docs msgs :
  new_client url = true -> conforming rank "@timestamp" url "filebeat*" matches ->
  matches (Some (audit_range start stop)) (Some audit_sort) = docs ->
  Forall2 (fun d m => last_member "message" d = Some (JStr m)) docs msgs ->
  Forall (stamped "@timestamp") docs -> increasing rank "@timestamp" docs -> length docs < fuel ->
  GetAuditLogs fuel start stop url = Some (Ret (msgs, None)).
Proof.
  intros Hc Hs Hm Hmsg Hd Hi Hf. unfold GetAuditLogs.
  rewrite (QueryES_pages "filebeat*" fuel _ docs); [|try done..].
  - cbn [mbind option_bind]. rewrite pages_increasing by done. clear -Hmsg. cbn [mbind outcome_bind].
    enough (mapO message_of ((fun d => Some (JObj d)) <$> docs) = Ret msgs) as -> by done.
    induction Hmsg as [|d m docs msgs Hd _ IH]; [done|]. cbn [fmap list_fmap mapO].
    assert (message_of (Some (JObj d)) = Ret m) as -> by (unfold message_of; cbn; by rewrite Hd).
    cbn [mbind outcome_bind]. by rewrite IH.
  - unfold audit_query. apply map_Forall_insert_2; [|apply map_Forall_singleton]; repeat constructor.
Qed.
End theorems.

(** ** A server *)
Lemma decode_Encode ms : printable (JObj ms) -> decode_map (Encode (JObj ms)) = Some ms.
Proof.
  intros Hj. unfold decode_map, Encode. rewrite !list_string.
  by rewrite (read_print (length (print (JObj ms)))); [|done|done|right; right; right|rewrite length_app; lia].
Qed.

Lemma encode_query_member q k ms :
  map_Forall (fun _ => printable) q -> decode_map (encode_query q) = Some ms -> last_member k ms = q !! k.
Proof.
  intros Hq. unfold encode_query, json_map. rewrite decode_Encode.
  - intros [= <-]. apply option_eq. intros v.
    destruct (json_map_lookup (id (A := json)) q k v) as (ms & [= <-] & H). exact H.
  - apply Forall_map, Forall_fmap, list.Forall_forall. intros [k' v] H. cbn.
    rewrite merge_sort_Permutation, elem_of_map_to_list in H. by apply Hq in H.
Qed.

Lemma encode_query_decodes q :
  map_Forall (fun _ => printable) q -> exists ms, decode_map (encode_query q) = Some ms.
Proof.
  intros Hq. eexists. unfold encode_query, json_map. apply decode_Encode.
  apply Forall_map, Forall_fmap, list.Forall_forall. intros [k' v] H. cbn.
  rewrite merge_sort_Permutation, elem_of_map_to_list in H. by apply Hq in H.
Qed.

Definition hit (d : doc) : json := JObj [("_source", JObj d)].
Definition hits_body (docs : list doc) : json := JObj [("hits", JObj [("hits", JArr (hit <$> docs))])].

(** Instants by the time stamps of the log. *)
Definition ex_rank (s : string) : Z := default 0%Z (parse_rfc3339nano s).

Definition ex_server (docs : list doc) : EsEnv := {|
  new_client _ := true;
  search tr url index body :=
    match decode_map body with
    | Some q =>
        let a := match last_member "search_after" q with Some (JArr [JStr t]) => Some t | _ => None end in
        SearchOk false (Encode (hits_body (page ex_rank "@timestamp" a docs)))
    | None => SearchOk true ""
    end;
  err_decode body := body |}.

Lemma hits_printable docs : Forall (fun d => printable (JObj d)) docs -> printable (hits_body docs).
Proof.
  intros H. cbn. repeat constructor; cbn. apply List.Forall_map, Forall_fmap. eapply list.Forall_impl; [exact H|].
  intros d Hd. cbn. repeat constructor. exact Hd.
Qed.

Lemma page_incl a docs d : d ∈ page ex_rank "@timestamp" a docs -> d ∈ docs.
Proof.
  unfold page, from. intros (i & H%list_elem_of_lookup_2 & _)%elem_of_take. destruct a; [|done].
  by apply list_elem_of_filter in H as [_ H].
Qed.

Lemma ex_server_conforming docs url index :
  Forall (fun d => printable (JObj d)) docs ->
  conforming (C := ex_server docs) ex_rank "@timestamp" url index (fun _ _ => docs).
Proof.
  intros Hd tr q _ Hq. destruct (encode_query_decodes q Hq) as [ms Hms].
  cbn [search ex_server]. rewrite Hms, (encode_query_member q "search_after" ms Hq Hms).
  change (match q !! "search_after" with Some (JArr [JStr t]) => Some t | _ => None end) with (after_of q).
  set (p := page _ _ _ _). eexists _, _, (hit <$> p). split; [reflexivity|]. split.
  { apply decode_Encode, (hits_printable p), list.Forall_forall. intros d Hp%page_incl.
    by eapply list.Forall_forall in Hd. }
  split; [done|]. apply Forall2_fmap_r. apply Forall_Forall2_diag. by apply Forall_true.
Qed.

Definition ex_doc (ts msg : string) : doc := [("@timestamp", JStr ts); ("message", JStr msg)].

Definition ex_docs : list doc :=
  [ex_doc "2020-07-10T20:12:33.1Z" "a"; ex_doc "2020-07-10T20:12:33.2Z" "b"; ex_doc "2020-07-10T20:12:34Z" "c"].

Lemma ex_docs_printable : Forall (fun d => printable (JObj d)) ex_docs.
Proof. repeat constructor. Qed.

Lemma ex_docs_stamped : Forall (stamped "@timestamp") ex_docs.
Proof. repeat (apply list.Forall_cons; split); [..|constructor]; (eexists; split; [reflexivity|done]). Qed.

Lemma ex_docs_increasing : increasing ex_rank "@timestamp" ex_docs.
Proof. repeat constructor; vm_compute; reflexivity. Qed.


Lemma GetAuditLogs_complete_witness :
  GetAuditLogs (C := ex_server ex_docs) 4 0 1 "http://es" = Some (Ret (["a"; "b"; "c"], None)).
Proof.
  apply (GetAuditLogs_complete (C := ex_server ex_docs) ex_rank "http://es" (fun _ _ => ex_docs) 4 0 1 ex_docs).
  - reflexivity.
  - apply ex_server_conforming, ex_docs_printable.
  - reflexivity.
  - repeat constructor.
  - apply ex_docs_stamped.
  - apply ex_docs_increasing.
  - vm_compute. lia.
Defined.

(** A hundred and one documents of one instant: the last one is lost. *)
Lemma QueryES_skips_ties_witness :
  QueryES (C := ex_server (replicate 101 (ex_doc "2020-07-10T20:12:33Z" "m"))) 102 "http://es" (audit_query 0 1)
    "filebeat*" "" = Some (Ret (replicate 100 (Some (JObj (ex_doc "2020-07-10T20:12:33Z" "m"))), None)).
Proof.
  set (docs := replicate 101 _).
  pose proof (QueryES_skips_ties (C := ex_server docs) ex_rank "http://es" (fun _ _ => docs) "filebeat*" 102
           (audit_query 0 1) docs "2020-07-10T20:12:33Z") as H. apply H.
  - reflexivity.
  - apply ex_server_conforming, Forall_replicate. repeat constructor.
  - apply map_Forall_insert_2; [|apply map_Forall_singleton]; repeat constructor.
  - reflexivity.
  - reflexivity.
  - apply Forall_replicate. eexists. split; [reflexivity|done].
  - by apply Forall_replicate.
  - vm_compute. lia.
Defined.

(** A server that fails after the first page. *)
Lemma QueryES_hides_error_response_witness :
  es_loop (C := {| new_client _ := true; search _ _ _ _ := SearchOk true "shard failure"; err_decode b := b |})
    1 "http://es" "filebeat*" "@timestamp" (EsState ∅ "t" [Some (JStr "first page")] ["q"])
  = Some (Ret ([Some (JStr "first page")], None)).
Proof. apply QueryES_hides_error_response. by eexists. Defined.
