(* ===== verification/GoDuration.v ===== *)
(** * time.ParseDuration

    A signed sequence of decimal numbers with units, e.g. [1h30m] or [1.5s].
    Go multiplies the fraction in floating point; here it is the exact quotient
    rounded down, which is the same for fractions of up to fifteen digits. *)
From S2P Require Import Prelude GoStrings GoTime GoJson.

Local Open Scope Z_scope.

Definition micro_sign : list ascii := [ascii_of_nat 194; ascii_of_nat 181].
Definition mu_letter : list ascii := [ascii_of_nat 206; ascii_of_nat 188].

Definition unit_nanos (u : list ascii) : option Z :=
  if decide (u = ["n"%char; "s"%char]) then Some 1
  else if decide (u = ["u"%char; "s"%char] \/ u = micro_sign ++ ["s"%char] \/ u = mu_letter ++ ["s"%char])
  then Some 1000
  else if decide (u = ["m"%char; "s"%char]) then Some 1000000
  else if decide (u = ["s"%char]) then Some 1000000000
  else if decide (u = ["m"%char]) then Some 60000000000
  else if decide (u = ["h"%char]) then Some 3600000000000
  else None.

(** Leading digits: their value, how many there are, and the rest. *)
Fixpoint digits (acc : Z) (n : nat) (s : list ascii) : Z * nat * list ascii :=
  match s with
  | c :: s' => match digit_val c with
               | Some d => digits (10 * acc + d) (S n) s'
               | None => (acc, n, s)
               end
  | [] => (acc, n, [])
  end.

(** The unit: everything up to the next digit or dot. *)
Fixpoint unit_chars (s : list ascii) : list ascii * list ascii :=
  match s with
  | [] => ([], [])
  | c :: s' =>
      if decide (c = "."%char \/ is_Some (digit_val c)) then ([], s)
      else let '(u, r) := unit_chars s' in (c :: u, r)
  end.

(** [1<<63], the limit of the magnitude. *)
Definition dur_limit : Z := 2 ^ 63.

(** One number with its unit, in nanoseconds. *)
Definition duration_part (s : list ascii) : option (Z * list ascii) :=
  let '(v, pre, s1) := digits 0 0 s in
  if decide (dur_limit < v) then None
  else
    let '(f, post, s2) :=
      match s1 with
      | "."%char :: s' => digits 0 0 s'
      | _ => (0, O, s1)
      end in
    if decide ((pre + post)%nat = O) then None
    else
      let '(u, s3) := unit_chars s2 in
      match unit_nanos u with
      | None => None
      | Some unit =>
          let total := v * unit + f * unit / 10 ^ Z.of_nat post in
          if decide (dur_limit < total) then None else Some (total, s3)
      end.

Fixpoint duration_parts (fuel : nat) (d : Z) (s : list ascii) : option Z :=
  match s with
  | [] => Some d
  | _ =>
      match fuel with
      | O => None
      | S fuel' =>
          match duration_part s with
          | None => None
          | Some (n, s') => if decide (dur_limit < d + n) then None else duration_parts fuel' (d + n) s'
          end
      end
  end.

(** A part consumes at least one character, so the length is enough fuel. *)
Definition ParseDuration (str : string) : option Z :=
  let s := String.list_ascii_of_string str in
  let '(neg, s) :=
    match s with
    | "-"%char :: s' => (true, s')
    | "+"%char :: s' => (false, s')
    | _ => (false, s)
    end in
  if decide (s = ["0"%char]) then Some 0
  else if decide (s = []) then None
  else
    match duration_parts (length s) 0 s with
    | None => None
    | Some d => if neg : bool then Some (- d) else if decide (d <= max_int64) then Some d else None
    end.

Example duration_1h30m : ParseDuration "1h30m" = Some (5400 * nanos).
Proof. vm_compute. reflexivity. Qed.
Example duration_frac : ParseDuration "-1.5s" = Some (- 1500000000).
Proof. vm_compute. reflexivity. Qed.
Example duration_bad : ParseDuration "10" = None.
Proof. vm_compute. reflexivity. Qed.

Lemma unit_chars_length s u r : unit_chars s = (u, r) -> length s = (length u + length r)%nat.
Proof.
  revert u r. induction s as [|c s IH]; simpl; intros u r; [by intros [= <- <-]|].
  case_decide; [by intros [= <- <-]|]. destruct (unit_chars s) as [u' r'].
  intros [= <- <-]. simpl. by rewrite (IH u' r').
Qed.

Lemma digits_length acc n s v m r : digits acc n s = (v, m, r) -> (length s + n = length r + m)%nat.
Proof.
  revert acc n. induction s as [|c s IH]; simpl; intros acc n; [by intros [= <- <- <-]|].
  destruct (digit_val c); [|by intros [= <- <- <-]]. intros H. apply IH in H. lia.
Qed.

(** A part of a duration consumes at least one character, so the fuel of
    [ParseDuration] is enough: more of it gives the same result. *)
Lemma duration_part_shorter s n r : duration_part s = Some (n, r) -> (length r < length s)%nat.
Proof.
  unfold duration_part. destruct (digits 0 0 s) as [[v pre] s1] eqn:E1. case_decide; [done|].
  destruct (match s1 with "."%char :: s' => digits 0 0 s' | _ => (0, O, s1) end) as [[f post] s2] eqn:E2.
  case_decide as Hd; [done|]. destruct (unit_chars s2) as [u s3] eqn:E3.
  destruct (unit_nanos u) as [un|] eqn:Eu; [|done]. case_decide; [done|]. intros [= _ <-].
  apply digits_length in E1. apply unit_chars_length in E3.
  assert (length s2 + post <= length s1)%nat.
  { destruct s1 as [|[[][][][][][][][]] s1']; simpl in *; try (injection E2 as <- <- <-; simpl; lia).
    apply digits_length in E2. lia. }
  assert (u <> []) by (intros ->; discriminate Eu). destruct u; [done|]. simpl in E3. lia.
Qed.

Lemma duration_parts_fuel fuel fuel' d s :
  (length s <= fuel)%nat -> (fuel <= fuel')%nat -> duration_parts fuel' d s = duration_parts fuel d s.
Proof.
  revert fuel' d s. induction fuel as [|fuel IH]; intros fuel' d s Hs Hf.
  - destruct s; [|simpl in Hs; lia]. by destruct fuel'.
  - destruct fuel' as [|fuel']; [lia|]. destruct s as [|c s]; [done|]. cbn [duration_parts].
    destruct (duration_part (c :: s)) as [[n r]|] eqn:E; [|done].
    apply duration_part_shorter in E. case_decide; [done|]. apply IH; simpl in *; lia.
Qed.
