(* ===== verification/OutputPkg.v ===== *)
(** * Sending metrics and metadata (pkg/output/output.go, post.go, output-collector)

    An output is posted to every configured end point of the given name.  The
    body is a [bytes.Reader], which the first request reads to its end. *)
From stdpp Require Import sorting.
From S2P Require Import Prelude GoStrings GoTime GoJson GoJsonPrint BenchmarkTypes KubeEnv Utils.

(** [json.NewEncoder(buf).Encode(m)] of a map of strings: sorted keys, and a
    newline at the end. *)
Definition encode_map (m : gmap string string) : string := Encode (json_map JStr m).

Section output.
Context {E : Env}.

(** [HttpPost] of post.go: the unread rest of the body is posted, and read to
    its end when the request could be made. *)
Definition HttpPost (reader url : string) : GoM (error * string) :=
  err ← ask (RPost url reader);
  mret (err, match err with None => EmptyString | Some _ => reader end).

Fixpoint doOutput (outputs : list Output) (reader outputName benchmarkName : string) : GoM unit :=
  match outputs with
  | [] => mret tt
  | out :: outputs' =>
      if decide (out_Name out = outputName /\ URL (HttpPostSpec out) <> EmptyString) then
        '(err, reader) ← HttpPost reader (URL (HttpPostSpec out) +:+ "/" +:+ benchmarkName);
        match err with
        | Some _ => mret tt
        | None => doOutput outputs' reader outputName benchmarkName
        end
      else doOutput outputs' reader outputName benchmarkName
  end.

(** The pairs of the variadic argument; a last string without a value is
    ignored. *)
Fixpoint metric_pairs (metrics : list string) (m : gmap string string) : gmap string string :=
  match metrics with
  | k :: v :: metrics' => metric_pairs metrics' (<[k := v]> m)
  | _ => m
  end.

Definition Metric (outputs : list Output) (outputName benchmarkName : string)
    (metrics : list string) : GoM unit :=
  doOutput outputs (encode_map (metric_pairs metrics ∅)) outputName benchmarkName.

(** [Output]; the encoding of the whole spec is the environment's. *)
Definition Output_ (outputName : string) (bm : Benchmark)
    (startTime completionTime initCompletionTime : Z) : GoM error :=
  match encodeOutput (bm_Name bm) (bm_Spec bm) startTime completionTime initCompletionTime with
  | None => mret (Some (ErrOther "encoding"))
  | Some body =>
      doOutput (Outputs (bm_Spec bm)) body outputName (bm_Name bm) ;;
      mret None
  end.

(** ** The collector (output-collector/main.go) *)
Record OutputRecord := {
  Timestamp : Z; RemoteAddr : string; Endpoint : string;
  Params : gmap string (list string); Data : string }.

(** The fields in the order of the struct. *)
Definition record_json (o : OutputRecord) : json :=
  JObj [("timestamp", json_int (Timestamp o)); ("remoteAddr", JStr (RemoteAddr o));
        ("endpoint", JStr (Endpoint o)); ("params", json_map (fun l => JArr (JStr <$> l)) (Params o));
        ("data", JStr (Data o))].

(** What [handler] prints for a request; a body that cannot be read leaves the
    data empty. *)
Definition handler (remoteAddr path : string) (query : gmap string (list string))
    (body : string + kerr) : GoM string :=
  now ← ask RNow;
  let output := {| Timestamp := unix now; RemoteAddr := remoteAddr; Endpoint := path; Params := query;
                   Data := match body with inl data => data | inr _ => EmptyString end |} in
  mret (Marshal (record_json output)).

(** ** Theorems *)

(** What [doOutput] posts: the end points of that name, in order. *)
Definition targets (outputs : list Output) (outputName benchmarkName : string) : list string :=
  (fun out => URL (HttpPostSpec out) +:+ "/" +:+ benchmarkName) <$>
    filter (fun out => out_Name out = outputName /\ URL (HttpPostSpec out) <> EmptyString) outputs.

Definition with_trace (tr : list request) (s : gst) : gst :=
  GSt (trace s ++ tr) (controlChannels s) (listeners s) (next_chan s) (workloadInstance s).

(** The posts made when all requests succeed: only the first has the body. *)
Definition posts (urls : list string) (body : string) : list request :=
  match urls with
  | [] => []
  | u :: urls' => RPost u body :: ((fun u => RPost u EmptyString) <$> urls')
  end.

Lemma posts_empty urls : posts urls EmptyString = (fun u => RPost u EmptyString) <$> urls.
Proof. by destruct urls. Qed.

Lemma with_trace_nil s : with_trace [] s = s.
Proof. destruct s. unfold with_trace. simpl. by rewrite app_nil_r. Qed.

Lemma with_trace_app t1 t2 s : with_trace t2 (with_trace t1 s) = with_trace (t1 ++ t2) s.
Proof. unfold with_trace. simpl. by rewrite app_assoc. Qed.

(** When every request succeeds, the body goes to the first end point of
    the given name, and all further end points of that name get an empty body:
    the reader has been read. *)
Theorem doOutput_posts outputs reader name bname s :
  (forall tr u b, answer tr (RPost u b) = None) ->
  doOutput outputs reader name bname s
  = Ret (tt, with_trace (posts (targets outputs name bname) reader) s).
Proof.
  intros Hok. revert reader s. induction outputs as [|out outputs IH]; intros reader s.
  - simpl. by rewrite with_trace_nil.
  - cbn [doOutput]. unfold targets. rewrite filter_cons. case_decide as Hd.
    + unfold HttpPost, ask, mbind, gom_bind, mret, gom_ret. rewrite Hok, IH.
      change (GSt _ _ _ _ _) with (with_trace [RPost (URL (HttpPostSpec out) +:+ "/" +:+ bname) reader] s).
      rewrite with_trace_app, posts_empty. reflexivity.
    + apply IH.
Qed.
End output.

(** ** Witness: a cluster that accepts every post and knows nothing else *)
Definition ex_outputs : list Output :=
  [{| out_Name := "o"; HttpPostSpec := {| URL := "http://a" |} |};
   {| out_Name := "o"; HttpPostSpec := {| URL := "http://b" |} |}].

Example encode_map_example : encode_map {["type" := "x"; "n" := "1<2"]}
  = quoted "{'n':'1\u003c2','type':'x'}" +:+ String (ascii_of_nat 10) EmptyString.
Proof. vm_compute. reflexivity. Qed.

Lemma doOutput_posts_witness :
  doOutput (E := simple_env sample_spec "") ex_outputs "body" "o" "bm" init_gst
  = Ret (tt, with_trace [RPost "http://a/bm" "body"; RPost "http://b/bm" ""] init_gst).
Proof.
  apply (doOutput_posts (E := simple_env sample_spec "") ex_outputs "body" "o" "bm" init_gst).
  reflexivity.
Defined.
