(* ===== verification/OutputThm.v ===== *)
(** * From a metric to the collector's line (OutputPkg.v)

    The body of a metric, posted to the collector, and the line the collector
    prints for it. *)
From S2P Require Import Prelude GoStrings GoTime GoJson GoJsonPrint BenchmarkTypes KubeEnv Utils JsonMaps OutputPkg.

Lemma printable_strings l : printable (JArr (JStr <$> l)).
Proof. cbn. rewrite Forall_map, Forall_fmap. by apply Forall_true. Qed.

Lemma printable_record o : printable (record_json o).
Proof.
  cbn -[json_map]. repeat constructor; cbn -[json_map]; [by eexists|].
  apply printable_map. intros l. apply printable_strings.
Qed.

Section collector.
Context {E : Env}.

End collector.
