(* ===== verification/PodUtils.v ===== *)
(** * Changing the pods inside workload objects (pkg/podutils/podutils.go)

    A [client.Object] is an optional object, [None] being the nil interface.
    The kind in the object's type metadata selects the branch, and the type
    assertion that follows panics when it disagrees with the dynamic type. *)
From S2P Require Import Prelude GoStrings GoTime GoJson BenchmarkTypes KubeEnv.

(** [meta.NewAccessor().Kind(obj)]: an error on the nil interface. *)
Definition accessor_kind (obj : option object) : string + kerr :=
  match obj with
  | Some o => inl (TypeKind (obj_meta o))
  | None => inr (ErrOther "object does not implement the Object interfaces")
  end.

Definition PodSpec_ (obj : option object) : outcome (PodSpec + kerr) :=
  match accessor_kind obj with
  | inr err => Ret (inr err)
  | inl kind =>
      if decide (kind = "Job") then
        match obj with Some (Job _ _ s _) => Ret (inl s) | _ => Panic "interface conversion" end
      else if decide (kind = "Pod") then
        match obj with Some (Pod _ s) => Ret (inl s) | _ => Panic "interface conversion" end
      else if decide (kind = "StatefulSet") then
        match obj with Some (StatefulSet _ _ s _) => Ret (inl s) | _ => Panic "interface conversion" end
      else Ret (inr (ErrOther "nil kind"))
  end.

(** Without an error but also without an object for any other kind. *)
Definition UpdatePodSpec (obj : option object) (spec : PodSpec) : outcome (option object * error) :=
  match accessor_kind obj with
  | inr err => Ret (None, Some err)
  | inl kind =>
      if decide (kind = "Job") then
        match obj with Some (Job m l _ r) => Ret (Some (Job m l spec r), None) | _ => Panic "interface conversion" end
      else if decide (kind = "Pod") then
        match obj with Some (Pod m _) => Ret (Some (Pod m spec), None) | _ => Panic "interface conversion" end
      else if decide (kind = "StatefulSet") then
        match obj with Some (StatefulSet m l _ r) => Ret (Some (StatefulSet m l spec r), None) | _ => Panic "interface conversion" end
      else Ret (None, None)
  end.

(** The labels of a job's template are written into the map [labels] that the
    caller passes; the third result is that map afterwards. *)
Definition AddLabelsGeneric (obj : option object) (labels : gmap string string)
    : outcome (option object * error * gmap string string) :=
  match accessor_kind obj with
  | inr err => Ret (None, Some err, labels)
  | inl kind =>
      if decide (kind = "Job") then
        match obj with
        | Some (Job m l s r) =>
            let labels := match l with Some tl => tl ∪ labels | None => labels end in
            Ret (Some (Job m (Some labels) s r), None, labels)
        | _ => Panic "interface conversion"
        end
      else if decide (kind = "StatefulSet") then
        match obj with
        | Some (StatefulSet m l s r) => Ret (Some (StatefulSet m (Some labels) s r), None, labels)
        | _ => Panic "interface conversion"
        end
      else Ret (obj, None, labels)
  end.

Definition add_env (name value : string) (c : Container) : Container :=
  {| c_Name := c_Name c; c_Image := c_Image c; c_Command := c_Command c;
     VolumeMounts := VolumeMounts c; c_Env := c_Env c ++ [EnvValue name value]; c_rest := c_rest c |}.

Definition add_env_all (name value : string) (s : PodSpec) : PodSpec :=
  {| RestartPolicy := RestartPolicy s; ps_ServiceAccountName := ps_ServiceAccountName s;
     InitContainers := add_env name value <$> InitContainers s;
     Containers := add_env name value <$> Containers s;
     ps_Volumes := ps_Volumes s; ps_rest := ps_rest s |}.

(** In place, on all containers of a job or pod. *)
Definition SetEnvVar (name value : string) (obj : option object) : outcome (option object * error) :=
  match accessor_kind obj with
  | inr err => Ret (None, Some err)
  | inl kind =>
      if decide (kind = "Job") then
        match obj with
        | Some (Job m l s r) => Ret (Some (Job m l (add_env_all name value s) r), None)
        | _ => Panic "interface conversion"
        end
      else if decide (kind = "Pod") then
        match obj with
        | Some (Pod m s) => Ret (Some (Pod m (add_env_all name value s)), None)
        | _ => Panic "interface conversion"
        end
      else Ret (obj, None)
  end.

Section cleanup.
Context {E : Env}.

(** Errors of single deletions are only printed. *)
Definition CleanupScalePods : GoM error :=
  let ls := addLabelToSelector {| matchLabels := ∅; matchExpressions := [] |} "app" "scale-pod" in
  match labelSelectorAsSelector ls with
  | inr err => mret (Some err)
  | inl selector =>
      pods ← ask (RListPods "default" selector);
      match pods with
      | inr err => mret (Some err)
      | inl pods =>
          forM_ (fun pod =>
            if decide (Phase pod = "Succeeded") then _ ← ask (RDeletePod pod); mret tt else mret tt) pods ;;
          mret None
      end
  end.
End cleanup.

(** ** Well-typed objects

    What the decoder of the API machinery guarantees: the kind names the type. *)
Definition typed (o : object) : Prop :=
  match o with
  | Pod m _ => TypeKind m = "Pod"
  | Job m _ _ _ => TypeKind m = "Job"
  | StatefulSet m _ _ _ => TypeKind m = "StatefulSet"
  | _ => TypeKind (obj_meta o) <> "Pod" /\ TypeKind (obj_meta o) <> "Job" /\
         TypeKind (obj_meta o) <> "StatefulSet"
  end.

Definition spec_of (o : object) : option PodSpec :=
  match o with
  | Pod _ s | Job _ _ s _ | StatefulSet _ _ s _ => Some s
  | _ => None
  end.

Definition set_spec (s : PodSpec) (o : object) : object :=
  match o with
  | Pod m _ => Pod m s
  | Job m l _ r => Job m l s r
  | StatefulSet m l _ r => StatefulSet m l s r
  | o => o
  end.

Lemma PodSpec_typed o s : typed o -> spec_of o = Some s -> PodSpec_ (Some o) = Ret (inl s).
Proof. destruct o; simpl; try discriminate; intros Ht [= <-]; unfold PodSpec_; simpl; by rewrite Ht. Qed.

Lemma PodSpec_other o : typed o -> spec_of o = None -> PodSpec_ (Some o) = Ret (inr (ErrOther "nil kind")).
Proof.
  destruct o; simpl; try discriminate; intros (H1 & H2 & H3) _; unfold PodSpec_; simpl;
    by rewrite !decide_False by done.
Qed.

Lemma UpdatePodSpec_typed o s0 s :
  typed o -> spec_of o = Some s0 -> UpdatePodSpec (Some o) s = Ret (Some (set_spec s o), None).
Proof.
  destruct o; simpl; try discriminate; intros Ht _; unfold UpdatePodSpec; simpl; by rewrite Ht.
Qed.

Lemma typed_set_spec s o : typed o -> typed (set_spec s o).
Proof. by destruct o. Qed.

Lemma spec_of_set_spec s s0 o : spec_of o = Some s0 -> spec_of (set_spec s o) = Some s.
Proof. by destruct o. Qed.

Lemma obj_meta_set_spec s o : obj_meta (set_spec s o) = obj_meta o.
Proof. by destruct o. Qed.

(** Writing a pod spec and reading it back gives that spec, and everything
    else of the object stays as it was. *)
Theorem UpdatePodSpec_roundtrip o s0 s :
  typed o -> PodSpec_ (Some o) = Ret (inl s0) ->
  exists o', UpdatePodSpec (Some o) s = Ret (Some o', None) /\ PodSpec_ (Some o') = Ret (inl s) /\
    obj_meta o' = obj_meta o /\ UpdatePodSpec (Some o') s0 = Ret (Some o, None).
Proof.
  intros Ht Hs. destruct (spec_of o) as [x|] eqn:E.
  2: { rewrite PodSpec_other in Hs by done. discriminate. }
  rewrite (PodSpec_typed o x) in Hs by done. injection Hs as ->.
  exists (set_spec s o). split; [by eapply UpdatePodSpec_typed|].
  split; [apply PodSpec_typed; [by apply typed_set_spec|by eapply spec_of_set_spec]|].
  split; [apply obj_meta_set_spec|].
  rewrite (UpdatePodSpec_typed _ s); [|by apply typed_set_spec|by eapply spec_of_set_spec].
  do 2 f_equal. f_equal. destruct o; simpl in *; congruence.
Qed.

Lemma UpdatePodSpec_roundtrip_witness :
  exists o', UpdatePodSpec (Some (Pod (plain_meta "Pod" "p") plain_spec)) (add_env_all "A" "1" plain_spec)
    = Ret (Some o', None) /\ PodSpec_ (Some o') = Ret (inl (add_env_all "A" "1" plain_spec)) /\
    obj_meta o' = plain_meta "Pod" "p" /\
    UpdatePodSpec (Some o') plain_spec = Ret (Some (Pod (plain_meta "Pod" "p") plain_spec), None).
Proof.
  apply (UpdatePodSpec_roundtrip (Pod (plain_meta "Pod" "p") plain_spec) plain_spec); reflexivity.
Defined.

(** The replacement labels of a stateful set lose the labels its template
    had, and those of a job keep them, the template's winning. *)
Theorem AddLabelsGeneric_spec o labels :
  typed o -> exists o' labels', AddLabelsGeneric (Some o) labels = Ret (Some o', None, labels') /\
    match o with
    | Job m l s r => o' = Job m (Some labels') s r /\
        (forall k v, default ∅ l !! k = Some v -> labels' !! k = Some v) /\
        (forall k, default ∅ l !! k = None -> labels' !! k = labels !! k)
    | StatefulSet m _ s r => o' = StatefulSet m (Some labels) s r /\ labels' = labels
    | _ => o' = o /\ labels' = labels
    end.
Proof.
  destruct o as [m s|m l s r|m l s r| | | |]; simpl; intros Ht; unfold AddLabelsGeneric; simpl.
  - rewrite Ht. simpl. eauto.
  - rewrite Ht. simpl. eexists _, _. split; [reflexivity|]. split; [reflexivity|].
    destruct l as [tl|]; simpl.
    + split; [intros k v Hk; by apply lookup_union_Some_l|intros k Hk; by apply lookup_union_r].
    + split; [intros k v Hk; by rewrite lookup_empty in Hk|done].
  - rewrite Ht. simpl. eauto.
  - destruct Ht as (H1 & H2 & H3). rewrite !decide_False by done. eauto.
  - destruct Ht as (H1 & H2 & H3). rewrite !decide_False by done. eauto.
  - destruct Ht as (H1 & H2 & H3). rewrite !decide_False by done. eauto.
  - destruct Ht as (H1 & H2 & H3). rewrite !decide_False by done. eauto.
Qed.

Definition ex_set : object :=
  StatefulSet (plain_meta "StatefulSet" "s") (Some {["app" := "db"]}) plain_spec JNull.

Lemma AddLabelsGeneric_spec_witness :
  exists o' labels', AddLabelsGeneric (Some ex_set) {["role" := "workload"]} = Ret (Some o', None, labels') /\
    (o' = StatefulSet (plain_meta "StatefulSet" "s") (Some {["role" := "workload"]}) plain_spec JNull /\
     labels' = {["role" := "workload"]}).
Proof. apply (AddLabelsGeneric_spec ex_set {["role" := "workload"]}). reflexivity. Defined.
