(* ===== verification/CreateObj.v ===== *)
(** * Creating objects (controllers/actions.go: createObj; benchmark_controller.go: metric) *)
From S2P Require Import Prelude GoStrings GoTime GoJson BenchmarkTypes KubeEnv OutputPkg PodUtils.

Definition LIBRARY_NAMESPACE : string := "cnsbench-library".

Definition liftO {A} (m : outcome A) : GoM A := fun s =>
  match m with Ret a => Ret (a, s) | Panic why => Panic why | Blocked => Blocked end.

Section create.
Context {E : Env}.

Definition metric (instance : Benchmark) (metricType : string) (metrics : list string) : GoM unit :=
  Metric (Outputs (bm_Spec instance)) (MetricsOutput (bm_Spec instance)) (bm_Name instance)
    (["type"; metricType] ++ metrics).

(** Setting the two references on the metadata. *)
Definition make_owner (bm : Benchmark) (m : ObjectMeta) : ObjectMeta + kerr :=
  match setControllerReference bm m with
  | inr err => inr err
  | inl m => setOwnerReference bm m
  end.

(** An object that exists already is no error.  Printing the object as YAML has
    no further effect and is left out. *)
Definition createObj (bm : Benchmark) (obj : option object) (makeOwner : bool) : GoM error :=
  match obj with
  | None => mret (Some (ErrOther "object does not implement the Object interfaces"))
  | Some o =>
      let name := Name (obj_meta o) in
      let kind := TypeKind (obj_meta o) in
      match (if makeOwner then make_owner bm (obj_meta o) else inl (obj_meta o)) with
      | inr err => mret (Some err)
      | inl m =>
          let o := set_meta m o in
          err ← ask (RCreate o);
          if decide (err = None \/ err = Some ErrAlreadyExists) then
            metric bm "createObj" ["name"; name; "kind"; kind] ;;
            err ← ask (RWatch o);
            mret err
          else mret err
      end
  end.
End create.
