(* ===== verification/Workload.v ===== *)
(** * Preparing workload objects (controllers/workload.go)

    A workload object is decoded from a template whose variables are replaced,
    gets the volumes and containers that collect its output, environment
    variables and labels, and is created.  Iterations over maps ask the
    environment for the order ([RRange]). *)
From S2P Require Import Prelude GoStrings GoTime GoJson BenchmarkTypes KubeEnv OutputPkg PodUtils.
From S2P Require Import CreateObj.

(** ** Pure helpers *)
Definition volInSpec (vols : list PodVolume) (name : string) : bool :=
  existsb (fun v => bool_decide (pv_Name v = name)) vols.

(** The mode is octal 0777. *)
Definition newCMVol (name cmName : string) : PodVolume :=
  {| pv_Name := name; pv_Source := SrcConfigMap cmName 511 |}.

Definition mount (path sub name : string) : VolumeMount :=
  {| MountPath := path; SubPath := sub; vm_Name := name |}.

Definition buildContainer (containerName imageName cmdline : string) : Container :=
  {| c_Name := containerName; c_Image := imageName; c_Command := ["sh"; "-c"; cmdline];
     VolumeMounts := [mount "/scripts/countdone.sh" "countdone.sh" "helper";
                      mount "/var/run/secrets/kubernetes.io/podwatcher" "" "pod-watcher-token";
                      mount "/output" "" "output-vol"];
     c_Env := [EnvField "POD_NAME" "metadata.name"]; c_rest := JNull |}.

(** [append(container.VolumeMounts, m)], [append(spec.Containers, c)] etc. *)
Definition add_mount (m : VolumeMount) (c : Container) : Container :=
  {| c_Name := c_Name c; c_Image := c_Image c; c_Command := c_Command c;
     VolumeMounts := VolumeMounts c ++ [m]; c_Env := c_Env c; c_rest := c_rest c |}.

Definition add_container (c : Container) (s : PodSpec) : PodSpec :=
  {| RestartPolicy := RestartPolicy s; ps_ServiceAccountName := ps_ServiceAccountName s;
     InitContainers := InitContainers s; Containers := Containers s ++ [c];
     ps_Volumes := ps_Volumes s; ps_rest := ps_rest s |}.

Definition add_init_container (c : Container) (s : PodSpec) : PodSpec :=
  {| RestartPolicy := RestartPolicy s; ps_ServiceAccountName := ps_ServiceAccountName s;
     InitContainers := InitContainers s ++ [c]; Containers := Containers s;
     ps_Volumes := ps_Volumes s; ps_rest := ps_rest s |}.

Definition add_volume (v : PodVolume) (s : PodSpec) : PodSpec :=
  {| RestartPolicy := RestartPolicy s; ps_ServiceAccountName := ps_ServiceAccountName s;
     InitContainers := InitContainers s; Containers := Containers s;
     ps_Volumes := ps_Volumes s ++ [v]; ps_rest := ps_rest s |}.

Definition map_containers (f : Container -> Container) (s : PodSpec) : PodSpec :=
  {| RestartPolicy := RestartPolicy s; ps_ServiceAccountName := ps_ServiceAccountName s;
     InitContainers := InitContainers s; Containers := f <$> Containers s;
     ps_Volumes := ps_Volumes s; ps_rest := ps_rest s |}.

Definition getRole (annotations : gmap string string) : string :=
  match annotations !! "role" with Some r => r | None => "helper" end.

Definition braced (variable : string) : string := brace_open +:+ variable +:+ brace_close.

(** Replacement of one variable of the workload. *)
Definition replace_var (vars : gmap string string) (cmString variable : string) : string :=
  replace_all cmString (braced variable) (default EmptyString (vars !! variable)).

(** Replacement of a default that an annotation [cnsbench.default.x] gives. *)
Definition replace_default (annotations : gmap string string) (cmString k : string) : string :=
  match split_n "."%char 3 k with
  | [s0; s1; s2] =>
      if decide (s0 = "cnsbench" /\ s1 = "default")
      then replace_all cmString (braced s2) (default EmptyString (annotations !! k))
      else cmString
  | _ => cmString
  end.

Definition replace_builtins (cmString workloadName : string) (instanceNum numInstances : Z) : string :=
  let s := replace_all cmString (braced "ACTION_NAME") workloadName in
  let s := replace_all s (braced "ACTION_NAME_CAPS") (to_upper workloadName) in
  let s := replace_all s (braced "INSTANCE_NUM") (itoa instanceNum) in
  replace_all s (braced "NUM_INSTANCES") (itoa numInstances).

Section workload.
Context {E : Env} (ScriptsDir : string).

(** ** Temporary config maps *)
Definition loadScript (scriptName : string) : GoM (string + kerr) := ask (RReadFile ScriptsDir scriptName).

Definition new_meta (name : string) : ObjectMeta :=
  {| TypeKind := ""; Name := name; Namespace := "default"; Labels := None; Annotations := None;
     Owners := [] |}.

(** An error of [createObj] is logged only: the [err] that is returned is the
    outer one, which is nil here. *)
Definition createTmpConfigMapFromDisk (bm : Benchmark) (scriptName : string) : GoM (string * error) :=
  script ← loadScript scriptName;
  match script with
  | inr err => mret (EmptyString, Some err)
  | inl script =>
      name ← ask (RGenerateName "helper-");
      _ ← createObj bm (Some (ConfigMap (new_meta name) {[scriptName := script]})) true;
      mret (name, None)
  end.

Definition getParserContainerImage (parserName : string) : GoM (string * error) :=
  parserCm ← ask (RGetConfigMap LIBRARY_NAMESPACE parserName);
  match parserCm with
  | inr err => mret (EmptyString, Some err)
  | inl parserCm =>
      match cm_Annotations parserCm !! "container" with
      | None => mret ("busybox", None)
      | Some imageName => mret (imageName, None)
      end
  end.

Definition cloneParser (bm : Benchmark) (parserName : string) : GoM (string * error) :=
  parserCm ← ask (RGetConfigMap LIBRARY_NAMESPACE parserName);
  match parserCm with
  | inr err => mret (EmptyString, Some err)
  | inl parserCm =>
      name ← ask (RGenerateName (parserName +:+ "-"));
      _ ← createObj bm (Some (ConfigMap (new_meta name) (cm_Data parserCm))) true;
      mret (name, None)
  end.

(** ** Changes to the pod *)
Definition addParserContainerToObj (obj : option object) (parserCMName logFilename imageName : string)
    : GoM (option object * error) :=
  spec ← liftO (PodSpec_ obj);
  match spec with
  | inr err => mret (None, Some err)
  | inl spec =>
      let cmdline := "/scripts/countdone.sh 1 && /scripts/parser/* " +:+ logFilename +:+ " > "
                       +:+ logFilename +:+ ".parsed" in
      let container := add_mount (mount "/scripts/parser" "" "parser")
                         (buildContainer "parser-container" imageName cmdline) in
      let spec := add_container container spec in
      let spec := if volInSpec (ps_Volumes spec) "parser" then spec
                  else add_volume (newCMVol "parser" parserCMName) spec in
      liftO (UpdatePodSpec obj spec)
  end.

Definition addParserContainer (bm : Benchmark) (obj : option object) (parser outfile : string)
    : GoM (option object * error) :=
  let parser := if decide (parser = EmptyString) then "null-parser" else parser in
  '(tmpCmName, err) ← cloneParser bm parser;
  match err with
  | Some err => mret (obj, Some err)
  | None =>
      '(imageName, err) ← getParserContainerImage parser;
      match err with
      | Some err => mret (obj, Some err)
      | None => addParserContainerToObj obj tmpCmName outfile imageName
      end
  end.

Definition addOutputContainerToObj (bm : Benchmark) (obj : option object)
    (outputArgs outputScript outputFilename : string) : GoM (option object * error) :=
  spec ← liftO (PodSpec_ obj);
  match spec with
  | inr err => mret (None, Some err)
  | inl spec =>
      let cmdline := "/scripts/countdone.sh 2 && /scripts/" +:+ outputScript +:+ " " +:+ outputFilename
                       +:+ ".parsed " +:+ outputArgs in
      let container := add_mount (mount ("/scripts/" +:+ outputScript) outputScript "output")
                         (buildContainer "output-container" "cnsbench/utility:latest" cmdline) in
      let spec := add_container container spec in
      '(cmName, err) ← createTmpConfigMapFromDisk bm outputScript;
      match err with
      | Some err => mret (obj, Some err)
      | None => liftO (UpdatePodSpec obj (add_volume (newCMVol "output" cmName) spec))
      end
  end.

(** The end point: the last output of that name with a URL. *)
Definition output_args (outputs : list Output) (outputName dflt : string) : string :=
  foldl (fun args out =>
    if decide (out_Name out = outputName /\ URL (HttpPostSpec out) <> EmptyString)
    then URL (HttpPostSpec out) else args) dflt outputs.

Definition collector_url : string := "http://cnsbench-output-collector.cnsbench-system.svc.cluster.local:8888/".

Definition addOutputContainer (bm : Benchmark) (obj : option object) (outputName outputFile : string)
    : GoM (option object * error) :=
  let outputArgs := output_args (Outputs (bm_Spec bm)) outputName (collector_url +:+ bm_Name bm +:+ "/") in
  addOutputContainerToObj bm obj outputArgs "http-output.sh" outputFile.

Definition output_mount : VolumeMount := mount "/output" "" "output-vol".

Definition mount_output (c : Container) : Container :=
  if existsb (fun v => bool_decide (vm_Name v = "output-vol")) (VolumeMounts c) then c
  else add_mount output_mount c.

Definition addOutputVol (obj : option object) : GoM (option object * error) :=
  spec ← liftO (PodSpec_ obj);
  match spec with
  | inr err => mret (None, Some err)
  | inl spec =>
      if volInSpec (ps_Volumes spec) "output-vol" then mret (obj, None)
      else liftO (UpdatePodSpec obj (map_containers mount_output
             (add_volume {| pv_Name := "output-vol"; pv_Source := SrcEmptyDir |} spec)))
  end.

Definition addCountdoneScript (bm : Benchmark) (obj : option object) : GoM (option object * error) :=
  spec ← liftO (PodSpec_ obj);
  match spec with
  | inr err => mret (None, Some err)
  | inl spec =>
      if volInSpec (ps_Volumes spec) "helper" then mret (obj, None)
      else
        '(cmName, err) ← createTmpConfigMapFromDisk bm "countdone.sh";
        match err with
        | Some err => mret (obj, Some err)
        | None => liftO (UpdatePodSpec obj (add_volume (newCMVol "helper" cmName) spec))
        end
  end.

Definition addPodWatcherToken (obj : option object) : GoM (option object * error) :=
  spec ← liftO (PodSpec_ obj);
  match spec with
  | inr err => mret (None, Some err)
  | inl spec =>
      if volInSpec (ps_Volumes spec) "pod-watcher-token" then mret (obj, None)
      else liftO (UpdatePodSpec obj
             (add_volume {| pv_Name := "pod-watcher-token"; pv_Source := SrcSecret "pod-watcher-token" |} spec))
  end.

Definition addSyncContainer (bm : Benchmark) (obj : option object) (count : Z)
    (workloadName syncGroup : string) : GoM (option object * error) :=
  spec ← liftO (PodSpec_ obj);
  match spec with
  | inr err => mret (None, Some err)
  | inl spec =>
      let numContainers := Z.of_nat (length (InitContainers spec)) in
      let command := ["/scripts/ready.sh"; "workloadname%3D" +:+ workloadName;
                      itoa (wrap64 (numContainers * count))]
                     ++ (if decide (syncGroup = EmptyString) then [] else ["syncgroup%3D" +:+ syncGroup]) in
      let c := {| c_Name := "sync-container"; c_Image := "cnsbench/utility:latest"; c_Command := command;
                  VolumeMounts := [mount "/scripts/" "" "ready-script";
                                   mount "/var/run/secrets/kubernetes.io/podwatcher" "" "pod-watcher-token"];
                  c_Env := []; c_rest := JNull |} in
      let spec := add_init_container c spec in
      '(cmName, err) ← createTmpConfigMapFromDisk bm "ready.sh";
      match err with
      | Some err => mret (obj, Some err)
      | None => liftO (UpdatePodSpec obj (add_volume (newCMVol "ready-script" cmName) spec))
      end
  end.

(** ** Output collection *)
Definition setupForOutput (bm : Benchmark) (obj : option object) : GoM (option object * error) :=
  '(obj, err) ← addOutputVol obj;
  match err with
  | Some err => mret (obj, Some err)
  | None =>
      '(obj, err) ← addPodWatcherToken obj;
      match err with
      | Some err => mret (obj, Some err)
      | None => addCountdoneScript bm obj
      end
  end.

(** One output file: set up, parse, send.  [true] in the third place when the
    function returns: an error of [setupForOutput] is not passed on. *)
Definition add_output (bm : Benchmark) (obj : option object) (parser outfile sink : string)
    : GoM (option object * error * bool) :=
  '(obj, err) ← setupForOutput bm obj;
  match err with
  | Some _ => mret (obj, None, true)
  | None =>
      '(obj, err) ← addParserContainer bm obj parser outfile;
      match err with
      | Some err => mret (obj, Some err, true)
      | None =>
          '(obj, err) ← addOutputContainer bm obj sink outfile;
          match err with
          | Some err => mret (obj, Some err, true)
          | None => mret (obj, None, false)
          end
      end
  end.

Definition is_target (role : string) (output : OutputFile) : bool :=
  bool_decide (role = Target output) ||
  (bool_decide (role = "workload") && bool_decide (Target output = EmptyString)).

Fixpoint add_output_files (bm : Benchmark) (role : string) (obj : option object)
    (files : list OutputFile) : GoM (option object * error) :=
  match files with
  | [] => mret (obj, None)
  | output :: files' =>
      if is_target role output then
        '(obj, err, stop) ← add_output bm obj (Parser output) (Filename output) (Sink output);
        if stop : bool then mret (obj, err) else add_output_files bm role obj files'
      else add_output_files bm role obj files'
  end.

Definition addContainers (bm : Benchmark) (obj : option object) (annotations : gmap string string)
    (workloadSpec : Workload) : GoM (option object * error) :=
  let role := getRole annotations in
  match OutputFiles workloadSpec with
  | (_ :: _) as files => add_output_files bm role obj files
  | [] =>
      match annotations !! "outputFile" with
      | Some outputFile =>
          '(obj, err, _) ← add_output bm obj (default EmptyString (annotations !! "parser")) outputFile
                             (WorkloadsOutput (bm_Spec bm));
          mret (obj, err)
      | None => mret (obj, None)
      end
  end.

(** ** Labels *)
Definition set_labels (labels : gmap string string) (o : object) : object :=
  let m := obj_meta o in
  set_meta {| TypeKind := TypeKind m; Name := Name m; Namespace := Namespace m; Labels := Some labels;
              Annotations := Annotations m; Owners := Owners m |} o.

Definition cnsb_labels (workloadSpec : Workload) (annotations labels : gmap string string)
    : gmap string string :=
  let labels := if decide (SyncGroup workloadSpec = EmptyString) then labels
                else <["syncgroup" := SyncGroup workloadSpec]> labels in
  <["role" := getRole annotations]> (<["workloadname" := wl_Name workloadSpec]> labels).

(** The labels map is shared between the object's metadata and, for jobs and
    stateful sets, its template: what [AddLabelsGeneric] adds shows in both. *)
Definition addCNSBLabels (workloadSpec : Workload) (obj : option object)
    (annotations : gmap string string) : GoM (option object * error) :=
  match obj with
  | None => mret (None, Some (ErrOther "object does not implement the Object interfaces"))
  | Some o =>
      let labels := cnsb_labels workloadSpec annotations (default ∅ (Labels (obj_meta o))) in
      '(obj, err, labels) ← liftO (AddLabelsGeneric (Some (set_labels labels o)) labels);
      mret (set_labels labels <$> obj, err)
  end.

(** ** Variables *)
Definition replaceVars (cmString : string) (workloadSpec : Workload) (instanceNum numInstances : Z)
    (workloadName : string) (workloadConfigMap : ConfigMapData) : GoM string :=
  vars ← ask (RRange (Vars workloadSpec));
  let cmString := foldl (replace_var (Vars workloadSpec)) cmString vars in
  ks ← ask (RRange (cm_Annotations workloadConfigMap));
  let cmString := foldl (replace_default (cm_Annotations workloadConfigMap)) cmString ks in
  mret (replace_builtins cmString workloadName instanceNum numInstances).

Definition decodeConfigMap (cmString : string) : option object * error :=
  match decode_yaml cmString with
  | inl o => (Some o, None)
  | inr err => (None, Some err)
  end.

(** [SetEnvVar] works in place and its results are ignored. *)
Definition set_env (name value : string) (obj : option object) : GoM (option object) :=
  '(obj', err) ← liftO (SetEnvVar name value obj);
  mret (match err with None => obj' | Some _ => obj end).

(** ** Instances of a workload *)
Definition prepareAndRun (bm : Benchmark) (w : Z) (workloadName : string) (a : Workload)
    (cm : ConfigMapData) (objBytes : string) : GoM error :=
  cmString ← replaceVars objBytes a w (wl_Count a) workloadName cm;
  match decodeConfigMap cmString with
  | (_, Some err) => mret (Some err)
  | (None, None) => mret (Some (ErrOther "object does not implement the Object interfaces"))
  | (Some o, None) =>
      let objAnnotations := default ∅ (Annotations (obj_meta o)) in
      let nonDefaultVol := parse_bool (default EmptyString (Vars a !! "volname")) in
      if bool_decide (getRole objAnnotations = "volume") && nonDefaultVol then mret None
      else
        '(obj, err) ← addContainers bm (Some o) objAnnotations a;
        match err with
        | Some err => mret (Some err)
        | None =>
            obj ← set_env "INSTANCE_NUM" (itoa w) obj;
            obj ← set_env "NUM_INSTANCES" (itoa (wl_Count a)) obj;
            '(obj, err) ← addCNSBLabels a obj objAnnotations;
            match err with
            | Some err => mret (Some err)
            | None =>
                '(obj, err) ←
                  (match objAnnotations !! "sync" with
                   | None => mret (obj, None)
                   | Some _ =>
                       '(obj, err) ← addSyncContainer bm obj (wl_Count a) workloadName (SyncGroup a);
                       match err with
                       | Some err => mret (obj, Some err)
                       | None => addPodWatcherToken obj
                       end
                   end : GoM (option object * error));
                match err with
                | Some err => mret (Some err)
                | None =>
                    let makeOwner :=
                      match obj with Some o => bool_decide (Namespace (obj_meta o) = "default") | None => false end in
                    err ← createObj bm obj makeOwner;
                    mret (match err with Some ErrAlreadyExists => None | _ => err end)
                end
            end
        end
  end.
End workload.
