(* ===== verification/Completion.v ===== *)
(** * When workloads are initialised and complete (controllers/completion.go) *)
From S2P Require Import Prelude GoStrings GoTime GoJson BenchmarkTypes KubeEnv CreateObj.

Definition empty_selector : LabelSelector := {| matchLabels := ∅; matchExpressions := [] |}.

(** How many items satisfy the test, and how many do not. *)
Fixpoint tally {A} (done : A -> bool) (complete notcomplete : Z) (l : list A) : Z * Z :=
  match l with
  | [] => (complete, notcomplete)
  | x :: l' => if done x then tally done (complete + 1) notcomplete l'
               else tally done complete (notcomplete + 1) l'
  end.

(** A pod's containers: [false] without any, or when one has not restarted. *)
Definition pod_restarted (pod : PodItem) : bool :=
  negb (bool_decide (ContainerStatuses pod = [])) &&
  forallb (fun c => negb (RestartCount c =? 0)%Z) (ContainerStatuses pod).

Section completion.
Context {E : Env}.

Definition is_up (pod : PodItem) : bool :=
  bool_decide (Phase pod = "Running") || bool_decide (Phase pod = "Succeeded").

Fixpoint CheckInit (workloads : list Workload) : GoM (bool * error) :=
  match workloads with
  | [] => mret (true, None)
  | a :: workloads' =>
      match parseToLabelSelector ("workloadname=" +:+ wl_Name a) with
      | inr err => mret (false, Some err)
      | inl labelSelector =>
          match labelSelectorAsSelector labelSelector with
          | inr err => mret (false, Some err)
          | inl selector =>
              pods ← ask (RListPods "default" selector);
              match pods with
              | inr err => mret (false, Some err)
              | inl pods => if forallb is_up pods then CheckInit workloads' else mret (false, None)
              end
          end
      end
  end.

(** The four counters return (complete, not complete, error). *)
Definition PodsComplete (selector : selector) : GoM (Z * Z * error) :=
  pods ← ask (RListPods "default" selector);
  match pods with
  | inr err => mret (0%Z, 0%Z, Some err)
  | inl pods => mret (tally (fun p => bool_decide (Phase p = "Succeeded")) 0 0 pods, None)
  end.

(** A set without pods ends the loop: the counts so far are dropped. *)
Fixpoint sets_complete (complete notcomplete : Z) (stss : list StatefulSetItem) : GoM (Z * Z * error) :=
  match stss with
  | [] => mret (complete, notcomplete, None)
  | sts :: stss' =>
      match labelSelectorAsSelector (sts_Selector sts) with
      | inr err => mret (0%Z, 0%Z, Some err)
      | inl labelSelector =>
          pods ← ask (RListPods "default" labelSelector);
          match pods with
          | inr err => mret (0%Z, 0%Z, Some err)
          | inl [] => mret (0%Z, 0%Z, None)
          | inl pods =>
              if forallb pod_restarted pods then sets_complete (complete + 1) notcomplete stss'
              else sets_complete complete (notcomplete + 1) stss'
          end
      end
  end.

Definition StatefulSetsComplete (selector : selector) : GoM (Z * Z * error) :=
  stss ← ask (RListStatefulSets "default" selector);
  match stss with
  | inr err => mret (0%Z, 0%Z, Some err)
  | inl stss => sets_complete 0 0 stss
  end.

(** [*job.Spec.Completions] panics on a nil pointer. *)
Fixpoint jobs_complete (complete notcomplete : Z) (jobs : list JobItem) : outcome (Z * Z) :=
  match jobs with
  | [] => Ret (complete, notcomplete)
  | job :: jobs' =>
      match Completions job with
      | None => Panic "nil pointer dereference"
      | Some n => if (n <=? Succeeded job)%Z then jobs_complete (complete + 1) notcomplete jobs'
                  else jobs_complete complete (notcomplete + 1) jobs'
      end
  end.

Definition JobsComplete (selector : selector) : GoM (Z * Z * error) :=
  jobs ← ask (RListJobs "default" selector);
  match jobs with
  | inr err => mret (0%Z, 0%Z, Some err)
  | inl jobs => c ← liftO (jobs_complete 0 0 jobs); mret (c, None)
  end.

Definition PVCsComplete (selector : selector) : GoM (Z * Z * error) :=
  pvcs ← ask (RListPVCs "default" selector);
  match pvcs with
  | inr err => mret (0%Z, 0%Z, Some err)
  | inl pvcs => mret (tally (fun p => bool_decide (pvc_Phase p = "Bound")) 0 0 pvcs, None)
  end.

(** The sums over the counters in order, up to the first error. *)
Fixpoint sum_counts (counters : list (GoM (Z * Z * error))) (completions notcompletions : Z)
    : GoM (Z * Z * error) :=
  match counters with
  | [] => mret (completions, notcompletions, None)
  | counter :: counters' =>
      '(complete, notcomplete, err) ← counter;
      match err with
      | Some err => mret (completions, notcompletions, Some err)
      | None => sum_counts counters' (completions + complete)%Z (notcompletions + notcomplete)%Z
      end
  end.

Definition workload_selector (workloadName : string) : LabelSelector :=
  addLabelToSelector (addLabelToSelector empty_selector "workloadname" workloadName) "role" "workload".

Definition CountCompletions (workloadName : string) : GoM (Z * Z * error) :=
  match labelSelectorAsSelector (workload_selector workloadName) with
  | inr err => mret (0%Z, 0%Z, Some err)
  | inl selector =>
      sum_counts [PodsComplete selector; JobsComplete selector; StatefulSetsComplete selector;
                  PVCsComplete selector] 0 0
  end.
End completion.
