(* ===== verification/Actions.v ===== *)
(** * Operations of a benchmark (controllers/actions.go) *)
From stdpp Require Import sorting.
From S2P Require Import Prelude GoStrings GoTime GoJson BenchmarkTypes KubeEnv OutputPkg PodUtils.
From S2P Require Import CreateObj Workload Completion.

(** [for c := 0; c < n; c++]. *)
Definition upto (n : Z) : list Z := seqZ 0 n.

Section actions.
Context {E : Env} (ScriptsDir : string).

(** ** Volumes *)
Definition volume_name (vol : Volume) (c : Z) : string :=
  if decide (1 < vol_Count vol)%Z then vol_Name vol +:+ "-" +:+ itoa c else vol_Name vol.

Definition volume_claim (vol : Volume) (c : Z) : object :=
  PersistentVolumeClaim
    {| TypeKind := ""; Name := volume_name vol c; Namespace := "default";
       Labels := Some {["volumename" := vol_Name vol]}; Annotations := None; Owners := [] |}
    (vol_Spec vol).

(** Errors are logged and the loop goes on. *)
Definition CreateVolume (bm : Benchmark) (vol : Volume) : GoM unit :=
  forM_ (fun c => _ ← createObj bm (Some (volume_claim vol c)) true; mret tt) (upto (vol_Count vol)).

(** ** Workloads *)
Definition set_instance (workload : string) (n : Z) : GoM unit :=
  putS (fun s => GSt (trace s) (controlChannels s) (listeners s) (next_chan s)
                   (<[workload := n]> (workloadInstance s))).

Definition get_instance (workload : string) : GoM (option Z) :=
  getS (fun s => workloadInstance s !! workload).

(** One instance: the counter of the workload is incremented first. *)
Definition run_instance (bm : Benchmark) (a : Workload) (workloadName : string) (cm : ConfigMapData)
    (k : string) : GoM error :=
  n ← get_instance (wl_Workload a);
  let w := wrap64 (default 0%Z n + 1) in
  set_instance (wl_Workload a) w ;;
  prepareAndRun ScriptsDir bm w workloadName a cm (default EmptyString (cm_Data cm !! k)).

Definition run_parser_key (bm : Benchmark) (a : Workload) (workloadName : string) (cm : ConfigMapData)
    (k : string) : GoM error :=
  if contains "parse" k
  then prepareAndRun ScriptsDir bm 0 workloadName a cm (default EmptyString (cm_Data cm !! k))
  else mret None.

Definition run_object_key (bm : Benchmark) (a : Workload) (workloadName : string) (cm : ConfigMapData)
    (k : string) : GoM error :=
  if contains "parse" k then mret None
  else
    n ← get_instance (wl_Workload a);
    (match n with None => set_instance (wl_Workload a) (-1) | Some _ => mret tt end) ;;
    forM_err (fun _ => run_instance bm a workloadName cm k) (upto (wl_Count a)).

Definition RunWorkload (bm : Benchmark) (a : Workload) (workloadName : string) : GoM error :=
  cm ← ask (RGetConfigMap LIBRARY_NAMESPACE (wl_Workload a));
  match cm with
  | inr err => mret (Some err)
  | inl cm =>
      ks ← ask (RRange (cm_Data cm));
      err ← forM_err (run_parser_key bm a workloadName cm) ks;
      match err with
      | Some err => mret (Some err)
      | None =>
          ks ← ask (RRange (cm_Data cm));
          forM_err (run_object_key bm a workloadName cm) ks
      end
  end.

(** ** Snapshots *)
Definition snapshot_object (s : Snapshot) (actionName volName name : string) : object :=
  VolumeSnapshot
    {| TypeKind := ""; Name := name; Namespace := "default";
       Labels := Some {["workloadname" := actionName]}; Annotations := None; Owners := [] |}
    (SnapshotClass s) volName.

Definition CreateSnapshot (bm : Benchmark) (s : Snapshot) (actionName : string) : GoM error :=
  let ls := if decide (sn_WorkloadName s <> EmptyString)
            then addLabelToSelector empty_selector "workloadname" (sn_WorkloadName s)
            else if decide (sn_VolumeName s <> EmptyString)
            then addLabelToSelector empty_selector "volumename" (sn_VolumeName s)
            else empty_selector in
  match labelSelectorAsSelector ls with
  | inr err => mret (Some err)
  | inl selector =>
      pvcs ← ask (RListPVCs "default" selector);
      match pvcs with
      | inr err => mret (Some err)
      | inl pvcs =>
          forM_ (fun pvc =>
            name ← ask (RGenerateName (bm_Name bm +:+ "-snapshot-"));
            _ ← createObj bm (Some (snapshot_object s actionName (pvc_Name pvc) name)) false;
            mret tt) pvcs ;;
          mret None
      end
  end.

(** ** Deletion

    [sort.Slice] is not stable: which of several oldest objects comes first is
    not specified, so the sort is an operation of the caller, with its law. *)
Definition older (a b : ListItem) : Prop :=
  (unix (li_CreationTimestamp a) <= unix (li_CreationTimestamp b))%Z.
#[export] Instance older_dec a b : Decision (older a b).
Proof. unfold older. apply _. Defined.

Definition DeleteObj (sort : list ListItem -> list ListItem) (d : Delete) : GoM error :=
  match labelSelectorAsSelector (Selector d) with
  | inr err => mret (Some err)
  | inl labelSelector =>
      items ← ask (RListObjects (APIVersion d) (Kind d) "default" labelSelector);
      match items with
      | inr err => mret (Some err)
      | inl items =>
          match sort items with
          | oldest :: _ => ask (RDelete (APIVersion d) (Kind d) oldest)
          | [] => mret None
          end
      end
  end.

(** ** Scaling *)
Definition scale_pod (name : string) (s : Scale) (numReplicas : Z) (scriptsCMName : string) : object :=
  Pod {| TypeKind := ""; Name := name; Namespace := "default"; Labels := Some {["app" := "scale-pod"]};
         Annotations := None; Owners := [] |}
    {| RestartPolicy := "Never"; ps_ServiceAccountName := ServiceAccountName s; InitContainers := [];
       Containers := [{| c_Name := "scale-container"; c_Image := "cnsbench/kubectl-container";
                         c_Command := ["/scripts/scale.sh"; ObjName s; itoa numReplicas];
                         VolumeMounts := [mount "/scripts/" "" "scale-script"]; c_Env := [];
                         c_rest := JNull |}];
       ps_Volumes := [newCMVol "scale-script" scriptsCMName]; ps_rest := JNull |}.

Definition ScaleObj (bm : Benchmark) (s : Scale) (numReplicas : Z) : GoM error :=
  '(scriptsCMName, err) ← cloneParser bm (ScaleScripts s);
  match err with
  | Some err => mret (Some err)
  | None =>
      name ← ask (RGenerateName "scale-pod-");
      let o := scale_pod name s numReplicas scriptsCMName in
      match make_owner bm (obj_meta o) with
      | inr err => mret (Some err)
      | inl m => ask (RCreate (set_meta m o))
      end
  end.

(** ** Keeping the number of instances *)
Definition is_duplicate (o : object) : bool :=
  match Annotations (obj_meta o) ≫= (.!! "duplicate") with
  | Some d => bool_decide (d = "true")
  | None => false
  end.

(** The loop [for w := complete + notComplete; w < complete + count; w++]. *)
Definition missing_instances (complete notComplete count : Z) : list Z :=
  seqZ (complete + notComplete) (count - notComplete).

Definition reconcile_key (bm : Benchmark) (a : Workload) (cm : ConfigMapData)
    (complete notComplete : Z) (k : string) : GoM error :=
  cmString ← replaceVars (default EmptyString (cm_Data cm !! k)) a 0 (wl_Count a) (wl_Name a) cm;
  match decodeConfigMap cmString with
  | (_, Some err) => mret (Some err)
  | (None, None) => mret (Some (ErrOther "object does not implement the Object interfaces"))
  | (Some o, None) =>
      if is_duplicate o then
        forM_err (fun w => prepareAndRun ScriptsDir bm w (wl_Name a) a cm
                             (default EmptyString (cm_Data cm !! k)))
          (missing_instances complete notComplete (wl_Count a))
      else mret None
  end.

Definition reconcile_workload (bm : Benchmark) (a : Workload) : GoM error :=
  '(workloadsComplete, workloadsNotComplete, err) ← CountCompletions (wl_Name a);
  match err with
  | Some err => mret (Some err)
  | None =>
      if decide (wl_Count a - workloadsNotComplete <= 0)%Z then mret None
      else
        cm ← ask (RGetConfigMap LIBRARY_NAMESPACE (wl_Workload a));
        match cm with
        | inr err => mret (Some err)
        | inl cm =>
            ks ← ask (RRange (cm_Data cm));
            forM_err (reconcile_key bm a cm workloadsComplete workloadsNotComplete) ks
        end
  end.

Definition ReconcileInstances (bm : Benchmark) (workloads : list Workload) : GoM error :=
  forM_err (reconcile_workload bm) workloads.
End actions.
