(* ===== verification/Reconciler.v ===== *)
(** * The reconciler (controllers/benchmark_controller.go)

    [Reconcile] moves a benchmark from its empty state over [Initializing] and
    [Running] to [Complete].  The instance is a Go pointer that updates
    overwrite with the server's answer, so the functions that update it return
    it. *)
From S2P Require Import Prelude GoStrings GoTime GoJson GoDuration BenchmarkTypes KubeEnv Utils.
From S2P Require Import OutputPkg PodUtils CreateObj Workload Completion Actions.

Record Result := { Requeue : bool; RequeueAfter : Z }.
Definition no_result : Result := {| Requeue := false; RequeueAfter := 0 |}.

Definition RateFinalizer : string := "RateFinalizer".

Section reconciler.
Context {E : Env} (ScriptsDir : string) (sort : list ListItem -> list ListItem).

(** ** Control channels *)

(** [make(chan bool)], stored under the benchmark's name. *)
Definition make_channel (name : string) : GoM nat := fun s =>
  let c := next_chan s in
  Ret (c, GSt (trace s) (<[name := c]> (controlChannels s)) (<[c := 0]> (listeners s)) (S c)
            (workloadInstance s)).

Definition lookup_channel (name : string) : GoM (option nat) := getS (fun s => controlChannels s !! name).

(** [go ...]: one more goroutine that selects on the control channel. *)
Definition spawn (c : nat) : GoM unit :=
  putS (fun s => GSt (trace s) (controlChannels s) (alter S c (listeners s)) (next_chan s)
                   (workloadInstance s)).

(** Two messages per running rate. *)
Fixpoint send_all (c : option nat) (n : nat) : GoM unit :=
  match n with
  | O => mret tt
  | S n' => send c ;; send c ;; send_all c n'
  end.

Definition stopRoutines (instance : Benchmark) : GoM unit :=
  c ← lookup_channel (bm_Name instance);
  send_all c (Z.to_nat (RunningRates (bm_Status instance))).

(** ** Clean up and updates *)
Definition cleanup (instance : Benchmark) : GoM (Benchmark * error) :=
  stopRoutines instance ;;
  if Contains (bm_Finalizers instance) RateFinalizer then
    l ← liftO (Remove (bm_Finalizers instance) RateFinalizer);
    let instance := with_finalizers l instance in
    r ← ask (RUpdate instance);
    match r with
    | inr err => mret (instance, Some err)
    | inl instance => mret (instance, None)
    end
  else mret (instance, None).

Definition updateInstanceStatus (instance : Benchmark) : GoM (Benchmark * error) :=
  r ← ask (RStatusUpdate instance);
  match r with
  | inr err => '(instance, _) ← cleanup instance; mret (instance, Some err)
  | inl instance => mret (instance, None)
  end.

Definition updateInstance (instance : Benchmark) : GoM (Benchmark * error) :=
  r ← ask (RUpdate instance);
  match r with
  | inr err => '(instance, _) ← cleanup instance; mret (instance, Some err)
  | inl instance => mret (instance, None)
  end.

(** ** Starting *)
Definition createVolumes (instance : Benchmark) (vols : list Volume) : GoM unit :=
  forM_ (fun v => CreateVolume instance v) vols.

Definition startWorkloads (instance : Benchmark) (workloads : list Workload) : GoM error :=
  forM_err (fun a => RunWorkload ScriptsDir instance a (wl_Name a)) workloads.

(** [createConstantRate] and [createConstantIncreaseDecreaseRate]: the goroutine
    of the rate. *)
Definition createConstantRate (spec : ConstantRate) (c : nat) : GoM unit := spawn c.
Definition createConstantIncreaseDecreaseRate (spec : ConstantIncreaseDecreaseRate) (c : nat) : GoM unit :=
  spawn c.

(** The loop of [startRates]: the rates started, and whether all were known. *)
Fixpoint start_rates (c : nat) (rates : list Rate) (running : Z) : GoM (Z * error) :=
  match rates with
  | [] => mret (running, None)
  | rate :: rates' =>
      if negb (Interval (ConstantRateSpec rate) =? 0)%Z then
        createConstantRate (ConstantRateSpec rate) c ;;
        spawn c ;; start_rates c rates' (running + 1)
      else if negb (IncInterval (ConstantIncreaseDecreaseRateSpec rate) =? 0)%Z then
        createConstantIncreaseDecreaseRate (ConstantIncreaseDecreaseRateSpec rate) c ;;
        spawn c ;; start_rates c rates' (running + 1)
      else mret (running, Some (ErrOther "Unknown rate"))
  end.

Definition add_finalizer (instance : Benchmark) : Benchmark :=
  if (0 <? RunningRates (bm_Status instance))%Z && negb (Contains (bm_Finalizers instance) RateFinalizer)
  then with_finalizers (bm_Finalizers instance ++ [RateFinalizer]) instance else instance.

Definition startRates (instance : Benchmark) : GoM (Benchmark * error) :=
  c ← make_channel (bm_Name instance);
  '(running, err) ← start_rates c (Rates (bm_Spec instance)) 0;
  let instance := upd_status (set_RunningRates running) instance in
  match err with
  | Some err => mret (instance, Some err)
  | None => mret (add_finalizer instance, None)
  end.

(** ** Completion *)
Definition doOutputs (bm : Benchmark) (startTime completionTime initCompletionTime : Z) : GoM unit :=
  _ ← Output_ (MetadataOutput (bm_Spec bm)) bm startTime completionTime initCompletionTime; mret tt.

(** A pod counts when its last container terminated by the end of the run. *)
Definition pod_in_time (endruntime : time) (pod : PodItem) : bool :=
  bool_decide (Phase pod = "Succeeded") &&
  match reverse (ContainerStatuses pod) with
  | c :: _ => match Terminated c with Some t => negb (after t endruntime) | None => false end
  | [] => false
  end.

Fixpoint completed_pods (workloads : list Workload) (endruntime : time) (complete : Z) : GoM (Z * error) :=
  match workloads with
  | [] => mret (complete, None)
  | a :: workloads' =>
      let ls := addLabelToSelector (addLabelToSelector empty_selector "workloadname" (wl_Name a))
                  "duplicate" "true" in
      match labelSelectorAsSelector ls with
      | inr err => mret ((-1)%Z, Some err)
      | inl selector =>
          pods ← ask (RListPods "default" selector);
          match pods with
          | inr err => mret ((-1)%Z, Some err)
          | inl pods =>
              completed_pods workloads' endruntime (fst (tally (pod_in_time endruntime) complete 0 pods))
          end
      end
  end.

Definition getCompletedPods (workloads : list Workload) (endruntime : time) : GoM (Z * error) :=
  completed_pods workloads endruntime 0.

(** Are all workloads complete?  [break] at the first that is not. *)
Fixpoint all_complete (workloads : list Workload) : GoM (bool * error) :=
  match workloads with
  | [] => mret (true, None)
  | w :: workloads' =>
      '(complete, _, err) ← CountCompletions (wl_Name w);
      match err with
      | Some err => mret (false, Some err)
      | None => if (complete <? wl_Count w)%Z then mret (false, None) else all_complete workloads'
      end
  end.

(** ** Default outputs *)
Definition default_endpoints : gmap string string :=
  {["defaultWorkloadsOutput" := "workloads"; "defaultMetadataOutput" := "metadata";
    "defaultMetricsOutput" := "metrics"]}.

Definition add_default (s : list Output * bool) (outputName : string) : list Output * bool :=
  let '(outputs, updated) := s in
  if existsb (fun o => bool_decide (out_Name o = outputName)) outputs then (outputs, updated)
  else (outputs ++ [{| out_Name := outputName; HttpPostSpec := {| URL :=
          collector_url +:+ default EmptyString (default_endpoints !! outputName) |} |}], true).

Definition addDefaultOutputs (instance : Benchmark) : GoM (Benchmark * bool) :=
  names ← ask (RRange default_endpoints);
  let '(outputs, updated) := foldl add_default (Outputs (bm_Spec instance), false) names in
  mret (with_outputs outputs instance, updated).

Definition fixupSpec (instance : Benchmark) : GoM (Benchmark * bool) := addDefaultOutputs instance.

(** ** Operations triggered by rates *)
Definition runControlOp (bm : Benchmark) (a : ControlOperation) (rateCounter : Z) : GoM error :=
  let sel := formatLabelSelector (Selector (DeleteSpec a)) in
  if decide (SnapshotClass (SnapshotSpec a) <> EmptyString) then CreateSnapshot bm (SnapshotSpec a) (op_Name a)
  else if decide (sel <> EmptyString /\ sel <> "<none>") then DeleteObj sort (DeleteSpec a)
  else if decide (ObjName (ScaleSpec a) <> EmptyString) then ScaleObj bm (ScaleSpec a) rateCounter
  else mret None.

(** The body of the loop of [runControlOps] for a tick [n] of the rate; errors
    are logged. *)
Definition runControlOps (bm : Benchmark) (rateName : string) (n : Z) : GoM unit :=
  metric bm "rateFired" ["rateName"; rateName; "n"; itoa n] ;;
  forM_ (fun a => if decide (vol_RateName a = rateName) then CreateVolume bm a else mret tt)
    (Volumes (bm_Spec bm)) ;;
  forM_ (fun a => if decide (wl_RateName a = rateName)
                  then _ ← RunWorkload ScriptsDir bm a (wl_Name a); mret tt else mret tt)
    (Workloads (bm_Spec bm)) ;;
  forM_ (fun a => if decide (op_RateName a = rateName)
                  then _ ← runControlOp bm a n; mret tt else mret tt)
    (ControlOperations (bm_Spec bm)).

(** ** Reconcile *)
Definition condition (status : string) (t : time) : BenchmarkCondition :=
  {| LastProbeTime := zero_time; LastTransitionTime := t; cond_Message := ""; cond_Reason := "";
     cond_Status := status; cond_Type := "Complete" |}.

Definition delete_channel (name : string) : GoM unit :=
  putS (fun s => GSt (trace s) (delete name (controlChannels s)) (listeners s) (next_chan s)
                   (workloadInstance s)).

Definition reconcile_deleted (instance : Benchmark) : GoM (Result * error) :=
  c ← lookup_channel (bm_Name instance);
  match c with
  | None => mret (no_result, None)
  | Some _ =>
      '(instance, err) ← cleanup instance;
      match err with
      | Some err => mret (no_result, Some err)
      | None => delete_channel (bm_Name instance) ;; mret (no_result, None)
      end
  end.

(** The assignments to the status when a benchmark completes; [Conditions[0]]
    panics on an empty list. *)
Definition complete_status (numCompleted : Z) (t1 t2 t3 created : time) (s : BenchmarkStatus)
    : outcome BenchmarkStatus :=
  match Conditions s with
  | [] => Panic "index out of range"
  | _ :: conds =>
      Ret {| State := Complete; CompletionTime := t1; InitCompletionTime := InitCompletionTime s;
             TargetCompletionTimeUnix := TargetCompletionTimeUnix s;
             TargetCompletionTime := TargetCompletionTime s; CompletionTimeUnix := unix t2;
             StartTimeUnix := unix created; InitCompletionTimeUnix := InitCompletionTimeUnix s;
             NumCompletedObjs := numCompleted; RunningWorkloads := RunningWorkloads s;
             RunningRates := RunningRates s; Conditions := condition "True" t3 :: conds |}
  end.

Definition reconcile_complete (instance : Benchmark) (runtimeEnd : time) : GoM (Result * error) :=
  '(numCompleted, _) ← getCompletedPods (Workloads (bm_Spec instance)) runtimeEnd;
  let instance := upd_status (set_NumCompletedObjs numCompleted) instance in
  now ← ask RNow;
  doOutputs instance (unix (bm_CreationTimestamp instance)) (unix now)
    (InitCompletionTimeUnix (bm_Status instance)) ;;
  t1 ← ask RNow;
  t2 ← ask RNow;
  t3 ← ask RNow;
  status ← liftO (complete_status numCompleted t1 t2 t3 (bm_CreationTimestamp instance) (bm_Status instance));
  '(instance, err) ← updateInstanceStatus (with_status status instance);
  match err with
  | Some err => mret (no_result, Some err)
  | None => '(_, err) ← cleanup instance; mret (no_result, err)
  end.

Definition reconcile_running (instance : Benchmark) : GoM (Result * error) :=
  runtimeEnd ← ask RNow;
  if decide (Runtime (bm_Spec instance) <> EmptyString) then
    now ← ask RNow;
    if before now (TargetCompletionTime (bm_Status instance)) then
      err ← ReconcileInstances ScriptsDir instance (Workloads (bm_Spec instance));
      mret (no_result, err)
    else reconcile_complete instance runtimeEnd
  else
    '(complete, err) ← all_complete (Workloads (bm_Spec instance));
    match err with
    | Some err => mret (no_result, Some err)
    | None => if complete : bool then reconcile_complete instance runtimeEnd else mret (no_result, None)
    end.

(** The status when the initialisation is over. *)
Definition running_status (runtime : string) (t1 t2 : time) (s : BenchmarkStatus) : BenchmarkStatus :=
  let target :=
    if decide (runtime <> EmptyString) then
      match ParseDuration runtime with Some d => (t1 + d)%Z | None => TargetCompletionTime s end
    else TargetCompletionTime s in
  {| State := Running; CompletionTime := CompletionTime s; InitCompletionTime := t1;
     TargetCompletionTimeUnix := TargetCompletionTimeUnix s; TargetCompletionTime := target;
     CompletionTimeUnix := CompletionTimeUnix s; StartTimeUnix := StartTimeUnix s;
     InitCompletionTimeUnix := unix t2; NumCompletedObjs := NumCompletedObjs s;
     RunningWorkloads := RunningWorkloads s; RunningRates := RunningRates s;
     Conditions := Conditions s |}.

(** [updateInstanceStatus] and then [updateInstance]. *)
Definition update_both (instance : Benchmark) (result : Result) : GoM (Result * error) :=
  '(instance, err) ← updateInstanceStatus instance;
  match err with
  | Some err => mret (no_result, Some err)
  | None =>
      '(_, err) ← updateInstance instance;
      match err with
      | Some err => mret (no_result, Some err)
      | None => mret (result, None)
      end
  end.

Definition reconcile_initializing (instance : Benchmark) : GoM (Result * error) :=
  '(doneInit, err) ← CheckInit (Workloads (bm_Spec instance));
  match err with
  | Some err => mret (no_result, Some err)
  | None =>
      if negb doneInit then mret ({| Requeue := false; RequeueAfter := 5 * nanos |}, None)
      else
        '(instance, err) ← startRates instance;
        match err with
        | Some err => stopRoutines instance ;; mret (no_result, Some err)
        | None =>
            t1 ← ask RNow;
            t2 ← ask RNow;
            update_both (upd_status (running_status (Runtime (bm_Spec instance)) t1 t2) instance) no_result
        end
  end.

Definition started_status (t : time) (s : BenchmarkStatus) : BenchmarkStatus :=
  {| State := Initializing; CompletionTime := CompletionTime s;
     InitCompletionTime := InitCompletionTime s;
     TargetCompletionTimeUnix := TargetCompletionTimeUnix s;
     TargetCompletionTime := TargetCompletionTime s; CompletionTimeUnix := CompletionTimeUnix s;
     StartTimeUnix := StartTimeUnix s; InitCompletionTimeUnix := InitCompletionTimeUnix s;
     NumCompletedObjs := NumCompletedObjs s; RunningWorkloads := 0;
     RunningRates := RunningRates s; Conditions := [condition "False" t] |}.

Definition requeue : Result := {| Requeue := true; RequeueAfter := 0 |}.

Definition reconcile_new (instance : Benchmark) : GoM (Result * error) :=
  '(instance, fixed) ← fixupSpec instance;
  if fixed : bool then
    '(_, err) ← updateInstance instance;
    match err with
    | Some err => mret (no_result, Some err)
    | None => mret (requeue, None)
    end
  else
    t ← ask RNow;
    let instance := upd_status (started_status t) instance in
    createVolumes instance (Volumes (bm_Spec instance)) ;;
    err ← startWorkloads instance (Workloads (bm_Spec instance));
    match err with
    | Some err => mret (no_result, Some err)
    | None => update_both instance requeue
    end.

(** The dispatch on the instance that was read. *)
Definition reconcile_instance (instance : Benchmark) : GoM (Result * error) :=
  match bm_DeletionTimestamp instance with
  | Some _ => reconcile_deleted instance
  | None =>
      if decide (State (bm_Status instance) = Complete) then mret (no_result, None)
      else if decide (State (bm_Status instance) = Running) then reconcile_running instance
      else if decide (State (bm_Status instance) = Initializing) then reconcile_initializing instance
      else reconcile_new instance
  end.

Definition Reconcile (ns name : string) : GoM (Result * error) :=
  r ← ask (RGetBenchmark ns name);
  match r with
  | inr ErrNotFound => mret (no_result, None)
  | inr err => mret (no_result, Some err)
  | inl instance => reconcile_instance instance
  end.
End reconciler.
