(* ===== verification/Effects.v ===== *)
(** * Reasoning about the controller's effects

    [runs R m]: whenever [m] returns, its initial and final states are related
    by [R].  For a preorder the rule for sequencing makes this compositional;
    the [runs] database and the tactic [runs_tac] prove it along the code. *)
From S2P Require Import Prelude GoStrings GoTime GoJson BenchmarkTypes KubeEnv OutputPkg PodUtils.
From S2P Require Import CreateObj Workload Completion Actions.

Definition runs {A} (R : gst -> gst -> Prop) (m : GoM A) : Prop :=
  forall s a s', m s = Ret (a, s') -> R s s'.

(** Requests that write the benchmark itself. *)
Definition no_update (r : request) : Prop :=
  match r with RUpdate _ | RStatusUpdate _ => False | _ => True end.

(** Only requests of [P] are made, and the control channels stay as they are. *)
Definition quiet (P : request -> Prop) (s s' : gst) : Prop :=
  (exists tr, trace s' = trace s ++ tr /\ Forall P tr) /\
  controlChannels s' = controlChannels s /\ listeners s' = listeners s /\ next_chan s' = next_chan s.

(** The same, and the instance counters stay as they are. *)
Definition calm (P : request -> Prop) (s s' : gst) : Prop :=
  quiet P s s' /\ workloadInstance s' = workloadInstance s.

#[export] Instance quiet_preorder P : PreOrder (quiet P).
Proof.
  split.
  - intros s. split_and!; [|done..]. exists []. by rewrite app_nil_r.
  - intros s1 s2 s3 ((t1 & E1 & F1) & C1 & L1 & N1) ((t2 & E2 & F2) & C2 & L2 & N2).
    split_and!; [|congruence..]. exists (t1 ++ t2). rewrite E2, E1, app_assoc.
    split; [done|]. by apply Forall_app.
Qed.

#[export] Instance calm_preorder P : PreOrder (calm P).
Proof.
  split.
  - intros s. by split.
  - intros s1 s2 s3 [H1 E1] [H2 E2]. split; [by etransitivity|congruence].
Qed.

Create HintDb runs.

Section rules.
Context {E : Env}.

Lemma runs_ret {A} R `{!PreOrder R} (a : A) : runs R (mret a).
Proof. intros s b s' [= _ <-]. reflexivity. Qed.

Lemma runs_bind {A B} R `{!PreOrder R} (m : GoM A) (f : A -> GoM B) :
  runs R m -> (forall a, runs R (f a)) -> runs R (m ≫= f).
Proof.
  intros Hm Hf s b s'. unfold mbind, gom_bind. destruct (m s) as [[a s1]| |] eqn:Em; try discriminate.
  intros H. transitivity s1; [by eapply Hm|by eapply Hf].
Qed.

Lemma runs_panic {A} R (why : string) : runs R (panicM why : GoM A).
Proof. intros s a s' [=]. Qed.

Lemma runs_getS {A} R `{!PreOrder R} (f : gst -> A) : runs R (getS f).
Proof. intros s a s' [= _ <-]. reflexivity. Qed.

Lemma runs_liftO {A} R `{!PreOrder R} (m : outcome A) : runs R (liftO m).
Proof. intros s a s'. unfold liftO. destruct m; try discriminate. intros [= _ <-]. reflexivity. Qed.

Lemma runs_calm {A} P (m : GoM A) : runs (calm P) m -> runs (quiet P) m.
Proof. intros H s a s' Hs. by destruct (H s a s' Hs). Qed.

Lemma runs_ask (P : request -> Prop) r : P r -> runs (calm P) (ask r).
Proof.
  intros Hr s a s' [= _ <-]. split; [|done]. split_and!; [|done..]. exists [r]. by repeat constructor.
Qed.

Lemma runs_forM_ {A} R `{!PreOrder R} (f : A -> GoM unit) l : (forall x, runs R (f x)) -> runs R (forM_ f l).
Proof.
  intros Hf. induction l as [|x l IH]; simpl; [by apply runs_ret|]. by refine (runs_bind R _ _ _ _).
Qed.

Lemma runs_forM_err {A} R `{!PreOrder R} (f : A -> GoM error) l :
  (forall x, runs R (f x)) -> runs R (forM_err f l).
Proof.
  intros Hf. induction l as [|x l IH]; simpl; [by apply runs_ret|].
  refine (runs_bind R _ _ _ _); [done|]. intros [e|]; [by apply runs_ret|done].
Qed.

(** Two bind inversions. *)
Lemma bind_Ret {A B} (m : GoM A) (f : A -> GoM B) s b s' :
  (m ≫= f) s = Ret (b, s') -> exists a s1, m s = Ret (a, s1) /\ f a s1 = Ret (b, s').
Proof.
  unfold mbind, gom_bind. destruct (m s) as [[a s1]| |]; try discriminate. eauto.
Qed.

Lemma ask_Ret r s a s' :
  ask r s = Ret (a, s') -> a = answer (trace s) r /\ trace s' = trace s ++ [r] /\
    controlChannels s' = controlChannels s /\ listeners s' = listeners s /\
    next_chan s' = next_chan s /\ workloadInstance s' = workloadInstance s.
Proof. intros [= <- <-]. done. Qed.
End rules.

#[export] Hint Resolve runs_ret runs_panic runs_getS runs_liftO runs_calm : runs.
#[export] Hint Extern 5 (runs _ (ask _)) =>
  match goal with |- runs (calm ?P) (ask ?r) => exact (runs_ask P r I) end : runs.

(** Follow the code: sequencing, loops, case distinctions, known calls. *)
Ltac runs_tac :=
  repeat first
    [ solve [eauto with runs typeclass_instances]
    | match goal with
      | |- runs ?R (_ ≫= _) => refine (runs_bind R _ _ _ _); [|intros ?]
      | |- runs ?R (forM_ _ _) => refine (runs_forM_ R _ _ _); intros ?
      | |- runs ?R (forM_err _ _) => refine (runs_forM_err R _ _ _); intros ?
      | |- runs _ (let '(_, _) := ?x in _) => destruct x
      | |- runs _ (match ?x with _ => _ end) => destruct x
      | |- runs _ (if ?x then _ else _) => destruct x
      end ].

Section calm.
Context {E : Env} (ScriptsDir : string).

Abbreviation Q := (calm no_update).

Lemma HttpPost_calm r u : runs Q (OutputPkg.HttpPost r u).
Proof. unfold OutputPkg.HttpPost. runs_tac. Qed.
Hint Resolve HttpPost_calm : runs.

Lemma doOutput_calm outs r o b : runs Q (doOutput outs r o b).
Proof. revert r. induction outs as [|x outs IH]; intros r; simpl; runs_tac. Qed.
Hint Resolve doOutput_calm : runs.

Lemma metric_calm bm t l : runs Q (metric bm t l).
Proof. unfold metric, Metric. runs_tac. Qed.
Hint Resolve metric_calm : runs.

Lemma Output_calm n bm a b c : runs Q (Output_ n bm a b c).
Proof. unfold Output_. runs_tac. Qed.

Lemma createObj_calm bm o mk : runs Q (createObj bm o mk).
Proof. unfold createObj. runs_tac. Qed.
Hint Resolve createObj_calm : runs.

Lemma createTmp_calm bm n : runs Q (createTmpConfigMapFromDisk ScriptsDir bm n).
Proof. unfold createTmpConfigMapFromDisk, loadScript. runs_tac. Qed.
Hint Resolve createTmp_calm : runs.

Lemma getParserContainerImage_calm n : runs Q (getParserContainerImage n).
Proof. unfold getParserContainerImage. runs_tac. Qed.
Hint Resolve getParserContainerImage_calm : runs.

Lemma cloneParser_calm bm n : runs Q (cloneParser bm n).
Proof. unfold cloneParser. runs_tac. Qed.
Hint Resolve cloneParser_calm : runs.

Lemma addParserContainer_calm bm o p f : runs Q (addParserContainer bm o p f).
Proof. unfold addParserContainer, addParserContainerToObj. runs_tac. Qed.

Lemma addOutputContainer_calm bm o n f : runs Q (addOutputContainer ScriptsDir bm o n f).
Proof. unfold addOutputContainer, addOutputContainerToObj. runs_tac. Qed.

Lemma addPodWatcherToken_calm o : runs Q (addPodWatcherToken o).
Proof. unfold addPodWatcherToken. runs_tac. Qed.
Hint Resolve addParserContainer_calm addOutputContainer_calm addPodWatcherToken_calm : runs.

Lemma setupForOutput_calm bm o : runs Q (setupForOutput ScriptsDir bm o).
Proof. unfold setupForOutput, addOutputVol, addCountdoneScript. runs_tac. Qed.
Hint Resolve setupForOutput_calm : runs.

Lemma add_output_calm bm o p f k : runs Q (add_output ScriptsDir bm o p f k).
Proof. unfold add_output. runs_tac. Qed.
Hint Resolve add_output_calm : runs.

Lemma addContainers_calm bm o an a : runs Q (addContainers ScriptsDir bm o an a).
Proof.
  assert (forall role fs o, runs Q (add_output_files ScriptsDir bm role o fs)) as H.
  { intros role fs. induction fs as [|f fs IH]; intros o'; simpl; runs_tac. }
  unfold addContainers. destruct (OutputFiles a); [|apply H]. runs_tac.
Qed.
Hint Resolve addContainers_calm : runs.

Lemma prepareAndRun_calm bm w n a cm b : runs Q (prepareAndRun ScriptsDir bm w n a cm b).
Proof. unfold prepareAndRun, replaceVars, addCNSBLabels, set_env, addSyncContainer. runs_tac. Qed.
Hint Resolve prepareAndRun_calm : runs.

Lemma replaceVars_calm s a w n nm cm : runs Q (replaceVars s a w n nm cm).
Proof. unfold replaceVars. runs_tac. Qed.
Hint Resolve replaceVars_calm : runs.

Lemma CreateVolume_calm bm v : runs Q (CreateVolume bm v).
Proof. unfold CreateVolume. runs_tac. Qed.

Lemma CreateSnapshot_calm bm s n : runs Q (CreateSnapshot bm s n).
Proof. unfold CreateSnapshot. runs_tac. Qed.

Lemma DeleteObj_calm sort d : runs Q (DeleteObj sort d).
Proof. unfold DeleteObj. runs_tac. Qed.

Lemma ScaleObj_calm bm s n : runs Q (ScaleObj bm s n).
Proof. unfold ScaleObj. runs_tac. Qed.

Lemma sets_complete_calm c n l : runs Q (sets_complete c n l).
Proof. revert c n. induction l as [|x l IH]; intros c n; simpl; runs_tac. Qed.
Hint Resolve sets_complete_calm : runs.

Lemma CountCompletions_calm n : runs Q (CountCompletions n).
Proof.
  unfold CountCompletions, sum_counts, PodsComplete, JobsComplete, StatefulSetsComplete, PVCsComplete.
  runs_tac.
Qed.
Hint Resolve CountCompletions_calm : runs.

Lemma CheckInit_calm l : runs Q (CheckInit l).
Proof. induction l as [|a l IH]; simpl; runs_tac. Qed.

Lemma ReconcileInstances_calm bm l : runs Q (ReconcileInstances ScriptsDir bm l).
Proof. unfold ReconcileInstances, reconcile_workload, reconcile_key. runs_tac. Qed.
End calm.

#[export] Hint Resolve HttpPost_calm doOutput_calm metric_calm Output_calm createObj_calm
  createTmp_calm getParserContainerImage_calm cloneParser_calm addParserContainer_calm
  addOutputContainer_calm addPodWatcherToken_calm setupForOutput_calm add_output_calm
  addContainers_calm prepareAndRun_calm replaceVars_calm CreateVolume_calm CreateSnapshot_calm
  DeleteObj_calm ScaleObj_calm sets_complete_calm CountCompletions_calm CheckInit_calm
  ReconcileInstances_calm : runs.

Section quiet.
Context {E : Env} (ScriptsDir : string).

Lemma set_instance_quiet w n : runs (quiet no_update) (set_instance w n).
Proof.
  intros s a s' [= _ <-]. split_and!; [|done..]. exists []. by rewrite app_nil_r.
Qed.
Hint Resolve set_instance_quiet : runs.

Lemma RunWorkload_quiet bm a n : runs (quiet no_update) (RunWorkload ScriptsDir bm a n).
Proof. unfold RunWorkload, run_parser_key, run_object_key, run_instance, get_instance. runs_tac. Qed.

End quiet.

#[export] Hint Resolve set_instance_quiet RunWorkload_quiet : runs.
