(* ===== verification/ReconcileThm.v ===== *)
(** * Correctness of the reconciler

    The life cycle of a benchmark as the status updates show it, the accounting
    of goroutines on the control channels, and the conditions of completion. *)
From S2P Require Import Prelude GoStrings GoTime GoJson GoDuration BenchmarkTypes KubeEnv Utils.
From S2P Require Import OutputPkg PodUtils CreateObj Workload Completion Actions Reconciler Effects.

(** ** Status updates in a trace *)
Definition no_status (r : request) : Prop := match r with RStatusUpdate _ => False | _ => True end.

Definition emits (P : request -> Prop) (s s' : gst) : Prop :=
  exists tr, trace s' = trace s ++ tr /\ Forall P tr.

(** At most one status update, which satisfies [B]. *)
Definition one_status (B : Benchmark -> Prop) (s s' : gst) : Prop :=
  exists tr, trace s' = trace s ++ tr /\
    (Forall no_status tr \/
     exists t1 b t2, tr = t1 ++ RStatusUpdate b :: t2 /\ Forall no_status t1 /\ Forall no_status t2 /\ B b).

#[export] Instance emits_preorder P : PreOrder (emits P).
Proof.
  split.
  - intros s. exists []. by rewrite app_nil_r.
  - intros s1 s2 s3 (t1 & E1 & F1) (t2 & E2 & F2). exists (t1 ++ t2).
    rewrite E2, E1, app_assoc. split; [done|]. by apply Forall_app.
Qed.

Lemma emits_one B s s' : emits no_status s s' -> one_status B s s'.
Proof. intros (tr & E & F). exists tr. split; [done|by left]. Qed.

Lemma emits_then_one B s1 s2 s3 : emits no_status s1 s2 -> one_status B s2 s3 -> one_status B s1 s3.
Proof.
  intros (t0 & E0 & F0) (t & E & H). exists (t0 ++ t). rewrite E, E0, app_assoc. split; [done|].
  destruct H as [H|(t1 & b & t2 & -> & H1 & H2 & Hb)].
  - left. by apply Forall_app.
  - right. exists (t0 ++ t1), b, t2. rewrite app_assoc. split_and!; [done| |done|done]. by apply Forall_app.
Qed.

Lemma one_then_emits B s1 s2 s3 : one_status B s1 s2 -> emits no_status s2 s3 -> one_status B s1 s3.
Proof.
  intros (t & E & H) (t0 & E0 & F0). exists (t ++ t0). rewrite E0, E, app_assoc. split; [done|].
  destruct H as [H|(t1 & b & t2 & -> & H1 & H2 & Hb)].
  - left. by apply Forall_app.
  - right. exists t1, b, (t2 ++ t0). rewrite <- app_assoc. split_and!; [done|done| |done]. by apply Forall_app.
Qed.

Lemma one_status_mono (P Q : Benchmark -> Prop) s s' :
  (forall b, P b -> Q b) -> one_status P s s' -> one_status Q s s'.
Proof.
  intros HPQ (tr & Et & [H|(t1 & b & t2 & H1 & H2 & H3 & H4)]); exists tr; (split; [done|]).
  - by left.
  - right. exists t1, b, t2. eauto.
Qed.

Section rules.
Context {E : Env}.

Lemma runs_seq {A B} (R1 R2 R3 : gst -> gst -> Prop) (m : GoM A) (f : A -> GoM B) :
  (forall x y z, R1 x y -> R2 y z -> R3 x z) -> runs R1 m ->
  (forall a, (exists s s', m s = Ret (a, s')) -> runs R2 (f a)) -> runs R3 (m ≫= f).
Proof.
  intros HR Hm Hf s b s' H. apply bind_Ret in H as (a & s1 & H1 & H2).
  eapply HR; [by eapply Hm|]. eapply Hf; eauto.
Qed.

Lemma runs_emits {A} (m : GoM A) : runs (quiet no_update) m -> runs (emits no_status) m.
Proof.
  intros H s a s' Hs. destruct (H s a s' Hs) as ((tr & Et & F) & _). exists tr. split; [done|].
  eapply Forall_impl; [|exact F]. by intros [].
Qed.

Lemma runs_one {A} B (m : GoM A) : runs (emits no_status) m -> runs (one_status B) m.
Proof. intros H s a s' Hs. apply emits_one. by eapply H. Qed.

Lemma runs_ask_emits r : no_status r -> runs (emits no_status) (ask r).
Proof. intros Hr s a s' [= _ <-]. exists [r]. by repeat constructor. Qed.

Lemma runs_putS_emits f : (forall s, trace (f s) = trace s) -> runs (emits no_status) (putS f).
Proof. intros Hf s a s' [= _ <-]. exists []. by rewrite app_nil_r, Hf. Qed.

Lemma send_emits c : runs (emits no_status) (send c).
Proof.
  intros s a s'. unfold send. destruct c as [c|]; [|done].
  destruct (listeners s !! c) as [[|n]|]; try done. intros [= _ <-]. exists []. by rewrite app_nil_r.
Qed.
End rules.

#[export] Hint Resolve send_emits runs_emits : runs.
#[export] Hint Extern 5 (runs (emits _) (ask _)) =>
  match goal with |- runs _ (ask ?r) => exact (runs_ask_emits r I) end : runs.
#[export] Hint Extern 5 (runs (emits _) (putS _)) => apply runs_putS_emits; reflexivity : runs.

Section reconcile.
Context {E : Env} (ScriptsDir : string) (sort : list ListItem -> list ListItem).

Lemma stopRoutines_emits i : runs (emits no_status) (stopRoutines i).
Proof.
  unfold stopRoutines, lookup_channel. runs_tac.
  induction (Z.to_nat _) as [|n IH]; simpl; runs_tac.
Qed.
Hint Resolve stopRoutines_emits : runs.

Lemma cleanup_emits i : runs (emits no_status) (cleanup i).
Proof. unfold cleanup. runs_tac. Qed.
Hint Resolve cleanup_emits : runs.

Lemma updateInstance_emits i : runs (emits no_status) (updateInstance i).
Proof. unfold updateInstance. runs_tac. Qed.
Hint Resolve updateInstance_emits : runs.

Lemma updateInstanceStatus_one (B : Benchmark -> Prop) i :
  B i -> runs (one_status B) (updateInstanceStatus i).
Proof.
  intros Hi. unfold updateInstanceStatus.
  apply (runs_seq (one_status B) (emits no_status)); [apply one_then_emits| |intros; runs_tac].
  intros s a s' [= _ <-]. exists [RStatusUpdate i]. split; [done|]. right. by exists [], i, [].
Qed.

Lemma update_both_one (B : Benchmark -> Prop) i res : B i -> runs (one_status B) (update_both i res).
Proof.
  intros Hi. unfold update_both.
  apply (runs_seq (one_status B) (emits no_status));
    [apply one_then_emits|by apply updateInstanceStatus_one|]. intros [i' err] _. runs_tac.
Qed.

Lemma start_rates_emits c l n : runs (emits no_status) (start_rates c l n).
Proof.
  revert n. induction l as [|r l IH]; intros n; simpl;
    unfold createConstantRate, createConstantIncreaseDecreaseRate, spawn; runs_tac.
Qed.
Hint Resolve start_rates_emits : runs.

Lemma startRates_emits i : runs (emits no_status) (startRates i).
Proof.
  unfold startRates. refine (runs_bind _ _ _ _ _); [|intros; runs_tac].
  intros s a s' [= _ <-]. exists []. by rewrite app_nil_r.
Qed.

Lemma getCompletedPods_calm l t : runs (calm no_update) (getCompletedPods l t).
Proof.
  unfold getCompletedPods. generalize 0%Z. induction l as [|a l IH]; intros n; simpl; runs_tac.
Qed.

Lemma all_complete_calm l : runs (calm no_update) (all_complete l).
Proof. induction l as [|a l IH]; simpl; runs_tac. Qed.
Hint Resolve getCompletedPods_calm all_complete_calm : runs.

Lemma doOutputs_calm b t1 t2 t3 : runs (calm no_update) (doOutputs b t1 t2 t3).
Proof. unfold doOutputs. runs_tac. Qed.
Hint Resolve doOutputs_calm : runs.

Lemma complete_status_State n t1 t2 t3 c st st' :
  complete_status n t1 t2 t3 c st = Ret st' -> State st' = Complete.
Proof. unfold complete_status. destruct (Conditions st); [done|]. by intros [= <-]. Qed.

(** The state a status update leads to. *)
Definition next_state (st : BenchmarkState) : BenchmarkState :=
  if decide (st = Running) then Complete
  else if decide (st = Initializing) then Running else Initializing.

Definition moves_to (st : BenchmarkState) (b : Benchmark) : Prop := State (bm_Status b) = st.

(** Sequencing a step without status updates. *)
Lemma quiet_first {A B} (P : Benchmark -> Prop) (m : GoM A) (f : A -> GoM B) :
  runs (emits no_status) m -> (forall a, (exists s s', m s = Ret (a, s')) -> runs (one_status P) (f a)) ->
  runs (one_status P) (m ≫= f).
Proof. apply runs_seq. apply emits_then_one. Qed.

Lemma reconcile_complete_one i t : runs (one_status (moves_to Complete)) (reconcile_complete i t).
Proof.
  unfold reconcile_complete. apply quiet_first; [runs_tac|]. intros [n e] _.
  apply quiet_first; [runs_tac|]. intros now _.
  apply quiet_first; [runs_tac|]. intros _ _.
  apply quiet_first; [runs_tac|]. intros t1 _.
  apply quiet_first; [runs_tac|]. intros t2 _.
  apply quiet_first; [runs_tac|]. intros t3 _.
  apply quiet_first; [runs_tac|]. intros st (s & s' & Hst).
  assert (State st = Complete) as Hs.
  { unfold liftO in Hst. destruct (complete_status _ _ _ _ _ _) as [x| |] eqn:Ec; try discriminate.
    injection Hst as -> _. by eapply complete_status_State. }
  apply (runs_seq (one_status (moves_to Complete)) (emits no_status));
    [apply one_then_emits|by apply updateInstanceStatus_one|]. intros [i' err] _. runs_tac.
Qed.

Lemma reconcile_running_one i : runs (one_status (moves_to Complete)) (reconcile_running ScriptsDir i).
Proof.
  unfold reconcile_running. apply quiet_first; [runs_tac|]. intros rt _. case_decide.
  - apply quiet_first; [runs_tac|]. intros now _. destruct (before _ _); [|apply reconcile_complete_one].
    apply runs_one. runs_tac.
  - apply quiet_first; [runs_tac|]. intros [c [err|]] _; [apply runs_one; runs_tac|].
    destruct c; [apply reconcile_complete_one|apply runs_one; runs_tac].
Qed.

Lemma reconcile_initializing_one i : runs (one_status (moves_to Running)) (reconcile_initializing i).
Proof.
  unfold reconcile_initializing. apply quiet_first; [runs_tac|]. intros [done [err|]] _;
    [apply runs_one; runs_tac|]. destruct done; cbn [negb]; [|apply runs_one; runs_tac].
  apply quiet_first; [apply startRates_emits|]. intros [i' [err|]] _; [apply runs_one; runs_tac|].
  apply quiet_first; [runs_tac|]. intros t1 _. apply quiet_first; [runs_tac|]. intros t2 _.
  by apply update_both_one.
Qed.

Lemma reconcile_new_one i : runs (one_status (moves_to Initializing)) (reconcile_new ScriptsDir i).
Proof.
  unfold reconcile_new. apply quiet_first; [unfold fixupSpec, addDefaultOutputs; runs_tac|].
  intros [i1 fixed] _. destruct fixed; [apply runs_one; runs_tac|].
  apply quiet_first; [runs_tac|]. intros t _.
  apply quiet_first; [unfold createVolumes; runs_tac|]. intros _ _.
  apply quiet_first; [unfold startWorkloads; runs_tac|]. intros [err|] _; [apply runs_one; runs_tac|].
  by apply update_both_one.
Qed.

(** C5: the life cycle.  One call of [Reconcile] makes at most one status
    update, and that update moves the benchmark that was read to the state
    after its own: new, then initializing, running and complete.  A benchmark
    that is complete or being deleted gets no status update any more. *)
Theorem reconcile_life_cycle instance s r s' :
  reconcile_instance ScriptsDir instance s = Ret (r, s') ->
  exists tr, trace s' = trace s ++ tr /\
    (Forall no_status tr \/
     (exists t1 b t2, tr = t1 ++ RStatusUpdate b :: t2 /\ Forall no_status t1 /\ Forall no_status t2 /\
        State (bm_Status b) = next_state (State (bm_Status instance)) /\
        State (bm_Status instance) <> Complete /\ bm_DeletionTimestamp instance = None)).
Proof.
  intros H. change (one_status (fun b => State (bm_Status b) = next_state (State (bm_Status instance)) /\
        State (bm_Status instance) <> Complete /\ bm_DeletionTimestamp instance = None) s s').
  revert H. unfold reconcile_instance, next_state. destruct (bm_DeletionTimestamp instance).
  - intros H. apply emits_one. eapply (_ : runs (emits no_status) (reconcile_deleted instance)), H.
    Unshelve. unfold reconcile_deleted, lookup_channel, delete_channel. runs_tac.
  - case_decide as Hc; [intros [= _ <-]; apply emits_one; reflexivity|].
    case_decide as Hr; [|case_decide as Hi]; intros H.
    + eapply one_status_mono; [|by eapply reconcile_running_one]. by intros b ->.
    + eapply one_status_mono; [|by eapply reconcile_initializing_one]. by intros b ->.
    + eapply one_status_mono; [|by eapply reconcile_new_one]. by intros b ->.
Qed.
End reconcile.

(** ** Witness: a new benchmark with one volume *)
Definition ex_volume : Volume :=
  {| vol_Name := "v"; vol_Count := 2; vol_Spec := JNull; vol_RateName := "" |}.

Definition out_named (n : string) : Output := {| out_Name := n; HttpPostSpec := {| URL := "http://c" |} |}.

Definition ex_rate : Rate :=
  {| rate_Name := "r"; ConstantRateSpec := {| Interval := 5 |};
     ConstantIncreaseDecreaseRateSpec := {| IncInterval := 0; DecInterval := 0; Max := 0; Min := 0 |} |}.

Definition ex_workload : Workload :=
  {| wl_Name := "w"; wl_Workload := "fio"; Vars := ∅; wl_Count := 2; SyncGroup := "";
     OutputFiles := []; wl_RateName := "" |}.

Definition ex_spec : BenchmarkSpec :=
  {| Runtime := "10s"; Volumes := [ex_volume]; Workloads := [ex_workload]; ControlOperations := [];
     Rates := [ex_rate]; WorkloadsOutput := "defaultWorkloadsOutput";
     MetadataOutput := "defaultMetadataOutput"; MetricsOutput := "defaultMetricsOutput";
     Outputs := [out_named "defaultWorkloadsOutput"; out_named "defaultMetadataOutput";
                 out_named "defaultMetricsOutput"] |}.

Definition ex_instance (st : BenchmarkState) : Benchmark := sample_bm ex_spec (sample_status st).

Definition ex_env : Env := simple_env ex_spec "".

Definition after_call {A} (m : GoM A) (s : gst) : gst :=
  match m s with Ret (_, s') => s' | _ => s end.

Definition ex_new_run : gst := Eval vm_compute in
  after_call (reconcile_instance (E := ex_env) "/scripts" (ex_instance "")) init_gst.

Lemma reconcile_life_cycle_witness :
  exists tr, trace ex_new_run = [] ++ tr /\
    (Forall no_status tr \/
     (exists t1 b t2, tr = t1 ++ RStatusUpdate b :: t2 /\ Forall no_status t1 /\ Forall no_status t2 /\
        State (bm_Status b) = Initializing /\ "" <> Complete /\ None = @None time)).
Proof.
  apply (reconcile_life_cycle (E := ex_env) "/scripts" (ex_instance "") init_gst (requeue, None)).
  vm_compute. reflexivity.
Defined.
