(* ===== verification/LifeCycle.v ===== *)
(** * The life of a benchmark over many calls of the controller

    The abstract machine [life] has four states; a measurement begins at an
    instant and is over, when the benchmark has a run time, no earlier than
    that much later.  The controller, called again and again on a server that
    stores what it is sent, with operations of rates in between, refines it:
    the stored status always represents a state that the machine can reach. *)
From stdpp Require Import relations.
From S2P Require Import Prelude GoStrings GoTime GoJson GoDuration BenchmarkTypes KubeEnv Utils.
From S2P Require Import OutputPkg PodUtils CreateObj Workload Completion Actions Reconciler Effects ReconcileThm.

(** ** The abstract machine *)
Inductive life :=
  | Fresh
  | Starting
  | Measuring (began : time)
  | Finished (began ended : time).

Inductive life_step (runtime : string) : life -> life -> Prop :=
  | life_start : life_step runtime Fresh Starting
  | life_measure t : life_step runtime Starting (Measuring t)
  | life_finish t e :
      (forall d, runtime <> "" -> ParseDuration runtime = Some d -> (t + d <= e)%Z) ->
      life_step runtime (Measuring t) (Finished t e).

(** One condition, of the given truth value. *)
Definition one_condition (v : string) (s : BenchmarkStatus) : Prop := exists t, Conditions s = [condition v t].

(** The status that stands for a state of the machine. *)
Definition represents (runtime : string) (l : life) (s : BenchmarkStatus) : Prop :=
  match l with
  | Fresh => State s <> Initializing /\ State s <> Running /\ State s <> Complete
  | Starting => State s = Initializing /\ one_condition "False" s
  | Measuring t =>
      State s = Running /\ one_condition "False" s /\ InitCompletionTime s = t /\
      forall d, runtime <> "" -> ParseDuration runtime = Some d -> TargetCompletionTime s = (t + d)%Z
  | Finished t e =>
      State s = Complete /\ one_condition "True" s /\ InitCompletionTime s = t /\ CompletionTime s = e
  end.

(** The machine never goes back. *)
Definition rank (l : life) : nat :=
  match l with Fresh => 0 | Starting => 1 | Measuring _ => 2 | Finished _ _ => 3 end.

(** ** The server *)
Section server.
Context {E : Env} (name : string).

(** The status that is stored after a trace, newest request first. *)
Fixpoint stored_rev (init : BenchmarkStatus) (rtr : list request) : BenchmarkStatus :=
  match rtr with
  | [] => init
  | RStatusUpdate b :: rtr' =>
      match answer (rev rtr') (RStatusUpdate b) with
      | inl b' => if decide (bm_Name b = name) then bm_Status b' else stored_rev init rtr'
      | inr _ => stored_rev init rtr'
      end
  | _ :: rtr' => stored_rev init rtr'
  end.

Definition stored (init : BenchmarkStatus) (tr : list request) : BenchmarkStatus := stored_rev init (rev tr).

(** What the controller relies on: reads return the stored object of that name,
    a status is stored as it was sent, other updates leave the status alone,
    the clock does not go back. *)
Class Server (runtime : string) (init : BenchmarkStatus) := {
  get_name tr ns n b : answer tr (RGetBenchmark ns n) = inl b -> bm_Name b = n;
  get_stored tr ns b : answer tr (RGetBenchmark ns name) = inl b ->
    bm_Status b = stored init tr /\ Runtime (bm_Spec b) = runtime;
  put_status tr b b' : answer tr (RStatusUpdate b) = inl b' -> bm_Status b' = bm_Status b;
  clock tr tr' : tr `prefix_of` tr' -> (answer tr RNow <= answer tr' RNow)%Z }.

Lemma stored_snoc init tr r :
  stored init (tr ++ [r]) =
    match r with
    | RStatusUpdate b =>
        match answer tr (RStatusUpdate b) with
        | inl b' => if decide (bm_Name b = name) then bm_Status b' else stored init tr
        | inr _ => stored init tr
        end
    | _ => stored init tr
    end.
Proof.
  unfold stored. rewrite rev_unit. destruct r; try reflexivity. cbn [stored_rev]. by rewrite rev_involutive.
Qed.

Lemma stored_quiet init tr1 tr2 : Forall no_status tr2 -> stored init (tr1 ++ tr2) = stored init tr1.
Proof.
  induction tr2 as [|r tr2 IH] using rev_ind; [by rewrite app_nil_r|].
  intros [H [Hr _]%Forall_cons_1]%Forall_app. rewrite app_assoc, stored_snoc, IH by done. by destruct r.
Qed.

(** A call that makes at most one status update stores what it sent, or leaves
    the stored status as it was. *)
Lemma stored_one {runtime init} `{!Server runtime init} B s s' :
  one_status B s s' ->
  stored init (trace s') = stored init (trace s) \/
  exists b, B b /\ bm_Name b = name /\ stored init (trace s') = bm_Status b.
Proof.
  intros (tr & -> & [H|(t1 & b & t2 & -> & H1 & H2 & Hb)]); [left; by apply stored_quiet|].
  rewrite (cons_middle _ t1), !app_assoc, stored_quiet, stored_snoc by done.
  destruct (answer _ _) as [b'|] eqn:Ea; [|left; by apply stored_quiet].
  case_decide; [|left; by apply stored_quiet]. right. exists b. split_and!; [done..|].
  by apply put_status in Ea.
Qed.
End server.

(** ** One call *)
#[local] Hint Resolve stopRoutines_emits cleanup_emits updateInstance_emits startRates_emits
  getCompletedPods_calm all_complete_calm doOutputs_calm : runs.

Section calls.
Context {E : Env} (ScriptsDir : string) (sort : list ListItem -> list ListItem).

(** The clock shows at least [t] from here on. *)
Definition clock_from (t : time) (s : gst) : Prop :=
  forall tr, trace s `prefix_of` tr -> (t <= answer tr RNow)%Z.

Lemma clock_from_emits P t s s' : emits P s s' -> clock_from t s -> clock_from t s'.
Proof. intros (tr & E1 & _) H tr' Hp. apply H. etransitivity; [|exact Hp]. rewrite E1. by apply prefix_app_r. Qed.

(** The update that finishes a measurement. *)
Definition finishes (t : time) (i b : Benchmark) : Prop :=
  bm_Name b = bm_Name i /\ State (bm_Status b) = Complete /\
  InitCompletionTime (bm_Status b) = InitCompletionTime (bm_Status i) /\
  (t <= CompletionTime (bm_Status b))%Z /\
  exists c conds w, Conditions (bm_Status i) = c :: conds /\ Conditions (bm_Status b) = condition "True" w :: conds.

Lemma clock_now t s a s' : clock_from t s -> ask RNow s = Ret (a, s') -> (t <= a)%Z.
Proof. intros H [-> _]%ask_Ret. by apply H. Qed.

(** One call of the sequence: what was emitted, and the clock, carried along. *)
Ltac next_call H :=
  let s1 := fresh "s" in let H1 := fresh "H" in let Hem := fresh "Hem" in
  apply bind_Ret in H as (? & s1 & H1 & H);
  match type of H1 with ?m ?s0 = Ret (_, _) =>
    assert (emits no_status s0 s1) as Hem by (refine ((_ : runs (emits no_status) m) _ _ _ H1); runs_tac)
  end.

Lemma reconcile_complete_finishes i rt t s r s' :
  reconcile_complete i rt s = Ret (r, s') -> clock_from t s -> one_status (finishes t i) s s'.
Proof.
  intros H Hc. unfold reconcile_complete in H. next_call H. destruct x as [n e]. do 2 next_call H.
  assert (clock_from t s2) as Hc2 by (do 3 (eapply clock_from_emits; [eassumption|]); done).
  do 3 next_call H. apply (clock_now t) in H3; [|done].
  apply bind_Ret in H as (st & s6 & Hst & H). unfold liftO in Hst.
  destruct (complete_status _ _ _ _ _ _) as [st'| |] eqn:Est; try discriminate. injection Hst as -> <-.
  assert (emits no_status s s5) as Hem5 by (do 6 (etransitivity; [eassumption|]); reflexivity).
  eapply emits_then_one; [exact Hem5|].
  revert H. apply (runs_seq (one_status (finishes t i)) (emits no_status)); [apply one_then_emits| |].
  - apply updateInstanceStatus_one. unfold complete_status in Est. cbn in Est. unfold finishes. cbn.
    destruct (Conditions (bm_Status i)) as [|c conds]; [discriminate Est|]. injection Est as <-. cbn.
    split_and!; [done..|]. by eexists _, _, _.
  - intros [i' err] _. destruct err; runs_tac.
Qed.

(** A running benchmark with a run time is finished at its target time at the
    earliest. *)
Lemma reconcile_running_finishes i s r s' :
  (forall tr tr', tr `prefix_of` tr' -> (answer tr RNow <= answer tr' RNow)%Z) ->
  reconcile_running ScriptsDir i s = Ret (r, s') ->
  one_status (fun b => exists t, finishes t i b /\
    (Runtime (bm_Spec i) <> "" -> (TargetCompletionTime (bm_Status i) <= t)%Z)) s s'.
Proof.
  intros Hclock H. unfold reconcile_running in H. next_call H. case_decide as Hrt.
  - next_call H. apply (ask_Ret RNow) in H1 as (-> & Htr & _). eapply emits_then_one; [exact Hem|].
    eapply emits_then_one; [exact Hem0|]. destruct (before _ _) eqn:Eb.
    + apply emits_one. refine ((_ : runs (emits no_status) (_ ≫= _)) _ _ _ H). runs_tac.
    + eapply one_status_mono; [|eapply reconcile_complete_finishes; [exact H|]].
      * intros b Hb. exists (answer (trace s0) RNow). split; [exact Hb|]. intros _.
        unfold before in Eb. lia.
      * intros tr Hp. apply Hclock. etransitivity; [|exact Hp]. rewrite Htr. by apply prefix_app_r.
  - next_call H. eapply emits_then_one; [exact Hem|]. eapply emits_then_one; [exact Hem0|].
    destruct x0 as [complete [err|]]; [injection H as _ <-; by apply emits_one|].
    destruct complete; [|injection H as _ <-; by apply emits_one].
    eapply one_status_mono; [|eapply (reconcile_complete_finishes i x (answer (trace s1) RNow)); [exact H|]].
    + intros b Hb. by exists (answer (trace s1) RNow).
    + intros tr Hp. by apply Hclock.
Qed.

(** The update that begins a measurement. *)
Definition begins (i b : Benchmark) : Prop :=
  exists t, bm_Name b = bm_Name i /\ State (bm_Status b) = Running /\ InitCompletionTime (bm_Status b) = t /\
    Conditions (bm_Status b) = Conditions (bm_Status i) /\
    forall d, Runtime (bm_Spec i) <> "" -> ParseDuration (Runtime (bm_Spec i)) = Some d ->
      TargetCompletionTime (bm_Status b) = (t + d)%Z.

Lemma startRates_same i s i' err s' :
  startRates i s = Ret (i', err, s') ->
  bm_Name i' = bm_Name i /\ Runtime (bm_Spec i') = Runtime (bm_Spec i) /\
  Conditions (bm_Status i') = Conditions (bm_Status i).
Proof.
  unfold startRates. intros H. apply bind_Ret in H as (c & s1 & _ & H).
  apply bind_Ret in H as ([n [e|]] & s2 & _ & H); injection H as <- _ _; [done|].
  unfold add_finalizer. by destruct (_ && _).
Qed.

Lemma reconcile_initializing_begins i s r s' :
  reconcile_initializing i s = Ret (r, s') -> one_status (begins i) s s'.
Proof.
  intros H. unfold reconcile_initializing in H. next_call H. eapply emits_then_one; [exact Hem|].
  destruct x as [done [err|]]; [injection H as _ <-; by apply emits_one|].
  destruct done; cbn [negb] in H; [|injection H as _ <-; by apply emits_one].
  next_call H. eapply emits_then_one; [exact Hem0|]. destruct x as [i' [err|]].
  { apply emits_one. refine ((_ : runs (emits no_status) (_ ≫= _)) _ _ _ H). runs_tac. }
  apply startRates_same in H1 as (Hn & Hr & Hc). do 2 next_call H.
  eapply emits_then_one; [exact Hem1|]. eapply emits_then_one; [exact Hem2|].
  eapply update_both_one; [|exact H]. exists x. cbn. rewrite Hr. split_and!; [done..|].
  intros d Hd Hp. rewrite decide_True by done. by rewrite Hp.
Qed.

(** The update that starts a benchmark. *)
Definition starts (i b : Benchmark) : Prop :=
  bm_Name b = bm_Name i /\ State (bm_Status b) = Initializing /\ one_condition "False" (bm_Status b).

Lemma reconcile_new_starts i s r s' :
  reconcile_new ScriptsDir i s = Ret (r, s') -> one_status (starts i) s s'.
Proof.
  intros H. unfold reconcile_new in H. apply bind_Ret in H as ([i1 fixed] & s1 & Hf & H).
  assert (emits no_status s s1) as Hem.
  { refine ((_ : runs (emits no_status) _) _ _ _ Hf). unfold fixupSpec, addDefaultOutputs. runs_tac. }
  assert (bm_Name i1 = bm_Name i) as Hn.
  { unfold fixupSpec, addDefaultOutputs in Hf. apply bind_Ret in Hf as (names & s0 & _ & Hf).
    destruct (foldl _ _ _) as [o u]. by injection Hf as <- _ _. }
  eapply emits_then_one; [exact Hem|]. clear Hf Hem. destruct fixed.
  { apply emits_one. refine ((_ : runs (emits no_status) (_ ≫= _)) _ _ _ H). runs_tac. }
  next_call H. eapply emits_then_one; [exact Hem|].
  apply bind_Ret in H as ([] & s2 & Hv & H).
  assert (emits no_status s0 s2) as Hem1 by (refine ((_ : runs (emits no_status) _) _ _ _ Hv); unfold createVolumes; runs_tac).
  apply bind_Ret in H as (err & s3 & Hw & H).
  assert (emits no_status s2 s3) as Hem2 by (refine ((_ : runs (emits no_status) _) _ _ _ Hw); unfold startWorkloads; runs_tac).
  eapply emits_then_one; [exact Hem1|]. eapply emits_then_one; [exact Hem2|].
  destruct err as [err|]; [injection H as _ <-; by apply emits_one|].
  eapply update_both_one; [|exact H]. split_and!; [done|done|by eexists].
Qed.

(** The status update of a call, by the state of the benchmark. *)
Definition moves (i b : Benchmark) : Prop :=
  (State (bm_Status i) = Running /\ exists t, finishes t i b /\
     (Runtime (bm_Spec i) <> "" -> (TargetCompletionTime (bm_Status i) <= t)%Z)) \/
  (State (bm_Status i) = Initializing /\ begins i b) \/
  (State (bm_Status i) <> Complete /\ State (bm_Status i) <> Running /\ State (bm_Status i) <> Initializing /\
     starts i b).

Lemma moves_name i b : moves i b -> bm_Name b = bm_Name i.
Proof. intros [(_ & t & H & _)|[(_ & t & H)|(_ & _ & _ & H)]]; apply H. Qed.

Lemma reconcile_instance_moves i s r s' :
  (forall tr tr', tr `prefix_of` tr' -> (answer tr RNow <= answer tr' RNow)%Z) ->
  reconcile_instance ScriptsDir i s = Ret (r, s') -> one_status (moves i) s s'.
Proof.
  intros Hclock. unfold reconcile_instance. destruct (bm_DeletionTimestamp i).
  { intros H. apply emits_one. refine ((_ : runs (emits no_status) (reconcile_deleted i)) _ _ _ H).
    unfold reconcile_deleted, lookup_channel, delete_channel. runs_tac. }
  case_decide as Hc; [intros [= _ <-]; by apply emits_one|].
  case_decide as Hr; [|case_decide as Hi]; intros H.
  - eapply one_status_mono; [|by eapply reconcile_running_finishes]. intros b Hb. by left.
  - eapply one_status_mono; [|by eapply reconcile_initializing_begins]. intros b Hb. by right; left.
  - eapply one_status_mono; [|by eapply reconcile_new_starts]. intros b Hb. right; right. done.
Qed.

(** The states of a status and of the machine do not fit. *)
Ltac wrong_state Hs Hl :=
  solve [destruct Hl as (Hl & _); first [congruence | rewrite Hs in Hl; discriminate Hl]
        |destruct Hl as (_ & Hl & _); congruence].

(** Every such update is a step of the machine. *)
Lemma moves_step runtime l i b :
  Runtime (bm_Spec i) = runtime -> represents runtime l (bm_Status i) -> moves i b ->
  exists l', life_step runtime l l' /\ represents runtime l' (bm_Status b).
Proof.
  intros Hrt Hl [(Hs & t & (_ & Hb & Hi & Ht & c & conds & w & Hc & Hc') & Htarget)|
                 [(Hs & t & _ & Hb & Hi & Hc & Htarget)|(Hs1 & Hs2 & Hs3 & _ & Hb & w & Hc)]].
  - destruct l as [| |t0|t0 e0]; cbn in Hl; try wrong_state Hs Hl.
    destruct Hl as (_ & [w0 Hw] & Ht0 & Hd). exists (Finished t0 (CompletionTime (bm_Status b))). split.
    + apply life_finish. intros d Hne Hp. rewrite <- (Hd d Hne Hp). rewrite Hrt in Htarget. specialize (Htarget Hne). lia.
    + rewrite Hw in Hc. injection Hc as <- <-. cbn. split_and!; [done|by exists w|congruence|done].
  - destruct l as [| |t0|t0 e0]; cbn in Hl; try wrong_state Hs Hl.
    exists (Measuring t). split; [constructor|]. cbn. rewrite Hrt in Htarget.
    split_and!; [done| |done|done]. destruct Hl as (_ & w & Hw). exists w. congruence.
  - destruct l as [| |t0|t0 e0]; cbn in Hl; try wrong_state Hs1 Hl.
    exists Starting. split; [constructor|]. split; [done|by exists w].
Qed.

(** ** Many calls *)

(** The controller reconciles some benchmark, performs the operations of a rate
    that fired, or is restarted and forgets all but what the server stores. *)
Inductive controller_step (ns : string) : gst -> gst -> Prop :=
  | step_reconcile n r s s' :
      Reconcile ScriptsDir ns n s = Ret (r, s') -> controller_step ns s s'
  | step_ops bm rateName n s s' :
      runControlOps ScriptsDir sort bm rateName n s = Ret (tt, s') -> controller_step ns s s'
  | step_restart s : controller_step ns s (GSt (trace s) ∅ ∅ 0 ∅).

Lemma runControlOps_emits bm rateName n : runs (emits no_status) (runControlOps ScriptsDir sort bm rateName n).
Proof.
  apply runs_emits. unfold runControlOps, runControlOp.
  pose proof (CreateSnapshot_calm) as H1. pose proof (DeleteObj_calm) as H2. pose proof ScaleObj_calm as H3.
  pose proof CreateVolume_calm as H4. runs_tac.
Qed.

Section simulation.
Context (name ns runtime : string) (init : BenchmarkStatus) `{!Server name runtime init}.

(** One step of the controller is a step of the machine or none. *)
Lemma controller_step_simulates l s s' :
  represents runtime l (stored name init (trace s)) -> controller_step ns s s' ->
  exists l', (l' = l \/ life_step runtime l l') /\ represents runtime l' (stored name init (trace s')).
Proof.
  intros Hl Hstep. destruct Hstep as [n r s s' H|bm rn n s s' H|s]; [|exists l; split; [by left|]..].
  - unfold Reconcile in H. apply bind_Ret in H as (a & s1 & Ha & H).
    apply (ask_Ret (RGetBenchmark ns n)) in Ha as (-> & Htr & _).
    assert (stored name init (trace s1) = stored name init (trace s)) as Hst
      by (rewrite Htr; apply stored_quiet; by repeat constructor).
    rewrite <- Hst in Hl. destruct (answer (trace s) (RGetBenchmark ns n)) as [i|err] eqn:Eg.
    2: { exists l. split; [by left|]. by destruct err; injection H as _ <-. }
    apply reconcile_instance_moves in H; [|apply (clock name (init := init))].
    destruct (stored_one name (moves i) s1 s' H) as [->|(b & Hb & Hn & ->)]; [exists l; split; [by left|done]|].
    pose proof (get_name name (init := init) _ _ _ _ Eg) as Hin.
    assert (n = name) as -> by (rewrite <- Hin, <- Hn; symmetry; by apply moves_name).
    apply (get_stored name (init := init)) in Eg as [Eg Hr]. rewrite Hst, <- Eg in Hl.
    destruct (moves_step runtime l i b Hr Hl Hb) as (l' & Hs & Hl'). exists l'. split; [by right|done].
  - apply runControlOps_emits in H as (tr & -> & Htr). by rewrite stored_quiet.
  - done.
Qed.

End simulation.
End calls.

(** ** Witness: a server with one benchmark of ten seconds *)
Fixpoint last_status (rtr : list request) : BenchmarkStatus :=
  match rtr with
  | [] => sample_status ""
  | RStatusUpdate b :: rtr' => if decide (bm_Name b = "bm") then bm_Status b else last_status rtr'
  | _ :: rtr' => last_status rtr'
  end.

Definition ex_pod (n : string) : PodItem :=
  {| pi_Name := n; Phase := "Running"; ContainerStatuses := [] |}.

Definition store_answer (tr : list request) (r : request) : response r :=
  match r with
  | RGetBenchmark _ n =>
      if decide (n = "bm") then inl (sample_bm ex_spec (last_status (rev tr))) else inr ErrNotFound
  | r => sample_answer (ex_instance "") sample_cm [ex_pod "a"; ex_pod "b"] tr r
  end.

Definition store_env : Env.
Proof.
  refine {| answer := store_answer;
     decode_yaml := decode_pod;
     addLabelToSelector ls k v :=
       {| matchLabels := <[k := v]> (matchLabels ls); matchExpressions := matchExpressions ls |};
     labelSelectorAsSelector ls := inl EmptyString;
     parseToLabelSelector s := inl no_selector;
     formatLabelSelector ls := EmptyString;
     setControllerReference b m := inl m;
     setOwnerReference b m := inl m;
     encodeOutput n _ _ _ _ := Some n |}.
  intros tr m. reflexivity.
Defined.

Lemma store_env_stored tr : stored (E := store_env) "bm" (sample_status "") tr = last_status (rev tr).
Proof.
  unfold stored. induction (rev tr) as [|r rtr IH]; [done|]. destruct r; cbn [stored_rev last_status]; try exact IH.
  cbn [answer store_env store_answer sample_answer]. by rewrite IH.
Qed.

#[export] Instance store_server : Server (E := store_env) "bm" "10s" (sample_status "").
Proof.
  split.
  - intros tr ns n b. cbn. case_decide as Hn; [|done]. intros [= <-]. by rewrite Hn.
  - intros tr ns b. cbn. rewrite store_env_stored. by intros [= <-].
  - intros tr b b' [= <-]. done.
  - intros tr tr' [k ->]. cbn. rewrite length_app. unfold nanos. lia.
Qed.

(** Calls of the controller, one after the other. *)
Fixpoint calls (n : nat) (s : gst) : outcome gst :=
  match n with
  | O => Ret s
  | S k => match Reconcile (E := store_env) "/scripts" "default" "bm" s with
           | Ret (_, s') => calls k s'
           | Panic why => Panic why
           | Blocked => Blocked
           end
  end.

Lemma calls_rtc n s s' :
  calls n s = Ret s' -> rtc (controller_step (E := store_env) "/scripts" (fun l => l) "default") s s'.
Proof.
  revert s. induction n as [|n IH]; cbn [calls]; intros s; [by intros [= <-]|].
  destruct (Reconcile _ _ _ s) as [[r s1]| |] eqn:H; try discriminate. intros H1.
  eapply rtc_l; [by eapply step_reconcile|]. by apply IH.
Qed.

Definition after_calls (n : nat) : gst := match calls n init_gst with Ret s => s | _ => init_gst end.

Definition ex_final : gst := Eval vm_compute in after_calls 4.

