(* ===== verification/Safety.v ===== *)
(** * The controller does not panic

    The type assertions of podutils.go, [*job.Spec.Completions],
    [Conditions[0]] and [Remove] on a slice it ranges over are where the
    controller can panic.  On a cluster whose answers are as the API server
    gives them none of them does, and whatever creates objects returns. *)
From S2P Require Import Prelude GoStrings GoTime GoJson GoDuration BenchmarkTypes KubeEnv Utils.
From S2P Require Import OutputPkg PodUtils CreateObj Workload Completion Actions Reconciler ReconcileThm.

(** The nil interface or an object that satisfies [P]. *)
Definition opt_ok (P : object -> Prop) (obj : option object) : Prop := from_option P True obj.
Abbreviation opt_typed := (opt_ok typed).

(** Invariants of the functions that change the pod of an object: they hold of
    well-typed objects only, whatever the pod is. *)
Class PodInvariant (P : object -> Prop) := {
  inv_typed o : P o -> typed o;
  inv_spec o s : P o -> P (set_spec s o) }.

#[export] Instance typed_invariant : PodInvariant typed.
Proof. split; [done|]. intros o s. apply typed_set_spec. Qed.

(** ** Safe computations

    [m] does not panic, blocks only if [may_block], and a result satisfies
    [Q]. *)
Definition safe {A} (may_block : bool) (Q : A -> Prop) (m : GoM A) : Prop :=
  forall s, match m s with Ret (a, _) => Q a | Panic _ => False | Blocked => may_block = true end.

Create HintDb safe.

Section rules.
Context {E : Env} (b : bool).

Lemma safe_ret {A} (Q : A -> Prop) a : Q a -> safe b Q (mret a).
Proof. intros H s. exact H. Qed.

Lemma safe_bind {A B} (P : A -> Prop) (Q : B -> Prop) (m : GoM A) (f : A -> GoM B) :
  safe b P m -> (forall a, P a -> safe b Q (f a)) -> safe b Q (m ≫= f).
Proof.
  intros Hm Hf s. unfold mbind, gom_bind. specialize (Hm s). destruct (m s) as [[a s']| |]; [|done|done].
  by apply Hf.
Qed.

Lemma safe_mono {A} (P Q : A -> Prop) (m : GoM A) : safe b P m -> (forall a, P a -> Q a) -> safe b Q m.
Proof. intros Hm HPQ s. specialize (Hm s). destruct (m s) as [[a s']| |]; auto. Qed.

Lemma safe_true {A} (P : A -> Prop) (m : GoM A) : safe b P m -> safe b (fun _ => True) m.
Proof. intros H. by eapply safe_mono. Qed.

Lemma safe_ask (r : request) (Q : response r -> Prop) : (forall tr, Q (answer tr r)) -> safe b Q (ask r).
Proof. intros H s. apply H. Qed.

Lemma safe_ask_any r : safe b (fun _ => True) (ask r).
Proof. by apply safe_ask. Qed.

Lemma safe_getS {A} (f : gst -> A) : safe b (fun _ => True) (getS f).
Proof. done. Qed.

Lemma safe_putS f : safe b (fun _ => True) (putS f).
Proof. done. Qed.

Lemma safe_liftO {A} (Q : A -> Prop) (m : outcome A) : (exists a, m = Ret a /\ Q a) -> safe b Q (liftO m).
Proof. intros (a & -> & H) s. exact H. Qed.

Lemma safe_forM_ {A} (f : A -> GoM unit) l :
  (forall x, safe b (fun _ => True) (f x)) -> safe b (fun _ => True) (forM_ f l).
Proof. intros Hf. induction l as [|x l IH]; [done|]. by eapply safe_bind. Qed.

Lemma safe_forM_err {A} (f : A -> GoM error) l :
  (forall x, safe b (fun _ => True) (f x)) -> safe b (fun _ => True) (forM_err f l).
Proof. intros Hf. induction l as [|x l IH]; [done|]. eapply safe_bind; [done|]. by intros [err|] _. Qed.
End rules.

#[export] Hint Resolve safe_getS safe_putS : safe.
#[export] Hint Extern 1 (safe _ _ (ask _)) =>
  match goal with |- safe ?b _ (ask ?r) => exact (safe_ask_any b r) end : safe.
#[export] Hint Extern 1 (safe _ _ (mret _)) => apply safe_ret; cbn; auto : safe.

(** Follow the code; a call whose result matters is left to its lemma. *)
Ltac safe_tac :=
  repeat first
    [ solve [eauto with safe]
    | match goal with
      | |- safe _ _ (_ ≫= _) => eapply safe_bind; [solve [eauto with safe]|intros ? ?]
      | |- safe ?b _ (@mbind _ _ unit _ _ _) => apply (safe_bind b (fun _ => True)); [|intros ? _]
      | |- safe ?b _ (@mbind _ _ error _ _ _) => apply (safe_bind b (fun _ => True)); [|intros ? _]
      | |- safe _ _ (forM_ _ _) => apply safe_forM_; intros ?
      | |- safe _ _ (forM_err _ _) => apply safe_forM_err; intros ?
      | |- safe _ _ (let '(_, _) := ?x in _) => destruct x
      | |- safe _ _ (match ?x with _ => _ end) => destruct x
      | |- safe _ _ (if ?x then _ else _) => destruct x
      end ].

(** ** Pods *)
Section pods.
Context (P : object -> Prop) `{inv : !PodInvariant P} (obj : option object).
Hypothesis Hobj : opt_ok P obj.

Lemma PodSpec_returns : exists r, PodSpec_ obj = Ret r /\ True.
Proof.
  destruct obj as [o|]; [|by eexists]. pose proof (inv_typed (P := P) o Hobj) as Ht.
  destruct (spec_of o) as [sp|] eqn:Es; [rewrite (PodSpec_typed o sp) by done|rewrite PodSpec_other by done]; eauto.
Qed.

Lemma UpdatePodSpec_returns sp : exists r, UpdatePodSpec obj sp = Ret r /\ opt_ok P r.1.
Proof.
  destruct obj as [o|]; [|by eexists]. pose proof (inv_typed (P := P) o Hobj) as Ht. destruct (spec_of o) as [sp0|] eqn:Es.
  - rewrite (UpdatePodSpec_typed o sp0) by done. eexists. split; [done|]. by apply (inv_spec (P := P)).
  - unfold UpdatePodSpec. cbn [accessor_kind]. destruct o; try discriminate Es;
      destruct Ht as (H1 & H2 & H3); rewrite !decide_False by done; by eexists.
Qed.

Lemma SetEnvVar_returns n v : exists r, SetEnvVar n v obj = Ret r /\ opt_ok P r.1.
Proof.
  destruct obj as [o|]; [|by eexists]. pose proof (inv_typed (P := P) o Hobj) as Ht.
  assert (exists o', SetEnvVar n v (Some o) = Ret (Some o', None) /\ (o' = o \/ exists sp, o' = set_spec sp o)) as (o' & E & Ho).
  { unfold SetEnvVar. cbn [accessor_kind]. destruct o as [m sp|m l sp r|m l sp r| | | |]; cbn in Ht |- *;
      first [rewrite Ht; cbn; eexists; split; [done|]; first [by left|right; by exists (add_env_all n v sp)]
            |destruct Ht as (H1 & H2 & H3); rewrite !decide_False by done; eexists; split; [done|by left]]. }
  eexists. split; [exact E|]. cbn. destruct Ho as [->|[sp ->]]; [done|by apply (inv_spec (P := P))].
Qed.
End pods.

Lemma AddLabelsGeneric_returns obj labels :
  opt_typed obj -> exists r, AddLabelsGeneric obj labels = Ret r /\ opt_typed r.1.1.
Proof.
  intros Hobj. destruct obj as [o|]; [|by eexists]. cbn in Hobj.
  unfold AddLabelsGeneric. cbn [accessor_kind]. destruct o; cbn in *;
    first [rewrite Hobj; cbn; by eexists
          |pose proof Hobj as (H1 & H2 & H3); rewrite !decide_False by done; by eexists].
Qed.

Lemma typed_set_labels labels o : typed o -> typed (set_labels labels o).
Proof. by destruct o. Qed.

(** ** Workloads *)
Section workloads.
Context {E : Env} (ScriptsDir : string) (b : bool).

Abbreviation any := (fun _ => True).

Lemma HttpPost_safe r u : safe b any (OutputPkg.HttpPost r u).
Proof. unfold OutputPkg.HttpPost. safe_tac. Qed.
Hint Resolve HttpPost_safe : safe.

Lemma doOutput_safe outs r o n : safe b any (doOutput outs r o n).
Proof. revert r. induction outs as [|x outs IH]; intros r; cbn [doOutput]; safe_tac. Qed.
Hint Resolve doOutput_safe : safe.

Lemma metric_safe bm t l : safe b any (metric bm t l).
Proof. unfold metric, Metric. safe_tac. Qed.
Hint Resolve metric_safe : safe.

Lemma Output_safe n bm t1 t2 t3 : safe b any (Output_ n bm t1 t2 t3).
Proof. unfold Output_. safe_tac. Qed.

Lemma createObj_safe bm o mk : safe b any (createObj bm o mk).
Proof. unfold createObj. safe_tac. Qed.
Hint Resolve createObj_safe : safe.

Lemma createTmp_safe bm n : safe b any (createTmpConfigMapFromDisk ScriptsDir bm n).
Proof. unfold createTmpConfigMapFromDisk, loadScript. safe_tac. Qed.

Lemma getParserContainerImage_safe n : safe b any (getParserContainerImage n).
Proof. unfold getParserContainerImage. safe_tac. Qed.

Lemma cloneParser_safe bm n : safe b any (cloneParser bm n).
Proof. unfold cloneParser. safe_tac. Qed.
Hint Resolve createTmp_safe getParserContainerImage_safe cloneParser_safe : safe.

Section changes.
Context (P : object -> Prop) `{inv : !PodInvariant P}.

(** A result of a function that changes an object. *)
Abbreviation obj_result := (fun r : option object * error => opt_ok P r.1).

Lemma liftO_PodSpec obj : opt_ok P obj -> safe b any (liftO (PodSpec_ obj)).
Proof. intros H. apply safe_liftO. by apply (PodSpec_returns P). Qed.

Lemma liftO_UpdatePodSpec obj sp : opt_ok P obj -> safe b obj_result (liftO (UpdatePodSpec obj sp)).
Proof. intros H. apply safe_liftO. by apply (UpdatePodSpec_returns P). Qed.
Hint Resolve liftO_PodSpec liftO_UpdatePodSpec : safe.

Lemma addParserContainer_safe bm obj p f :
  opt_ok P obj -> safe b obj_result (addParserContainer bm obj p f).
Proof. intros H. unfold addParserContainer, addParserContainerToObj. safe_tac. Qed.

Lemma addOutputContainer_safe bm obj n f :
  opt_ok P obj -> safe b obj_result (addOutputContainer ScriptsDir bm obj n f).
Proof. intros H. unfold addOutputContainer, addOutputContainerToObj. safe_tac. Qed.

Lemma addPodWatcherToken_safe obj : opt_ok P obj -> safe b obj_result (addPodWatcherToken obj).
Proof. intros H. unfold addPodWatcherToken. safe_tac. Qed.

Lemma addOutputVol_safe obj : opt_ok P obj -> safe b obj_result (addOutputVol obj).
Proof. intros H. unfold addOutputVol. safe_tac. Qed.

Lemma addCountdoneScript_safe bm obj :
  opt_ok P obj -> safe b obj_result (addCountdoneScript ScriptsDir bm obj).
Proof. intros H. unfold addCountdoneScript. safe_tac. Qed.

Lemma addSyncContainer_safe bm obj n w g :
  opt_ok P obj -> safe b obj_result (addSyncContainer ScriptsDir bm obj n w g).
Proof. intros H. unfold addSyncContainer. safe_tac. Qed.
Hint Resolve addParserContainer_safe addOutputContainer_safe addPodWatcherToken_safe addOutputVol_safe
  addCountdoneScript_safe addSyncContainer_safe : safe.

Lemma setupForOutput_safe bm obj : opt_ok P obj -> safe b obj_result (setupForOutput ScriptsDir bm obj).
Proof. intros H. unfold setupForOutput. safe_tac. Qed.
Hint Resolve setupForOutput_safe : safe.

Lemma add_output_safe bm obj p f k :
  opt_ok P obj -> safe b (fun r => opt_ok P r.1.1) (add_output ScriptsDir bm obj p f k).
Proof. intros H. unfold add_output. safe_tac. Qed.
Hint Resolve add_output_safe : safe.

Lemma addContainers_safe bm obj an a :
  opt_ok P obj -> safe b obj_result (addContainers ScriptsDir bm obj an a).
Proof.
  assert (forall role fs obj, opt_ok P obj -> safe b obj_result (add_output_files ScriptsDir bm role obj fs)) as Hf.
  { intros role fs. induction fs as [|f fs IH]; intros obj' H'; cbn [add_output_files]; safe_tac. }
  intros H. unfold addContainers. safe_tac.
Qed.

Lemma set_env_safe n v obj : opt_ok P obj -> safe b (opt_ok P) (set_env n v obj).
Proof.
  intros H. unfold set_env. eapply safe_bind; [by apply safe_liftO, (SetEnvVar_returns P)|].
  intros [obj' err] H'. apply safe_ret. by destruct err.
Qed.
End changes.
Hint Extern 2 (safe _ _ (addPodWatcherToken _)) => apply (addPodWatcherToken_safe typed) : safe.
Hint Extern 2 (safe _ _ (addSyncContainer _ _ _ _ _ _)) => apply (addSyncContainer_safe typed) : safe.
Hint Extern 2 (safe _ _ (addContainers _ _ _ _ _)) => apply (addContainers_safe typed) : safe.
Hint Extern 2 (safe _ _ (set_env _ _ _)) => apply (set_env_safe typed) : safe.

Abbreviation obj_result := (fun r : option object * error => opt_typed r.1).

Lemma addCNSBLabels_safe a obj an : opt_typed obj -> safe b obj_result (addCNSBLabels a obj an).
Proof.
  intros H. unfold addCNSBLabels. destruct obj as [o|]; [|safe_tac].
  eapply safe_bind; [apply safe_liftO, AddLabelsGeneric_returns; by apply typed_set_labels|].
  intros [[obj' err] l] H'. apply safe_ret. destruct obj' as [o'|]; [|done]. by apply typed_set_labels.
Qed.

Lemma replaceVars_safe s a w n nm cm : safe b any (replaceVars s a w n nm cm).
Proof. unfold replaceVars. safe_tac. Qed.
Hint Resolve addCNSBLabels_safe replaceVars_safe : safe.

(** The decoder of the API machinery returns an object of the type its kind
    names. *)
Hypothesis decoder_typed : forall s o, decode_yaml s = inl o -> typed o.


Lemma prepareAndRun_safe bm w n a cm o : safe b any (prepareAndRun ScriptsDir bm w n a cm o).
Proof.
  unfold prepareAndRun. eapply safe_bind; [eauto with safe|]. intros cmString _.
  unfold decodeConfigMap. destruct (decode_yaml cmString) as [obj|err] eqn:Ed; [|safe_tac].
  apply decoder_typed in Ed. assert (opt_typed (Some obj)) as Ho by done. safe_tac.
  eapply (safe_bind b obj_result); [|intros [obj2 err2] Hobj; safe_tac]. destruct (_ !! _); safe_tac.
Qed.
Hint Resolve prepareAndRun_safe : safe.

Lemma RunWorkload_safe bm a n : safe b any (RunWorkload ScriptsDir bm a n).
Proof. unfold RunWorkload, run_parser_key, run_object_key, run_instance, get_instance, set_instance. safe_tac. Qed.

Lemma CreateVolume_safe bm v : safe b any (CreateVolume bm v).
Proof. unfold CreateVolume. safe_tac. Qed.

Lemma CreateSnapshot_safe bm s n : safe b any (CreateSnapshot bm s n).
Proof. unfold CreateSnapshot. safe_tac. Qed.

Lemma DeleteObj_safe sort d : safe b any (DeleteObj sort d).
Proof. unfold DeleteObj. safe_tac. Qed.

Lemma ScaleObj_safe bm s n : safe b any (ScaleObj bm s n).
Proof. unfold ScaleObj. safe_tac. Qed.
End workloads.

#[export] Hint Resolve HttpPost_safe doOutput_safe metric_safe Output_safe createObj_safe cloneParser_safe
  replaceVars_safe prepareAndRun_safe RunWorkload_safe CreateVolume_safe CreateSnapshot_safe DeleteObj_safe
  ScaleObj_safe : safe.

(** ** The reconciler *)

(** What the controller relies on: decoded objects have the type their kind
    names, jobs have the number of completions that the API server defaults,
    the benchmarks it returns list no finalizer twice and have a condition when
    they are running, and an update adds no finalizer that is there. *)
Class Sane {E : Env} := {
  sane_decoder s o : decode_yaml s = inl o -> typed o;
  sane_jobs tr ns sel jobs : answer tr (RListJobs ns sel) = inl jobs -> Forall (fun j => is_Some (Completions j)) jobs;
  sane_get tr ns n b : answer tr (RGetBenchmark ns n) = inl b ->
    NoDup (bm_Finalizers b) /\ (State (bm_Status b) = Running -> Conditions (bm_Status b) <> []);
  sane_status_update tr b b' : NoDup (bm_Finalizers b) -> answer tr (RStatusUpdate b) = inl b' -> NoDup (bm_Finalizers b');
  sane_update tr b b' : NoDup (bm_Finalizers b) -> answer tr (RUpdate b) = inl b' -> NoDup (bm_Finalizers b') }.

(** The instance with the error: no finalizer occurs twice. *)
Abbreviation bm_result := (fun r : Benchmark * error => NoDup (bm_Finalizers r.1)).

Lemma Remove_NoDup l s : NoDup l -> exists l', Remove l s = Ret l' /\ NoDup l'.
Proof.
  intros Hl. destruct (decide (s ∈ l)) as [Hs|Hs]; [|exists l; split; [by apply Remove_absent|done]].
  apply list_elem_of_split in Hs as (pre & post & ->).
  apply list.NoDup_app in Hl as (Hpre & Hdis & Hpost). apply list.NoDup_cons in Hpost as [Hpost Hnd].
  exists (pre ++ post). split; [apply Remove_once; [|done]|].
  - intros Hin. by apply (Hdis s Hin), elem_of_cons; left.
  - apply list.NoDup_app. split_and!; [done| |done]. intros x Hx Hx'. apply (Hdis x Hx), elem_of_cons. by right.
Qed.

Lemma jobs_complete_returns c n jobs :
  Forall (fun j => is_Some (Completions j)) jobs -> exists r, jobs_complete c n jobs = Ret r /\ True.
Proof.
  intros H. revert c n. induction H as [|j jobs [k Hk] _ IH]; intros c n; cbn [jobs_complete]; [by eexists|].
  rewrite Hk. destruct (_ <=? _)%Z; apply IH.
Qed.

Section reconciler.
Context {E : Env} `{sane : !Sane} (ScriptsDir : string) (sort : list ListItem -> list ListItem).

Abbreviation any := (fun _ => True).

Lemma decoded s o : decode_yaml s = inl o -> typed o.
Proof. apply sane_decoder. Qed.
Hint Resolve decoded : safe.

Lemma JobsComplete_safe b sel : safe b any (JobsComplete sel).
Proof.
  unfold JobsComplete.
  eapply safe_bind; [apply (safe_ask b (RListJobs "default" sel) (fun r : list JobItem + kerr =>
    match r with inl jobs => Forall (fun j => is_Some (Completions j)) jobs | inr _ => True end))|].
  - intros tr. destruct (answer tr (RListJobs "default" sel)) as [jobs|] eqn:Ea; [|done]. by eapply sane_jobs.
  - intros [jobs|err] Hj; [|safe_tac].
    eapply safe_bind; [by apply safe_liftO, jobs_complete_returns|]. intros r _. by apply safe_ret.
Qed.

Lemma sets_complete_safe b c n l : safe b any (sets_complete c n l).
Proof. revert c n. induction l as [|x l IH]; intros c n; cbn [sets_complete]; safe_tac. Qed.
Hint Resolve JobsComplete_safe sets_complete_safe : safe.

Lemma PodsComplete_safe b sel : safe b any (PodsComplete sel).
Proof. unfold PodsComplete. safe_tac. Qed.

Lemma StatefulSetsComplete_safe b sel : safe b any (StatefulSetsComplete sel).
Proof. unfold StatefulSetsComplete. safe_tac. Qed.

Lemma PVCsComplete_safe b sel : safe b any (PVCsComplete sel).
Proof. unfold PVCsComplete. safe_tac. Qed.
Hint Resolve PodsComplete_safe StatefulSetsComplete_safe PVCsComplete_safe : safe.

Lemma CountCompletions_safe b n : safe b any (CountCompletions n).
Proof. unfold CountCompletions. cbn [sum_counts]. safe_tac. Qed.
Hint Resolve CountCompletions_safe : safe.

Lemma CheckInit_safe b l : safe b any (CheckInit l).
Proof. induction l as [|a l IH]; cbn [CheckInit]; safe_tac. Qed.

Lemma ReconcileInstances_safe b bm l : safe b any (ReconcileInstances ScriptsDir bm l).
Proof. unfold ReconcileInstances, reconcile_workload, reconcile_key, decodeConfigMap. safe_tac. Qed.

Lemma completed_pods_safe b l t n : safe b any (completed_pods l t n).
Proof. revert n. induction l as [|a l IH]; intros n; cbn [completed_pods]; safe_tac. Qed.

Lemma all_complete_safe b l : safe b any (all_complete l).
Proof. induction l as [|a l IH]; cbn [all_complete]; safe_tac. Qed.
Hint Resolve CheckInit_safe ReconcileInstances_safe completed_pods_safe all_complete_safe : safe.

(** *** Clean up and updates: only these can block *)
Lemma send_safe c : safe true any (send c).
Proof. intros s. unfold send. destruct c as [c|]; [|done]. by destruct (listeners s !! c) as [[|n]|]. Qed.
Hint Resolve send_safe : safe.

Lemma stopRoutines_safe i : safe true any (stopRoutines i).
Proof.
  unfold stopRoutines, lookup_channel. safe_tac. induction (Z.to_nat _) as [|n IH]; cbn [send_all]; safe_tac.
Qed.
Hint Resolve stopRoutines_safe : safe.

(** The two updates return an object of the server. *)
Lemma update_safe b i : NoDup (bm_Finalizers i) -> safe b (fun r : Benchmark + kerr =>
  match r with inl b => NoDup (bm_Finalizers b) | inr _ => True end) (ask (RUpdate i)).
Proof.
  intros Hi. apply (safe_ask b (RUpdate i)). intros tr. destruct (answer tr (RUpdate i)) eqn:Ea; [|done].
  by eapply sane_update.
Qed.

Lemma status_update_safe b i : NoDup (bm_Finalizers i) -> safe b (fun r : Benchmark + kerr =>
  match r with inl b => NoDup (bm_Finalizers b) | inr _ => True end) (ask (RStatusUpdate i)).
Proof.
  intros Hi. apply (safe_ask b (RStatusUpdate i)). intros tr. destruct (answer tr (RStatusUpdate i)) eqn:Ea; [|done].
  by eapply sane_status_update.
Qed.

Lemma cleanup_safe i : NoDup (bm_Finalizers i) -> safe true bm_result (cleanup i).
Proof.
  intros Hi. unfold cleanup. eapply safe_bind; [apply stopRoutines_safe|]. intros _ _.
  destruct (Contains _ _); [|by apply safe_ret].
  eapply safe_bind; [by apply safe_liftO, Remove_NoDup|]. intros l Hl.
  eapply safe_bind; [by apply update_safe|]. intros [b'|err] Hb; by apply safe_ret.
Qed.
Hint Resolve cleanup_safe : safe.

Lemma updateInstanceStatus_safe i : NoDup (bm_Finalizers i) -> safe true bm_result (updateInstanceStatus i).
Proof.
  intros Hi. unfold updateInstanceStatus. eapply safe_bind; [by apply status_update_safe|].
  intros [b'|err] Hb; [by apply safe_ret|]. eapply safe_bind; [by apply cleanup_safe|].
  intros [i' e] Hn. by apply safe_ret.
Qed.

Lemma updateInstance_safe i : NoDup (bm_Finalizers i) -> safe true bm_result (updateInstance i).
Proof.
  intros Hi. unfold updateInstance. eapply safe_bind; [by apply update_safe|].
  intros [b'|err] Hb; [by apply safe_ret|]. eapply safe_bind; [by apply cleanup_safe|].
  intros [i' e] H. by apply safe_ret.
Qed.
Hint Resolve updateInstanceStatus_safe updateInstance_safe : safe.

Lemma update_both_safe i r : NoDup (bm_Finalizers i) -> safe true any (update_both i r).
Proof.
  intros Hi. unfold update_both. eapply safe_bind; [by apply updateInstanceStatus_safe|].
  intros [i' [err|]] H; [by apply safe_ret|]. eapply safe_bind; [by apply updateInstance_safe|].
  intros [i2 [err|]] _; by apply safe_ret.
Qed.
Hint Resolve update_both_safe : safe.

Lemma complete_status_returns n t1 t2 t3 c st :
  Conditions st <> [] -> exists st', complete_status n t1 t2 t3 c st = Ret st' /\ True.
Proof. intros H. unfold complete_status. destruct (Conditions st); [done|by eexists]. Qed.

Lemma reconcile_complete_safe i t :
  NoDup (bm_Finalizers i) -> Conditions (bm_Status i) <> [] -> safe true any (reconcile_complete i t).
Proof.
  intros Hi Hc. unfold reconcile_complete, getCompletedPods, doOutputs.
  eapply safe_bind; [apply completed_pods_safe|]. intros [n e] _.
  eapply safe_bind; [eauto with safe|]. intros now _.
  apply (safe_bind _ any); [safe_tac|]. intros _ _.
  do 3 (eapply safe_bind; [eauto with safe|]; intros ? _).
  eapply safe_bind; [by apply safe_liftO, complete_status_returns|]. intros st _.
  eapply safe_bind; [by apply updateInstanceStatus_safe|]. intros [i' [err|]] H; [by apply safe_ret|].
  eapply safe_bind; [by apply cleanup_safe|]. intros [i2 err] _. by apply safe_ret.
Qed.
Hint Resolve reconcile_complete_safe : safe.

Lemma reconcile_running_safe i :
  NoDup (bm_Finalizers i) -> Conditions (bm_Status i) <> [] -> safe true any (reconcile_running ScriptsDir i).
Proof. intros Hi Hc. unfold reconcile_running. safe_tac. Qed.

Lemma add_finalizer_NoDup i : NoDup (bm_Finalizers i) -> NoDup (bm_Finalizers (add_finalizer i)).
Proof.
  intros Hi. unfold add_finalizer. destruct (_ <? _)%Z; [|done]. cbn [andb].
  destruct (Contains _ _) eqn:Ec; [done|]. cbn. apply Contains_false in Ec.
  apply list.NoDup_app. split_and!; [done| |by apply NoDup_singleton].
  intros x Hx Hx'. apply list_elem_of_singleton in Hx' as ->. done.
Qed.

Lemma start_rates_safe b c l n : safe b any (start_rates c l n).
Proof.
  revert n. induction l as [|r l IH]; intros n; cbn [start_rates];
    unfold createConstantRate, createConstantIncreaseDecreaseRate, spawn; safe_tac.
Qed.

Lemma startRates_safe b i : NoDup (bm_Finalizers i) -> safe b bm_result (startRates i).
Proof.
  intros Hi. unfold startRates. apply (safe_bind b any); [done|]. intros c _.
  eapply safe_bind; [apply start_rates_safe|]. intros [n [err|]] _; apply safe_ret; [done|].
  by apply add_finalizer_NoDup.
Qed.

Lemma reconcile_initializing_safe i :
  NoDup (bm_Finalizers i) -> safe true any (reconcile_initializing i).
Proof.
  intros Hi. unfold reconcile_initializing. eapply safe_bind; [apply CheckInit_safe|].
  intros [doneInit [err|]] _; [by apply safe_ret|]. destruct doneInit; cbn [negb]; [|by apply safe_ret].
  eapply safe_bind; [by apply startRates_safe|]. intros [i' [err|]] H; [safe_tac|].
  do 2 (eapply safe_bind; [eauto with safe|]; intros ? _). by apply update_both_safe.
Qed.

Lemma reconcile_new_safe i : NoDup (bm_Finalizers i) -> safe true any (reconcile_new ScriptsDir i).
Proof.
  intros Hi. unfold reconcile_new, createVolumes, startWorkloads.
  eapply (safe_bind _ (fun r : Benchmark * bool => NoDup (bm_Finalizers r.1))).
  - unfold fixupSpec, addDefaultOutputs. eapply safe_bind; [eauto with safe|]. intros names _.
    destruct (foldl _ _ _) as [outputs updated]. by apply safe_ret.
  - intros [i' fixed] H. cbn in H. destruct fixed; safe_tac.
Qed.

Lemma reconcile_deleted_safe i : NoDup (bm_Finalizers i) -> safe true any (reconcile_deleted i).
Proof. intros Hi. unfold reconcile_deleted, lookup_channel, delete_channel. safe_tac. Qed.


End reconciler.

(** ** Witnesses: the cluster of the life cycle's example *)
#[export] Instance ex_sane : Sane (E := ex_env).
Proof.
  split.
  - intros s o [= <-]. reflexivity.
  - intros tr ns sel jobs [= <-]. constructor.
  - intros tr ns n b [= <-]. split; [constructor|done].
  - intros tr b b' Hb [= <-]. exact Hb.
  - intros tr b b' Hb [= <-]. exact Hb.
Qed.


