(* ===== verification/InstancesThm.v ===== *)
(** * What an instance of a workload is created with

    [prepareAndRun] succeeds only after it has sent the server the object of the
    template, with the labels by which the controller finds it again and, for
    pods and jobs, with the number of the instance in the environment of every
    container. *)
From S2P Require Import Prelude GoStrings GoTime GoJson BenchmarkTypes KubeEnv Utils.
From S2P Require Import OutputPkg PodUtils CreateObj Workload Reconciler Effects ReconcileThm Safety.

(** The labels that the selectors of completion.go and actions.go ask for. *)
Definition labelled (a : Workload) (annotations : gmap string string) (o : object) : Prop :=
  exists l, Labels (obj_meta o) = Some l /\ l !! "workloadname" = Some (wl_Name a) /\
    l !! "role" = Some (getRole annotations).

(** Every container of a pod or a job has the variable. *)
Definition has_env (name value : string) (o : object) : Prop :=
  TypeKind (obj_meta o) = "Pod" \/ TypeKind (obj_meta o) = "Job" ->
  exists sp, spec_of o = Some sp /\ Forall (fun c => EnvValue name value ∈ c_Env c) (Containers sp).

(** The same object with another pod specification that has the same
    containers. *)
Definition same_run (o o' : object) : Prop :=
  obj_meta o' = obj_meta o /\ typed o' /\ Containers <$> spec_of o' = Containers <$> spec_of o.

Lemma same_run_refl o : typed o -> same_run o o.
Proof. done. Qed.

Lemma has_env_same n v o o' : same_run o o' -> has_env n v o -> has_env n v o'.
Proof.
  intros (Hm & _ & Hs) H. unfold has_env. rewrite Hm. intros Hk. destruct (H Hk) as (sp & E & Hc).
  rewrite E in Hs. cbn in Hs. destruct (spec_of o') as [sp'|]; [|discriminate Hs]. injection Hs as Hs.
  exists sp'. by rewrite Hs.
Qed.

Lemma same_run_trans o1 o2 o3 : same_run o1 o2 -> same_run o2 o3 -> same_run o1 o3.
Proof. intros (M1 & _ & C1) (M2 & T2 & C2). split_and!; [congruence|done|congruence]. Qed.

(** Writing a specification with the same containers back. *)
Lemma update_same b o sp sp' :
  typed o -> PodSpec_ (Some o) = Ret (inl sp) -> Containers sp' = Containers sp ->
  safe b (fun r : option object * error => from_option (same_run o) False r.1 /\ r.2 = None)
    (liftO (UpdatePodSpec (Some o) sp')).
Proof.
  intros Ht Hs Hc. destruct (spec_of o) as [x|] eqn:Eo.
  2: { rewrite PodSpec_other in Hs by done. discriminate Hs. }
  rewrite (PodSpec_typed o x) in Hs by done. injection Hs as ->.
  apply safe_liftO. eexists. split; [by eapply UpdatePodSpec_typed|]. split; [|done].
  split_and!; [apply obj_meta_set_spec|by apply typed_set_spec|].
  rewrite (spec_of_set_spec sp' sp) by done. rewrite Eo. cbn. by rewrite Hc.
Qed.

(** A result that is the same run, when there is one. *)
Abbreviation run_result o := (fun r : option object * error => r.2 = None -> from_option (same_run o) False r.1).

(** *** Steps before the environment is set: the metadata and the labels of the
    template stay *)
Definition template_labels (o : object) : option (gmap string string) :=
  match o with Job _ l _ _ | StatefulSet _ l _ _ => l | _ => None end.

Definition keeps (o o' : object) : Prop :=
  typed o' /\ obj_meta o' = obj_meta o /\ template_labels o' = template_labels o.

#[export] Instance keeps_invariant o : PodInvariant (keeps o).
Proof.
  split; [by intros o' []|]. intros o' sp (Ht & Hm & Hl).
  split_and!; [by apply typed_set_spec|by rewrite obj_meta_set_spec|]. rewrite <- Hl. by destruct o'.
Qed.

Section instances.
Context {E : Env} (ScriptsDir : string).

(** [PodSpec_] of a typed object, with what it read. *)
Lemma liftO_PodSpec_eq b o : typed o ->
  safe b (fun r => PodSpec_ (Some o) = Ret r) (liftO (PodSpec_ (Some o))).
Proof. intros Ht. apply safe_liftO. destruct (PodSpec_returns typed (Some o) Ht) as (r & Hr & _). by exists r. Qed.

Lemma addPodWatcherToken_same b o : typed o -> safe b (run_result o) (addPodWatcherToken (Some o)).
Proof.
  intros Ht. unfold addPodWatcherToken. eapply safe_bind; [by apply liftO_PodSpec_eq|].
  intros [sp|err] Hs; [|by apply safe_ret]. destruct (volInSpec _ _); [by apply safe_ret|].
  eapply safe_mono; [eapply update_same; [done|exact Hs|done]|]. by intros r [H _] _.
Qed.

Lemma addSyncContainer_same b bm o n w g :
  typed o -> safe b (run_result o) (addSyncContainer ScriptsDir bm (Some o) n w g).
Proof.
  intros Ht. unfold addSyncContainer. eapply safe_bind; [by apply liftO_PodSpec_eq|].
  intros [sp|err] Hs; [|by apply safe_ret].
  eapply safe_bind; [apply createTmp_safe|]. intros [cmName [err|]] _; [by apply safe_ret|].
  eapply safe_mono; [eapply update_same; [done|exact Hs|done]|]. by intros r [H _] _.
Qed.

(** *** The environment *)
Lemma env_added n v n2 v2 sp :
  Forall (fun c => EnvValue n2 v2 ∈ c_Env c) (Containers sp) \/ (n2, v2) = (n, v) ->
  Forall (fun c => EnvValue n2 v2 ∈ c_Env c) (Containers (add_env_all n v sp)).
Proof.
  intros H. cbn. apply Forall_fmap. destruct H as [H|[= -> ->]].
  - eapply list.Forall_impl; [exact H|]. intros c Hc. cbn. apply elem_of_app. by left.
  - apply list.Forall_true. intros c. cbn. apply elem_of_app. right. by left.
Qed.

Lemma set_env_eq n v o s : typed o ->
  exists o', set_env n v (Some o) s = Ret (Some o', s) /\ keeps o o' /\ has_env n v o' /\
    forall n2 v2, has_env n2 v2 o -> has_env n2 v2 o'.
Proof.
  intros Ht. unfold set_env, SetEnvVar. destruct o as [m sp|m l sp r|m l sp r|m x|m x|m x y|m x];
    cbn [accessor_kind obj_meta] in *; cbn in Ht.
  1-2: rewrite Ht; eexists; split; [reflexivity|]; split_and!;
    [done
    |intros _; eexists; split; [reflexivity|]; apply env_added; by right
    |intros n2 v2 H Hk; destruct (H Hk) as (sp' & [= <-] & Hc); eexists; split; [reflexivity|];
     apply env_added; by left].
  { rewrite Ht. eexists. split; [reflexivity|]. split_and!; [done| |done].
    intros [Hk|Hk]; cbn in Hk; rewrite Ht in Hk; discriminate Hk. }
  all: destruct Ht as (H1 & H2 & H3); rewrite !decide_False by done; eexists; split; [reflexivity|];
    split_and!; [done| |done]; by intros [Hk|Hk].
Qed.

(** *** The labels *)
Definition core (m : ObjectMeta) : string * string * string * option (gmap string string) :=
  (TypeKind m, Name m, Namespace m, Annotations m).

(** The template of a job sets neither of the labels. *)
Definition unlabelled (o : object) : Prop :=
  forall l, template_labels o = Some l -> l !! "workloadname" = None /\ l !! "role" = None.

Lemma cnsb_labels_lookup a an labels :
  cnsb_labels a an labels !! "workloadname" = Some (wl_Name a) /\ cnsb_labels a an labels !! "role" = Some (getRole an).
Proof. unfold cnsb_labels. split; [rewrite lookup_insert_ne by done|]; apply lookup_insert_eq. Qed.

Lemma addCNSBLabels_eq a an o s : typed o -> unlabelled o ->
  exists o', addCNSBLabels a (Some o) an s = Ret (Some o', None, s) /\ typed o' /\ labelled a an o' /\
    core (obj_meta o') = core (obj_meta o) /\ forall n v, has_env n v o -> has_env n v o'.
Proof.
  intros Ht Hu. unfold addCNSBLabels. set (labels := cnsb_labels _ _ _).
  destruct (cnsb_labels_lookup a an (default ∅ (Labels (obj_meta o)))) as [Hw Hr]. fold labels in Hw, Hr.
  assert (exists labels' o', AddLabelsGeneric (Some (set_labels labels o)) labels = Ret (Some o', None, labels') /\
    labels' !! "workloadname" = Some (wl_Name a) /\ labels' !! "role" = Some (getRole an) /\
    typed o' /\ obj_meta o' = obj_meta (set_labels labels o) /\ spec_of o' = spec_of o)
    as (labels' & o' & Ho' & Hl1 & Hl2 & Ht' & Hm' & Hs').
  { unfold AddLabelsGeneric. cbn [accessor_kind]. destruct o as [m sp|m l sp r|m l sp r|m x|m x|m x y|m x]; cbn in Ht |- *.
    1-3: rewrite Ht; cbn.
    4-7: pose proof Ht as (H1 & H2 & H3); rewrite !decide_False by done.
    1,3-7: by exists labels; eexists.
    destruct l as [tl|]; eexists _, _; (split; [reflexivity|]); [|by split_and!].
    destruct (Hu tl eq_refl) as [U1 U2]. by rewrite !lookup_union_r. }
  exists (set_labels labels' o'). unfold liftO, mbind, gom_bind. rewrite Ho'. split; [reflexivity|].
  split_and!; [by apply typed_set_labels| | |].
  - exists labels'. split_and!; [by destruct o'|done|done].
  - unfold core. destruct o'; cbn in *; rewrite Hm'; by destruct o.
  - intros n v H Hk. assert (spec_of (set_labels labels' o') = spec_of o) as -> by (rewrite <- Hs'; by destruct o').
    apply H. destruct o', o; cbn in Hk, Hm' |- *; by rewrite Hm' in Hk.
Qed.
(** *** The request *)
Lemma has_env_meta n v m o : core m = core (obj_meta o) -> has_env n v o -> has_env n v (set_meta m o).
Proof.
  intros Hm H Hk. injection Hm as Hk' _ _ _. destruct (H ltac:(rewrite <- Hk'; by destruct o)) as (sp & Hs & Hc).
  exists sp. split; [by destruct o|done].
Qed.

(** What the functions of controller-runtime do to the metadata: they add a
    reference to the owners, or fail with an error of their own. *)
Class OwnerRefs := {
  controller_reference bm m :
    match setControllerReference bm m with
    | inl m' => core m' = core m /\ Labels m' = Labels m
    | inr err => err <> ErrAlreadyExists
    end;
  owner_reference bm m :
    match setOwnerReference bm m with
    | inl m' => core m' = core m /\ Labels m' = Labels m
    | inr err => err <> ErrAlreadyExists
    end }.

Context `{refs : !OwnerRefs}.

Lemma make_owner_keeps bm m :
  match make_owner bm m with
  | inl m' => core m' = core m /\ Labels m' = Labels m
  | inr err => err <> ErrAlreadyExists
  end.
Proof.
  unfold make_owner. pose proof (controller_reference bm m) as H1. destruct (setControllerReference bm m) as [m1|]; [|done].
  pose proof (owner_reference bm m1) as H2. destruct (setOwnerReference bm m1) as [m2|]; [|done].
  destruct H1, H2. split; congruence.
Qed.

Lemma runs_trace {A} (m : GoM A) s a s' :
  runs (calm no_update) m -> m s = Ret (a, s') -> exists tr, trace s' = trace s ++ tr.
Proof. intros Hr H. destruct (Hr _ _ _ H) as (((tr & Htr & _) & _) & _). by exists tr. Qed.

Lemma createObj_sends bm o mk s err s' :
  createObj bm (Some o) mk s = Ret (err, s') -> err = None \/ err = Some ErrAlreadyExists ->
  exists m tr, trace s' = trace s ++ RCreate (set_meta m o) :: tr /\
    core m = core (obj_meta o) /\ Labels m = Labels (obj_meta o).
Proof.
  intros H Herr. unfold createObj in H.
  assert (exists m, (if mk then make_owner bm (obj_meta o) else inl (obj_meta o)) = inl m /\
    core m = core (obj_meta o) /\ Labels m = Labels (obj_meta o)) as (m & Em & Hm).
  { pose proof (make_owner_keeps bm (obj_meta o)) as Hk. destruct mk; [|by eexists].
    destruct (make_owner bm (obj_meta o)) as [m|e]; [by exists m|]. injection H as <- _. naive_solver. }
  rewrite Em in H. apply bind_Ret in H as (e & s1 & Ha & H).
  apply (ask_Ret (RCreate (set_meta m o))) in Ha as (_ & Htr & _).
  assert (exists tr, trace s' = trace s1 ++ tr) as [tr Htr2].
  { eapply runs_trace; [|exact H]. runs_tac. }
  exists m, tr. split; [|exact Hm]. by rewrite Htr2, Htr, <- app_assoc.
Qed.

Hypothesis decoder_typed : forall s o, decode_yaml s = inl o -> typed o.

(** The containers of a workload that waits for others to start. *)
Lemma sync_same bm o n w g (an : gmap string string) s obj s' :
  typed o ->
  (match an !! "sync" with
   | None => mret (Some o, None)
   | Some _ =>
       '(obj, err) ← addSyncContainer ScriptsDir bm (Some o) n w g;
       match err with
       | Some err => mret (obj, Some err)
       | None => addPodWatcherToken obj
       end
   end : GoM (option object * error)) s = Ret (obj, None, s') ->
  exists o' tr, obj = Some o' /\ same_run o o' /\ trace s' = trace s ++ tr.
Proof.
  intros Ht. destruct (an !! "sync").
  2: { intros [= <- <-]. exists o, []. by rewrite app_nil_r. }
  intros H. apply bind_Ret in H as ([obj1 err] & s1 & H1 & H). destruct err; [discriminate H|].
  pose proof (addSyncContainer_same true bm o n w g Ht s) as Hs. rewrite H1 in Hs. specialize (Hs eq_refl).
  cbn in Hs. destruct obj1 as [o1|]; [|done]. pose proof Hs as (_ & Ht1 & _).
  pose proof (addPodWatcherToken_same true o1 Ht1 s1) as Hs2. rewrite H in Hs2. specialize (Hs2 eq_refl).
  cbn in Hs2. destruct obj as [o2|]; [|done].
  apply runs_trace in H1 as [t1 E1]; [|unfold addSyncContainer; runs_tac].
  apply runs_trace in H as [t2 E2]; [|apply addPodWatcherToken_calm].
  exists o2, (t1 ++ t2). split_and!; [done|by eapply same_run_trans|]. by rewrite E2, E1, app_assoc.
Qed.

(** C10: an instance of a workload is created as its template says.  When
    [prepareAndRun] returns no error, the text of the template with its
    variables replaced decoded to an object, and unless that is a volume the
    user replaces by one of their own, a request to create it was sent: under
    its name, in its namespace, with its annotations, with the labels of the
    workload and its role, and, for pods and jobs, with the number of the
    instance and of all instances in the environment of every container. *)
Theorem prepareAndRun_creates bm w name a cm bytes s s' :
  prepareAndRun ScriptsDir bm w name a cm bytes s = Ret (None, s') ->
  exists text s1 o0, replaceVars bytes a w (wl_Count a) name cm s = Ret (text, s1) /\ decode_yaml text = inl o0 /\
    let an := default ∅ (Annotations (obj_meta o0)) in
    (getRole an = "volume" /\ parse_bool (default EmptyString (Vars a !! "volname")) = true /\ s' = s1) \/
    (unlabelled o0 -> exists o pre post, trace s' = trace s1 ++ pre ++ RCreate o :: post /\
      core (obj_meta o) = core (obj_meta o0) /\ labelled a an o /\
      has_env "INSTANCE_NUM" (itoa w) o /\ has_env "NUM_INSTANCES" (itoa (wl_Count a)) o).
Proof.
  intros H. unfold prepareAndRun in H. apply bind_Ret in H as (text & s1 & Hrv & H). exists text, s1.
  unfold decodeConfigMap in H. destruct (decode_yaml text) as [o0|err] eqn:Ed; [|discriminate H].
  pose proof (decoder_typed text o0 Ed) as Ht0. exists o0. split; [done|]. split; [done|]. cbv zeta in *.
  set (an := default ∅ (Annotations (obj_meta o0))) in *.
  destruct (bool_decide (getRole an = "volume") && _) eqn:Ev.
  { left. apply andb_prop in Ev as [Ev1 Ev2]. apply bool_decide_eq_true in Ev1. by injection H as <-. }
  right. intros Hu. apply bind_Ret in H as ([obj err] & s2 & Hc & H). destruct err; [discriminate H|].
  pose proof (addContainers_safe ScriptsDir true (keeps o0) bm (Some o0) an a) as Hk.
  specialize (Hk (conj Ht0 (conj eq_refl eq_refl)) s1). rewrite Hc in Hk. cbn in Hk.
  apply runs_trace in Hc as [tr1 Htr1]; [|apply addContainers_calm].
  destruct obj as [o1|].
  2: { cbn in H. discriminate H. }
  destruct Hk as (Ht1 & Hm1 & Hl1).
  destruct (set_env_eq "INSTANCE_NUM" (itoa w) o1 s2 Ht1) as (o2 & E2 & (Ht2 & Hm2 & Hl2) & He2 & _).
  apply bind_Ret in H as (x & s3 & Hs & H). rewrite E2 in Hs. injection Hs as <- <-.
  destruct (set_env_eq "NUM_INSTANCES" (itoa (wl_Count a)) o2 s2 Ht2) as (o3 & E3 & (Ht3 & Hm3 & Hl3) & He3 & He3').
  apply bind_Ret in H as (x & s3 & Hs & H). rewrite E3 in Hs. injection Hs as <- <-.
  destruct (addCNSBLabels_eq a an o3 s2 Ht3) as (o4 & E4 & Ht4 & Hlab & Hm4 & He4).
  { intros l. rewrite Hl3, Hl2, Hl1. apply Hu. }
  apply bind_Ret in H as (x & s3 & Hs & H). rewrite E4 in Hs. injection Hs as <- <-.
  apply bind_Ret in H as ([obj err] & s3 & Hsync & H). destruct err; [discriminate H|].
  assert (exists o5 tr2, obj = Some o5 /\ same_run o4 o5 /\ trace s3 = trace s2 ++ tr2) as (o5 & tr2 & -> & Hsame & Htr2)
    by (by eapply sync_same).
  apply bind_Ret in H as (err & s4 & Hcr & H). injection H as Herr ->.
  apply createObj_sends in Hcr as (m & post & Htr & Hm & Hlm); [|destruct err as [[]|]; naive_solver].
  exists (set_meta m o5), (tr1 ++ tr2), post. split_and!.
  - by rewrite Htr, Htr2, Htr1, !app_assoc.
  - assert (obj_meta (set_meta m o5) = m) as -> by (by destruct o5). pose proof Hsame as (Hm5 & _).
    rewrite Hm, Hm5, Hm4. congruence.
  - destruct Hlab as (l & Hl & Hw & Hr). exists l. split_and!; [|done|done].
    assert (obj_meta (set_meta m o5) = m) as -> by (by destruct o5). pose proof Hsame as (Hm5 & _).
    by rewrite Hlm, Hm5.
  - apply has_env_meta; [done|]. eapply has_env_same; [done|]. by apply He4, He3'.
  - apply has_env_meta; [done|]. eapply has_env_same; [done|]. by apply He4.
Qed.
End instances.

(** ** Witness: the fourth instance of a pod with one container *)
Definition ex_container : Container :=
  {| c_Name := "fio"; c_Image := "fio"; c_Command := []; VolumeMounts := []; c_Env := []; c_rest := JNull |}.

Definition ex_template (s : string) : object + kerr :=
  inl (Pod (plain_meta "Pod" s) (add_container ex_container plain_spec)).

Definition ex_cluster : Env := sample_env (ex_instance "") sample_cm [] ex_template.

#[export] Instance ex_refs : OwnerRefs (E := ex_cluster).
Proof. split; intros bm m; cbn; done. Qed.

Definition ex_prepare : GoM error :=
  prepareAndRun (E := ex_cluster) "/scripts" (ex_instance "") 3 "w" ex_workload sample_cm ("pod-" +:+ braced "INSTANCE_NUM").

Definition ex_prepared : gst := Eval vm_compute in after_call ex_prepare init_gst.

(** The pod is called [pod-3] and knows its number. *)
Lemma prepareAndRun_creates_witness :
  exists o pre post, trace ex_prepared = pre ++ RCreate o :: post /\ Name (obj_meta o) = "pod-3" /\
    labelled ex_workload ∅ o /\ has_env "INSTANCE_NUM" "3" o.
Proof.
  destruct (prepareAndRun_creates (E := ex_cluster) "/scripts" ltac:(intros s o [= <-]; reflexivity)
    (ex_instance "") 3 "w" ex_workload sample_cm ("pod-" +:+ braced "INSTANCE_NUM") init_gst ex_prepared)
    as (text & s1 & o0 & Hrv & Hd & [(H & _)|H]).
  - vm_compute. reflexivity.
  - injection Hd as <-. discriminate H.
  - destruct H as (o & pre & post & Htr & Hm & Hl & He & _); [injection Hd as <-; intros l [=]|].
    exists o, (trace s1 ++ pre), post. injection Hd as <-. split_and!.
    + by rewrite Htr, <- app_assoc.
    + injection Hm as _ -> _ _. vm_compute in Hrv. by injection Hrv as <- _.
    + exact Hl.
    + exact He.
Defined.
