(* ===== verification/RoutinesThm.v ===== *)
(** * Goroutines, channels and resources

    How many goroutines listen on a benchmark's control channel, what stopping
    them does, and what the operations create. *)
From S2P Require Import Prelude GoStrings GoTime GoJson GoDuration BenchmarkTypes KubeEnv Utils.
From S2P Require Import OutputPkg PodUtils CreateObj Workload Completion Actions Reconciler Effects.
From S2P Require Import ReconcileThm.

(** A rate [startRates] can start. *)
Definition known_rate (r : Rate) : bool :=
  negb (Interval (ConstantRateSpec r) =? 0)%Z || negb (IncInterval (ConstantIncreaseDecreaseRateSpec r) =? 0)%Z.

Definition set_listeners (l : gmap nat nat) (s : gst) : gst :=
  GSt (trace s) (controlChannels s) l (next_chan s) (workloadInstance s).

Section routines.
Context {E : Env}.

Lemma set_listeners_twice l1 l2 s : set_listeners l2 (set_listeners l1 s) = set_listeners l2 s.
Proof. done. Qed.

Lemma set_listeners_same s : set_listeners (listeners s) s = s.
Proof. by destruct s. Qed.

Lemma start_rates_known c rates running s n :
  listeners s !! c = Some n -> forallb known_rate rates = true ->
  start_rates c rates running s =
    Ret ((running + Z.of_nat (length rates), None)%Z,
         set_listeners (<[c := n + 2 * length rates]> (listeners s)) s).
Proof.
  revert running s n. induction rates as [|r rates IH]; intros running s n Hn Hk.
  - simpl. rewrite Nat.add_0_r, Z.add_0_r, insert_id by done. by rewrite set_listeners_same.
  - simpl in Hk. apply andb_true_iff in Hk as [Hr Hk].
    assert (forall s0, spawn c s0 = Ret (tt, set_listeners (alter S c (listeners s0)) s0)) as Hsp by done.
    set (s2 := set_listeners (alter S c (alter S c (listeners s))) s).
    assert (start_rates c (r :: rates) running s = start_rates c rates (running + 1) s2) as ->.
    { simpl. unfold known_rate in Hr. destruct (Interval (ConstantRateSpec r) =? 0)%Z; [|done].
      destruct (IncInterval _ =? 0)%Z; done. }
    rewrite (IH _ _ (S (S n))); [|unfold s2; simpl; by rewrite !lookup_alter_eq, Hn|done].
    unfold s2. cbn [length]. do 2 f_equal; [f_equal; lia|].
    unfold set_listeners. cbn. f_equal. apply map_eq. intros k.
    destruct (decide (k = c)) as [->|Hne].
    + rewrite !lookup_insert_eq. f_equal. lia.
    + by rewrite !lookup_insert_ne, !lookup_alter_ne by done.
Qed.

Lemma send_all_enough c k n s :
  listeners s !! c = Some (2 * k + n) ->
  send_all (Some c) k s = Ret (tt, set_listeners (<[c := n]> (listeners s)) s).
Proof.
  revert s. induction k as [|k IH]; intros s Hn.
  - simpl in *. rewrite insert_id by done. by rewrite set_listeners_same.
  - cbn [send_all]. unfold mbind, gom_bind, send. cbn. rewrite Hn.
    replace (2 * S k + n) with (S (S (2 * k + n))) by lia. cbn. rewrite lookup_insert_eq.
    change (GSt _ _ ?l _ _) with (set_listeners l s). rewrite IH by (cbn; apply lookup_insert_eq).
    cbn. by rewrite !insert_insert_eq.
Qed.

Lemma send_all_none c k s :
  listeners s !! c = Some 0 -> 0 < k -> send_all (Some c) k s = Blocked.
Proof.
  intros Hn Hk. destruct k; [lia|]. cbn [send_all]. unfold mbind, gom_bind, send. by rewrite Hn.
Qed.

Lemma add_finalizer_spec n instance :
  0 < n -> let i1 := upd_status (set_RunningRates (Z.of_nat n)) instance in
  bm_Name (add_finalizer i1) = bm_Name instance /\
  RunningRates (bm_Status (add_finalizer i1)) = Z.of_nat n /\ RateFinalizer ∈ bm_Finalizers (add_finalizer i1).
Proof.
  intros Hn i1. unfold add_finalizer. replace (0 <? RunningRates (bm_Status i1))%Z with true
    by (symmetry; apply Z.ltb_lt; cbn; lia). destruct (Contains (bm_Finalizers i1) RateFinalizer) eqn:Ec; cbn.
  - split_and!; [done..|]. by apply Contains_spec.
  - split_and!; [done..|]. apply elem_of_app. right. by left.
Qed.

(** Starting known rates: a fresh channel with two goroutines per rate. *)
Lemma start_routines instance s :
  forallb known_rate (Rates (bm_Spec instance)) = true -> Rates (bm_Spec instance) <> [] ->
  exists i' s1, startRates instance s = Ret ((i', None), s1) /\
    bm_Name i' = bm_Name instance /\
    RunningRates (bm_Status i') = Z.of_nat (length (Rates (bm_Spec instance))) /\
    controlChannels s1 !! bm_Name i' = Some (next_chan s) /\
    listeners s1 !! next_chan s = Some (2 * length (Rates (bm_Spec instance))) /\
    RateFinalizer ∈ bm_Finalizers i'.
Proof.
  intros Hk Hne. set (n := length (Rates (bm_Spec instance))).
  assert (0 < n) as Hn by (unfold n; destruct (Rates _); [done|simpl; lia]).
  set (c := next_chan s).
  set (s0 := GSt (trace s) (<[bm_Name instance := c]> (controlChannels s)) (<[c := 0]> (listeners s)) (S c)
               (workloadInstance s)).
  pose proof (start_rates_known c (Rates (bm_Spec instance)) 0 s0 0 (lookup_insert_eq _ _ _) Hk) as Hs.
  set (s1 := set_listeners _ _) in Hs. rewrite Z.add_0_l in Hs. fold n in Hs.
  destruct (add_finalizer_spec n instance Hn) as (Hname & Hrr & Hfin).
  exists (add_finalizer (upd_status (set_RunningRates (Z.of_nat n)) instance)), s1. rewrite Hname. split_and!; try done.
  - unfold startRates, make_channel, mbind, gom_bind. fold c. fold s0. rewrite Hs. done.
  - unfold s1. cbn. apply lookup_insert_eq.
  - unfold s1. cbn. rewrite lookup_insert_eq. done.
Qed.

(** C6: starting [n] known rates leaves [2n] goroutines listening on a fresh
    control channel and the count [n] in the status; stopping takes exactly
    those, so none is left, and a second stop blocks forever. *)
Theorem start_stop_routines instance s :
  forallb known_rate (Rates (bm_Spec instance)) = true -> Rates (bm_Spec instance) <> [] ->
  exists i' s1 s2, startRates instance s = Ret ((i', None), s1) /\
    RunningRates (bm_Status i') = Z.of_nat (length (Rates (bm_Spec instance))) /\
    controlChannels s1 !! bm_Name i' = Some (next_chan s) /\
    listeners s1 !! next_chan s = Some (2 * length (Rates (bm_Spec instance))) /\
    RateFinalizer ∈ bm_Finalizers i' /\
    stopRoutines i' s1 = Ret (tt, s2) /\ listeners s2 !! next_chan s = Some 0 /\
    stopRoutines i' s2 = Blocked.
Proof.
  intros Hk Hne. destruct (start_routines instance s Hk Hne) as (i' & s1 & Hs & _ & Hrr & Hc & Hl & Hfin).
  set (n := length (Rates (bm_Spec instance))) in *. set (c := next_chan s) in *.
  assert (0 < n) as Hn by (unfold n; destruct (Rates _); [done|simpl; lia]).
  exists i', s1, (set_listeners (<[c := 0]> (listeners s1)) s1). split_and!; try done.
  - unfold stopRoutines, lookup_channel, getS, mbind, gom_bind. rewrite Hc, Hrr, Nat2Z.id.
    rewrite (send_all_enough c n 0 s1); [done|]. by rewrite Hl, Nat.add_0_r.
  - cbn. apply lookup_insert_eq.
  - unfold stopRoutines, lookup_channel, getS, mbind, gom_bind. rewrite Hrr, Nat2Z.id.
    cbn [set_listeners controlChannels]. rewrite Hc. apply send_all_none; [|lia]. cbn. apply lookup_insert_eq.
Qed.

(** C39: after a restart of the controller its channel map is empty: cleaning up
    a benchmark whose status counts running rates sends on a nil channel and
    blocks forever. *)
Theorem cleanup_after_restart_blocks instance s :
  controlChannels s !! bm_Name instance = None -> (0 < RunningRates (bm_Status instance))%Z ->
  cleanup instance s = Blocked.
Proof.
  intros Hc Hr. unfold cleanup, stopRoutines, lookup_channel, getS, mbind, gom_bind. rewrite Hc.
  destruct (Z.to_nat _) eqn:En; [lia|]. done.
Qed.

(** [cleanup] neither resets the count of running rates nor forgets the
    channel, so when a benchmark that was cleaned up on completion is being
    deleted (with a finalizer of somebody else, or after its update failed), the
    second cleanup blocks the reconciler forever. *)
Theorem deletion_after_cleanup_blocks instance deleted s r s' c :
  controlChannels s !! bm_Name instance = Some c ->
  listeners s !! c = Some (2 * Z.to_nat (RunningRates (bm_Status instance))) ->
  cleanup instance s = Ret (r, s') ->
  bm_Name deleted = bm_Name instance -> (0 < RunningRates (bm_Status deleted))%Z ->
  reconcile_deleted deleted s' = Blocked.
Proof.
  intros Hc Hl H Hname Hr. set (n := Z.to_nat (RunningRates (bm_Status instance))) in *.
  assert (stopRoutines instance s = Ret (tt, set_listeners (<[c := 0]> (listeners s)) s)) as Hs.
  { unfold stopRoutines, lookup_channel, getS, mbind, gom_bind. rewrite Hc. fold n.
    apply send_all_enough. rewrite Hl. f_equal. lia. }
  set (s1 := set_listeners _ _) in Hs.
  unfold cleanup in H. apply bind_Ret in H as ([] & s2 & H2 & H). rewrite Hs in H2. injection H2 as <-.
  assert (controlChannels s' = controlChannels s1 /\ listeners s' = listeners s1) as [Ec El].
  { destruct (Contains _ _); [|by injection H as _ <-].
    apply bind_Ret in H as (l & s3 & Hl3 & H). unfold liftO in Hl3.
    destruct (Remove _ _) as [x| |]; try discriminate. injection Hl3 as -> <-.
    apply bind_Ret in H as (a & s4 & H4 & H). injection H4 as _ <-.
    destruct a as [x|e]; by injection H as _ <-. }
  assert (controlChannels s' !! bm_Name deleted = Some c) as Hc' by (by rewrite Ec, Hname).
  assert (stopRoutines deleted s' = Blocked) as Hb.
  { unfold stopRoutines, lookup_channel, getS, mbind, gom_bind. rewrite Hc'.
    apply send_all_none; [|lia]. rewrite El. apply lookup_insert_eq. }
  unfold reconcile_deleted, cleanup, lookup_channel, getS. unfold mbind, gom_bind in *. rewrite Hc'.
  by rewrite Hb.
Qed.
End routines.

(** ** Witnesses *)
Lemma start_stop_routines_witness :
  exists i' s1 s2, startRates (ex_instance Initializing) init_gst = Ret ((i', None), s1) /\
    RunningRates (bm_Status i') = 1%Z /\
    controlChannels s1 !! bm_Name i' = Some 0 /\ listeners s1 !! 0 = Some 2 /\
    RateFinalizer ∈ bm_Finalizers i' /\
    stopRoutines i' s1 = Ret (tt, s2) /\ listeners s2 !! 0 = Some 0 /\ stopRoutines i' s2 = Blocked.
Proof. apply (start_stop_routines (ex_instance Initializing) init_gst); done. Defined.

(** A benchmark whose status counts one rate. *)
Definition ex_running_bm : Benchmark := upd_status (set_RunningRates 1) (ex_instance Running).

Lemma cleanup_after_restart_blocks_witness : cleanup (E := ex_env) ex_running_bm init_gst = Blocked.
Proof. apply (cleanup_after_restart_blocks (E := ex_env) ex_running_bm init_gst); done. Defined.

Definition ex_listening : gst := GSt [] {["bm" := 0]} {[0 := 2]} 1 ∅.

Definition ex_deleted : Benchmark :=
  {| bm_Name := "bm"; bm_Finalizers := ["foregroundDeletion"]; bm_DeletionTimestamp := Some 0%Z;
     bm_CreationTimestamp := zero_time; bm_Spec := ex_spec; bm_Status := bm_Status ex_running_bm |}.

Lemma deletion_after_cleanup_blocks_witness :
  reconcile_deleted (E := ex_env) ex_deleted (after_call (cleanup (E := ex_env) ex_running_bm) ex_listening)
  = Blocked.
Proof.
  apply (deletion_after_cleanup_blocks (E := ex_env) ex_running_bm ex_deleted ex_listening
    (ex_running_bm, None) (after_call (cleanup (E := ex_env) ex_running_bm) ex_listening) 0);
    vm_compute; reflexivity.
Defined.
