(* ===== verification/CreationThm.v ===== *)
(** * What the operations create

    Volumes, workload instances, deletions, default outputs, and the errors that
    are dropped on the way. *)
From stdpp Require Import sorting.
From S2P Require Import Prelude GoStrings GoTime GoJson GoDuration BenchmarkTypes KubeEnv Utils.
From S2P Require Import OutputPkg PodUtils CreateObj Workload Completion Actions Reconciler Effects.
From S2P Require Import ReconcileThm.

(** The objects sent to the API server. *)
Definition creates (tr : list request) : list object :=
  omap (fun r => match r with RCreate o => Some o | _ => None end) tr.

Lemma creates_app t1 t2 : creates (t1 ++ t2) = creates t1 ++ creates t2.
Proof. apply omap_app. Qed.

(** A computation that returns, having created [os]. *)
Definition makes {E : Env} {A} (m : GoM A) (s : gst) (os : list object) : Prop :=
  exists a s' tr, m s = Ret (a, s') /\ trace s' = trace s ++ tr /\ creates tr = os.

Section creation.
Context {E : Env}.

Lemma makes_bind {A B} (m : GoM A) (f : A -> GoM B) s os1 os2 :
  makes m s os1 -> (forall a s', makes (f a) s' os2) -> makes (m ≫= f) s (os1 ++ os2).
Proof.
  intros (a & s1 & t1 & H1 & E1 & C1) Hf. destruct (Hf a s1) as (b & s2 & t2 & H2 & E2 & C2).
  exists b, s2, (t1 ++ t2). unfold mbind, gom_bind. rewrite H1, H2, E2, E1, app_assoc, creates_app, C1, C2. done.
Qed.

Lemma makes_ret {A} (a : A) s : makes (mret a) s [].
Proof. exists a, s, []. rewrite app_nil_r. done. Qed.

Lemma makes_ask r s : makes (ask r) s (creates [r]).
Proof. exists (answer (trace s) r). eexists _, [r]. done. Qed.

Lemma doOutput_makes outs reader n b s : makes (doOutput outs reader n b) s [].
Proof.
  revert reader s. induction outs as [|o outs IH]; intros reader s; cbn [doOutput]; [apply makes_ret|].
  case_decide; [|apply IH]. apply (makes_bind _ _ _ [] []).
  - unfold OutputPkg.HttpPost. apply (makes_bind _ _ _ [] []); [apply (makes_ask (RPost _ _))|].
    intros. apply makes_ret.
  - intros [[err|] rd] s'; [apply makes_ret|apply IH].
Qed.

Lemma metric_makes bm t l s : makes (metric bm t l) s [].
Proof. apply doOutput_makes. Qed.

(** An object is sent to the server once, whatever the answer. *)
Lemma createObj_makes bm o (mk : bool) m s :
  (if mk then make_owner bm (obj_meta o) else inl (obj_meta o)) = inl m ->
  makes (createObj bm (Some o) mk) s [set_meta m o].
Proof.
  intros Hm. unfold createObj. rewrite Hm. apply (makes_bind _ _ _ [set_meta m o] []); [apply (makes_ask (RCreate _))|].
  intros err s'. case_decide; [|apply makes_ret]. apply (makes_bind _ _ _ [] []); [apply metric_makes|].
  intros ? s''. apply (makes_bind _ _ _ [] []); [apply (makes_ask (RWatch _))|]. intros. apply makes_ret.
Qed.

Lemma makes_forM_ {A} (f : A -> GoM unit) (g : A -> object) l s :
  (forall x s, makes (f x) s [g x]) -> makes (forM_ f l) s (g <$> l).
Proof.
  intros Hf. revert s. induction l as [|x l IH]; intros s; [apply makes_ret|].
  change (makes (f x ≫= fun _ => forM_ f l) s ([g x] ++ (g <$> l))).
  apply makes_bind; [apply Hf|]. intros _ s'. apply IH.
Qed.

(** What the two references leave alone: the documented effect of
    [SetControllerReference] and [SetOwnerReference] when they succeed. *)
Definition owner_ok (bm : Benchmark) : Prop :=
  forall m, exists m', make_owner bm m = inl m' /\ Name m' = Name m.

Lemma volume_names_nodup vol : NoDup (volume_name vol <$> upto (vol_Count vol)).
Proof.
  unfold upto. destruct (decide (1 < vol_Count vol)%Z) as [H|H].
  - assert (Inj (=) (=) (volume_name vol)).
    { intros a b. unfold volume_name. rewrite !decide_True by done. intros Hab.
      apply (inj (String.append (vol_Name vol))), (inj (String.append "-")) in Hab.
      by apply (inj pretty) in Hab. }
    apply (NoDup_fmap_2 _), NoDup_seqZ.
  - assert (seqZ 0 (vol_Count vol) = [] \/ seqZ 0 (vol_Count vol) = [0%Z]) as [-> | ->].
    { destruct (decide (vol_Count vol = 1)%Z) as [->|]; [by right|]. left. apply seqZ_nil. lia. }
    + constructor.
    + apply NoDup_singleton.
Qed.


(** ** Instances of a workload *)
Context (ScriptsDir : string).

Definition counter (w : string) (s : gst) : Z := default (-1)%Z (workloadInstance s !! w).

Definition object_keys (ks : list string) : list string := filter (fun k => contains "parse" k = false) ks.

Lemma run_instance_counter bm a n cm k s r s' b :
  workloadInstance s !! wl_Workload a = Some b -> in_int64 (b + 1) ->
  run_instance ScriptsDir bm a n cm k s = Ret (r, s') ->
  workloadInstance s' !! wl_Workload a = Some (b + 1)%Z.
Proof.
  intros Hb Hr H. unfold run_instance, get_instance, getS in H. apply bind_Ret in H as (x & s1 & [= <- <-] & H).
  apply bind_Ret in H as ([] & s1 & H1 & H). rewrite Hb in H1, H. cbn [default] in H1, H.
  rewrite wrap64_small in H1 by done. injection H1 as <-.
  apply (prepareAndRun_calm ScriptsDir) in H as [_ ->]. cbn. apply lookup_insert_eq.
Qed.

Lemma instances_counter bm a n cm k l s s' b :
  workloadInstance s !! wl_Workload a = Some b ->
  (min_int64 <= b)%Z -> (b + Z.of_nat (length l) <= max_int64)%Z ->
  forM_err (fun _ : Z => run_instance ScriptsDir bm a n cm k) l s = Ret (None, s') ->
  workloadInstance s' !! wl_Workload a = Some (b + Z.of_nat (length l))%Z.
Proof.
  revert s b. induction l as [|x l IH]; intros s b Hb Hlo Hhi H.
  - injection H as <-. simpl. by rewrite Z.add_0_r.
  - cbn [forM_err] in H. apply bind_Ret in H as (err & s1 & H1 & H). cbn [length] in Hhi.
    assert (in_int64 (b + 1)) as Hin by (unfold in_int64; lia).
    pose proof (run_instance_counter _ _ _ _ _ _ _ _ _ Hb Hin H1) as Hs1.
    destruct err; [discriminate|]. rewrite (IH _ _ Hs1); [f_equal; cbn [length]; lia|lia|lia|done].
Qed.

Lemma object_key_counter bm a n cm k s s' :
  (min_int64 <= counter (wl_Workload a) s)%Z ->
  (0 <= wl_Count a)%Z -> (counter (wl_Workload a) s + wl_Count a <= max_int64)%Z ->
  run_object_key ScriptsDir bm a n cm k s = Ret (None, s') ->
  counter (wl_Workload a) s' =
    (if contains "parse" k then counter (wl_Workload a) s else counter (wl_Workload a) s + wl_Count a)%Z.
Proof.
  intros Hlo Hc Hhi H. unfold run_object_key in H. destruct (contains "parse" k); [by injection H as <-|].
  unfold get_instance, getS in H. apply bind_Ret in H as (x & s0 & [= <- <-] & H).
  apply bind_Ret in H as ([] & s1 & H1 & H).
  assert (workloadInstance s1 !! wl_Workload a = Some (counter (wl_Workload a) s)) as Hs1.
  { unfold counter. destruct (workloadInstance s !! wl_Workload a) eqn:E0.
    - injection H1 as <-. done.
    - injection H1 as <-. cbn. apply lookup_insert_eq. }
  apply (instances_counter _ _ _ _ _ _ _ _ _ Hs1) in H; unfold upto in *; rewrite ?length_seqZ, ?Z2Nat.id in * by lia; try done.
  unfold counter at 1. by rewrite H.
Qed.

Lemma object_keys_counter bm a n cm ks s s' :
  (min_int64 <= counter (wl_Workload a) s)%Z -> (0 <= wl_Count a)%Z ->
  (counter (wl_Workload a) s + wl_Count a * Z.of_nat (length (object_keys ks)) <= max_int64)%Z ->
  forM_err (run_object_key ScriptsDir bm a n cm) ks s = Ret (None, s') ->
  counter (wl_Workload a) s' =
    (counter (wl_Workload a) s + wl_Count a * Z.of_nat (length (object_keys ks)))%Z.
Proof.
  revert s. induction ks as [|k ks IH]; intros s Hlo Hc Hhi H.
  - injection H as <-. simpl. lia.
  - cbn [forM_err] in H. apply bind_Ret in H as (err & s1 & H1 & H). destruct err; [discriminate|].
    unfold object_keys in *. rewrite filter_cons in *.
    destruct (contains "parse" k) eqn:Ek.
    + rewrite decide_False in * by done.
      unfold run_object_key in H1. rewrite Ek in H1. injection H1 as <-. by apply IH.
    + rewrite decide_True in * by done. cbn [length] in *. rewrite Nat2Z.inj_succ in *.
      apply object_key_counter in H1; [|done|done|nia]. rewrite Ek in H1.
      rewrite (IH s1); [lia|lia|done|nia|done].
Qed.

Lemma run_parser_keys_calm bm a n cm ks s r s' :
  forM_err (run_parser_key ScriptsDir bm a n cm) ks s = Ret (r, s') -> workloadInstance s' = workloadInstance s.
Proof.
  intros H. eapply (_ : runs (calm no_update) (forM_err (run_parser_key ScriptsDir bm a n cm) ks)) in H.
  - by destruct H. Unshelve. unfold run_parser_key. runs_tac.
Qed.

(** C13: running a workload without an error advances the instance counter of
    its template by its count for every object of the template that is not a
    parser, so instance numbers continue where the last run stopped. *)
Theorem RunWorkload_counts bm a n cm s s' :
  answer (trace s) (RGetConfigMap LIBRARY_NAMESPACE (wl_Workload a)) = inl cm ->
  (min_int64 <= counter (wl_Workload a) s)%Z -> (0 <= wl_Count a)%Z ->
  (counter (wl_Workload a) s +
    wl_Count a * Z.of_nat (length (object_keys (map_to_list (cm_Data cm)).*1)) <= max_int64)%Z ->
  RunWorkload ScriptsDir bm a n s = Ret (None, s') ->
  counter (wl_Workload a) s' =
    (counter (wl_Workload a) s + wl_Count a * Z.of_nat (length (object_keys (map_to_list (cm_Data cm)).*1)))%Z.
Proof.
  intros Hcm Hlo Hc Hhi H. unfold RunWorkload in H. apply bind_Ret in H as (cm' & s1 & H1 & H).
  injection H1 as <- <-. rewrite Hcm in H.
  apply bind_Ret in H as (ks1 & s2 & H2 & H). injection H2 as <- <-.
  apply bind_Ret in H as (err & s3 & H3%run_parser_keys_calm & H). destruct err; [discriminate|].
  apply bind_Ret in H as (ks2 & s4 & H4 & H). injection H4 as <- <-.
  set (ks := answer _ _) in H.
  assert (length (object_keys ks) = length (object_keys (map_to_list (cm_Data cm)).*1)) as El.
  { apply Permutation_length. unfold object_keys.
    by rewrite (answer_range (trace s3) (cm_Data cm) : ks ≡ₚ _). }
  match type of H with forM_err _ _ ?s5 = _ => assert (counter (wl_Workload a) s5 = counter (wl_Workload a) s) as Ec
    by (unfold counter; cbn; by rewrite H3) end.
  apply object_keys_counter in H; rewrite ?Ec, ?El in *; done.
Qed.
End creation.

(** ** Deletion, default outputs and dropped errors *)
Section operations.
Context {E : Env} (ScriptsDir : string).

(** C18: [DeleteObj] sends at most one deletion, and the object it deletes is
    one of the listed objects that no other is older than, whichever sort is
    used. *)
Theorem DeleteObj_oldest sort d s r s' :
  (forall l, sort l ≡ₚ l /\ Sorted older (sort l)) ->
  DeleteObj sort d s = Ret (r, s') ->
  exists tr, trace s' = trace s ++ tr /\
    ((forall q a k i, q ∈ tr -> q <> RDelete a k i) \/
     exists sel items i, tr = [RListObjects (APIVersion d) (Kind d) "default" sel; RDelete (APIVersion d) (Kind d) i] /\
       answer (trace s) (RListObjects (APIVersion d) (Kind d) "default" sel) = inl items /\
       i ∈ items /\ forall j, j ∈ items -> older i j).
Proof.
  intros Hsort H. unfold DeleteObj in H. destruct (labelSelectorAsSelector _) as [sel|err].
  2: { injection H as _ <-. exists []. rewrite app_nil_r. split; [done|]. left.
       intros q a k i Hq. by apply not_elem_of_nil in Hq. }
  apply bind_Ret in H as (items & s1 & H1 & H). injection H1 as <- <-.
  set (q := RListObjects _ _ _ _) in *.
  assert (forall x a k i, x ∈ [q] -> x <> RDelete a k i) as Hq.
  { intros x a k i ->%list_elem_of_singleton. done. }
  destruct (answer (trace s) q) as [items|err] eqn:Ea.
  2: { injection H as _ <-. exists [q]. split; [done|by left]. }
  destruct (Hsort items) as [Hp Hs]. destruct (sort items) as [|i rest].
  { injection H as _ <-. exists [q]. split; [done|by left]. }
  injection H as _ <-. exists [q; RDelete (APIVersion d) (Kind d) i].
  split; [cbn; by rewrite <- app_assoc|]. right. exists sel, items, i. split_and!; [done|done| |].
  - rewrite <- Hp. left.
  - intros j Hj. rewrite <- Hp in Hj. apply elem_of_cons in Hj as [->|Hj]; [unfold older; lia|].
    apply Sorted_StronglySorted in Hs; [|intros x y z; unfold older; lia].
    apply StronglySorted_inv in Hs as [_ Hs]. rewrite Forall_forall in Hs. apply Hs.
    by apply list_elem_of_In.
Qed.

(** ** Default outputs *)
Definition has_output (n : string) (l : list Output) : bool :=
  existsb (fun o => bool_decide (out_Name o = n)) l.

Lemma has_output_app n l1 l2 : has_output n (l1 ++ l2) = has_output n l1 || has_output n l2.
Proof. apply existsb_app. Qed.

Lemma add_defaults_present outs b names outs' b' :
  foldl add_default (outs, b) names = (outs', b') ->
  (exists new, outs' = outs ++ new) /\ (forall n, n ∈ names -> has_output n outs' = true) /\
  (b = true -> b' = true) /\ (b' = false -> outs' = outs).
Proof.
  revert outs b. induction names as [|n names IH]; intros outs b H.
  - injection H as <- <-. split_and!; [by exists []; rewrite app_nil_r| |done|done].
    intros m Hm. by apply not_elem_of_nil in Hm.
  - cbn [foldl] in H. unfold add_default in H at 2. fold (has_output n outs) in H.
    destruct (has_output n outs) eqn:En.
    + destruct (IH _ _ H) as ((new & ->) & Hall & Hb & Hf). split_and!; [by exists new| |done|done].
      intros m [->|Hm]%elem_of_cons; [by rewrite has_output_app, En|by apply Hall].
    + destruct (IH _ _ H) as ((new & ->) & Hall & Hb & Hf). split_and!.
      * eexists. by rewrite <- app_assoc.
      * intros m [->|Hm]%elem_of_cons; [|by apply Hall].
        rewrite !has_output_app. cbn. by rewrite bool_decide_true, !orb_true_r.
      * by rewrite Hb.
      * intros Hf'. by rewrite Hb in Hf'.
Qed.

Lemma add_defaults_stable outs b names :
  (forall n, n ∈ names -> has_output n outs = true) -> foldl add_default (outs, b) names = (outs, b).
Proof.
  induction names as [|n names IH]; intros H; [done|]. cbn [foldl]. unfold add_default at 2.
  fold (has_output n outs). rewrite H by left. apply IH. intros; apply H; by right.
Qed.

(** The default outputs are added behind the user's, those that exist are
    kept, all three names are there afterwards, and doing it again changes
    nothing: the reconciler requeues at most once for it. *)
Theorem addDefaultOutputs_idempotent instance s :
  exists i' u s1, addDefaultOutputs instance s = Ret ((i', u), s1) /\
    (exists new, Outputs (bm_Spec i') = Outputs (bm_Spec instance) ++ new) /\
    (forall n, is_Some (default_endpoints !! n) -> has_output n (Outputs (bm_Spec i')) = true) /\
    (u = false -> Outputs (bm_Spec i') = Outputs (bm_Spec instance)) /\
    forall s2, exists s3, addDefaultOutputs i' s2 = Ret ((i', false), s3).
Proof.
  unfold addDefaultOutputs. set (names := fun s => answer (trace s) (RRange default_endpoints)).
  assert (forall s n, is_Some (default_endpoints !! n) <-> n ∈ names s) as Hn.
  { intros s0 n. unfold names. rewrite (answer_range (trace s0) default_endpoints).
    rewrite list_elem_of_fmap. split.
    - intros [v Hv]. exists (n, v). split; [done|]. by apply elem_of_map_to_list.
    - intros ([m v] & -> & Hv%elem_of_map_to_list). eauto. }
  destruct (foldl add_default (Outputs (bm_Spec instance), false) (names s)) as [outs u] eqn:Ef.
  destruct (add_defaults_present _ _ _ _ _ Ef) as (Hnew & Hall & _ & Hsame).
  exists (with_outputs outs instance), u. eexists. split.
  { unfold mbind, gom_bind, ask. fold (names s). rewrite Ef. reflexivity. }
  split_and!; [done|intros n Hs; apply Hall; by apply Hn|done|].
  intros s2. eexists. unfold mbind, gom_bind, ask. fold (names s2). cbn [with_outputs bm_Spec Outputs].
  rewrite add_defaults_stable; [reflexivity|]. intros n Hs.
  apply Hall, (proj1 (Hn s n)), (proj2 (Hn s2 n)), Hs.
Qed.

(** ** Errors that are not passed on *)

(** When the script of a temporary config map can be read, the caller sees
    no error even if the API server refuses the config map. *)
Theorem createTmp_drops_create_error bm scriptName script s name err s' :
  answer (trace s) (RReadFile ScriptsDir scriptName) = inl script ->
  createTmpConfigMapFromDisk ScriptsDir bm scriptName s = Ret ((name, err), s') -> err = None.
Proof.
  intros Hr H. unfold createTmpConfigMapFromDisk, loadScript in H.
  apply bind_Ret in H as (x & s1 & H1 & H). injection H1 as <- <-. rewrite Hr in H.
  apply bind_Ret in H as (n & s2 & _ & H). apply bind_Ret in H as (e & s3 & _ & H). by injection H as _ <- _.
Qed.
End operations.

(** ** Witnesses *)
(** An API server that refuses to create objects. *)
Definition deny_creates (E : Env) : Env.
Proof.
  refine {| answer tr r :=
       match r as r0 return response r0 with
       | RCreate _ => Some (ErrOther "denied")
       | r0 => answer (Env := E) tr r0
       end;
     decode_yaml := decode_yaml (Env := E); addLabelToSelector := addLabelToSelector (Env := E);
     labelSelectorAsSelector := labelSelectorAsSelector (Env := E);
     parseToLabelSelector := parseToLabelSelector (Env := E);
     formatLabelSelector := formatLabelSelector (Env := E);
     setControllerReference := setControllerReference (Env := E);
     setOwnerReference := setOwnerReference (Env := E); encodeOutput := encodeOutput (Env := E) |}.
  intros tr m. apply (answer_range (Env := E)).
Defined.


Definition ex_workload_run : gst := Eval vm_compute in
  after_call (RunWorkload (E := ex_env) "/scripts" (ex_instance "") ex_workload "w") init_gst.

Lemma RunWorkload_counts_witness : counter "fio" ex_workload_run = 1%Z.
Proof.
  apply (RunWorkload_counts (E := ex_env) "/scripts" (ex_instance "") ex_workload "w" sample_cm init_gst ex_workload_run).
  - reflexivity.
  - vm_compute. discriminate.
  - vm_compute. discriminate.
  - vm_compute. discriminate.
  - vm_compute. reflexivity.
Defined.

Definition ex_delete : Delete := {| APIVersion := "v1"; Kind := "Pod"; Selector := no_selector |}.

Lemma DeleteObj_oldest_witness :
  exists tr, trace (after_call (DeleteObj (E := ex_env) (merge_sort older) ex_delete) init_gst) = [] ++ tr /\
    ((forall q a k i, q ∈ tr -> q <> RDelete a k i) \/
     exists sel items i, tr = [RListObjects "v1" "Pod" "default" sel; RDelete "v1" "Pod" i] /\
       answer (Env := ex_env) [] (RListObjects "v1" "Pod" "default" sel) = inl items /\
       i ∈ items /\ forall j, j ∈ items -> older i j).
Proof.
  apply (DeleteObj_oldest (E := ex_env) (merge_sort older) ex_delete init_gst None).
  - intros l. split; [apply merge_sort_Permutation|]. apply Sorted_merge_sort. intros x y. unfold older. lia.
  - vm_compute. reflexivity.
Defined.

Lemma createTmp_drops_create_error_witness : @None kerr = None.
Proof.
  apply (createTmp_drops_create_error (E := deny_creates ex_env) "/scripts" (ex_instance "") "countdone.sh" "countdone.sh"
    init_gst "helper-1" None
    (after_call (createTmpConfigMapFromDisk (E := deny_creates ex_env) "/scripts" (ex_instance "") "countdone.sh") init_gst)).
  - reflexivity.
  - vm_compute. reflexivity.
Defined.
