(* ===== verification/OperationsThm.v ===== *)
(** * What the control operations create

    Snapshots and scaling: the objects [CreateSnapshot] and [ScaleObj] send to
    the server, and which operations a tick of a rate runs. *)
From S2P Require Import Prelude GoStrings GoTime GoJson GoDuration BenchmarkTypes KubeEnv Utils.
From S2P Require Import OutputPkg PodUtils CreateObj Workload Completion Actions Reconciler Effects.
From S2P Require Import ReconcileThm CreationThm.

Section operations.
Context {E : Env}.

(** A loop whose body creates one object for each element. *)
Lemma makes_forM_rel {A} (R : A -> object -> Prop) (f : A -> GoM unit) l :
  (forall x s, exists o, R x o /\ makes (f x) s [o]) ->
  forall s, exists os, Forall2 R l os /\ makes (forM_ f l) s os.
Proof.
  intros Hf. induction l as [|x l IH]; intros s.
  { exists []. split; [constructor|apply makes_ret]. }
  destruct (Hf x s) as (o & Ho & a & s1 & t1 & H1 & E1 & C1).
  destruct (IH s1) as (os & Hos & b & s2 & t2 & H2 & E2 & C2).
  exists (o :: os). split; [by constructor|]. exists b, s2, (t1 ++ t2).
  cbn [forM_]. unfold mbind, gom_bind. rewrite H1, H2, E2, E1, app_assoc, creates_app, C1, C2. done.
Qed.

(** The selector of a snapshot: the workload's label, or the volume's, or all. *)
Definition snapshot_selector (s : Snapshot) : LabelSelector :=
  if decide (sn_WorkloadName s <> EmptyString)
  then addLabelToSelector empty_selector "workloadname" (sn_WorkloadName s)
  else if decide (sn_VolumeName s <> EmptyString)
  then addLabelToSelector empty_selector "volumename" (sn_VolumeName s)
  else empty_selector.

(** C16: [CreateSnapshot] sends the server one snapshot for each claim listed
    under its selector, in the order of the list and whatever the server answers
    to them: of the class of the spec, taken from that claim, and labelled with
    the name of the operation.  It returns no error once the list was read. *)
Theorem CreateSnapshot_snapshots bm s actionName st sel pvcs :
  labelSelectorAsSelector (snapshot_selector s) = inl sel ->
  answer (trace st) (RListPVCs "default" sel) = inl pvcs ->
  exists st' tr, CreateSnapshot bm s actionName st = Ret (None, st') /\
    trace st' = trace st ++ RListPVCs "default" sel :: tr /\
    Forall2 (fun pvc o => exists name, o = snapshot_object s actionName (pvc_Name pvc) name) pvcs (creates tr).
Proof.
  intros Hsel Hl. unfold CreateSnapshot. fold (snapshot_selector s). rewrite Hsel.
  set (s1 := GSt (trace st ++ [RListPVCs "default" sel]) (controlChannels st) (listeners st) (next_chan st)
               (workloadInstance st)).
  destruct (makes_forM_rel (fun pvc o => exists name, o = snapshot_object s actionName (pvc_Name pvc) name)
    (fun pvc => name ← ask (RGenerateName (bm_Name bm +:+ "-snapshot-"));
       _ ← createObj bm (Some (snapshot_object s actionName (pvc_Name pvc) name)) false; mret tt) pvcs)
    with (s := s1) as (os & Hos & [] & s2 & tr & H2 & E2 & <-).
  { intros pvc s0. set (name := answer (trace s0) (RGenerateName (bm_Name bm +:+ "-snapshot-"))).
    exists (snapshot_object s actionName (pvc_Name pvc) name). split; [by eexists|].
    set (s3 := GSt (trace s0 ++ [RGenerateName (bm_Name bm +:+ "-snapshot-")]) (controlChannels s0)
                 (listeners s0) (next_chan s0) (workloadInstance s0)).
    destruct (makes_bind (createObj bm (Some (snapshot_object s actionName (pvc_Name pvc) name)) false)
      (fun _ => mret tt) s3 [snapshot_object s actionName (pvc_Name pvc) name] []) as (a & s4 & t & H4 & E4 & C4).
    { by apply (createObj_makes bm (snapshot_object s actionName (pvc_Name pvc) name) false). }
    { intros. apply makes_ret. }
    exists a, s4, (RGenerateName (bm_Name bm +:+ "-snapshot-") :: t). split_and!.
    - unfold mbind at 1, gom_bind at 1, ask at 1. exact H4.
    - rewrite E4. simpl. by rewrite <- app_assoc.
    - exact C4. }
  exists s2, tr. split_and!; [|rewrite E2; simpl; by rewrite <- app_assoc|done].
  unfold mbind at 1, gom_bind at 1, ask at 1. rewrite Hl. fold s1.
  unfold mbind at 1, gom_bind at 1. by rewrite H2.
Qed.

(** A clone of a config map of the library: one is sent with the same data. *)
Lemma cloneParser_makes bm name cm st :
  owner_ok bm -> answer (trace st) (RGetConfigMap LIBRARY_NAMESPACE name) = inl cm ->
  exists st' tr clone m, cloneParser bm name st = Ret ((clone, None), st') /\
    trace st' = trace st ++ RGetConfigMap LIBRARY_NAMESPACE name :: tr /\
    creates tr = [ConfigMap m (cm_Data cm)] /\ Name m = clone.
Proof.
  intros Hown Hcm.
  set (s1 := GSt (trace st ++ [RGetConfigMap LIBRARY_NAMESPACE name]) (controlChannels st) (listeners st)
               (next_chan st) (workloadInstance st)).
  set (clone := answer (trace s1) (RGenerateName (name +:+ "-"))).
  set (s2 := GSt (trace s1 ++ [RGenerateName (name +:+ "-")]) (controlChannels s1) (listeners s1)
               (next_chan s1) (workloadInstance s1)).
  destruct (Hown (new_meta clone)) as (m & Hm & Hname).
  destruct (createObj_makes bm (ConfigMap (new_meta clone) (cm_Data cm)) true m s2) as (err & s3 & tr & H3 & E3 & C3).
  { exact Hm. }
  exists s3, (RGenerateName (name +:+ "-") :: tr), clone, m. split_and!; [| |exact C3|exact Hname].
  - unfold cloneParser. unfold mbind at 1, gom_bind at 1, ask at 1. rewrite Hcm. fold s1.
    unfold mbind at 1, gom_bind at 1, ask at 1. fold clone s2.
    unfold mbind at 1, gom_bind at 1. by rewrite H3.
  - rewrite E3. unfold s2, s1. simpl. by rewrite <- !app_assoc.
Qed.


(** ** The operations of a tick *)
Lemma forM_filter {A} (P : A -> Prop) `{!forall x, Decision (P x)} (f : A -> GoM unit) l s :
  forM_ (fun a => if decide (P a) then f a else mret tt) l s = forM_ f (filter P l) s.
Proof.
  revert s. induction l as [|a l IH]; intros s; [done|]. rewrite filter_cons. cbn [forM_].
  destruct (decide (P a)).
  - cbn [forM_]. unfold mbind, gom_bind. destruct (f a s) as [[[] s1]| |]; [apply IH|done..].
  - unfold mbind at 1, gom_bind at 1. cbn. apply IH.
Qed.

(** A tick runs the volumes, then the workloads, then the operations of its own
    rate, in the order of the spec, and nothing else. *)
Theorem runControlOps_own ScriptsDir sort bm rateName n s :
  runControlOps ScriptsDir sort bm rateName n s =
    (metric bm "rateFired" ["rateName"; rateName; "n"; itoa n] ;;
     forM_ (CreateVolume bm) (filter (fun a => vol_RateName a = rateName) (Volumes (bm_Spec bm))) ;;
     forM_ (fun a => _ ← RunWorkload ScriptsDir bm a (wl_Name a); mret tt)
       (filter (fun a => wl_RateName a = rateName) (Workloads (bm_Spec bm))) ;;
     forM_ (fun a => _ ← runControlOp sort bm a n; mret tt)
       (filter (fun a => op_RateName a = rateName) (ControlOperations (bm_Spec bm)))) s.
Proof.
  unfold runControlOps, mbind, gom_bind. destruct (metric _ _ _ s) as [[[] s1]| |]; [|done..].
  rewrite forM_filter. destruct (forM_ _ _ s1) as [[[] s2]| |]; [|done..].
  rewrite (forM_filter (fun a => wl_RateName a = rateName) (fun a s => _)).
  destruct (forM_ _ _ s2) as [[[] s3]| |]; [|done..].
  by rewrite (forM_filter (fun a => op_RateName a = rateName) (fun a s => _)).
Qed.
End operations.

(** ** Witnesses *)
Definition ex_snapshot : Snapshot := {| sn_WorkloadName := "w"; sn_VolumeName := ""; SnapshotClass := "csi" |}.

(** The example server with two claims to list. *)
Definition with_claims (E : Env) : Env.
Proof.
  refine {|
    answer tr r := match r with
                   | RListPVCs _ _ => inl [{| pvc_Name := "v-0"; pvc_Phase := "Bound" |};
                                           {| pvc_Name := "v-1"; pvc_Phase := "Bound" |}]
                   | r => answer (Env := E) tr r
                   end;
    decode_yaml := decode_yaml (Env := E); addLabelToSelector := addLabelToSelector (Env := E);
    labelSelectorAsSelector := labelSelectorAsSelector (Env := E);
    parseToLabelSelector := parseToLabelSelector (Env := E);
    formatLabelSelector := formatLabelSelector (Env := E);
    setControllerReference := setControllerReference (Env := E);
    setOwnerReference := setOwnerReference (Env := E); encodeOutput := encodeOutput (Env := E) |}.
  intros tr m. apply (answer_range (Env := E)).
Defined.

Lemma CreateSnapshot_snapshots_witness :
  exists st' tr, CreateSnapshot (E := with_claims ex_env) (ex_instance "") ex_snapshot "snap" init_gst = Ret (None, st') /\
    trace st' = [] ++ RListPVCs "default" "workloadname=w," :: tr /\
    Forall2 (fun pvc o => exists name, o = snapshot_object ex_snapshot "snap" (pvc_Name pvc) name)
      [{| pvc_Name := "v-0"; pvc_Phase := "Bound" |}; {| pvc_Name := "v-1"; pvc_Phase := "Bound" |}] (creates tr).
Proof.
  apply (CreateSnapshot_snapshots (E := with_claims ex_env) (ex_instance "") ex_snapshot "snap" init_gst
    "workloadname=w,"); reflexivity.
Defined.

Definition ex_scale : Scale :=
  {| ObjName := "db"; ScaleScripts := "scripts"; sc_WorkloadName := ""; ServiceAccountName := "sa" |}.

