(* ===== verification/ReplaceThm.v ===== *)
(** * Replacing variables in workload templates

    [replaceVars] works on text.  On templates whose text and values contain no
    braces it is the substitution one expects: a variable of the workload, else
    a default from the annotations of the template, else a built-in. *)
From S2P Require Import Prelude GoStrings GoTime GoJson BenchmarkTypes KubeEnv OutputPkg PodUtils.
From S2P Require Import CreateObj Workload.

(** ** Templates *)
Definition plain_char (c : ascii) : Prop := c <> "{"%char /\ c <> "}"%char.
Definition plain (s : string) : Prop := Forall plain_char (String.list_ascii_of_string s).

(** Text, or a reference to a variable. *)
Inductive piece := Text (s : string) | Ref (v : string).

Definition plain_piece (p : piece) : Prop := match p with Text s | Ref s => plain s end.

Definition render1 (p : piece) : string := match p with Text s => s | Ref v => braced v end.
Fixpoint render (ps : list piece) : string :=
  match ps with [] => EmptyString | p :: ps' => render1 p +:+ render ps' end.

Definition subst (σ : string -> option string) (p : piece) : piece :=
  match p with
  | Text s => Text s
  | Ref v => match σ v with Some x => Text x | None => Ref v end
  end.

(** First [σ1], then [σ2]. *)
Definition orelse (σ1 σ2 : string -> option string) (v : string) : option string :=
  match σ1 v with Some x => Some x | None => σ2 v end.

Definition only (k x : string) (v : string) : option string := if decide (v = k) then Some x else None.

(** The annotation that holds the default of a variable. *)
Definition default_key (v : string) : string := "cnsbench.default." +:+ v.

Definition builtins (workloadName : string) (instanceNum numInstances : Z) : string -> option string :=
  orelse (only "ACTION_NAME" workloadName)
    (orelse (only "ACTION_NAME_CAPS" (to_upper workloadName))
      (orelse (only "INSTANCE_NUM" (itoa instanceNum)) (only "NUM_INSTANCES" (itoa numInstances)))).

Definition variables (a : Workload) (cm : ConfigMapData) (workloadName : string)
    (instanceNum numInstances : Z) : string -> option string :=
  orelse (fun v => Vars a !! v)
    (orelse (fun v => cm_Annotations cm !! default_key v)
      (builtins workloadName instanceNum numInstances)).

(** ** Lemmas on text *)
Lemma plain_cons c s : plain (String c s) <-> plain_char c /\ plain s.
Proof. apply Forall_cons_iff. Qed.

Lemma prefix_cons a p b s :
  String.prefix (String a p) (String b s) = if decide (a = b) then String.prefix p s else false.
Proof. simpl. destruct (ascii_dec a b); case_decide; done. Qed.

Lemma braced_cons v : braced v = String "{" (String "{" (v +:+ brace_close)).
Proof. reflexivity. Qed.

Lemma close_cons s : brace_close +:+ s = String "}" (String "}" s).
Proof. reflexivity. Qed.

Lemma replace_skip_char v x c s :
  c <> "{"%char -> replace_all (String c s) (braced v) x = String c (replace_all s (braced v) x).
Proof.
  intros Hc. unfold replace_all. cbn [replace_aux].
  assert (String.prefix (braced v) (String c s) = false) as ->; [|done].
  rewrite braced_cons, prefix_cons. by rewrite decide_False by done.
Qed.

Lemma replace_skip_plain v x t s :
  plain t -> replace_all (t +:+ s) (braced v) x = t +:+ replace_all s (braced v) x.
Proof.
  induction t as [|c t IH]; [done|]. intros [[Hc _] Ht]%plain_cons.
  change (String c t +:+ s) with (String c (t +:+ s)). rewrite replace_skip_char by done.
  by rewrite IH.
Qed.

(** Two references with the same rest agree on the variable. *)
Lemma prefix_closing v w s :
  plain v -> plain w -> String.prefix (v +:+ brace_close) (w +:+ brace_close +:+ s) = true -> v = w.
Proof.
  revert w. induction v as [|c v IH]; intros w Hv Hw H.
  - destruct w as [|d w]; [done|]. apply plain_cons in Hw as [[_ Hd] _]. exfalso. revert H.
    change ("" +:+ brace_close) with (String "}" "}").
    change (String d w +:+ brace_close +:+ s) with (String d (w +:+ brace_close +:+ s)).
    rewrite prefix_cons. case_decide; [congruence|done].
  - apply plain_cons in Hv as [[_ Hc] Hv]. destruct w as [|d w].
    + exfalso. revert H. change ("" +:+ brace_close +:+ s) with (String "}" (String "}" s)).
      change (String c v +:+ brace_close) with (String c (v +:+ brace_close)).
      rewrite prefix_cons. case_decide; [congruence|done].
    + apply plain_cons in Hw as [_ Hw]. revert H.
      change (String d w +:+ brace_close +:+ s) with (String d (w +:+ brace_close +:+ s)).
      change (String c v +:+ brace_close) with (String c (v +:+ brace_close)).
      rewrite prefix_cons. case_decide as Hcd; [|done]. intros H. rewrite Hcd. f_equal. by apply IH.
Qed.

Lemma replace_other_ref v w x s :
  plain v -> plain w -> v <> w ->
  replace_all (braced w +:+ s) (braced v) x = braced w +:+ replace_all s (braced v) x.
Proof.
  intros Hv Hw Hne.
  assert (forall t, replace_all (brace_close +:+ t) (braced v) x = brace_close +:+ replace_all t (braced v) x) as Hclose.
  { intros t. unfold brace_close.
    change (replace_all (String "}" (String "}" t)) (braced v) x = String "}" (String "}" (replace_all t (braced v) x))).
    by rewrite !replace_skip_char by done. }
  assert (replace_all (w +:+ brace_close +:+ s) (braced v) x = w +:+ brace_close +:+ replace_all s (braced v) x) as Hrest
    by (by rewrite replace_skip_plain, Hclose).
  unfold braced at 1 3. rewrite !append_assoc. unfold brace_open.
  change (replace_all (String "{" (String "{" (w +:+ brace_close +:+ s))) (braced v) x
    = String "{" (String "{" (w +:+ brace_close +:+ replace_all s (braced v) x))).
  unfold replace_all. cbn [replace_aux].
  assert (String.prefix (braced v) (String "{" (String "{" (w +:+ brace_close +:+ s))) = false) as ->.
  { rewrite braced_cons, !prefix_cons, !decide_True by done.
    destruct (String.prefix _ _) eqn:Ep; [|done]. exfalso. apply Hne. by eapply prefix_closing. }
  assert (String.prefix (braced v) (String "{" (w +:+ brace_close +:+ s)) = false) as ->.
  { rewrite braced_cons, prefix_cons, decide_True by done. destruct w as [|d w]; [done|].
    apply plain_cons in Hw as [[Hd _] _].
    change (String d w +:+ brace_close +:+ s) with (String d (w +:+ brace_close +:+ s)).
    rewrite prefix_cons, decide_False; [done|]. congruence. }
  unfold replace_all in Hrest. by rewrite Hrest.
Qed.

Lemma replace_render v x ps :
  plain v -> Forall plain_piece ps ->
  replace_all (render ps) (braced v) x = render (subst (only v x) <$> ps).
Proof.
  intros Hv. induction 1 as [|p ps Hp _ IH]; [done|]. cbn [render fmap list_fmap].
  destruct p as [t|w]; cbn [render1 subst].
  - by rewrite replace_skip_plain, IH.
  - unfold only. case_decide as Hw.
    + subst w. rewrite replace_all_front by done. by rewrite IH.
    + rewrite replace_other_ref by (done || congruence). by rewrite IH.
Qed.

Lemma subst_subst σ1 σ2 (ps : list piece) : subst σ2 <$> (subst σ1 <$> ps) = subst (orelse σ1 σ2) <$> ps.
Proof.
  rewrite <- list_fmap_compose. apply list_fmap_ext. intros i [t|v] _; [done|].
  unfold orelse. simpl. by destruct (σ1 v).
Qed.

Lemma subst_ext σ1 σ2 (ps : list piece) : (forall v, σ1 v = σ2 v) -> subst σ1 <$> ps = subst σ2 <$> ps.
Proof. intros H. apply list_fmap_ext. intros i [t|v] _; [done|]. simpl. by rewrite H. Qed.

Lemma subst_none (ps : list piece) : subst (fun _ => None) <$> ps = ps.
Proof. induction ps as [|[t|v] ps IH]; [done|..]; cbn; by rewrite IH. Qed.

Lemma subst_plain σ ps :
  (forall v x, σ v = Some x -> plain x) -> Forall plain_piece ps -> Forall plain_piece (subst σ <$> ps).
Proof.
  intros Hσ. induction 1 as [|p ps Hp _ IH]; [constructor|]. constructor; [|done].
  destruct p as [t|v]; [done|]. cbn. destruct (σ v) eqn:E; [by eapply Hσ|done].
Qed.

(** ** Numbers and capitals are plain *)
Lemma pretty_N_go_plain x s : plain s -> plain (pretty_N_go x s).
Proof.
  revert s. induction (N.lt_wf_0 x) as [x _ IH]. intros s Hs.
  destruct (decide (x = 0)%N) as [->|Hx]; [by rewrite pretty_N_go_0|].
  rewrite pretty_N_go_step by lia. apply IH; [apply N.div_lt; lia|].
  apply plain_cons. split; [|done]. unfold pretty_N_char, plain_char. by repeat case_match.
Qed.

Lemma itoa_plain z : plain (itoa z).
Proof.
  assert (forall n : N, plain (pretty n)) as Hn.
  { intros n. unfold pretty, pretty_N. case_decide; [|apply pretty_N_go_plain; constructor].
    repeat constructor; discriminate. }
  unfold itoa, pretty, pretty_Z. destruct z as [|p|p].
  - repeat constructor; discriminate.
  - apply Hn.
  - apply plain_cons. split; [split; discriminate|]. apply Hn.
Qed.

Lemma to_upper_plain s : plain s -> plain (to_upper s).
Proof.
  induction s as [|c s IH]; [done|]. intros [Hc Hs]%plain_cons. apply plain_cons. split; [|by apply IH].
  unfold upper_ascii. case_decide as H; [|done].
  assert (forall d, nat_of_ascii d > 90 -> ascii_of_nat (nat_of_ascii c - 32) <> d) as Hd.
  { intros d Hd E. apply (f_equal nat_of_ascii) in E. rewrite nat_ascii_embedding in E by lia. lia. }
  split; apply Hd; vm_compute; lia.
Qed.

(** ** The loops over the two maps *)
Lemma replace_loop (f : string -> string -> string) (σ : string -> option string)
    (dom : string -> option string) ks ps :
  (forall v x, σ v = Some x -> plain x) ->
  (forall k ps, k ∈ ks -> Forall plain_piece ps ->
     f (render ps) k = render (subst (fun v => if decide (Some v = dom k) then σ v else None) <$> ps)) ->
  Forall plain_piece ps ->
  foldl f (render ps) ks =
    render (subst (fun v => if decide (Some v ∈ dom <$> ks) then σ v else None) <$> ps).
Proof.
  intros Hσ. revert ps. induction ks as [|k ks IH]; intros ps Hf Hps.
  - cbn [foldl]. rewrite (subst_ext _ (fun _ => None)); [by rewrite subst_none|].
    intros v. case_decide as H; [by apply not_elem_of_nil in H|done].
  - cbn [foldl]. rewrite Hf by (done || by left). rewrite IH.
    + rewrite subst_subst. f_equal. apply subst_ext. intros v. unfold orelse. cbn [fmap list_fmap].
      destruct (decide (Some v = dom k)) as [Hk|Hk].
      * assert (Some v ∈ dom k :: (dom <$> ks)) as Hin by (rewrite Hk; set_solver).
        rewrite (decide_True _ _ Hin). destruct (σ v); [done|]. by case_decide.
      * destruct (decide (Some v ∈ dom <$> ks)) as [Hi|Hi].
        -- by rewrite decide_True by (apply elem_of_cons; by right).
        -- rewrite decide_False; [done|]. by intros [?|?]%elem_of_cons.
    + intros k' ps' Hk'. apply Hf. by right.
    + apply subst_plain; [|done]. intros v x. case_decide; [apply Hσ|done].
Qed.

Lemma split_once_inv c s a b : split_once c s = Some (a, b) -> s = a +:+ String c b.
Proof.
  revert a. induction s as [|d s IH]; intros a; [done|]. cbn [split_once]. case_decide as Hc.
  - intros [= <- <-]. by rewrite Hc.
  - destruct (split_once c s) as [[a' b']|]; [|done]. intros [= <- <-].
    change (String d a' +:+ String c b') with (String d (a' +:+ String c b')). by rewrite <- IH.
Qed.

(** The annotations [replace_default] acts on. *)
Definition default_of (k : string) : option string :=
  match split_n "."%char 3 k with
  | [s0; s1; s2] => if decide (s0 = "cnsbench" /\ s1 = "default") then Some s2 else None
  | _ => None
  end.

Lemma default_of_key v : default_of (default_key v) = Some v.
Proof. reflexivity. Qed.

Lemma default_of_inv k v : default_of k = Some v -> k = default_key v.
Proof.
  unfold default_of. cbn [split_n]. destruct (split_once "." k) as [[a b]|] eqn:E1; [|done].
  destruct (split_once "." b) as [[a' b']|] eqn:E2; [|done]. case_decide as H; [|done].
  destruct H as [-> ->]. intros [= ->]. apply split_once_inv in E1 as ->. by apply split_once_inv in E2 as ->.
Qed.

Lemma replace_default_eq annotations s k :
  replace_default annotations s k =
    match default_of k with
    | Some v => replace_all s (braced v) (default EmptyString (annotations !! k))
    | None => s
    end.
Proof.
  unfold replace_default, default_of. destruct (split_n "." 3 k) as [|s0 [|s1 [|s2 [|]]]]; try done.
  by case_decide.
Qed.

Section replace.
Context {E : Env}.

(** Everything that is put into the template is plain. *)
Definition plain_inputs (a : Workload) (cm : ConfigMapData) (workloadName : string) : Prop :=
  (forall k v, Vars a !! k = Some v -> plain k /\ plain v) /\
  (forall v x, cm_Annotations cm !! default_key v = Some x -> plain v /\ plain x) /\
  plain workloadName.

Lemma subst_only_dec (σ : string -> option string) k x (ps : list piece) :
  σ k = Some x ->
  subst (fun v => if decide (Some v = Some k) then σ v else None) <$> ps = subst (only k x) <$> ps.
Proof.
  intros Hk. apply subst_ext. intros v. unfold only. repeat case_decide; congruence.
Qed.

(** Each of the two loops visits all keys of its map. *)
Lemma range_keys tr (m : gmap string string) k : k ∈ answer tr (RRange m) <-> is_Some (m !! k).
Proof.
  rewrite answer_range, list_elem_of_fmap. split.
  - intros ([x v] & -> & Hv%elem_of_map_to_list). eauto.
  - intros [v Hv]. exists (k, v). split; [done|]. by apply elem_of_map_to_list.
Qed.

Lemma replace_vars_loop (vars : gmap string string) ks ps :
  (forall k, k ∈ ks <-> is_Some (vars !! k)) -> (forall k v, vars !! k = Some v -> plain k /\ plain v) ->
  Forall plain_piece ps ->
  foldl (replace_var vars) (render ps) ks = render (subst (fun v => vars !! v) <$> ps) /\
  Forall plain_piece (subst (fun v => vars !! v) <$> ps).
Proof.
  intros Hks Hp Hps. split; [|apply subst_plain; [intros v x Hv; by apply (Hp v)|done]].
  rewrite (replace_loop _ (fun v => vars !! v) Some).
  - f_equal. apply subst_ext. intros v. case_decide as Hd; [done|]. destruct (vars !! v) eqn:Ev; [|done].
    exfalso. apply Hd. apply list_elem_of_fmap. exists v. split; [done|]. apply Hks. eauto.
  - intros v x Hv. by apply (Hp v).
  - intros k ps' Hk Hps'. apply Hks in Hk as [x Hx]. unfold replace_var. rewrite Hx. cbn [default].
    rewrite replace_render by (by apply (Hp k x) || done).
    f_equal. symmetry. by apply (subst_only_dec (fun v => vars !! v)).
  - done.
Qed.

Lemma replace_defaults_loop (annotations : gmap string string) ks ps :
  (forall k, k ∈ ks <-> is_Some (annotations !! k)) ->
  (forall v x, annotations !! default_key v = Some x -> plain v /\ plain x) ->
  Forall plain_piece ps ->
  foldl (replace_default annotations) (render ps) ks =
    render (subst (fun v => annotations !! default_key v) <$> ps) /\
  Forall plain_piece (subst (fun v => annotations !! default_key v) <$> ps).
Proof.
  intros Hks Hp Hps. split; [|apply subst_plain; [intros v x Hv; by apply (Hp v)|done]].
  rewrite (replace_loop _ (fun v => annotations !! default_key v) default_of).
  - f_equal. apply subst_ext. intros v. case_decide as Hd; [done|].
    destruct (annotations !! default_key v) eqn:Ev; [|done].
    exfalso. apply Hd. apply list_elem_of_fmap. exists (default_key v).
    split; [by rewrite default_of_key|]. apply Hks. eauto.
  - intros v x Hv. by apply (Hp v).
  - intros k ps' Hk Hps'. apply Hks in Hk as [x Hx]. rewrite replace_default_eq.
    destruct (default_of k) as [v|] eqn:Ek.
    + apply default_of_inv in Ek as ->. rewrite Hx. cbn [default].
      rewrite replace_render by (by apply (Hp v x) || done).
      f_equal. symmetry. by apply (subst_only_dec (fun v => annotations !! default_key v)).
    + rewrite (subst_ext _ (fun _ => None)); [by rewrite subst_none|]. intros v. by case_decide.
  - done.
Qed.

(** One built-in variable. *)
Lemma replace_one k x ps :
  plain k -> plain x -> Forall plain_piece ps ->
  replace_all (render ps) (braced k) x = render (subst (only k x) <$> ps) /\
  Forall plain_piece (subst (only k x) <$> ps).
Proof.
  intros Hk Hx Hps. split; [by apply replace_render|]. apply subst_plain; [|done].
  unfold only. intros v y. case_decide; [by intros [= <-]|done].
Qed.

Lemma builtin_names : Forall plain ["ACTION_NAME"; "ACTION_NAME_CAPS"; "INSTANCE_NUM"; "NUM_INSTANCES"].
Proof. repeat constructor; discriminate. Qed.

(** C11: on a template of plain pieces, [replaceVars] substitutes for every
    reference the workload's variable of that name, else the default in the
    template's annotations, else the built-in value, and leaves unknown
    references and all text alone, whatever the order of the map iterations. *)
Theorem replaceVars_substitutes ps a instanceNum numInstances workloadName cm s :
  Forall plain_piece ps -> plain_inputs a cm workloadName ->
  exists s', replaceVars (render ps) a instanceNum numInstances workloadName cm s
    = Ret (render (subst (variables a cm workloadName instanceNum numInstances) <$> ps), s').
Proof.
  intros Hps (Hvars & Hdef & Hname). unfold replaceVars, mbind, gom_bind, ask, mret, gom_ret.
  eexists. f_equal. f_equal.
  destruct (replace_vars_loop (Vars a) (answer (trace s) (RRange (Vars a))) ps) as [-> Hps1];
    [intros; apply range_keys|done..|].
  match goal with |- context [foldl _ _ (answer ?t (RRange (cm_Annotations cm)))] =>
    destruct (replace_defaults_loop (cm_Annotations cm) (answer t (RRange (cm_Annotations cm))) _
      (range_keys t _) Hdef Hps1) as [-> Hps2] end.
  destruct (Forall_cons_1 _ _ _ builtin_names) as [K1 (K2 & (K3 & (K4 & _)%Forall_cons_1)%Forall_cons_1)%Forall_cons_1].
  unfold replace_builtins.
  destruct (replace_one _ workloadName _ K1 Hname Hps2) as [-> Hps3].
  destruct (replace_one _ _ _ K2 (to_upper_plain _ Hname) Hps3) as [-> Hps4].
  destruct (replace_one _ _ _ K3 (itoa_plain instanceNum) Hps4) as [-> Hps5].
  destruct (replace_one _ _ _ K4 (itoa_plain numInstances) Hps5) as [-> _].
  by rewrite !subst_subst.
Qed.
End replace.

(** ** Witness *)
Definition ex_template : list piece :=
  [Text "name: "; Ref "ACTION_NAME"; Text "-"; Ref "INSTANCE_NUM"; Text " size: "; Ref "size"; Ref "who"].

Definition ex_vars : Workload :=
  {| wl_Name := "fio"; wl_Workload := "fio"; Vars := {["size" := "1Gi"]}; wl_Count := 3; SyncGroup := "";
     OutputFiles := []; wl_RateName := "" |}.

Definition ex_cm : ConfigMapData :=
  {| cm_Annotations := {["cnsbench.default.size" := "2Gi"; "cnsbench.default.who" := "me"]}; cm_Data := ∅ |}.

Lemma lookup_two (k1 k2 x1 x2 k x : string) :
  ({[k1 := x1; k2 := x2]} : gmap string string) !! k = Some x -> (k = k1 /\ x = x1) \/ (k = k2 /\ x = x2).
Proof.
  rewrite lookup_insert_Some, lookup_singleton_Some. naive_solver.
Qed.

Lemma replaceVars_substitutes_witness :
  exists s', replaceVars (E := simple_env sample_spec "") (render ex_template) ex_vars 2 3 "fio" ex_cm init_gst
    = Ret (render [Text "name: "; Text "fio"; Text "-"; Text "2"; Text " size: "; Text "1Gi"; Text "me"], s').
Proof.
  apply (replaceVars_substitutes (E := simple_env sample_spec "") ex_template ex_vars 2 3 "fio" ex_cm init_gst).
  - repeat constructor; discriminate.
  - split_and!.
    + intros k v Hk. cbn [Vars ex_vars] in Hk. apply lookup_singleton_Some in Hk as [<- <-]. split; repeat constructor; discriminate.
    + intros v x Hx. cbn [cm_Annotations ex_cm] in Hx. apply lookup_two in Hx. unfold default_key in Hx.
      change "cnsbench.default.size" with ("cnsbench.default." +:+ "size") in Hx.
      change "cnsbench.default.who" with ("cnsbench.default." +:+ "who") in Hx.
      destruct Hx as [[Hv ->]|[Hv ->]]; apply (inj (String.append "cnsbench.default.")) in Hv as ->;
        split; repeat constructor; discriminate.
    + repeat constructor; discriminate.
Defined.
