(* ===== verification/CompletionThm.v ===== *)
(** * When a benchmark moves on

    The conditions under which initialisation ends, instances are counted as
    complete, missing instances are created again and the benchmark completes. *)
From S2P Require Import Prelude GoStrings GoTime GoJson GoDuration BenchmarkTypes KubeEnv Utils.
From S2P Require Import OutputPkg PodUtils CreateObj Workload Completion Actions Reconciler Effects.
From S2P Require Import ReconcileThm.

Section completion.
Context {E : Env} (ScriptsDir : string).

(** Every answer to a request of the trace [tr], made after [tr0], satisfies
    [P]. *)
Definition answers (P : forall r, response r -> Prop) (tr0 tr : list request) : Prop :=
  forall i r, tr !! i = Some r -> P r (answer (tr0 ++ take i tr) r).

Lemma answers_nil P tr0 : answers P tr0 [].
Proof. intros i r H. by rewrite lookup_nil in H. Qed.

Lemma answers_cons P tr0 r tr :
  P r (answer tr0 r) -> answers P (tr0 ++ [r]) tr -> answers P tr0 (r :: tr).
Proof.
  intros Hr Ht [|i] q Hq.
  - injection Hq as <-. simpl. by rewrite app_nil_r.
  - specialize (Ht i q Hq). by rewrite <- app_assoc in Ht.
Qed.

(** The pods that were listed are all running or have succeeded. *)
Definition pods_up (r : request) : response r -> Prop :=
  match r with
  | RListPods _ _ => fun a => exists pods, a = inl pods /\ Forall (fun p => is_up p = true) pods
  | _ => fun _ => False
  end.


(** ** Counting *)
Lemma tally_spec {A} (done_ : A -> bool) c n l :
  tally done_ c n l = (c + Z.of_nat (length (filter (fun x => done_ x = true) l)),
    n + Z.of_nat (length (filter (fun x => done_ x = false) l)))%Z.
Proof.
  revert c n. induction l as [|x l IH]; intros c n; cbn [tally]; [simpl; by rewrite !Z.add_0_r|].
  rewrite !filter_cons. destruct (done_ x) eqn:Ex; rewrite IH.
  - rewrite decide_True, decide_False by done. cbn [length]. f_equal; lia.
  - rewrite decide_False, decide_True by done. cbn [length]. f_equal; lia.
Qed.

(** A stateful set of which no pods are listed ends the count of stateful
    sets with zero complete and zero incomplete ones, whatever was counted
    before it and whatever follows. *)
Theorem sets_complete_drops_counts complete notcomplete sts stss sel s :
  labelSelectorAsSelector (sts_Selector sts) = inl sel ->
  answer (trace s) (RListPods "default" sel) = inl [] ->
  exists s', sets_complete complete notcomplete (sts :: stss) s = Ret ((0%Z, 0%Z, None), s').
Proof.
  intros Hsel Hpods. cbn [sets_complete]. rewrite Hsel. unfold mbind, gom_bind, ask. rewrite Hpods.
  eexists. reflexivity.
Qed.

(** ** Missing instances *)


(** ** Completion *)
Lemma all_complete_true workloads s s' :
  all_complete workloads s = Ret ((true, None), s') ->
  forall w, w ∈ workloads -> exists s1 s2 complete notcomplete,
    CountCompletions (wl_Name w) s1 = Ret ((complete, notcomplete, None), s2) /\
    (wl_Count w <= complete)%Z.
Proof.
  revert s. induction workloads as [|a workloads IH]; intros s H w Hw; [by apply not_elem_of_nil in Hw|].
  cbn [all_complete] in H. apply bind_Ret in H as ([[c n] err] & s1 & H1 & H).
  destruct err; [by injection H|]. destruct (c <? wl_Count a)%Z eqn:Ec; [by injection H|].
  apply elem_of_cons in Hw as [->|Hw]; [|by eapply IH].
  exists s, s1, c, n. split; [done|]. by apply Z.ltb_ge in Ec.
Qed.

Lemma calm_no_status {A} (m : GoM A) s a s' tr :
  runs (calm no_update) m -> m s = Ret (a, s') -> trace s' = trace s ++ tr -> Forall no_status tr.
Proof.
  intros Hm H Et. destruct (Hm s a s' H) as [((tr' & Et' & F) & _) _]. rewrite Et in Et'.
  apply app_inv_head in Et' as ->. eapply Forall_impl; [|exact F]. by intros [].
Qed.


(** ** Output collection that is dropped silently *)

Lemma set_spec_same o spec : spec_of o = Some spec -> set_spec spec o = o.
Proof. destruct o; simpl; congruence. Qed.

Lemma set_spec_twice s1 s2 o : set_spec s2 (set_spec s1 o) = set_spec s2 o.
Proof. by destruct o. Qed.

(** The first two steps of the set-up neither fail nor touch the names of the
    containers. *)
Definition same_containers (spec spec' : PodSpec) : Prop :=
  c_Name <$> Containers spec' = c_Name <$> Containers spec /\
  volInSpec (ps_Volumes spec') "helper" = volInSpec (ps_Volumes spec) "helper".

Lemma volInSpec_app l1 l2 n : volInSpec (l1 ++ l2) n = volInSpec l1 n || volInSpec l2 n.
Proof. apply existsb_app. Qed.

Lemma addOutputVol_spec o spec s :
  typed o -> spec_of o = Some spec ->
  exists spec', addOutputVol (Some o) s = Ret ((Some (set_spec spec' o), None), s) /\ same_containers spec spec'.
Proof.
  intros Ht Hs. pose proof (PodSpec_typed o spec Ht Hs) as Hp.
  unfold addOutputVol, mbind, gom_bind, liftO. rewrite Hp.
  destruct (volInSpec (ps_Volumes spec) "output-vol").
  - exists spec. by rewrite (set_spec_same o spec).
  - eexists. rewrite (UpdatePodSpec_typed o spec) by done. split; [reflexivity|]. split.
    + cbn. rewrite <- list_fmap_compose. apply list_fmap_ext. intros i c _. cbn.
      unfold mount_output. by destruct (existsb _ _).
    + cbn [map_containers add_volume ps_Volumes]. rewrite volInSpec_app. cbn. by rewrite orb_false_r.
Qed.

Lemma addPodWatcherToken_spec o spec s :
  typed o -> spec_of o = Some spec ->
  exists spec', addPodWatcherToken (Some o) s = Ret ((Some (set_spec spec' o), None), s) /\
    same_containers spec spec'.
Proof.
  intros Ht Hs. pose proof (PodSpec_typed o spec Ht Hs) as Hp.
  unfold addPodWatcherToken, mbind, gom_bind, liftO. rewrite Hp.
  destruct (volInSpec (ps_Volumes spec) "pod-watcher-token").
  - exists spec. by rewrite (set_spec_same o spec).
  - eexists. rewrite (UpdatePodSpec_typed o spec) by done. split; [reflexivity|]. split; [done|].
    cbn [add_volume ps_Volumes]. rewrite volInSpec_app. cbn. by rewrite orb_false_r.
Qed.

(** When the helper script cannot be read, [addContainers] reports no error
    and returns the object without the parser and output containers: the
    workload runs, and its output is never collected. *)
Theorem addContainers_drops_setup_error bm o spec annotations a outputFile s :
  typed o -> spec_of o = Some spec -> volInSpec (ps_Volumes spec) "helper" = false ->
  OutputFiles a = [] -> annotations !! "outputFile" = Some outputFile ->
  (exists err, answer (trace s) (RReadFile ScriptsDir "countdone.sh") = inr err) ->
  exists o' spec' s', addContainers ScriptsDir bm (Some o) annotations a s = Ret ((Some o', None), s') /\
    spec_of o' = Some spec' /\ c_Name <$> Containers spec' = c_Name <$> Containers spec.
Proof.
  intros Ht Hs Hh Ho Ha [err Hf].
  destruct (addOutputVol_spec o spec s Ht Hs) as (spec1 & E1 & Hn1 & Hh1).
  set (o1 := set_spec spec1 o) in E1.
  destruct (addPodWatcherToken_spec o1 spec1 s) as (spec2 & E2 & Hn2 & Hh2);
    [by apply typed_set_spec|by eapply spec_of_set_spec|]. set (o2 := set_spec spec2 o1) in E2.
  assert (PodSpec_ (Some o2) = Ret (inl spec2)) as Hp.
  { apply PodSpec_typed; [by do 2 apply typed_set_spec|].
    eapply spec_of_set_spec. by eapply spec_of_set_spec. }
  exists o2, spec2. eexists. split; [|split].
  - unfold addContainers. rewrite Ho, Ha. unfold add_output, setupForOutput, addCountdoneScript.
    unfold createTmpConfigMapFromDisk, loadScript. unfold mbind, gom_bind, liftO. rewrite E1.
    rewrite E2, Hp, Hh2, Hh1, Hh. unfold ask. rewrite Hf. reflexivity.
  - eapply spec_of_set_spec. by eapply spec_of_set_spec.
  - by rewrite Hn2, Hn1.
Qed.
End completion.

(** ** Witnesses *)
Definition up_pods : list PodItem :=
  [{| pi_Name := "p"; Phase := "Running"; ContainerStatuses := [] |};
   {| pi_Name := "q"; Phase := "Succeeded"; ContainerStatuses := [] |}].

(** Two pods are up; the templates decode to a pod that may be duplicated. *)
Definition duplicate_pod (s : string) : object + kerr :=
  inl (Pod {| TypeKind := "Pod"; Name := s; Namespace := "default"; Labels := None;
              Annotations := Some {["duplicate" := "true"]}; Owners := [] |} plain_spec).

Definition up_env : Env :=
  sample_env (sample_bm ex_spec (sample_status "")) sample_cm up_pods duplicate_pod.


Lemma sets_complete_drops_counts_witness :
  exists s', sets_complete (E := ex_env) 3 1 [{| sts_Selector := no_selector |}] init_gst
    = Ret ((0%Z, 0%Z, None), s').
Proof.
  apply (sets_complete_drops_counts (E := ex_env) 3 1 {| sts_Selector := no_selector |} [] "" init_gst);
    reflexivity.
Defined.


(** A running benchmark without a runtime and without workloads completes. *)
Definition ex_done : Benchmark :=
  upd_status (fun s => {| State := Running; CompletionTime := CompletionTime s;
    InitCompletionTime := InitCompletionTime s; TargetCompletionTimeUnix := 0;
    TargetCompletionTime := TargetCompletionTime s; CompletionTimeUnix := 0; StartTimeUnix := 0;
    InitCompletionTimeUnix := 0; NumCompletedObjs := 0; RunningWorkloads := 0; RunningRates := 0;
    Conditions := [condition "False" 0%Z] |}) (sample_bm sample_spec (sample_status "")).

Definition ex_done_run : gst := Eval vm_compute in
  after_call (reconcile_running (E := ex_env) "/scripts" ex_done) init_gst.

Definition status_updates (tr : list request) : list Benchmark :=
  omap (fun r => match r with RStatusUpdate b => Some b | _ => None end) tr.

Definition ex_done_update : Benchmark := Eval vm_compute in hd ex_done (status_updates (trace ex_done_run)).


(** An environment in which scripts cannot be read. *)
Definition no_scripts (E : Env) : Env.
Proof.
  refine {| answer tr r :=
       match r as r0 return response r0 with
       | RReadFile _ _ => inr (ErrOther "no such file")
       | r0 => answer (Env := E) tr r0
       end;
     decode_yaml := decode_yaml (Env := E); addLabelToSelector := addLabelToSelector (Env := E);
     labelSelectorAsSelector := labelSelectorAsSelector (Env := E);
     parseToLabelSelector := parseToLabelSelector (Env := E);
     formatLabelSelector := formatLabelSelector (Env := E);
     setControllerReference := setControllerReference (Env := E);
     setOwnerReference := setOwnerReference (Env := E); encodeOutput := encodeOutput (Env := E) |}.
  intros tr m. apply (answer_range (Env := E)).
Defined.

Lemma addContainers_drops_setup_error_witness :
  exists o' spec' s', addContainers (E := no_scripts ex_env) "/scripts" (ex_instance "")
      (Some (Pod (plain_meta "Pod" "p") plain_spec)) {["outputFile" := "out"]} ex_workload init_gst
    = Ret ((Some o', None), s') /\ spec_of o' = Some spec' /\ c_Name <$> Containers spec' = [].
Proof.
  apply (addContainers_drops_setup_error (E := no_scripts ex_env) "/scripts" (ex_instance "")
    (Pod (plain_meta "Pod" "p") plain_spec) plain_spec {["outputFile" := "out"]} ex_workload "out" init_gst);
    try reflexivity. eexists. reflexivity.
Defined.
