(* ===== verification/Rates.v ===== *)
(** * Rates (pkg/rates/rates.go)

    A rate is a goroutine that receives the ticks of a timer goroutine on an
    unbuffered channel [pin] and offers them to a consumer; a message on the
    control channel makes it stop.  The goroutines are modelled by a step
    relation over their positions in the code; both ends of a communication
    move together.  [IncDecRate] uses two timers in turn on the same [pin]. *)
From S2P Require Import Prelude.
From stdpp Require Import relations.

Local Open Scope Z_scope.

(** [SingleRate(ConstTimer{iv})], or [IncDecRate] with its two intervals and
    its bounds. *)
Inductive rate := SingleRate (iv : Z) | IncDecRate (incT decT min max : Z).

(** Positions of [ConstTimer.Run]: at the [select] with the current [count],
    blocked in [pin <- 1], or asleep for a second.  A timer that returned is
    gone from the list. *)
Inductive timer_pos := TSelect (count : Z) | TSend | TSleep (count : Z).

Record timer := Timer { Interval : Z; pos : timer_pos }.

(** Positions of the rate: at its [select], blocked in the [pin <- 1] that
    stops the timer when the direction changes ([goingUp] is the new one), at
    the [select] on the consumer, blocked in the [pin <- 1] after a control
    message, or returned. *)
Inductive rate_pos :=
  | RSelect (goingUp : bool) (counter : Z)
  | RSwitch (goingUp : bool) (counter : Z)
  | RConsume (goingUp : bool) (counter : Z)
  | RStop
  | RExit.

Record sys := Sys { rpos : rate_pos; timers : list timer }.

(** The timer [go t.Run(pin)] starts. *)
Definition new_timer (interval : Z) : timer := Timer interval (TSelect 0).

(** The value offered to the consumer by [SingleRate] is the one received. *)
Definition init_sys (r : rate) : sys :=
  match r with
  | SingleRate iv => Sys (RSelect true 0) [new_timer iv]
  | IncDecRate incT _ min _ => Sys (RSelect true min) [new_timer incT]
  end.

(** The body of the case for a tick, up to the consumer's [select]. *)
Definition on_tick (r : rate) (goingUp : bool) (counter : Z) : rate_pos :=
  match r with
  | SingleRate _ => RConsume goingUp 1
  | IncDecRate _ _ min max =>
      if goingUp then
        let counter := wrap64 (counter + 1) in
        if counter =? max then RSwitch false counter else RConsume true counter
      else
        let counter := wrap64 (counter - 1) in
        if counter =? min then RSwitch true counter else RConsume false counter
  end.

Definition next_timer (r : rate) (goingUp : bool) : timer :=
  match r with
  | SingleRate iv => new_timer iv
  | IncDecRate incT decT _ _ => new_timer (if goingUp then incT else decT)
  end.

(** Is some goroutine other than the timers in [others] blocked sending on
    [pin]?  If so a timer at its [select] does not take the default case. *)
Definition sender_ready (p : rate_pos) (others : list timer) : bool :=
  match p with RSwitch _ _ | RStop => true | _ => false end ||
  existsb (fun t => match pos t with TSend => true | _ => false end) others.

(** What an observer sees of a step. *)
Inductive event := Silent | Second | Sent (n : Z) | Dropped (n : Z) | Control.

Inductive step (r : rate) : sys -> event -> sys -> Prop :=
  (* the timer: default case of the select *)
  | step_fire p l1 l2 iv c :
      sender_ready p (l1 ++ l2) = false -> c = iv ->
      step r (Sys p (l1 ++ Timer iv (TSelect c) :: l2)) Silent (Sys p (l1 ++ Timer iv TSend :: l2))
  | step_sleep p l1 l2 iv c :
      sender_ready p (l1 ++ l2) = false -> c <> iv ->
      step r (Sys p (l1 ++ Timer iv (TSelect c) :: l2)) Silent (Sys p (l1 ++ Timer iv (TSleep c) :: l2))
  | step_wake p l1 l2 iv c :
      step r (Sys p (l1 ++ Timer iv (TSleep c) :: l2)) Second
             (Sys p (l1 ++ Timer iv (TSelect (wrap64 (c + 1))) :: l2))
  (* the timer receives and returns: from the rate, or from another timer *)
  | step_switch l1 l2 iv c up n :
      step r (Sys (RSwitch up n) (l1 ++ Timer iv (TSelect c) :: l2)) Silent
             (Sys (RConsume up n) (l1 ++ l2 ++ [next_timer r up]))
  | step_stopped l1 l2 iv c :
      step r (Sys RStop (l1 ++ Timer iv (TSelect c) :: l2)) Silent (Sys RExit (l1 ++ l2))
  | step_crossed p l1 l2 l1' l2' iv J c :
      l1 ++ l2 = l1' ++ Timer J TSend :: l2' ->
      step r (Sys p (l1 ++ Timer iv (TSelect c) :: l2)) Silent (Sys p (l1' ++ Timer J (TSleep 0) :: l2'))
  (* the rate *)
  | step_tick l1 l2 iv up n :
      step r (Sys (RSelect up n) (l1 ++ Timer iv TSend :: l2)) Silent
             (Sys (on_tick r up n) (l1 ++ Timer iv (TSleep 0) :: l2))
  | step_control l up n :
      step r (Sys (RSelect up n) l) Control (Sys RStop l)
  | step_sent l up n :
      step r (Sys (RConsume up n) l) (Sent n) (Sys (RSelect up n) l)
  | step_dropped l up n :
      step r (Sys (RConsume up n) l) (Dropped n) (Sys (RSelect up n) l).

Definition reachable (r : rate) : sys -> Prop :=
  rtc (fun s s' => exists e, step r s e s') (init_sys r).

(** ** Invariants *)

(** One timer while the rate runs, and none of its ticks is pending while the
    rate is about to stop it for a change of direction. *)
Definition one_timer (s : sys) : Prop :=
  match rpos s with
  | RExit => timers s = []
  | RSwitch _ _ => exists t, timers s = [t] /\ pos t <> TSend
  | _ => exists t, timers s = [t]
  end.

Lemma one_singleton {A} (l1 l2 : list A) x y : l1 ++ x :: l2 = [y] -> l1 = [] /\ l2 = [] /\ x = y.
Proof. destruct l1 as [|a [|]]; simpl; try discriminate. intros [= -> ->]. done. Qed.

Lemma on_tick_not_final r up n : on_tick r up n <> RStop /\ on_tick r up n <> RExit.
Proof. destruct r, up; simpl; try case_match; done. Qed.

Lemma one_timer_step r s e s' : one_timer s -> step r s e s' -> one_timer s'.
Proof.
  intros Hs Hstep. unfold one_timer in *.
  destruct Hstep as [p l1 l2 iv c Hn ->|p l1 l2 iv c Hn Hc|p l1 l2 iv c|l1 l2 iv c up n|l1 l2 iv c
    |p l1 l2 l1' l2' iv J c Heq|l1 l2 iv up n|l up n|l up n|l up n]; cbn [rpos timers] in *.
  - destruct p; try discriminate Hn.
    + destruct Hs as (t & Ht). apply one_singleton in Ht as (-> & -> & _). eexists. reflexivity.
    + destruct Hs as (t & Ht). apply one_singleton in Ht as (-> & -> & _). eexists. reflexivity.
    + by destruct l1.
  - destruct p; try discriminate Hn.
    + destruct Hs as (t & Ht). apply one_singleton in Ht as (-> & -> & _). eexists. reflexivity.
    + destruct Hs as (t & Ht). apply one_singleton in Ht as (-> & -> & _). eexists. reflexivity.
    + by destruct l1.
  - destruct p.
    + destruct Hs as (t & Ht). apply one_singleton in Ht as (-> & -> & _). eexists. reflexivity.
    + destruct Hs as (t & Ht & _). apply one_singleton in Ht as (-> & -> & _). eexists. split; [reflexivity|done].
    + destruct Hs as (t & Ht). apply one_singleton in Ht as (-> & -> & _). eexists. reflexivity.
    + destruct Hs as (t & Ht). apply one_singleton in Ht as (-> & -> & _). eexists. reflexivity.
    + by destruct l1.
  - destruct Hs as (t & Ht & _). apply one_singleton in Ht as (-> & -> & _). by eexists.
  - destruct Hs as (t & Ht). by apply one_singleton in Ht as (-> & -> & _).
  - exfalso. assert (l1 = [] /\ l2 = []) as [-> ->].
    { destruct p; [destruct Hs as (t & Ht)|destruct Hs as (t & Ht & _)|destruct Hs as (t & Ht)
        |destruct Hs as (t & Ht)|by destruct l1]; by apply one_singleton in Ht as (-> & -> & _). }
    by destruct l1'.
  - destruct Hs as (t & Ht). apply one_singleton in Ht as (-> & -> & _). simpl.
    destruct (on_tick r up n) eqn:Eo; try (by eexists).
    by destruct (on_tick_not_final r up n).
  - done.
  - done.
  - done.
Qed.

Lemma reachable_one_timer r s : reachable r s -> one_timer s.
Proof.
  unfold reachable. intros H.
  assert (one_timer (init_sys r)) as H0 by (destruct r; by eexists).
  induction H as [s|s1 s2 s3 [e He] _ IH]; [done|]. apply IH. by eapply one_timer_step.
Qed.

(** The counter of [IncDecRate] and its direction. *)
Definition in_bounds (min max : Z) (s : sys) : Prop :=
  match rpos s with
  | RSelect true n | RConsume true n => min <= n < max
  | RSelect false n | RConsume false n => min < n <= max
  | RSwitch false n => n = max
  | RSwitch true n => n = min
  | _ => True
  end.

Lemma in_bounds_step incT decT min max s e s' :
  min < max -> in_int64 min -> in_int64 max ->
  in_bounds min max s -> step (IncDecRate incT decT min max) s e s' -> in_bounds min max s'.
Proof.
  intros Hlt Hmin Hmax Hs Hstep. unfold in_bounds in *.
  destruct Hstep as [| | |l1 l2 iv c up n| | |l1 l2 iv up n|l up n|l up n|l up n]; cbn [rpos] in *; try done.
  - destruct up; subst; lia.
  - unfold on_tick. destruct up.
    + rewrite wrap64_small by (unfold in_int64 in *; lia). destruct (Z.eqb_spec (n + 1) max); lia.
    + rewrite wrap64_small by (unfold in_int64 in *; lia). destruct (Z.eqb_spec (n - 1) min); lia.
Qed.

Lemma reachable_in_bounds incT decT min max s :
  min < max -> in_int64 min -> in_int64 max ->
  reachable (IncDecRate incT decT min max) s -> in_bounds min max s.
Proof.
  intros Hlt Hmin Hmax H. unfold reachable in H.
  assert (in_bounds min max (init_sys (IncDecRate incT decT min max))) as H0 by (cbn; lia).
  induction H as [s|s1 s2 s3 [e He] _ IH]; [done|]. apply IH. by eapply in_bounds_step.
Qed.

(** ** Theorems *)

(** The events of a run. *)
Inductive run (r : rate) : sys -> list event -> sys -> Prop :=
  | run_nil s : run r s [] s
  | run_snoc s1 es s2 e s3 : run r s1 es s2 -> step r s2 e s3 -> run r s1 (es ++ [e]) s3.

Lemma run_reachable r es s : run r (init_sys r) es s -> reachable r s.
Proof.
  remember (init_sys r) as s0 eqn:E. induction 1 as [s|s1 es s2 e s3 _ IH Hs]; subst; [apply rtc_refl|].
  eapply rtc_r; [by apply IH|by exists e].
Qed.

Definition is_offer (e : event) : bool := match e with Sent _ | Dropped _ => true | _ => false end.
Definition is_second (e : event) : bool := match e with Second => true | _ => false end.
Definition is_control (e : event) : bool := match e with Control => true | _ => false end.
Definition count (f : event -> bool) (es : list event) : Z := Z.of_nat (length (List.filter f es)).

Lemma count_snoc f es e : count f (es ++ [e]) = count f es + (if f e then 1 else 0).
Proof. unfold count. rewrite List.filter_app, length_app. simpl. destruct (f e); simpl; lia. Qed.

(** With [min < max] every value [IncDecRate] offers its consumer lies
    between the bounds, and while it runs exactly one timer goroutine lives. *)
Theorem IncDecRate_bounds incT decT min max s e s' n :
  min < max -> in_int64 min -> in_int64 max ->
  reachable (IncDecRate incT decT min max) s -> step (IncDecRate incT decT min max) s e s' ->
  e = Sent n \/ e = Dropped n ->
  min <= n <= max /\ exists t, timers s' = [t].
Proof.
  intros Hlt Hmin Hmax Hr Hstep He.
  pose proof (reachable_in_bounds _ _ _ _ _ Hlt Hmin Hmax Hr) as Hb.
  pose proof (one_timer_step _ _ _ _ (reachable_one_timer _ _ Hr) Hstep) as Ht.
  assert (exists up l, s = Sys (RConsume up n) l /\ s' = Sys (RSelect up n) l) as (up & l & -> & ->).
  { destruct Hstep; destruct He as [He|He]; try discriminate He; injection He as ->; eauto. }
  split; [|done]. cbn in Hb. destruct up; lia.
Qed.

(** A run from one offer to the next: [n] was the last value offered. *)
Definition next_value (min max : Z) (up : bool) (n : Z) : bool * Z :=
  let m := if up then n + 1 else n - 1 in (if m =? (if up then max else min) then negb up else up, m).

Lemma between_offers incT decT min max s es s' up n :
  min < max -> in_int64 min -> in_int64 max ->
  in_bounds min max s -> rpos s = RSelect up n ->
  run (IncDecRate incT decT min max) s es s' -> count is_offer es = 0 ->
  match rpos s' with
  | RSelect up' m => (up', m) = (up, n)
  | RSwitch up' m | RConsume up' m => (up', m) = next_value min max up n
  | _ => True
  end.
Proof.
  intros Hlt Hmin Hmax Hb Hp Hrun. induction Hrun as [s|s1 es s2 e s3 Hrun IH Hstep]; [by rewrite Hp|].
  rewrite count_snoc. intros Hc.
  assert (0 <= count is_offer es) as H0 by (unfold count; lia).
  destruct (is_offer e) eqn:He; [lia|]. specialize (IH Hb Hp ltac:(lia)).
  assert (in_bounds min max (Sys (RSelect up n) [])) as Hb' by (unfold in_bounds in *; by rewrite Hp in Hb).
  destruct Hstep as [| | |l1 l2 iv c u m| | |l1 l2 iv u m|l u m|l u m|l u m]; cbn [rpos] in *; try done.
  injection IH as -> ->. unfold on_tick, next_value. cbn in Hb'. destruct up.
  - rewrite wrap64_small by (unfold in_int64 in *; lia). by destruct (n + 1 =? max).
  - rewrite wrap64_small by (unfold in_int64 in *; lia). by destruct (n - 1 =? min).
Qed.

(** C24: the offered values go up to [max] and down to [min] in steps of one:
    the value offered next after [n] is [n + 1] or [n - 1], following the
    direction, which changes exactly at the bounds. *)
Theorem IncDecRate_steps incT decT min max s es s' e s'' up n m :
  min < max -> in_int64 min -> in_int64 max ->
  reachable (IncDecRate incT decT min max) s -> rpos s = RSelect up n ->
  run (IncDecRate incT decT min max) s es s' -> count is_offer es = 0 ->
  step (IncDecRate incT decT min max) s' e s'' -> e = Sent m \/ e = Dropped m ->
  m = (if up then n + 1 else n - 1) /\
  exists up', rpos s'' = RSelect up' m /\ (up' <> up <-> m = if up then max else min).
Proof.
  intros Hlt Hmin Hmax Hr Hp Hrun Hc Hstep He.
  pose proof (reachable_in_bounds _ _ _ _ _ Hlt Hmin Hmax Hr) as Hb.
  pose proof (between_offers _ _ _ _ _ _ _ _ _ Hlt Hmin Hmax Hb Hp Hrun Hc) as Hn.
  assert (exists u l, s' = Sys (RConsume u m) l /\ s'' = Sys (RSelect u m) l) as (u & l & -> & ->).
  { destruct Hstep; destruct He as [He|He]; try discriminate He; injection He as ->; eauto. }
  cbn in Hn |- *. unfold next_value in Hn. injection Hn as -> ->. split; [done|].
  eexists. split; [reflexivity|]. destruct up; cbn.
  - destruct (Z.eqb_spec (n + 1) max); intuition congruence.
  - destruct (Z.eqb_spec (n - 1) min); intuition congruence.
Qed.

(** The clock of a [SingleRate] that received no control message: [k] ticks
    were received and [secs] seconds have passed. *)
Definition clock (iv k secs : Z) (t : timer) : Prop :=
  Interval t = iv /\
  match pos t with
  | TSelect c => 0 <= c <= iv /\ secs = iv * k + c
  | TSleep c => 0 <= c < iv /\ secs = iv * k + c
  | TSend => secs = iv * (k + 1)
  end.

Definition on_time (iv : Z) (offers secs : Z) (s : sys) : Prop :=
  exists t, timers s = [t] /\
  match rpos s with
  | RSelect _ _ => clock iv offers secs t
  | RConsume _ _ => clock iv (offers + 1) secs t
  | _ => False
  end.

Ltac clock_tac :=
  eexists; split; [reflexivity|]; unfold clock in *; cbn [rpos timers Interval pos] in *;
  intuition (subst; lia).

Lemma on_time_step iv s e s' k secs :
  1 <= iv -> in_int64 iv -> on_time iv k secs s -> step (SingleRate iv) s e s' -> is_control e = false ->
  on_time iv (k + if is_offer e then 1 else 0) (secs + if is_second e then 1 else 0) s'.
Proof.
  intros Hiv Hi (t & Ht & Hs) Hstep He. unfold on_time.
  destruct Hstep as [p l1 l2 j c Hn Hc|p l1 l2 j c Hn Hc|p l1 l2 j c|l1 l2 j c up n|l1 l2 j c
    |p l1 l2 l1' l2' j j' c Heq|l1 l2 j up n|l up n|l up n|l up n];
    cbn [rpos timers is_offer is_second on_tick] in *; try done; rewrite ?Z.add_0_r.
  - apply one_singleton in Ht as (-> & -> & <-). destruct p; try done; clock_tac.
  - apply one_singleton in Ht as (-> & -> & <-). destruct p; try done; clock_tac.
  - apply one_singleton in Ht as (-> & -> & <-).
    assert (0 <= c < iv) as Hb by (unfold clock in Hs; cbn in Hs; destruct p; tauto).
    rewrite wrap64_small by (unfold in_int64, min_int64, max_int64 in *; lia). destruct p; try done; clock_tac.
  - apply one_singleton in Ht as (-> & -> & _). by destruct l1'.
  - apply one_singleton in Ht as (-> & -> & <-). clock_tac.
  - subst l. clock_tac.
  - subst l. clock_tac.
Qed.

Lemma run_on_time iv es s :
  1 <= iv -> in_int64 iv -> run (SingleRate iv) (init_sys (SingleRate iv)) es s -> count is_control es = 0 ->
  on_time iv (count is_offer es) (count is_second es) s.
Proof.
  intros Hiv Hi Hrun Hc. remember (init_sys (SingleRate iv)) as s0 eqn:E.
  induction Hrun as [s|s1 es s2 e s3 Hrun IH Hstep].
  - subst. eexists. split; [reflexivity|]. cbn. unfold clock, count. cbn. lia.
  - rewrite count_snoc in Hc. assert (0 <= count is_control es) by (unfold count; lia).
    rewrite !count_snoc. destruct (is_control e) eqn:He; [lia|].
    eapply on_time_step; eauto. apply IH; [done|lia].
Qed.


(** The timer was blocked sending when the control message arrived. *)
Definition deadlocked (s : sys) : Prop := exists t, s = Sys RStop [t] /\ pos t = TSend.

Lemma reachable_moves r s :
  reachable r s -> rpos s = RExit \/ deadlocked s \/ exists e s', is_control e = false /\ step r s e s'.
Proof.
  intros Hr. pose proof (reachable_one_timer _ _ Hr) as Ho. destruct s as [p ts]. unfold one_timer in Ho.
  cbn [rpos timers] in *. destruct p as [up n|up n|up n| |]; [..|by left]; right.
  - right. destruct Ho as ([iv [c| |c]] & ->).
    + destruct (decide (c = iv)) as [->|Hne]; do 2 eexists; (split; [|by apply (step_fire _ _ [] []) + by apply (step_sleep _ _ [] [])]); done.
    + do 2 eexists. split; [|apply (step_tick r [] [])]. done.
    + do 2 eexists. split; [|apply (step_wake r _ [] [])]. done.
  - right. destruct Ho as ([iv [c| |c]] & -> & Hp); [|done|].
    + do 2 eexists. split; [|apply (step_switch r [] [])]. done.
    + do 2 eexists. split; [|apply (step_wake r _ [] [])]. done.
  - right. do 2 eexists. split; [|apply step_sent]. done.
  - destruct Ho as ([iv [c| |c]] & ->).
    + right. do 2 eexists. split; [|apply (step_stopped r [] [])]. done.
    + left. by eexists.
    + right. do 2 eexists. split; [|apply (step_wake r _ [] [])]. done.
Qed.

(** A rate moves on without any help from outside: every reachable state
    has a step that is not a control message, unless the rate has returned or
    is in the deadlock of its last send with a timer that is itself blocked
    sending a tick. *)
Theorem rate_progress r s :
  reachable r s -> rpos s = RExit \/ deadlocked s \/ exists e s', is_control e = false /\ step r s e s'.
Proof. apply reachable_moves. Qed.


(** The first second of [SingleRate] with an interval of one second. *)
Lemma first_tick up n :
  run (SingleRate 1) (Sys (RSelect up n) [Timer 1 (TSelect 0)]) [Silent; Second; Silent]
      (Sys (RSelect up n) [Timer 1 TSend]).
Proof.
  apply (run_snoc _ _ [Silent; Second] (Sys (RSelect up n) [Timer 1 (TSelect 1)]));
    [|by apply (step_fire _ _ [] [])].
  apply (run_snoc _ _ [Silent] (Sys (RSelect up n) [Timer 1 (TSleep 0)]));
    [|apply (step_wake _ _ [] [] 1 0)].
  apply (run_snoc _ _ [] (Sys (RSelect up n) [Timer 1 (TSelect 0)]));
    [constructor|by apply (step_sleep _ _ [] [])].
Qed.


(** Invariant of a [SingleRate] with interval zero, after [offers] offers and
    [secs] seconds. *)
Definition pending (p : rate_pos) : Z := match p with RConsume _ _ => 1 | _ => 0 end.

Definition fired_once (offers secs : Z) (p : rate_pos) (t : timer) : Prop :=
  Interval t = 0 /\
  match pos t with
  | TSelect c => c = 0 /\ offers + pending p = 0 \/ 1 <= c <= secs
  | TSend => offers + pending p = 0
  | TSleep c => 0 <= c <= secs
  end.

Definition ticked_once (offers secs : Z) (s : sys) : Prop :=
  0 <= offers + pending (rpos s) <= 1 /\ 0 <= secs /\ (forall up n, rpos s <> RSwitch up n) /\
  (timers s = [] \/ exists t, timers s = [t] /\ fired_once offers secs (rpos s) t).

Lemma ticked_once_step s e s' k secs :
  secs < 2 ^ 62 -> ticked_once k secs s -> step (SingleRate 0) s e s' ->
  ticked_once (k + if is_offer e then 1 else 0) (secs + if is_second e then 1 else 0) s'.
Proof.
  intros Hb (Hk & Hs0 & Hsw & Hts) Hstep. unfold ticked_once.
  destruct Hstep as [p l1 l2 j c Hn Hc|p l1 l2 j c Hn Hc|p l1 l2 j c|l1 l2 j c up n|l1 l2 j c
    |p l1 l2 l1' l2' j j' c Heq|l1 l2 j up n|l up n|l up n|l up n];
    cbn [rpos timers is_offer is_second on_tick] in *; unfold pending in *; rewrite ?Z.add_0_r;
    try (destruct Hts as [Hts|(t & Ht & Hf)]; [by destruct l1|];
         apply one_singleton in Ht as (-> & -> & <-); unfold fired_once, pending in *; cbn [Interval pos] in * ).
  - split_and!; try done; try lia. right. eexists. split; [done|]. cbn. intuition (subst; lia).
  - split_and!; try done; try lia. right. eexists. split; [done|]. cbn. intuition (subst; lia).
  - destruct Hf as [-> Hf]. rewrite wrap64_small by (unfold in_int64, min_int64, max_int64; lia).
    split_and!; try done; try lia. right. eexists. split; [done|]. cbn. lia.
  - by destruct (Hsw up n).
  - split_and!; try done; try lia. by left.
  - by destruct l1'.
  - destruct Hf as [-> Hf]. split_and!; try done; try lia. right. eexists. split; [done|]. cbn. lia.
  - split_and!; try done; try lia.
  - split_and!; try done; try lia. destruct Hts as [->|(t & -> & Hf)]; [by left|right].
    eexists. split; [done|]. unfold fired_once, pending in *. cbn in *. destruct (pos t); intuition lia.
  - split_and!; try done; try lia. destruct Hts as [->|(t & -> & Hf)]; [by left|right].
    eexists. split; [done|]. unfold fired_once, pending in *. cbn in *. destruct (pos t); intuition lia.
Qed.

(** An interval of zero gives a single tick and no rate: when the timer
    compares its counter again, that is past zero. *)
Theorem zero_interval_ticks_once es s :
  run (SingleRate 0) (init_sys (SingleRate 0)) es s -> count is_second es < 2 ^ 62 -> count is_offer es <= 1.
Proof.
  intros Hrun Hb. assert (ticked_once (count is_offer es) (count is_second es) s) as (H & _).
  { remember (init_sys (SingleRate 0)) as s0 eqn:E.
    induction Hrun as [s|s1 es s2 e s3 Hrun IH Hstep].
    - subst. unfold ticked_once. cbn. split_and!; try done. right. eexists. split; [done|].
      unfold fired_once, count. cbn. lia.
    - rewrite !count_snoc. rewrite count_snoc in Hb.
      assert (count is_second es < 2 ^ 62) as Hb' by (destruct (is_second e); lia).
      eapply ticked_once_step; eauto. }
  destruct (rpos s); cbn in H; lia.
Qed.

(** ** Witnesses *)

Lemma run_first_tick : run (SingleRate 1) (init_sys (SingleRate 1)) [Silent; Second; Silent]
  (Sys (RSelect true 0) [Timer 1 TSend]).
Proof. apply (first_tick true 0). Qed.

(** Up to the first offer of [IncDecRate] with both intervals zero. *)
Lemma run_first_offer r :
  r = IncDecRate 0 0 0 2 ->
  run r (init_sys r) [Silent; Silent] (Sys (RConsume true 1) [Timer 0 (TSleep 0)]).
Proof.
  intros ->. apply (run_snoc _ _ [Silent] (Sys (RSelect true 0) [Timer 0 TSend]));
    [|apply (step_tick (IncDecRate 0 0 0 2) [] [])].
  apply (run_snoc _ _ [] (Sys (RSelect true 0) [Timer 0 (TSelect 0)])); [constructor|by apply (step_fire _ _ [] [])].
Qed.

Lemma IncDecRate_bounds_witness :
  0 <= 1 <= 2 /\ exists t, timers (Sys (RSelect true 1) [Timer 0 (TSleep 0)]) = [t].
Proof.
  eapply (IncDecRate_bounds 0 0 0 2); [lia|done|done| |apply step_sent|by left].
  apply (run_reachable _ [Silent; Silent]). by apply run_first_offer.
Defined.

Lemma IncDecRate_steps_witness :
  1 = 0 + 1 /\ exists up', rpos (Sys (RSelect true 1) [Timer 0 (TSleep 0)]) = RSelect up' 1 /\ (up' <> true <-> 1 = 2).
Proof.
  eapply (IncDecRate_steps 0 0 0 2 _ [Silent; Silent] _ _ _ true 0); [lia|done|done|apply rtc_refl|done| |done| |].
  - by apply run_first_offer.
  - apply step_sent.
  - by left.
Defined.


Lemma rate_progress_witness :
  exists e s', is_control e = false /\ step (SingleRate 1) (Sys (RSelect true 0) [Timer 1 TSend]) e s'.
Proof.
  destruct (rate_progress (SingleRate 1) (Sys (RSelect true 0) [Timer 1 TSend])) as [H|[(t & H & _)|H]];
    [|discriminate H|discriminate H|exact H].
  apply (run_reachable _ _ _ run_first_tick).
Defined.

Lemma zero_interval_ticks_once_witness : 0 <= 1.
Proof. apply (zero_interval_ticks_once [] (init_sys (SingleRate 0))); [constructor|done]. Defined.
