(* ===== verification/Listeners.v ===== *)
(** * The goroutines of a benchmark and the controller that stops them

    Reconciler.v counts the goroutines that listen on a control channel, and lets
    a [send] succeed when the count is positive.  Here the goroutines are the
    ones of the code: for every rate the rate itself with its timers (Rates.v)
    and the loop of runControlOps that receives from it, all of them selecting on
    one unbuffered control channel.  The count is a refinement: it is the number
    of goroutines still in their loops, whatever they are doing, and a send of
    the controller blocks for ever exactly when the count is zero. *)
From S2P Require Import Prelude Rates BenchmarkTypes KubeEnv Reconciler RoutinesThm.
From S2P Require Import ReconcileThm.
From stdpp Require Import relations.

(** ** The goroutines *)

(** The loop of [runControlOps]: at its [select], running the operations for a
    value of the rate, or returned. *)
Inductive consumer := CSelect | CRun (n : Z) | CExit.

Record pair := Pair { p_rate : rate; p_sys : sys; p_cons : consumer }.

(** A step of one pair; [true] when one of its two goroutines receives a message
    on the control channel.  The rate's [select] on the consumer takes the default
    case exactly when the consumer is not waiting. *)
Inductive pstep : pair -> bool -> pair -> Prop :=
  | ps_internal r s e s' c :
      step r s e s' -> e = Silent \/ e = Second -> pstep (Pair r s c) false (Pair r s' c)
  | ps_sent r s n s' :
      step r s (Sent n) s' -> pstep (Pair r s CSelect) false (Pair r s' (CRun n))
  | ps_dropped r s n s' c :
      step r s (Dropped n) s' -> c <> CSelect -> pstep (Pair r s c) false (Pair r s' c)
  | ps_done r s n : pstep (Pair r s (CRun n)) false (Pair r s CSelect)
  | ps_stop_rate r s s' c : step r s Control s' -> pstep (Pair r s c) true (Pair r s' c)
  | ps_stop_cons r s : pstep (Pair r s CSelect) true (Pair r s CExit).

(** All pairs of a benchmark, and whether the controller is sending on the
    control channel. *)
Record net := Net { pairs : list pair; sending : bool }.

(** What an observer sees of a step: nothing, the controller starts to send, or
    its message is received. *)
Inductive label := Tau | Want | Taken.

Inductive nstep : net -> label -> net -> Prop :=
  | n_tau l b i p p' :
      l !! i = Some p -> pstep p false p' -> nstep (Net l b) Tau (Net (<[i := p']> l) b)
  | n_want l : nstep (Net l false) Want (Net l true)
  | n_taken l i p p' :
      l !! i = Some p -> pstep p true p' -> nstep (Net l true) Taken (Net (<[i := p']> l) false).

Inductive nrun : net -> list label -> net -> Prop :=
  | nrun_nil n : nrun n [] n
  | nrun_snoc n1 ls n2 a n3 : nrun n1 ls n2 -> nstep n2 a n3 -> nrun n1 (ls ++ [a]) n3.

(** The goroutines [startRates] starts: createConstantRate or
    createConstantIncreaseDecreaseRate, and runControlOps. *)
Definition rate_of (r : Rate) : rate :=
  if negb (BenchmarkTypes.Interval (ConstantRateSpec r) =? 0)%Z
  then SingleRate (BenchmarkTypes.Interval (ConstantRateSpec r))
  else let spec := ConstantIncreaseDecreaseRateSpec r in
       IncDecRate (IncInterval spec) (DecInterval spec) (Min spec) (Max spec).

Definition start_pair (r : rate) : pair := Pair r (init_sys r) CSelect.
Definition start_net (rates : list rate) : net := Net (start_pair <$> rates) false.

(** ** Counting *)

(** How many of the two goroutines are still in their loops. *)
Definition rate_alive (s : sys) : nat := match rpos s with RStop | RExit => 0 | _ => 1 end.
Definition cons_alive (c : consumer) : nat := match c with CExit => 0 | _ => 1 end.
Definition pair_alive (p : pair) : nat := rate_alive (p_sys p) + cons_alive (p_cons p).
Definition alive (n : net) : nat := sum_list_with pair_alive (pairs n).

Definition is_taken (a : label) : nat := match a with Taken => 1 | _ => 0 end.
Definition taken (ls : list label) : nat := sum_list_with is_taken ls.

Lemma sum_list_with_insert {A} (f : A -> nat) l i x y :
  l !! i = Some x -> sum_list_with f (<[i := y]> l) + f x = sum_list_with f l + f y.
Proof.
  revert i. induction l as [|z l IH]; intros [|i] Hi; simpl in *; try done.
  - injection Hi as ->. lia.
  - specialize (IH i Hi). lia.
Qed.

Lemma step_alive r s e s' :
  step r s e s' -> rate_alive s = rate_alive s' + if is_control e then 1 else 0.
Proof.
  intros H. unfold rate_alive. destruct H; cbn; try done.
  destruct (on_tick_not_final r up n) as [H1 H2]. by destruct (on_tick r up n).
Qed.

Lemma pstep_alive p b p' : pstep p b p' -> pair_alive p = pair_alive p' + if b then 1 else 0.
Proof.
  unfold pair_alive. destruct 1 as [r s e s' c H He|r s n s' H|r s n s' c H Hc|r s n|r s s' c H|r s];
    cbn [p_sys p_cons cons_alive]; try (apply step_alive in H; simpl in H; rewrite H; lia); try lia.
  apply step_alive in H. destruct He as [-> | ->]; simpl in H; lia.
Qed.

Lemma nstep_alive n a n' : nstep n a n' -> alive n = alive n' + is_taken a.
Proof.
  unfold alive. destruct 1 as [l b i p p' Hi H|l|l i p p' Hi H]; simpl; [|lia|];
    apply pstep_alive in H; pose proof (sum_list_with_insert pair_alive l i p p' Hi); lia.
Qed.

Lemma nrun_alive n ls n' : nrun n ls n' -> alive n = alive n' + taken ls.
Proof.
  induction 1 as [n|n1 ls n2 a n3 _ IH H]; [unfold taken; simpl; lia|].
  apply nstep_alive in H. unfold taken in *. rewrite sum_list_with_app. simpl. lia.
Qed.

Lemma start_net_alive rates : alive (start_net rates) = 2 * length rates.
Proof.
  unfold alive. cbn [start_net pairs]. induction rates as [|r rates IH]; [done|].
  rewrite fmap_cons. cbn [sum_list_with length]. rewrite IH.
  unfold pair_alive, rate_alive. destruct r; simpl; lia.
Qed.

(** ** A message that is being sent can be received *)

(** Every rate is in a state its own steps reach. *)
Definition net_ok (n : net) : Prop := Forall (fun p => reachable (p_rate p) (p_sys p)) (pairs n).

Lemma reachable_step r s e s' : reachable r s -> step r s e s' -> reachable r s'.
Proof. intros Hr Hs. eapply rtc_r; [exact Hr|by exists e]. Qed.

Lemma pstep_ok p b p' :
  pstep p b p' -> reachable (p_rate p) (p_sys p) -> reachable (p_rate p') (p_sys p').
Proof. destruct 1; simpl; eauto using reachable_step. Qed.

Lemma nstep_ok n a n' : nstep n a n' -> net_ok n -> net_ok n'.
Proof.
  unfold net_ok. destruct 1 as [l b i p p' Hi H|l|l i p p' Hi H]; simpl; intros Hn; try done;
    apply Forall_insert; try done; (eapply pstep_ok; [exact H|]); exact (Forall_lookup_1 _ _ _ _ Hn Hi).
Qed.

Lemma start_net_ok rates : net_ok (start_net rates).
Proof. apply Forall_fmap, Forall_forall. intros r _. apply rtc_refl. Qed.

Lemma nrun_ok n ls n' : nrun n ls n' -> net_ok n -> net_ok n'.
Proof. induction 1; eauto using nstep_ok. Qed.

(** A pair that moves on its own until one of its goroutines can receive. *)
Lemma pair_receives p :
  reachable (p_rate p) (p_sys p) -> 0 < pair_alive p ->
  exists q q', rtc (fun p p' => pstep p false p') p q /\ pstep q true q'.
Proof.
  destruct p as [r s c]. cbn [p_rate p_sys p_cons]. intros Hr Ha.
  destruct c as [|n|]; [|eexists _, _; split; [apply rtc_once, ps_done|apply ps_stop_cons]|].
  { eexists _, _. split; [apply rtc_refl|apply ps_stop_cons]. }
  pose proof (reachable_one_timer _ _ Hr) as Ho. destruct s as [p ts].
  assert (forall p0 ts0, (exists up n, p0 = RSelect up n) ->
    exists q', pstep (Pair r (Sys p0 ts0) CExit) true q') as Hsel.
  { intros p0 ts0 (up & n & ->). eexists. apply ps_stop_rate, step_control. }
  assert (forall up n ts0, exists q q', rtc (fun p p' => pstep p false p')
    (Pair r (Sys (RConsume up n) ts0) CExit) q /\ pstep q true q') as Hcons.
  { intros up n ts0. destruct (Hsel (RSelect up n) ts0) as [q' Hq']; [eauto|].
    eexists _, q'. split; [|exact Hq']. apply rtc_once. eapply ps_dropped; [apply step_dropped|done]. }
  unfold one_timer in Ho. cbn [rpos timers] in Ho.
  destruct p as [up n|up n|up n| |]; try (unfold pair_alive, rate_alive in Ha; simpl in Ha; lia).
  - destruct (Hsel (RSelect up n) ts) as [q' Hq']; [eauto|]. eexists _, q'. split; [apply rtc_refl|done].
  - destruct Ho as ([iv pos] & -> & Hp).
    assert (forall c, exists q q', rtc (fun p p' => pstep p false p')
      (Pair r (Sys (RSwitch up n) [Timer iv (TSelect c)]) CExit) q /\ pstep q true q') as Hsw.
    { intros c. destruct (Hcons up n ([] ++ [] ++ [next_timer r up])) as (q & q' & Hq & Hq').
      exists q, q'. split; [|done]. eapply rtc_l; [|exact Hq].
      eapply ps_internal; [apply (step_switch r [] [])|by left]. }
    destruct pos as [c| |c]; [apply Hsw|done|].
    destruct (Hsw (wrap64 (c + 1))) as (q & q' & Hq & Hq'). exists q, q'. split; [|done].
    eapply rtc_l; [|exact Hq]. eapply ps_internal; [apply (step_wake r _ [] [])|by right].
  - apply Hcons.
Qed.

Lemma pair_path_net l b i p q :
  l !! i = Some p -> rtc (fun p p' => pstep p false p') p q ->
  exists ls, nrun (Net l b) ls (Net (<[i := q]> l) b) /\ taken ls = 0.
Proof.
  intros Hi. revert q. apply rtc_ind_r.
  - exists []. split; [|done]. rewrite list_insert_id by done. constructor.
  - intros q1 q2 _ H (ls & Hls & Ht). exists (ls ++ [Tau]). split.
    + eapply nrun_snoc; [exact Hls|]. rewrite <- (list_insert_insert_eq l i q2 q1).
      eapply n_tau; [|exact H]. apply list_lookup_insert_eq. by eapply lookup_lt_Some.
    + unfold taken in *. rewrite sum_list_with_app, Ht. done.
Qed.

Lemma sum_list_with_pos {A} (f : A -> nat) l :
  0 < sum_list_with f l -> exists i x, l !! i = Some x /\ 0 < f x.
Proof.
  induction l as [|x l IH]; simpl; [lia|]. intros H. destruct (decide (0 < f x)).
  - by exists 0, x.
  - destruct IH as (i & y & Hi & Hy); [lia|]. by exists (S i), y.
Qed.

(** While a goroutine is in its loop, a message that is being sent can always
    still be received. *)
Lemma can_take n :
  net_ok n -> sending n = true -> 0 < alive n -> exists ls n', nrun n (ls ++ [Taken]) n'.
Proof.
  destruct n as [l b]. cbn [sending]. intros Hok -> Ha. apply sum_list_with_pos in Ha as (i & p & Hi & Hp).
  cbn [pairs] in Hi. destruct (pair_receives p) as (q & q' & Hq & Hq'); [|done|].
  { exact (Forall_lookup_1 _ _ _ _ Hok Hi). }
  destruct (pair_path_net l true i p q Hi Hq) as (ls & Hls & _).
  eexists ls, _. eapply nrun_snoc; [exact Hls|]. eapply n_taken; [|exact Hq'].
  apply list_lookup_insert_eq. by eapply lookup_lt_Some.
Qed.

Lemma cannot_take n ls n' : alive n = 0 -> nrun n ls n' -> taken ls = 0.
Proof. intros Ha H. apply nrun_alive in H. lia. Qed.

(** ** The sends of the model *)

(** [k] messages to the control channel [c]. *)
Fixpoint send_n (c : option nat) (k : nat) : GoM unit :=
  match k with
  | O => mret tt
  | S k' => send c ;; send_n c k'
  end.

Lemma send_n_count c k : forall s m,
  listeners s !! c = Some (k + m) ->
  exists s', send_n (Some c) k s = Ret (tt, s') /\ listeners s' !! c = Some m.
Proof.
  induction k as [|k IH]; intros s m Hl; [by exists s|].
  cbn [send_n]. unfold mbind, gom_bind, send. rewrite Hl. cbn.
  destruct (IH (set_listeners (<[c := k + m]> (listeners s)) s) m) as (s' & E & Hs').
  { apply lookup_insert_eq. }
  by exists s'.
Qed.

Lemma send_blocked c s m : listeners s !! c = Some m -> (send (Some c) s = Blocked <-> m = 0).
Proof. intros Hl. unfold send. rewrite Hl. by destruct m. Qed.

Section listeners.
Context {E : Env}.

(** C3: the counting of listeners in the reconciler refines the goroutines.
    [startRates] leaves a count that is the number of goroutines it started; in
    every run of these, whatever they are doing, the messages that were received
    are sends that return in the model, and leave it with the number of
    goroutines still in their loops; and a send of the model blocks exactly when
    no run receives the message the controller is sending. *)
Theorem listeners_refine instance s :
  forallb known_rate (Rates (bm_Spec instance)) = true -> Rates (bm_Spec instance) <> [] ->
  exists i' s1 c, startRates instance s = Ret ((i', None), s1) /\ controlChannels s1 !! bm_Name i' = Some c /\
    forall ls n, nrun (start_net (rate_of <$> Rates (bm_Spec instance))) ls n ->
    exists s2, send_n (Some c) (taken ls) s1 = Ret (tt, s2) /\ listeners s2 !! c = Some (alive n) /\
      (sending n = true ->
       (send (Some c) s2 = Blocked <-> ~ exists ls' n', nrun n ls' n' /\ 0 < taken ls')).
Proof.
  intros Hk Hne. destruct (start_routines instance s Hk Hne) as (i' & s1 & Hs & _ & _ & Hc & Hl & _).
  exists i', s1, (next_chan s). split_and!; [done..|]. intros ls n Hrun.
  pose proof (nrun_alive _ _ _ Hrun) as Ha. rewrite start_net_alive, length_fmap in Ha.
  destruct (send_n_count (next_chan s) (taken ls) s1 (alive n)) as (s2 & E2 & Hs2).
  { rewrite Hl. f_equal. lia. }
  exists s2. split_and!; [done..|]. intros Hsend. rewrite (send_blocked _ _ _ Hs2). split.
  - intros H0 (ls' & n' & Hr & Ht). apply cannot_take in Hr; lia.
  - intros Hno. destruct (decide (alive n = 0)) as [|Hpos]; [done|]. exfalso. apply Hno.
    destruct (can_take n) as (ls' & n' & Hr); [|done|lia|].
    { eapply nrun_ok; [exact Hrun|apply start_net_ok]. }
    exists (ls' ++ [Taken]), n'. split; [done|]. unfold taken. rewrite sum_list_with_app. simpl. lia.
Qed.
End listeners.

(** ** Witness *)
Lemma listeners_refine_witness :
  exists i' s1 c, startRates (ex_instance Initializing) init_gst = Ret ((i', None), s1) /\
    controlChannels s1 !! bm_Name i' = Some c /\
    forall ls n, nrun (start_net (rate_of <$> Rates (bm_Spec (ex_instance Initializing)))) ls n ->
    exists s2, send_n (Some c) (taken ls) s1 = Ret (tt, s2) /\ listeners s2 !! c = Some (alive n) /\
      (sending n = true ->
       (send (Some c) s2 = Blocked <-> ~ exists ls' n', nrun n ls' n' /\ 0 < taken ls')).
Proof. apply (listeners_refine (ex_instance Initializing) init_gst); done. Defined.

(** One rate whose consumer runs an operation while the controller stops it: the
    rate takes the first message. *)
Example ex_run :
  nrun (start_net [SingleRate 1]) [Want; Taken] (Net [Pair (SingleRate 1) (Sys RStop [Rates.new_timer 1]) CSelect] false).
Proof.
  apply (nrun_snoc _ [Want] (Net [start_pair (SingleRate 1)] true)).
  - apply (nrun_snoc _ [] (start_net [SingleRate 1])); [constructor|apply n_want].
  - apply (n_taken [start_pair (SingleRate 1)] 0 (start_pair (SingleRate 1))); [done|].
    apply ps_stop_rate, step_control.
Qed.
