(* ===== verification/RatesLive.v ===== *)
(** * Liveness of a rate

    A [SingleRate] that gets no control message is never stuck, and every run
    that goes on for long enough makes as many offers as one likes: the steps
    between two offers are bounded. *)
From S2P Require Import Prelude Rates.
From stdpp Require Import relations.

Local Open Scope Z_scope.

Definition is_silent (e : event) : bool := match e with Silent => true | _ => false end.

(** Every event is of one kind. *)
Lemma count_kinds es :
  Z.of_nat (length es) = count is_silent es + count is_second es + count is_offer es + count is_control es.
Proof.
  induction es as [|e es IH] using rev_ind; [done|]. rewrite length_app, !count_snoc. cbn [length].
  destruct e; cbn; lia.
Qed.

(** The silent steps are those into sleep or out of the blocked send, each of
    which is followed by a second or an offer. *)
Definition owed (s : sys) : Z :=
  match timers s with
  | [t] => match pos t with TSelect _ => 0 | _ => 1 end
  | _ => 0
  end + match rpos s with RConsume _ _ => 1 | _ => 0 end.

Lemma silent_steps iv s e s' k secs :
  on_time iv k secs s -> step (SingleRate iv) s e s' -> is_control e = false ->
  (if is_silent e then 1 else 0) + owed s
    = (if is_second e then 1 else 0) + (if is_offer e then 1 else 0) + owed s'.
Proof.
  intros (t & Ht & Hs) Hstep He. unfold owed.
  destruct Hstep as [p l1 l2 j c Hn Hc|p l1 l2 j c Hn Hc|p l1 l2 j c|l1 l2 j c up n|l1 l2 j c
    |p l1 l2 l1' l2' j j' c Heq|l1 l2 j up n|l up n|l up n|l up n];
    cbn [rpos timers is_offer is_second is_silent on_tick] in *; try done;
    try (apply one_singleton in Ht as (-> & -> & _); cbn; try lia).
  - by destruct l1'.
  - lia.
  - lia.
Qed.

Lemma run_owed iv es s :
  1 <= iv -> in_int64 iv -> run (SingleRate iv) (init_sys (SingleRate iv)) es s -> count is_control es = 0 ->
  count is_silent es = count is_second es + count is_offer es + owed s.
Proof.
  intros Hiv Hi Hrun. remember (init_sys (SingleRate iv)) as s0 eqn:E.
  induction Hrun as [s|s1 es s2 e s3 Hrun IH Hstep]; [by subst|]. rewrite !count_snoc. intros Hc.
  assert (0 <= count is_control es) by (unfold count; lia). destruct (is_control e) eqn:He; [lia|].
  subst. specialize (IH eq_refl ltac:(lia)).
  pose proof (run_on_time iv es s2 Hiv Hi Hrun ltac:(lia)) as Ht.
  pose proof (silent_steps iv s2 e s3 _ _ Ht Hstep He). lia.
Qed.

Lemma owed_bound s : 0 <= owed s <= 2.
Proof. unfold owed. destruct (timers s) as [|t [|]], (rpos s); try (destruct (pos t)); lia. Qed.

(** C25: liveness.  As long as no control message came, a [SingleRate] with an
    interval of [iv >= 1] seconds can go on in every state it reaches, and a
    run of more than [2 * iv * (k + 1) + 2 * k] steps has made [k] offers: no
    interleaving of the rate and its timer goes on for ever without a tick. *)
Theorem SingleRate_live iv es s :
  1 <= iv -> in_int64 iv -> run (SingleRate iv) (init_sys (SingleRate iv)) es s -> count is_control es = 0 ->
  (exists e s', is_control e = false /\ step (SingleRate iv) s e s') /\
  forall k, 2 * iv * (k + 1) + 2 * k < Z.of_nat (length es) -> k <= count is_offer es.
Proof.
  intros Hiv Hi Hrun Hc. pose proof (run_on_time iv es s Hiv Hi Hrun Hc) as Ht. split.
  - destruct Ht as (t & _ & Ht). destruct (reachable_moves (SingleRate iv) s) as [H|[(t' & -> & _)|H]];
      [by eapply run_reachable|by rewrite H in Ht|done|done].
  - intros k. rewrite count_kinds, Hc, (run_owed iv es s Hiv Hi Hrun Hc). pose proof (owed_bound s) as Ho.
    assert (count is_second es <= iv * (count is_offer es + 2)) as Hs.
    { destruct Ht as (t & _ & Ht). unfold clock in Ht. destruct (rpos s), (pos t); try done; nia. }
    intros Hk. destruct (Z.le_gt_cases k (count is_offer es)); [done|]. exfalso. nia.
Qed.

(** Two periods of a second: one offer was made, the next tick is pending. *)
Lemma run_two_periods :
  run (SingleRate 1) (init_sys (SingleRate 1)) [Silent; Second; Silent; Silent; Sent 1; Second; Silent]
    (Sys (RSelect true 1) [Timer 1 TSend]).
Proof.
  apply (run_snoc _ _ [Silent; Second; Silent; Silent; Sent 1; Second] (Sys (RSelect true 1) [Timer 1 (TSelect 1)]));
    [|by apply (step_fire _ _ [] [])].
  apply (run_snoc _ _ [Silent; Second; Silent; Silent; Sent 1] (Sys (RSelect true 1) [Timer 1 (TSleep 0)]));
    [|apply (step_wake _ _ [] [] 1 0)].
  apply (run_snoc _ _ [Silent; Second; Silent; Silent] (Sys (RConsume true 1) [Timer 1 (TSleep 0)]));
    [|apply step_sent].
  apply (run_snoc _ _ [Silent; Second; Silent] _ _ _ run_first_tick).
  apply (step_tick (SingleRate 1) [] [] 1 true 0).
Qed.

Lemma SingleRate_live_witness :
  (exists e s', is_control e = false /\ step (SingleRate 1) (Sys (RSelect true 1) [Timer 1 TSend]) e s') /\ 1 <= 1.
Proof.
  destruct (SingleRate_live 1 _ _ ltac:(lia) ltac:(done) run_two_periods ltac:(done)) as [H1 H2].
  split; [exact H1|]. by apply H2.
Defined.
