(* ===== verification/CsiTypes.v ===== *)
(** * Data of the CSI trace analyser (util/analysis/csi-tracing/types.go)

    The analyser reads a packet capture, splits the HTTP/2 traffic into streams,
    finds the gRPC calls of the container storage interface and prints one log
    entry per call.  The packages that decode packets, HTTP/2 frames, header
    blocks and protocol buffers are third-party code: the class [CsiEnv]. *)
From Stdlib Require Export Strings.Byte.
From S2P Require Import Prelude GoStrings GoTime.

#[export] Instance byte_eq_dec : EqDecision Byte.byte := Byte.byte_eq_dec.

Definition bytes : Type := list Byte.byte.

(** [uint8(b)]. *)
Definition byte_val (b : Byte.byte) : Z := Z.of_N (Byte.to_N b).

(** An IPv4 address; [net.IP.String] gives the dotted form. *)
Definition IP : Type := Z * Z * Z * Z.
Definition ip_string (ip : IP) : string :=
  let '(a, b, c, d) := ip in
  itoa a +:+ "." +:+ itoa b +:+ "." +:+ itoa c +:+ "." +:+ itoa d.

(** ** HTTP/2 *)
Inductive FrameType := FrameData | FrameHeaders | FramePushPromise | FrameContinuation | FrameOther (t : Z).
#[export] Instance FrameType_eq_dec : EqDecision FrameType.
Proof. solve_decision. Defined.

Record FrameHeader := { Type_ : FrameType; Flags : Z; Length_ : Z; StreamID : N }.

Record HeaderField := { hf_Name : string; hf_Value : string }.

(** A frame as [ReadFrame] returns it: the data of a data frame, the header
    block fragment of the three kinds that have one, and its flag
    END_HEADERS. *)
Record h2frame := { h2_header : FrameHeader; h2_payload : bytes; h2_HeadersEnded : bool }.

Record frame := { header : FrameHeader; body : bytes; headerFields : list HeaderField }.

Record stream := { st_frames : list frame; captureTimestamp : time }.

(** All raw frames of one captured packet. *)
Record frames := { fr_bytes : bytes; fr_captureTimestamp : time }.

Record rawFrames := { srcIP : IP; dstIP : IP; srcPort : Z; dstPort : Z; rf_frames : list frames }.

Record rawStreams := {
  aIP : IP; bIP : IP; aPort : Z; bPort : Z;
  ab : gmap N stream; ba : gmap N stream }.

(** The layers [gopacket] finds in a packet. *)
Record packet := {
  pk_ipv4 : option (IP * IP); pk_tcp : option (Z * Z); pk_payload : option bytes; pk_timestamp : time }.

(** ** Messages of the interface *)
Inductive csi_struct :=
  | GetPluginInfoRequest | GetPluginCapabilitiesRequest | ProbeRequest
  | CreateVolumeRequest | DeleteVolumeRequest | ControllerPublishVolumeRequest
  | ControllerUnpublishVolumeRequest | ValidateVolumeCapabilitiesRequest | ListVolumesRequest
  | GetCapacityRequest | ControllerGetCapabilitiesRequest | CreateSnapshotRequest
  | DeleteSnapshotRequest | ListSnapshotsRequest | ControllerExpandVolumeRequest
  | ControllerGetVolumeRequest
  | NodeStageVolumeRequest | NodeUnstageVolumeRequest | NodePublishVolumeRequest
  | NodeUnpublishVolumeRequest | NodeGetVolumeStatsRequest | NodeExpandVolumeRequest
  | NodeGetCapabilitiesRequest | NodeGetInfoRequest
  | GetPluginInfoResponse | GetPluginCapabilitiesResponse | ProbeResponse
  | CreateVolumeResponse | DeleteVolumeResponse | ControllerPublishVolumeResponse
  | ControllerUnpublishVolumeResponse | ValidateVolumeCapabilitiesResponse | ListVolumesResponse
  | GetCapacityResponse | ControllerGetCapabilitiesResponse | CreateSnapshotResponse
  | DeleteSnapshotResponse | ListSnapshotsResponse | ControllerExpandVolumeResponse
  | ControllerGetVolumeResponse
  | NodeStageVolumeResponse | NodeUnstageVolumeResponse | NodePublishVolumeResponse
  | NodeUnpublishVolumeResponse | NodeGetVolumeStatsResponse | NodeExpandVolumeResponse
  | NodeGetCapabilitiesResponse | NodeGetInfoResponse.

(** ** Third-party code

    - [port_string]: [layers.TCPPort.String];
    - [ClientPreface]: the constant of that name of [http2];
    - [read_frames]: a new [http2.Framer] read up to the first error, and
      whether that was [io.EOF];
    - [decoder], [new_decoder], [DecodeFull]: the stateful [hpack] decoder;
    - [Unmarshal]: [proto.Unmarshal] into an empty struct. *)
Class CsiEnv := {
  port_string : Z -> string;
  ClientPreface : bytes;
  read_frames : bytes -> list h2frame * bool;
  decoder : Type;
  new_decoder : decoder;
  DecodeFull : decoder -> bytes -> option (list HeaderField * decoder);
  message : Type;
  Unmarshal : csi_struct -> bytes -> option message }.

(** A decoded call. *)
Record CsiRPC {E : CsiEnv} := {
  clientIP : IP; clientPort : Z; clientName : string; csiPath : string;
  request : option message; response : option message;
  requestTime : time; responseTime : time }.
