(* ===== verification/CsiGrpc.v ===== *)
(** * gRPC calls (util/analysis/csi-tracing/grpc.go, csi.go)

    [log.Fatal] ends the process: it is a panic here.  Where the code ranges
    over a map, the order of the keys is an argument. *)
From S2P Require Import Prelude GoStrings GoTime CsiTypes.

(** ** Length-prefixed messages *)
Record gRPCMessage := { compressedFlag : Z; messageLength : Z; msg_message : bytes }.

Definition byte_at (frame : bytes) (i : nat) : outcome Z :=
  match frame !! i with
  | Some b => Ret (byte_val b)
  | None => Panic "index out of range"
  end.

(** [msgLength << 8 | uint32(b)]. *)
Definition push_byte (msgLength b : Z) : Z := Z.lor (wrap_u32 (Z.shiftl msgLength 8)) b.

Definition parseGRPCMessage (frame : bytes) : outcome gRPCMessage :=
  b1 ← byte_at frame 1;
  b2 ← byte_at frame 2;
  b3 ← byte_at frame 3;
  b4 ← byte_at frame 4;
  let msgLength := push_byte (push_byte (push_byte b1 b2) b3) b4 in
  b0 ← byte_at frame 0;
  let msg := {| compressedFlag := b0; messageLength := msgLength; msg_message := drop 5 frame |} in
  if decide (0 < compressedFlag msg)%Z then Panic "Message is compressed. Not currently supported."
  else if decide (messageLength msg <> wrap_u32 (Z.of_nat (length (msg_message msg))))
  then Panic "Message length mismatch."
  else Ret msg.

(** ** The structs of a call *)

(** A [switch] on a string; [None] is the default case. *)
Fixpoint switch {A} (cases : list (string * A)) (s : string) : option A :=
  match cases with
  | [] => None
  | (k, a) :: cases' => if decide (s = k) then Some a else switch cases' s
  end.

Definition csiRequestStruct (service rpc : string) : option csi_struct :=
  cases ← switch
    [("Identity",
       [("GetPluginInfo", GetPluginInfoRequest);
        ("GetPluginCapabilities", GetPluginCapabilitiesRequest);
        ("Probe", ProbeRequest)]);
     ("Controller",
       [("CreateVolume", CreateVolumeRequest);
        ("DeleteVolume", DeleteVolumeRequest);
        ("ControllerPublishVolume", ControllerPublishVolumeRequest);
        ("ControllerUnpublishVolume", ControllerUnpublishVolumeRequest);
        ("ValidateVolumeCapabilities", ValidateVolumeCapabilitiesRequest);
        ("ListVolumes", ListVolumesRequest);
        ("GetCapacity", GetCapacityRequest);
        ("ControllerGetCapabilities", ControllerGetCapabilitiesRequest);
        ("CreateSnapshot", CreateSnapshotRequest);
        ("DeleteSnapshot", DeleteSnapshotRequest);
        ("ListSnapshots", ListSnapshotsRequest);
        ("ControllerExpandVolume", ControllerExpandVolumeRequest);
        ("ControllerGetVolume", ControllerGetVolumeRequest)]);
     ("Node",
       [("NodeStageVolume", NodeStageVolumeRequest);
        ("NodeUnstageVolume", NodeUnstageVolumeRequest);
        ("NodePublishVolume", NodePublishVolumeRequest);
        ("NodeUnpublishVolume", NodeUnpublishVolumeRequest);
        ("NodeGetVolumeStats", NodeGetVolumeStatsRequest);
        ("NodeExpandVolume", NodeExpandVolumeRequest);
        ("NodeGetCapabilities", NodeGetCapabilitiesRequest);
        ("NodeGetInfo", NodeGetInfoRequest)])] service;
  switch cases rpc.

Definition csiResponseStruct (service rpc : string) : option csi_struct :=
  cases ← switch
    [("Identity",
       [("GetPluginInfo", GetPluginInfoResponse);
        ("GetPluginCapabilities", GetPluginCapabilitiesResponse);
        ("Probe", ProbeResponse)]);
     ("Controller",
       [("CreateVolume", CreateVolumeResponse);
        ("DeleteVolume", DeleteVolumeResponse);
        ("ControllerPublishVolume", ControllerPublishVolumeResponse);
        ("ControllerUnpublishVolume", ControllerUnpublishVolumeResponse);
        ("ValidateVolumeCapabilities", ValidateVolumeCapabilitiesResponse);
        ("ListVolumes", ListVolumesResponse);
        ("GetCapacity", GetCapacityResponse);
        ("ControllerGetCapabilities", ControllerGetCapabilitiesResponse);
        ("CreateSnapshot", CreateSnapshotResponse);
        ("DeleteSnapshot", DeleteSnapshotResponse);
        ("ListSnapshots", ListSnapshotsResponse);
        ("ControllerExpandVolume", ControllerExpandVolumeResponse);
        ("ControllerGetVolume", ControllerGetVolumeResponse)]);
     ("Node",
       [("NodeStageVolume", NodeStageVolumeResponse);
        ("NodeUnstageVolume", NodeUnstageVolumeResponse);
        ("NodePublishVolume", NodePublishVolumeResponse);
        ("NodeUnpublishVolume", NodeUnpublishVolumeResponse);
        ("NodeGetVolumeStats", NodeGetVolumeStatsResponse);
        ("NodeExpandVolume", NodeExpandVolumeResponse);
        ("NodeGetCapabilities", NodeGetCapabilitiesResponse);
        ("NodeGetInfo", NodeGetInfoResponse)])] service;
  switch cases rpc.

(** ** Which stream is which *)

(** Does some header have this name and value?  The tests of the code are on
    different names, so they do not exclude each other. *)
Definition has_header (name value : string) (hdrs : list HeaderField) : bool :=
  existsb (fun h => bool_decide (hf_Name h = name) && bool_decide (hf_Value h = value)) hdrs.

Definition is_type (t : FrameType) (f : frame) : bool := bool_decide (Type_ (header f) = t).

Definition isGRPCRequest (strm : stream) : bool :=
  match st_frames strm with
  | f0 :: ((_ :: _) as rest) =>
      is_type FrameHeaders f0 && forallb (is_type FrameData) rest &&
      (has_header ":method" "POST" (headerFields f0) && has_header ":scheme" "http" (headerFields f0) &&
       has_header "content-type" "application/grpc" (headerFields f0))
  | _ => false
  end.

(** Headers, at least one data frame, trailers. *)
Fixpoint data_then_headers (l : list frame) : bool :=
  match l with
  | [] => false
  | [f] => is_type FrameHeaders f
  | f :: l' => is_type FrameData f && data_then_headers l'
  end.

Definition isGRPCResponse (strm : stream) : bool :=
  match st_frames strm with
  | f0 :: ((_ :: _ :: _) as rest) =>
      is_type FrameHeaders f0 && data_then_headers rest &&
      (has_header ":status" "200" (headerFields f0) &&
       has_header "content-type" "application/grpc" (headerFields f0))
  | _ => false
  end.

Definition findField (hdrs : list HeaderField) (field : string) : string :=
  match List.find (fun h => bool_decide (hf_Name h = field)) hdrs with
  | Some h => hf_Value h
  | None => EmptyString
  end.

(** The position of the last slash. *)
Fixpoint last_slash (i : nat) (s : string) (split : option nat) : option nat :=
  match s with
  | EmptyString => split
  | String c s' => last_slash (S i) s' (if decide (c = "/"%char) then Some i else split)
  end.

(** [path[len("/csi.v1."):]] cuts eight bytes whatever they are; without a
    slash [path[:-1]] panics. *)
Definition parseRPCPath (path : string) : outcome (string * string) :=
  if decide (String.length path < 8)%nat then Panic "slice bounds out of range"
  else
    let path := substr 8 (String.length path) path in
    match last_slash 0 path None with
    | None => Panic "slice bounds out of range"
    | Some split => Ret (substr 0 split path, substr (S split) (String.length path) path)
    end.

Section grpc.
Context {E : CsiEnv}.

Definition parseCSI (csiFrame : bytes) (csiStruct : csi_struct) : outcome message :=
  match Unmarshal csiStruct csiFrame with
  | Some m => Ret m
  | None => Panic "Failed to parse request"
  end.

Definition parse_struct (frame : bytes) (s : option csi_struct) : outcome (option message) :=
  gRPCMsg ← parseGRPCMessage frame;
  match s with
  | None => Ret None
  | Some s => m ← parseCSI (msg_message gRPCMsg) s; Ret (Some m)
  end.

Definition parseCSIRequest (frame : bytes) (pathService pathRPC : string) : outcome (option message) :=
  parse_struct frame (csiRequestStruct pathService pathRPC).

Definition parseCSIResponse (frame : bytes) (pathService pathRPC : string) : outcome (option message) :=
  parse_struct frame (csiResponseStruct pathService pathRPC).

Definition frame_at (strm : stream) (i : nat) : outcome frame :=
  match st_frames strm !! i with
  | Some f => Ret f
  | None => Panic "index out of range"
  end.

(** Only the first data frame is read. *)
Definition parseGRPC (req resp : stream) (ip : IP) (port : Z) : outcome (CsiRPC * bool) :=
  f0 ← frame_at req 0;
  let path := findField (headerFields f0) ":path" in
  let name := findField (headerFields f0) ":authority" in
  '(service, rpc) ← parseRPCPath path;
  reqData ← frame_at req 1;
  repData ← frame_at resp 1;
  rq ← parseCSIRequest (body reqData) service rpc;
  rp ← parseCSIResponse (body repData) service rpc;
  let rpcStruct :=
    {| clientIP := ip; clientPort := port; clientName := name; csiPath := path;
       request := rq; response := rp;
       requestTime := captureTimestamp req; responseTime := captureTimestamp resp |} in
  Ret (rpcStruct, match rq, rp with Some _, Some _ => true | _, _ => false end).

(** The body of the inner loop of [parseRPCs]. *)
Definition parse_pair (streams : rawStreams) (abStrm baStrm : stream) : outcome (list CsiRPC) :=
  let parse req resp ip port :=
    '(curRPC, ok) ← parseGRPC req resp ip port;
    Ret (if ok : bool then [curRPC] else []) in
  if isGRPCRequest abStrm && isGRPCResponse baStrm
  then parse abStrm baStrm (aIP streams) (aPort streams)
  else if isGRPCRequest baStrm && isGRPCResponse abStrm
  then parse baStrm abStrm (bIP streams) (bPort streams)
  else Ret [].

Definition parse_sid (streams : rawStreams) (rpcs : list CsiRPC) (sid : N) : outcome (list CsiRPC) :=
  match ab streams !! sid, ba streams !! sid with
  | Some abStrm, Some baStrm => l ← parse_pair streams abStrm baStrm; Ret (rpcs ++ l)
  | _, _ => Ret rpcs
  end.

(** [order] gives, for each pair of hosts, the keys in the order the range
    visits them. *)
Definition parseRPCs (order : rawStreams -> list N) (rawstreams : list rawStreams) : outcome (list CsiRPC) :=
  foldM (fun rpcs streams => foldM (parse_sid streams) rpcs (order streams)) [] rawstreams.
End grpc.
