(* ===== verification/CsiStreams.v ===== *)
(** * From packets to HTTP/2 streams (util/analysis/csi-tracing/pcap.go,
    http2.go)

    The frames of a capture are grouped by source and destination, the two
    directions of a connection are paired, and each direction is split into its
    streams. *)
From S2P Require Import Prelude GoStrings GoTime CsiTypes.

Section streams.
Context {E : CsiEnv}.

(** ** Packets *)
Definition parsePacket (p : packet) : option (IP * IP * Z * Z * frames) :=
  match pk_ipv4 p, pk_tcp p, pk_payload p with
  | Some (si, di), Some (sp, dp), Some payload =>
      Some (si, di, sp, dp, {| fr_bytes := payload; fr_captureTimestamp := pk_timestamp p |})
  | _, _, _ => None
  end.

Definition srcdstIdentifier (si di : IP) (sp dp : Z) : string :=
  ip_string si +:+ ip_string di +:+ port_string sp +:+ port_string dp.

Definition add_frames (fr : frames) (x : rawFrames) : rawFrames :=
  {| srcIP := srcIP x; dstIP := dstIP x; srcPort := srcPort x; dstPort := dstPort x;
     rf_frames := rf_frames x ++ [fr] |}.

Definition add_packet (rf : gmap string rawFrames) (p : packet) : gmap string rawFrames :=
  match parsePacket p with
  | None => rf
  | Some (si, di, sp, dp, fr) =>
      let id := srcdstIdentifier si di sp dp in
      match rf !! id with
      | Some x => <[id := add_frames fr x]> rf
      | None => <[id := {| srcIP := si; dstIP := di; srcPort := sp; dstPort := dp; rf_frames := [fr] |}]> rf
      end
  end.

(** The packets of the file. *)
Definition parsePackets (packets : list packet) : gmap string rawFrames := foldl add_packet ∅ packets.

(** ** Streams of one direction *)
Record streaminfo := { headersEnded : bool; headersIndex : Z; si_stream : stream }.

Definition copyHdr (hdr : FrameHeader) : FrameHeader :=
  {| Type_ := Type_ hdr; Flags := Flags hdr; Length_ := Length_ hdr; StreamID := StreamID hdr |}.

(** [copy] copies all bytes: the slices have the same length. *)
Definition copyBuf (buf : bytes) : bytes := take (length buf) buf.

Definition append_frame (f : frame) (si : streaminfo) : streaminfo :=
  {| headersEnded := headersEnded si; headersIndex := headersIndex si;
     si_stream := {| st_frames := st_frames (si_stream si) ++ [f];
                     captureTimestamp := captureTimestamp (si_stream si) |} |}.

Definition set_timestamp (t : time) (si : streaminfo) : streaminfo :=
  {| headersEnded := headersEnded si; headersIndex := headersIndex si;
     si_stream := {| st_frames := st_frames (si_stream si); captureTimestamp := t |} |}.

Definition set_ended (b : bool) (si : streaminfo) : streaminfo :=
  {| headersEnded := b; headersIndex := headersIndex si; si_stream := si_stream si |}.

(** [si.headersIndex = len(si.stream.frames) - 1]. *)
Definition set_index (si : streaminfo) : streaminfo :=
  {| headersEnded := headersEnded si;
     headersIndex := Z.of_nat (length (st_frames (si_stream si))) - 1; si_stream := si_stream si |}.

(** The update of [si.stream.frames[si.headersIndex]]. *)
Definition update_headers (f : frame -> outcome frame) (si : streaminfo) : outcome streaminfo :=
  let i := headersIndex si in
  if decide (i < 0)%Z then Panic "index out of range"
  else
    match st_frames (si_stream si) !! Z.to_nat i with
    | None => Panic "index out of range"
    | Some fr =>
        fr' ← f fr;
        Ret {| headersEnded := headersEnded si; headersIndex := i;
               si_stream := {| st_frames := <[Z.to_nat i := fr']> (st_frames (si_stream si));
                               captureTimestamp := captureTimestamp (si_stream si) |} |}
    end.

(** Decode the header block once it is complete; the decoder keeps state. *)
Definition decode_headers (dec : decoder) (si : streaminfo) : outcome (decoder * streaminfo) :=
  if headersEnded si then
    let i := headersIndex si in
    if decide (i < 0)%Z then Panic "index out of range"
    else
      match st_frames (si_stream si) !! Z.to_nat i with
      | None => Panic "index out of range"
      | Some fr =>
          match DecodeFull dec (body fr) with
          | None => Panic "DecodeFull"
          | Some (x, dec') =>
              si ← update_headers (fun fr => Ret {| header := header fr; body := []; headerFields := x |}) si;
              Ret (dec', si)
          end
      end
  else Ret (dec, si).

Definition new_info : streaminfo :=
  {| headersEnded := true; headersIndex := -1;
     si_stream := {| st_frames := []; captureTimestamp := zero_time |} |}.

(** The body of the loop over the frames of a packet, for one stream. *)
Definition info_step (timestamp : time) (cur : h2frame) (dec : decoder) (si : streaminfo)
    : outcome (decoder * streaminfo) :=
  let hdr := copyHdr (h2_header cur) in
  let new := {| header := hdr; body := copyBuf (h2_payload cur); headerFields := [] |} in
  match Type_ hdr with
  | FrameData => Ret (dec, set_timestamp timestamp (append_frame new si))
  | FrameHeaders | FramePushPromise =>
      let si := set_index (set_ended (h2_HeadersEnded cur) (append_frame new si)) in
      '(dec, si) ← decode_headers dec si;
      Ret (dec, set_timestamp timestamp si)
  | FrameContinuation =>
      if negb (headersEnded si) then
        si ← update_headers (fun fr => Ret {| header := header fr; body := body fr ++ h2_payload cur;
                                              headerFields := headerFields fr |}) si;
        decode_headers dec (set_timestamp timestamp (set_ended (h2_HeadersEnded cur) si))
      else Ret (dec, si)
  | FrameOther _ => Ret (dec, si)
  end.

Definition infos : Type := decoder * gmap N streaminfo.

Definition frame_step (timestamp : time) (s : infos) (cur : h2frame) : outcome infos :=
  let '(dec, m) := s in
  let sid := StreamID (h2_header cur) in
  '(dec, si) ← info_step timestamp cur dec (default new_info (m !! sid));
  Ret (dec, <[sid := si]> m).

(** A connection preface at the start of the packet is skipped. *)
Definition strip_magic (frameBytes : bytes) : bytes :=
  if decide (take (length ClientPreface) frameBytes = ClientPreface)
  then drop (length ClientPreface) frameBytes else frameBytes.

(** A packet is read by its own framer up to the end of its bytes; any other
    error ends the process. *)
Definition packet_step (s : infos) (pkt : frames) : outcome infos :=
  let '(fs, eof) := read_frames (strip_magic (fr_bytes pkt)) in
  s ← foldM (frame_step (fr_captureTimestamp pkt)) s fs;
  if eof : bool then Ret s else Panic "ReadFrame".

Definition kept (si : streaminfo) : option stream :=
  match st_frames (si_stream si) with [] => None | _ => Some (si_stream si) end.

Definition kept_streams (s : infos) : gmap N stream := omap (M := gmap N) kept (snd s).

Definition framesToStreams (allFrames : list frames) : outcome (gmap N stream) :=
  s ← foldM packet_step ((new_decoder, ∅) : infos) allFrames;
  Ret (kept_streams s).

(** ** Pairing the directions

    Entries are deleted while the map is ranged over; an entry deleted before
    it is reached is not visited. *)
Definition opposite (rf : rawFrames) : string :=
  srcdstIdentifier (dstIP rf) (srcIP rf) (dstPort rf) (srcPort rf).

Definition extract_step (s : gmap string rawFrames * list rawStreams) (abID : string)
    : outcome (gmap string rawFrames * list rawStreams) :=
  let '(rfs, streams) := s in
  match rfs !! abID with
  | None => Ret (rfs, streams)
  | Some rf =>
      let rfs := delete abID rfs in
      let baID := opposite rf in
      match rfs !! baID with
      | None => Ret (rfs, streams)
      | Some x =>
          let rfs := delete baID rfs in
          sab ← framesToStreams (rf_frames rf);
          sba ← framesToStreams (rf_frames x);
          Ret (rfs, streams ++ [{| aIP := srcIP rf; bIP := dstIP rf; aPort := srcPort rf;
                                   bPort := dstPort rf; ab := sab; ba := sba |}])
      end
  end.

Definition extractStreams (order : list string) (rfs : gmap string rawFrames) : outcome (list rawStreams) :=
  '(_, streams) ← foldM extract_step (rfs, []) order;
  Ret streams.
End streams.
