(* ===== verification/CsiLogs.v ===== *)
(** * Log entries of CSI calls (util/analysis/csi-tracing/tologs.go, timing.go) *)
From S2P Require Import Prelude GoStrings GoTime CsiTypes CsiGrpc CsiStreams.

(** [Time.Sub]: the difference, at most and at least the limits of
    [time.Duration]. *)
Definition duration_sub (t u : time) : Z := Z.max min_int64 (Z.min max_int64 (t - u)).

Section logs.
Context {E : CsiEnv}.

Record CsiLog := {
  Action : string; Path : string;
  Agent_Name : string; Agent_Ip : string; Agent_Port : string;
  Timing_Start : time; Timing_End : time; Timing_Duration : Z;
  Log_Request : option message; Log_Response : option message }.

(** [path[len(path)-1]]: [strings.Split] gives at least one part. *)
Definition processRPC (r : CsiRPC) : CsiLog * bool :=
  ({| Action := List.last (split "/"%char (csiPath r)) EmptyString; Path := csiPath r;
      Agent_Name := clientName r; Agent_Ip := ip_string (clientIP r); Agent_Port := port_string (clientPort r);
      Timing_Start := requestTime r; Timing_End := responseTime r;
      Timing_Duration := duration_sub (responseTime r) (requestTime r);
      Log_Request := request r; Log_Response := response r |}, true).

Definition extractLogs (rpcs : list CsiRPC) : list CsiLog :=
  rpcs ≫= (fun r => let '(log, ok) := processRPC r in if ok : bool then [log] else []).

(** [byResponseTime.Less], with which [sort.Sort] sorts. *)
Definition Less (a b : CsiRPC) : bool := before (responseTime a) (responseTime b).

(** The orders in which the maps are ranged over, and [sort.Sort]. *)
Record choices := {
  range_ids : gmap string rawFrames -> list string;
  range_sids : rawStreams -> list N;
  sort_Sort : list CsiRPC -> list CsiRPC }.

Definition sortRPCs (ch : choices) (rpcs : list CsiRPC) : list CsiRPC := sort_Sort ch rpcs.

Definition parseCSIPcapFile (ch : choices) (packets : list packet) : outcome (list CsiRPC) :=
  let rawframes := parsePackets packets in
  rawstreams ← extractStreams (range_ids ch rawframes) rawframes;
  rpcs ← parseRPCs (range_sids ch) rawstreams;
  Ret (sortRPCs ch rpcs).

(** [None] when the file cannot be opened. *)
Definition PcapToLogs (ch : choices) (file : option (list packet)) : outcome (list CsiLog) :=
  match file with
  | None => Panic "OpenOffline"
  | Some packets => rpcs ← parseCSIPcapFile ch packets; Ret (extractLogs rpcs)
  end.
End logs.
