(* ===== verification/CsiJson.v ===== *)
(** * Printing the log of CSI calls (util/analysis/csi-tracing/tologs.go: ToJson)

    The JSON of an instant depends on the zone of the capture, and that of a
    message on its generated type; both are parameters, and both can fail. *)
From S2P Require Import Prelude GoStrings GoTime GoJson GoJsonPrint CsiTypes CsiGrpc CsiStreams CsiLogs.

Section json.
Context {E : CsiEnv} (time_json : time -> option json) (message_json : option message -> option json).

(** The fields of the struct by their tags, in order. *)
Definition log_json (log : CsiLog) : option json :=
  start ← time_json (Timing_Start log);
  stop ← time_json (Timing_End log);
  request ← message_json (Log_Request log);
  response ← message_json (Log_Response log);
  Some (JObj
    [("action", JStr (Action log)); ("path", JStr (Path log));
     ("agent", JObj [("name", JStr (Agent_Name log)); ("ip", JStr (Agent_Ip log)); ("port", JStr (Agent_Port log))]);
     ("timing", JObj [("start", start); ("end", stop); ("duration", json_int (Timing_Duration log))]);
     ("request", request); ("response", response)]).

(** The error is ignored: what is left is an empty string. *)
Definition ToJson (log : CsiLog) : string :=
  match log_json log with Some j => Marshal j | None => EmptyString end.

Hypothesis time_printable : forall t j, time_json t = Some j -> printable j.
Hypothesis message_printable : forall m j, message_json m = Some j -> printable j.

(** A log is printed as text that decodes to it, or, when it cannot be
    marshalled, as the empty string, which decodes to nothing. *)
Theorem ToJson_parses log : parse_json (ToJson log) = log_json log.
Proof.
  unfold ToJson. destruct (log_json log) as [j|] eqn:Ej; [|reflexivity].
  apply parse_Marshal. unfold log_json in Ej.
  destruct (time_json (Timing_Start log)) as [j1|] eqn:E1; [|done].
  destruct (time_json (Timing_End log)) as [j2|] eqn:E2; [|done].
  destruct (message_json (Log_Request log)) as [j3|] eqn:E3; [|done].
  destruct (message_json (Log_Response log)) as [j4|] eqn:E4; [|done].
  injection Ej as <-. apply time_printable in E1, E2. apply message_printable in E3, E4.
  repeat constructor; try done. by eexists.
Qed.
End json.
