(* ===== verification/CsiThm.v ===== *)
(** * Properties of the decoding of calls (CsiGrpc.v) *)
From S2P Require Import Prelude GoStrings GoTime CsiTypes CsiGrpc.

(** ** Length-prefixed messages *)

Definition byte_of (z : Z) : Byte.byte :=
  match Byte.of_N (Z.to_N (z mod 256)) with Some b => b | None => Byte.x00 end.

Lemma byte_val_of z : byte_val (byte_of z) = (z mod 256)%Z.
Proof.
  unfold byte_val, byte_of. pose proof (Z.mod_pos_bound z 256 ltac:(lia)) as Hb.
  destruct (Byte.of_N (Z.to_N (z mod 256))) as [b|] eqn:Eb.
  - apply Byte.to_of_N in Eb. rewrite Eb. lia.
  - apply Byte.of_N_None_iff in Eb. lia.
Qed.

Lemma byte_val_range b : (0 <= byte_val b < 256)%Z.
Proof. unfold byte_val. pose proof (Byte.to_N_bounded b). lia. Qed.

Lemma byte_val_inj a b : byte_val a = byte_val b -> a = b.
Proof.
  unfold byte_val. intros H. apply N2Z.inj in H.
  pose proof (Byte.of_to_N a) as Ha. pose proof (Byte.of_to_N b) as Hb. rewrite H in Ha. congruence.
Qed.

(** The wire format: a zero flag, the length in four bytes, the message. *)
Definition be32 (n : Z) : bytes :=
  [byte_of (n / 2 ^ 24); byte_of (n / 2 ^ 16); byte_of (n / 2 ^ 8); byte_of n].

Definition encode (m : bytes) : bytes := Byte.x00 :: be32 (Z.of_nat (length m)) ++ m.

Lemma push_byte_add l b : (0 <= l < 2 ^ 24 -> 0 <= b < 256 -> push_byte l b = 256 * l + b)%Z.
Proof.
  intros Hl Hb. unfold push_byte, wrap_u32. rewrite Z.shiftl_mul_pow2 by lia.
  rewrite Z.mod_small by lia.
  pose proof (Z.add_lor_land (l * 2 ^ 8) b) as Hadd.
  enough (Z.land (l * 2 ^ 8) b = 0%Z) by lia.
  apply Z.bits_inj'. intros n Hn. rewrite Z.land_spec, Z.bits_0.
  destruct (Z.ltb_spec n 8).
  - rewrite Z.mul_pow2_bits_low by lia. done.
  - rewrite (Z.bits_above_log2 b); [by rewrite andb_false_r|lia|].
    destruct (Z.eq_dec b 0%Z) as [->|]; [simpl; lia|]. apply Z.log2_lt_pow2; [lia|].
    apply Z.lt_le_trans with (2 ^ 8)%Z; [lia|]. apply Z.pow_le_mono_r; lia.
Qed.

Definition be_value (a b c d : Byte.byte) : Z :=
  (2 ^ 24 * byte_val a + 2 ^ 16 * byte_val b + 2 ^ 8 * byte_val c + byte_val d)%Z.

Lemma push_bytes a b c d :
  push_byte (push_byte (push_byte (byte_val a) (byte_val b)) (byte_val c)) (byte_val d) = be_value a b c d.
Proof.
  pose proof (byte_val_range a). pose proof (byte_val_range b).
  pose proof (byte_val_range c). pose proof (byte_val_range d).
  unfold be_value. rewrite (push_byte_add (byte_val a)) by lia.
  rewrite (push_byte_add (256 * byte_val a + byte_val b)) by lia. rewrite push_byte_add by lia. lia.
Qed.

Lemma be_value_be32 n : (0 <= n < 2 ^ 32)%Z ->
  be_value (byte_of (n / 2 ^ 24)) (byte_of (n / 2 ^ 16)) (byte_of (n / 2 ^ 8)) (byte_of n) = n.
Proof.
  intros Hn. unfold be_value. rewrite !byte_val_of.
  rewrite (Z.mod_small (n / 2 ^ 24)) by (split; [apply Z.div_pos; lia|apply Z.div_lt_upper_bound; lia]).
  pose proof (Z.div_mod n 256 ltac:(lia)) as H1.
  pose proof (Z.div_mod (n / 256) 256 ltac:(lia)) as H2.
  pose proof (Z.div_mod (n / 256 / 256) 256 ltac:(lia)) as H3.
  replace (n / 2 ^ 24)%Z with (n / 256 / 256 / 256)%Z by (rewrite !Z.div_div by done; done).
  replace (n / 2 ^ 16)%Z with (n / 256 / 256)%Z by (rewrite !Z.div_div by done; done).
  change (2 ^ 8)%Z with 256%Z. lia.
Qed.

Lemma parse_bytes a b c d e m :
  parseGRPCMessage (a :: b :: c :: d :: e :: m) =
  if decide (0 < byte_val a)%Z then Panic "Message is compressed. Not currently supported."
  else if decide (be_value b c d e <> wrap_u32 (Z.of_nat (length m))) then Panic "Message length mismatch."
  else Ret {| compressedFlag := byte_val a; messageLength := be_value b c d e; msg_message := m |}.
Proof. unfold parseGRPCMessage. cbn. by rewrite push_bytes. Qed.

Lemma wrap_u32_small n : (0 <= n < 2 ^ 32)%Z -> wrap_u32 n = n.
Proof. intros H. unfold wrap_u32. by apply Z.mod_small. Qed.

(** The first five bytes of an encoding as variables. *)
Lemma parse_encode m rest : (Z.of_nat (length m) < 2 ^ 32)%Z ->
  parseGRPCMessage (encode m ++ rest) =
  if decide (Z.of_nat (length m) <> wrap_u32 (Z.of_nat (length (m ++ rest))))
  then Panic "Message length mismatch."
  else Ret {| compressedFlag := 0; messageLength := Z.of_nat (length m); msg_message := m ++ rest |}.
Proof.
  intros Hm. unfold encode, be32. cbn [app]. rewrite parse_bytes, be_value_be32 by lia. done.
Qed.

Lemma be_value_inj a b c d a' b' c' d' :
  be_value a b c d = be_value a' b' c' d' -> a = a' /\ b = b' /\ c = c' /\ d = d'.
Proof.
  unfold be_value. intros H.
  pose proof (byte_val_range a). pose proof (byte_val_range b). pose proof (byte_val_range c).
  pose proof (byte_val_range d). pose proof (byte_val_range a'). pose proof (byte_val_range b').
  pose proof (byte_val_range c'). pose proof (byte_val_range d').
  split_and!; apply byte_val_inj; lia.
Qed.

(** C32: [parseGRPCMessage] inverts the wire format: it returns every message of
    less than 4 GiB from its encoding, and a frame it accepts is the encoding of
    the message it returns. *)
Theorem parseGRPCMessage_roundtrip (m frame : bytes) (msg : gRPCMessage) :
  (Z.of_nat (length m) < 2 ^ 32)%Z -> (Z.of_nat (length frame) < 2 ^ 32)%Z ->
  parseGRPCMessage (encode m)
    = Ret {| compressedFlag := 0; messageLength := Z.of_nat (length m); msg_message := m |} /\
  (parseGRPCMessage frame = Ret msg -> frame = encode (msg_message msg) /\ compressedFlag msg = 0%Z).
Proof.
  intros Hm Hf. split.
  - rewrite <- (app_nil_r (encode m)), parse_encode by done. rewrite app_nil_r, wrap_u32_small by lia.
    by rewrite decide_False by (intros []; done).
  - destruct frame as [|a [|b [|c [|d [|e r]]]]]; try discriminate. rewrite parse_bytes.
    case_decide as Hflag; [discriminate|]. case_decide as Hlen; [discriminate|]. intros [= <-]. cbn.
    pose proof (byte_val_range a).
    assert (byte_val a = 0%Z) as Ha by lia. split; [|done].
    assert (a = Byte.x00) as -> by (apply byte_val_inj; rewrite Ha; done).
    cbn [length] in Hf. rewrite wrap_u32_small in Hlen by lia.
    destruct (Z.eq_dec (be_value b c d e) (Z.of_nat (length r))) as [Hv|]; [|done].
    rewrite <- (be_value_be32 (Z.of_nat (length r))) in Hv by lia.
    apply be_value_inj in Hv as (-> & -> & -> & ->). done.
Qed.

Lemma parseGRPCMessage_roundtrip_witness :
  parseGRPCMessage (encode [Byte.x01; Byte.x02])
    = Ret {| compressedFlag := 0; messageLength := 2; msg_message := [Byte.x01; Byte.x02] |}.
Proof.
  apply (parseGRPCMessage_roundtrip [Byte.x01; Byte.x02] [] {| compressedFlag := 0; messageLength := 0; msg_message := [] |});
    simpl; lia.
Defined.

(** ** The structs of a call *)

(** The type of the answer to a request. *)
Definition response_of (s : csi_struct) : csi_struct :=
  match s with
  | GetPluginInfoRequest => GetPluginInfoResponse
  | GetPluginCapabilitiesRequest => GetPluginCapabilitiesResponse
  | ProbeRequest => ProbeResponse
  | CreateVolumeRequest => CreateVolumeResponse
  | DeleteVolumeRequest => DeleteVolumeResponse
  | ControllerPublishVolumeRequest => ControllerPublishVolumeResponse
  | ControllerUnpublishVolumeRequest => ControllerUnpublishVolumeResponse
  | ValidateVolumeCapabilitiesRequest => ValidateVolumeCapabilitiesResponse
  | ListVolumesRequest => ListVolumesResponse
  | GetCapacityRequest => GetCapacityResponse
  | ControllerGetCapabilitiesRequest => ControllerGetCapabilitiesResponse
  | CreateSnapshotRequest => CreateSnapshotResponse
  | DeleteSnapshotRequest => DeleteSnapshotResponse
  | ListSnapshotsRequest => ListSnapshotsResponse
  | ControllerExpandVolumeRequest => ControllerExpandVolumeResponse
  | ControllerGetVolumeRequest => ControllerGetVolumeResponse
  | NodeStageVolumeRequest => NodeStageVolumeResponse
  | NodeUnstageVolumeRequest => NodeUnstageVolumeResponse
  | NodePublishVolumeRequest => NodePublishVolumeResponse
  | NodeUnpublishVolumeRequest => NodeUnpublishVolumeResponse
  | NodeGetVolumeStatsRequest => NodeGetVolumeStatsResponse
  | NodeExpandVolumeRequest => NodeExpandVolumeResponse
  | NodeGetCapabilitiesRequest => NodeGetCapabilitiesResponse
  | NodeGetInfoRequest => NodeGetInfoResponse
  | _ => s
  end.

(** The two tables list the same calls: the struct of the response is the one
    that belongs to the struct of the request. *)
Lemma csi_tables_agree service rpc :
  csiResponseStruct service rpc = response_of <$> csiRequestStruct service rpc.
Proof.
  unfold csiResponseStruct, csiRequestStruct. cbn [switch].
  repeat case_decide; try done; cbn; repeat case_decide; done.
Qed.

(** ** Directions of a stream *)

(** A request has data frames only after its headers, a response ends with
    headers. *)
Lemma request_not_response strm : isGRPCRequest strm = true -> isGRPCResponse strm = false.
Proof.
  unfold isGRPCRequest, isGRPCResponse. destruct (st_frames strm) as [|f0 [|f1 [|f2 rest]]]; try done.
  intros H. apply andb_true_iff in H as [H _]. apply andb_true_iff in H as [_ H].
  assert (forall f l, forallb (is_type FrameData) (f :: l) = true -> data_then_headers (f :: l) = false) as Hd.
  { intros f l. revert f. induction l as [|f' l IH]; intros f Hall.
    - simpl in *. rewrite andb_true_r in Hall. unfold is_type in *.
      apply bool_decide_eq_true in Hall. rewrite bool_decide_eq_false, Hall. done.
    - cbn [forallb] in Hall. apply andb_true_iff in Hall as [_ Hall].
      change (is_type FrameData f && data_then_headers (f' :: l) = false).
      rewrite IH by done. apply andb_false_r. }
  rewrite Hd by done. by rewrite andb_false_r.
Qed.

Section directions.
Context {E : CsiEnv}.

(** The same connection with the names of the hosts exchanged. *)
Definition flip_streams (s : rawStreams) : rawStreams :=
  {| aIP := bIP s; bIP := aIP s; aPort := bPort s; bPort := aPort s; ab := ba s; ba := ab s |}.

(** Which of the two hosts comes first, which depends on the order of a map,
    makes no difference: the call found in a pair of streams, its client
    included, is the same when the directions are exchanged. *)
Theorem parse_sid_symmetric (streams : rawStreams) (rpcs : list CsiRPC) (sid : N) :
  parse_sid (flip_streams streams) rpcs sid = parse_sid streams rpcs sid.
Proof.
  unfold parse_sid, parse_pair. cbn. destruct (ab streams !! sid) as [x|], (ba streams !! sid) as [y|]; try done.
  destruct (isGRPCRequest x) eqn:Hx, (isGRPCRequest y) eqn:Hy; cbn [andb]; try done.
  by rewrite (request_not_response x), (request_not_response y).
Qed.
End directions.

(** ** Paths *)

Lemma last_slash_none i s split : contains "/" s = false -> last_slash i s split = split.
Proof.
  revert i split. induction s as [|c s IH]; intros i split; [done|]. cbn [contains last_slash]. intros H.
  apply orb_false_iff in H as [H1 H2]. rewrite decide_False; [by apply IH|].
  intros ->. cbn in H1. by destruct s.
Qed.

Lemma last_slash_app i a r split :
  contains "/" r = false -> last_slash i (a +:+ "/" +:+ r) split = Some (i + String.length a)%nat.
Proof.
  intros Hr. revert i split. induction a as [|c a IH]; intros i split.
  - change (EmptyString +:+ "/" +:+ r) with (String "/" r). cbn [last_slash String.length].
    rewrite decide_True by done. rewrite last_slash_none by done. by rewrite Nat.add_0_r.
  - change (String c a +:+ "/" +:+ r) with (String c (a +:+ "/" +:+ r)). cbn [last_slash String.length].
    rewrite IH. f_equal. lia.
Qed.

Lemma length_append a b : String.length (a +:+ b) = (String.length a + String.length b)%nat.
Proof. induction a as [|c a IH]; simpl; [done|]. by f_equal. Qed.

Lemma substring_all s : String.substring 0 (String.length s) s = s.
Proof. induction s as [|c s IH]; simpl; [done|]. by f_equal. Qed.

Lemma substring_skip a b n : String.substring (String.length a) n (a +:+ b) = String.substring 0 n b.
Proof. induction a as [|c a IH]; [done|]. exact IH. Qed.

Lemma substring_prefix a b : String.substring 0 (String.length a) (a +:+ b) = a.
Proof. induction a as [|c a IH]; simpl; [by destruct b|]. f_equal. exact IH. Qed.

(** The path of a call is split at its last slash after the package name
    [csi.v1]; a path of fewer than eight bytes, an absent one included, makes
    the analyser panic. *)
Theorem parseRPCPath_splits (service rpc path : string) :
  contains "/" rpc = false -> (String.length path < 8)%nat ->
  parseRPCPath ("/csi.v1." +:+ service +:+ "/" +:+ rpc) = Ret (service, rpc) /\
  parseRPCPath path = Panic "slice bounds out of range".
Proof.
  intros Hr Hp. split; [|unfold parseRPCPath; by rewrite decide_True].
  unfold parseRPCPath. rewrite decide_False by (rewrite length_append; cbn; lia).
  set (p := service +:+ "/" +:+ rpc).
  assert (substr 8 (String.length ("/csi.v1." +:+ p)) ("/csi.v1." +:+ p) = p) as ->.
  { unfold substr. rewrite length_append. change 8%nat with (String.length "/csi.v1.") at 1.
    rewrite substring_skip. replace (_ - 8)%nat with (String.length p) by (cbn; lia). apply substring_all. }
  unfold p. rewrite last_slash_app by done. cbn [Nat.add]. unfold substr. f_equal. f_equal.
  - rewrite Nat.sub_0_r. apply substring_prefix.
  - replace (service +:+ "/" +:+ rpc) with ((service +:+ "/") +:+ rpc) by (by rewrite append_assoc).
    replace (S (String.length service)) with (String.length (service +:+ "/")) by (rewrite length_append; cbn; lia).
    rewrite substring_skip, (length_append (service +:+ "/")).
    replace (_ - _)%nat with (String.length rpc) by lia. apply substring_all.
Qed.

Lemma parseRPCPath_splits_witness :
  parseRPCPath "/csi.v1.Identity/Probe" = Ret ("Identity", "Probe") /\
  parseRPCPath "/health" = Panic "slice bounds out of range".
Proof. apply (parseRPCPath_splits "Identity" "Probe" "/health"); [done|]. cbn. lia. Defined.
