(* ===== verification/CsiStreamsThm.v ===== *)
(** * Properties of packets and streams (CsiStreams.v) *)
From S2P Require Import Prelude GoStrings GoTime CsiTypes CsiStreams.

Section theorems.
Context {E : CsiEnv}.

(** ** Grouping the packets *)

(** The frames a packet contributes to the entry [id]. *)
Definition frames_for (id : string) (p : packet) : option frames :=
  match parsePacket p with
  | Some (si, di, sp, dp, fr) => if decide (srcdstIdentifier si di sp dp = id) then Some fr else None
  | None => None
  end.

(** [None] instead of the empty list: there is no empty entry. *)
Definition nonempty {A} (l : list A) : option (list A) := match l with [] => None | _ => Some l end.

Lemma add_packet_frames rf p id l :
  rf_frames <$> rf !! id = nonempty l ->
  rf_frames <$> add_packet rf p !! id = nonempty (l ++ omap (frames_for id) [p]).
Proof.
  intros H. unfold add_packet, frames_for. cbn.
  destruct (parsePacket p) as [[[[[si di] sp] dp] fr]|]; [|by rewrite app_nil_r].
  destruct (decide (srcdstIdentifier si di sp dp = id)) as [->|Hne].
  - destruct (rf !! id) as [x|]; rewrite lookup_insert; rewrite decide_True by done; cbn in *.
    + destruct l as [|f l]; [discriminate H|]. injection H as ->. done.
    + by destruct l.
  - rewrite app_nil_r. destruct (rf !! srcdstIdentifier si di sp dp) as [x|]; by rewrite lookup_insert_ne.
Qed.

(** C34: [parsePackets] keeps, for every source and destination, the payloads of
    exactly the TCP packets with that identifier, in the order of the capture. *)
Theorem parsePackets_groups (packets : list packet) (id : string) :
  rf_frames <$> parsePackets packets !! id = nonempty (omap (frames_for id) packets).
Proof.
  unfold parsePackets. rewrite <- (app_nil_l (omap _ packets)).
  assert (rf_frames <$> (∅ : gmap string rawFrames) !! id = nonempty []) as H by by rewrite lookup_empty.
  revert H. generalize (∅ : gmap string rawFrames) ([] : list frames). induction packets as [|p packets IH]; intros rf l H.
  - cbn. by rewrite app_nil_r.
  - cbn [foldl]. rewrite (IH _ (l ++ omap (frames_for id) [p])) by by apply add_packet_frames.
    f_equal. rewrite <- app_assoc. f_equal. cbn. by destruct (frames_for id p).
Qed.

Definition tcp_packet (si di : IP) (sp dp : Z) (payload : bytes) (t : time) : packet :=
  {| pk_ipv4 := Some (si, di); pk_tcp := Some (sp, dp); pk_payload := Some payload; pk_timestamp := t |}.

(** The identifier runs the addresses together without a separator, so
    different connections can share one: the packets from 1.1.1.1 to 12.1.1.1
    and from 1.1.1.11 to 2.1.1.1 end up in one entry, as if the first pair of
    hosts had sent them all. *)
Theorem srcdstIdentifier_collides (sp dp : Z) (b1 b2 : bytes) (t1 t2 : time) :
  parsePackets [tcp_packet (1, 1, 1, 1)%Z (12, 1, 1, 1)%Z sp dp b1 t1;
                tcp_packet (1, 1, 1, 11)%Z (2, 1, 1, 1)%Z sp dp b2 t2]
  = {[srcdstIdentifier (1, 1, 1, 1)%Z (12, 1, 1, 1)%Z sp dp :=
       {| srcIP := (1, 1, 1, 1)%Z; dstIP := (12, 1, 1, 1)%Z; srcPort := sp; dstPort := dp;
          rf_frames := [{| fr_bytes := b1; fr_captureTimestamp := t1 |};
                        {| fr_bytes := b2; fr_captureTimestamp := t2 |}] |}]}.
Proof.
  unfold parsePackets, add_packet. cbn [foldl parsePacket tcp_packet pk_ipv4 pk_tcp pk_payload pk_timestamp].
  change (srcdstIdentifier (1, 1, 1, 11)%Z (2, 1, 1, 1)%Z sp dp)
    with (srcdstIdentifier (1, 1, 1, 1)%Z (12, 1, 1, 1)%Z sp dp).
  rewrite lookup_empty, lookup_insert, decide_True by done. by rewrite insert_insert, decide_True by done.
Qed.

(** ** Streams *)

(** While a header block is open its frame exists. *)
Definition wf_info (si : streaminfo) : Prop :=
  headersEnded si = true \/
  (0 <= headersIndex si < Z.of_nat (length (st_frames (si_stream si))))%Z.

(** The only ways the analyser is stopped while it reads frames. *)
Definition stopped {A} (P : A -> Prop) (o : outcome A) : Prop :=
  match o with
  | Ret a => P a
  | Panic why => why = "DecodeFull" \/ why = "ReadFrame"
  | Blocked => False
  end.

Lemma stopped_bind {A B} (P : A -> Prop) (Q : B -> Prop) (m : outcome A) (f : A -> outcome B) :
  stopped P m -> (forall a, P a -> stopped Q (f a)) -> stopped Q (m ≫= f).
Proof. destruct m; cbn; auto. Qed.

Lemma stopped_foldM {A S} (P : S -> Prop) (f : S -> A -> outcome S) l s :
  (forall s x, P s -> stopped P (f s x)) -> P s -> stopped P (foldM f s l).
Proof.
  intros Hf. revert s. induction l as [|x l IH]; intros s Hs; [done|]. cbn.
  eapply stopped_bind; [by apply Hf|done].
Qed.

Definition index_ok (si : streaminfo) : Prop :=
  (0 <= headersIndex si < Z.of_nat (length (st_frames (si_stream si))))%Z.

Lemma update_headers_ok f si :
  index_ok si -> (forall fr, exists fr', f fr = Ret fr') ->
  stopped (fun si' => index_ok si' /\ headersEnded si' = headersEnded si) (update_headers f si).
Proof.
  intros Hi Hf. unfold index_ok in Hi. unfold update_headers. rewrite decide_False by lia.
  destruct (lookup_lt_is_Some_2 (st_frames (si_stream si)) (Z.to_nat (headersIndex si)) ltac:(lia)) as [fr Hfr].
  rewrite Hfr. destruct (Hf fr) as [fr' ->]. cbn. split; [|done]. unfold index_ok. cbn. by rewrite length_insert.
Qed.

Lemma decode_headers_ok dec si :
  index_ok si -> stopped (fun r => wf_info (snd r)) (decode_headers dec si).
Proof.
  intros Hi. unfold decode_headers. destruct (headersEnded si) eqn:He; [|by right].
  pose proof Hi as Hi'. unfold index_ok in Hi'. rewrite decide_False by lia.
  destruct (lookup_lt_is_Some_2 (st_frames (si_stream si)) (Z.to_nat (headersIndex si)) ltac:(lia)) as [fr Hfr].
  rewrite Hfr. destruct (DecodeFull dec (body fr)) as [[x dec']|]; [|by left].
  eapply stopped_bind; [apply update_headers_ok; eauto|]. intros si' [_ H]. cbn. left. congruence.
Qed.

Lemma wf_timestamp t si : wf_info si -> wf_info (set_timestamp t si).
Proof. done. Qed.

Lemma info_step_ok t cur dec si :
  wf_info si -> stopped (fun r => wf_info (snd r)) (info_step t cur dec si).
Proof.
  intros Hw. unfold info_step. set (new := Build_frame _ _ _).
  assert (index_ok (set_index (set_ended (h2_HeadersEnded cur) (append_frame new si)))) as Hi.
  { unfold index_ok. cbn. rewrite length_app. cbn. lia. }
  destruct (Type_ _).
  - cbn. destruct Hw as [Hw|Hw]; [by left|right]. cbn. rewrite length_app. lia.
  - eapply stopped_bind; [by apply decode_headers_ok|]. by intros [dec' si'].
  - eapply stopped_bind; [by apply decode_headers_ok|]. by intros [dec' si'].
  - destruct (headersEnded si) eqn:He; [by left|]. cbn [negb].
    destruct Hw as [Hw|Hw]; [congruence|].
    eapply stopped_bind; [apply update_headers_ok; eauto|]. intros si' [Hi' _]. by apply decode_headers_ok.
  - done.
Qed.

Definition wf_infos (s : infos) : Prop := map_Forall (fun _ si => wf_info si) (snd s).

Lemma frame_step_ok t s cur : wf_infos s -> stopped wf_infos (frame_step t s cur).
Proof.
  destruct s as [dec m]. intros Hs. unfold frame_step.
  assert (wf_info (default new_info (m !! StreamID (h2_header cur)))) as Hw.
  { destruct (m !! _) eqn:Em; [|by left]. by apply (Hs _ _ Em). }
  eapply stopped_bind; [by apply info_step_ok|]. intros [dec' si] Hsi. cbn.
  unfold wf_infos. cbn. by apply map_Forall_insert_2.
Qed.

Lemma packet_step_ok s pkt : wf_infos s -> stopped wf_infos (packet_step s pkt).
Proof.
  intros Hs. unfold packet_step. destruct (read_frames _) as [fs eof].
  eapply stopped_bind; [by apply stopped_foldM; [apply frame_step_ok|]|]. intros s' Hs'.
  destruct eof; [done|by right].
Qed.

(** C33: whatever the packets hold, [framesToStreams] never indexes a slice out
    of range: it stops only at an error of the framer or of the header decoder,
    and otherwise returns streams with at least one frame each. *)
Theorem framesToStreams_safe (allFrames : list frames) :
  stopped (map_Forall (fun _ strm => st_frames strm <> [])) (framesToStreams allFrames).
Proof.
  unfold framesToStreams. eapply stopped_bind.
  - apply (stopped_foldM wf_infos); [apply packet_step_ok|]. apply map_Forall_empty.
  - intros s _. cbn. intros sid strm H. unfold kept_streams in H. rewrite lookup_omap in H.
    destruct (snd s !! sid) as [si|]; [|discriminate H]. cbn in H. unfold kept in H.
    destruct (st_frames (si_stream si)) eqn:Ef; [discriminate H|]. injection H as <-. by rewrite Ef.
Qed.
End theorems.
