(* ===== verification/CsiPairsThm.v ===== *)
(** * Pairing the directions of a connection (extractStreams in CsiStreams.v) *)
From S2P Require Import Prelude GoStrings GoTime CsiTypes CsiStreams.

Section pairs.
Context {E : CsiEnv} (rfs : gmap string rawFrames).

(** The entry of the opposite direction points back: so it is when no two
    connections share an identifier. *)
Definition symmetric : Prop :=
  forall k rf x, rfs !! k = Some rf -> rfs !! opposite rf = Some x -> opposite x = k.

(** The result for the entries [a] and [b]. *)
Definition paired (p : string * string) (rs : rawStreams) : Prop :=
  exists rf x, rfs !! fst p = Some rf /\ rfs !! snd p = Some x /\ opposite rf = snd p /\ fst p <> snd p /\
    aIP rs = srcIP rf /\ bIP rs = dstIP rf /\ aPort rs = srcPort rf /\ bPort rs = dstPort rf /\
    framesToStreams (rf_frames rf) = Ret (ab rs) /\ framesToStreams (rf_frames x) = Ret (ba rs).

Definition keys (ps : list (string * string)) : list string := ps ≫= (fun p => [fst p; snd p]).

(** An entry without an opposite one. *)
Definition single (k : string) : Prop :=
  forall rf, rfs !! k = Some rf -> opposite rf = k \/ rfs !! opposite rf = None.

Record inv (s : gmap string rawFrames * list rawStreams) (ps : list (string * string)) : Prop := Inv {
  inv_sub : fst s ⊆ rfs;
  inv_paired : Forall2 paired ps (snd s);
  inv_nodup : NoDup (keys ps);
  inv_used : forall k, k ∈ keys ps -> fst s !! k = None;
  inv_gone : forall k rf, rfs !! k = Some rf -> fst s !! k = None -> k ∈ keys ps \/ single k }.

Lemma keys_snoc ps a b : keys (ps ++ [(a, b)]) = keys ps ++ [a; b].
Proof. unfold keys. by rewrite bind_app. Qed.

Lemma keys_partner ps l k rf :
  symmetric -> Forall2 paired ps l -> k ∈ keys ps -> rfs !! k = Some rf -> opposite rf ∈ keys ps.
Proof.
  intros Hsym HF Hk Hrf. induction HF as [|[a b] rs ps l Hp _ IH]; [by apply not_elem_of_nil in Hk|].
  change (keys ((a, b) :: ps)) with (a :: b :: keys ps) in *.
  destruct Hp as (ra & rb & Ha & Hb & Hop & _). cbn in *.
  apply elem_of_cons in Hk as [->|Hk]; [|apply elem_of_cons in Hk as [->|Hk]].
  - assert (rf = ra) as -> by congruence. rewrite Hop. set_solver.
  - assert (rf = rb) as -> by congruence. rewrite <- Hop in Hb. rewrite (Hsym _ _ _ Ha Hb). set_solver.
  - do 2 right. by apply IH.
Qed.

Lemma inv_init : inv (rfs, []) [].
Proof.
  split; cbn; [done|constructor|constructor| |]; [by intros k Hk; apply not_elem_of_nil in Hk|].
  intros k rf H1 H2. congruence.
Qed.

(** An entry whose opposite is not left has none. *)
Lemma inv_single s ps k rf :
  symmetric -> inv s ps -> fst s !! k = Some rf -> delete k (fst s) !! opposite rf = None -> single k.
Proof.
  intros Hsym [Hsub HF Hnd Hused Hgone] Hk Hno rf' Hrf'.
  assert (rfs !! k = Some rf) as Hk' by by eapply lookup_weaken. assert (rf' = rf) as -> by congruence.
  destruct (decide (opposite rf = k)) as [|Hne]; [by left|right].
  rewrite lookup_delete_ne in Hno by done.
  destruct (rfs !! opposite rf) as [x|] eqn:Hx; [exfalso|done].
  pose proof (Hsym _ _ _ Hk' Hx) as Hback.
  destruct (Hgone _ _ Hx Hno) as [Hin|Hsg].
  - pose proof (keys_partner _ _ _ _ Hsym HF Hin Hx) as Hp. rewrite Hback in Hp.
    apply Hused in Hp. congruence.
  - destruct (Hsg _ Hx) as [He|He]; congruence.
Qed.

Lemma extract_step_inv s ps abID s' :
  symmetric -> inv s ps -> extract_step s abID = Ret s' ->
  fst s' !! abID = None /\ exists ps', inv s' ps'.
Proof.
  intros Hsym Hinv Hstep. pose proof Hinv as [Hsub HF Hnd Hused Hgone]. destruct s as [m l]. unfold extract_step in Hstep.
  cbn [fst snd] in *. destruct (m !! abID) as [rf|] eqn:Hab; [|injection Hstep as <-; eauto].
  assert (rfs !! abID = Some rf) as Hab' by by eapply lookup_weaken.
  destruct (delete abID m !! opposite rf) as [x|] eqn:Hba.
  - apply outcome_bind_ret in Hstep as (sab & Hsab & Hstep).
    apply outcome_bind_ret in Hstep as (sba & Hsba & Hstep). injection Hstep as <-.
    assert (opposite rf <> abID) as Hne by (intros He; rewrite He, lookup_delete_eq in Hba; discriminate).
    rewrite lookup_delete_ne in Hba by done.
    assert (rfs !! opposite rf = Some x) as Hx by by eapply lookup_weaken.
    split; cbn; [by rewrite lookup_delete_ne, lookup_delete_eq|].
    exists (ps ++ [(abID, opposite rf)]). split; cbn [fst snd]; rewrite ?keys_snoc.
    + etrans; [apply delete_subseteq|]. etrans; [apply delete_subseteq|done].
    + apply Forall2_app; [done|]. constructor; [|constructor]. exists rf, x. cbn. by split_and!.
    + apply list.NoDup_app. split_and!; [done| |].
      * intros k Hk Hk'. apply Hused in Hk. apply elem_of_cons in Hk' as [->|Hk']; [congruence|].
        apply list_elem_of_singleton in Hk'. subst. congruence.
      * constructor; [by rewrite list_elem_of_singleton|apply NoDup_singleton].
    + intros k Hk. apply elem_of_app in Hk as [Hk|Hk].
      * apply Hused in Hk. by rewrite !lookup_delete_None; auto.
      * apply elem_of_cons in Hk as [->|Hk]; [by rewrite lookup_delete_ne, lookup_delete_eq|].
        apply list_elem_of_singleton in Hk as ->. apply lookup_delete_eq.
    + intros k rk Hk Hnone. destruct (decide (k = abID)) as [->|]; [left; set_solver|].
      destruct (decide (k = opposite rf)) as [->|]; [left; set_solver|].
      rewrite !lookup_delete_ne in Hnone by done. destruct (Hgone _ _ Hk Hnone); [left; set_solver|by right].
  - injection Hstep as <-. split; cbn; [apply lookup_delete_eq|]. exists ps. split; cbn [fst snd]; try done.
    + etrans; [apply delete_subseteq|done].
    + intros k Hk. apply lookup_delete_None. auto.
    + intros k rk Hk Hnone. destruct (decide (k = abID)) as [->|].
      * right. eapply (inv_single (m, l)); eauto.
      * rewrite lookup_delete_ne in Hnone by done. eauto.
Qed.

Lemma extract_fold order s ps s' :
  symmetric -> inv s ps -> foldM extract_step s order = Ret s' ->
  exists ps', inv s' ps' /\ fst s' ⊆ fst s /\ forall k, k ∈ order -> fst s' !! k = None.
Proof.
  intros Hsym. revert s ps. induction order as [|k order IH]; intros s ps Hinv Hf.
  - injection Hf as <-. exists ps. split_and!; [done|done|]. intros k Hk. by apply not_elem_of_nil in Hk.
  - cbn in Hf. apply outcome_bind_ret in Hf as (s1 & H1 & Hf).
    destruct (extract_step_inv _ _ _ _ Hsym Hinv H1) as (Hk & ps1 & Hinv1).
    destruct (IH _ _ Hinv1 Hf) as (ps2 & Hinv2 & Hsub & Hgone). exists ps2. split_and!; [done| |].
    + etrans; [exact Hsub|]. clear -H1. destruct s as [m l]. unfold extract_step in H1. cbn in *.
      destruct (m !! k) as [rf|]; [|by injection H1 as <-].
      destruct (delete k m !! opposite rf) as [x|]; [|injection H1 as <-; apply delete_subseteq].
      apply outcome_bind_ret in H1 as (? & _ & H1). apply outcome_bind_ret in H1 as (? & _ & H1).
      injection H1 as <-. cbn. etrans; apply delete_subseteq.
    + intros k' Hk'. apply elem_of_cons in Hk' as [->|Hk']; [|auto].
      destruct (fst s' !! k) eqn:E2; [|done]. eapply lookup_weaken in E2; [|exact Hsub]. congruence.
Qed.

(** C31: for every connection of which both directions were captured,
    [extractStreams] returns exactly one entry, made of the streams of the two
    directions, and nothing else; in whatever order the map is visited while
    entries are deleted from it. *)
Theorem extractStreams_pairs (order : list string) (l : list rawStreams) :
  symmetric -> (forall k, is_Some (rfs !! k) -> k ∈ order) -> extractStreams order rfs = Ret l ->
  exists ps, Forall2 paired ps l /\ NoDup (keys ps) /\
    forall k rf, rfs !! k = Some rf ->
      (k ∈ keys ps <-> opposite rf <> k /\ is_Some (rfs !! opposite rf)).
Proof.
  intros Hsym Hall H. unfold extractStreams in H. apply outcome_bind_ret in H as ([m l'] & H & Hl).
  injection Hl as ->. destruct (extract_fold _ _ _ _ Hsym inv_init H) as (ps & [Hsub HF Hnd Hused Hgone] & _ & Hnone).
  exists ps. split_and!; [done|done|]. intros k rf Hk. cbn [fst snd] in *. split.
  - intros Hin. clear -HF Hin Hk Hsym. induction HF as [|[a b] rs ps l Hp _ IH]; [by apply not_elem_of_nil in Hin|].
    change (keys ((a, b) :: ps)) with (a :: b :: keys ps) in *.
    destruct Hp as (ra & rb & Ha & Hb & Hop & Hne & _). cbn in *.
    apply elem_of_cons in Hin as [->|Hin]; [|apply elem_of_cons in Hin as [->|Hin]; [|by apply IH]].
    + assert (rf = ra) as -> by congruence. rewrite Hop. eauto.
    + assert (rf = rb) as -> by congruence. rewrite <- Hop in Hb.
      rewrite (Hsym _ _ _ Ha Hb). rewrite Hop in *. eauto.
  - intros [Hne [x Hx]]. destruct (Hgone _ _ Hk (Hnone k (Hall k (mk_is_Some _ _ Hk)))) as [|Hs]; [done|].
    destruct (Hs _ Hk) as [|Hs']; congruence.
Qed.
End pairs.

(** ** Witness: one connection between two hosts *)
Definition host_a : IP := (10, 0, 0, 1)%Z.
Definition host_b : IP := (10, 0, 0, 2)%Z.

(** A capture without HTTP/2 frames; ports are printed as numbers. *)
Definition blank_env : CsiEnv :=
  {| port_string := itoa; ClientPreface := []; read_frames := fun _ => ([], true);
     decoder := unit; new_decoder := tt; DecodeFull := fun d _ => Some ([], d);
     message := bytes; Unmarshal := fun _ b => Some b |}.
#[local] Existing Instance blank_env.

Definition from_a : rawFrames :=
  {| srcIP := host_a; dstIP := host_b; srcPort := 4000; dstPort := 80; rf_frames := [] |}.
Definition from_b : rawFrames :=
  {| srcIP := host_b; dstIP := host_a; srcPort := 80; dstPort := 4000; rf_frames := [] |}.

Definition two_ways : gmap string rawFrames := {[opposite from_b := from_a; opposite from_a := from_b]}.

Lemma two_ways_cases k rf :
  two_ways !! k = Some rf -> k = opposite from_b /\ rf = from_a \/ k = opposite from_a /\ rf = from_b.
Proof.
  unfold two_ways. intros H. apply lookup_insert_Some in H as [[<- <-]|[_ H]]; [by left|right].
  apply lookup_singleton_Some in H as [<- <-]. done.
Qed.

Lemma extractStreams_pairs_witness :
  extractStreams [opposite from_a; opposite from_b] two_ways
    = Ret [{| aIP := host_b; bIP := host_a; aPort := 80; bPort := 4000; ab := ∅; ba := ∅ |}] /\
  exists ps, Forall2 (paired two_ways) ps
      [{| aIP := host_b; bIP := host_a; aPort := 80; bPort := 4000; ab := ∅; ba := ∅ |}] /\ NoDup (keys ps) /\
    forall k rf, two_ways !! k = Some rf ->
      (k ∈ keys ps <-> opposite rf <> k /\ is_Some (two_ways !! opposite rf)).
Proof.
  assert (extractStreams [opposite from_a; opposite from_b] two_ways
    = Ret [{| aIP := host_b; bIP := host_a; aPort := 80; bPort := 4000; ab := ∅; ba := ∅ |}]) as H
    by (vm_compute; reflexivity).
  split; [exact H|]. apply (extractStreams_pairs two_ways [opposite from_a; opposite from_b]); [| |exact H].
  - intros k rf x Hk Hx.
    apply two_ways_cases in Hk as [[-> ->]|[-> ->]]; apply two_ways_cases in Hx as [[He ->]|[He ->]];
      try done; vm_compute in He; discriminate He.
  - intros k [rf Hk]. apply two_ways_cases in Hk as [[-> _]|[-> _]]; set_solver.
Defined.
