(* ===== verification/CsiLogsThm.v ===== *)
(** * Properties of the log of calls (CsiGrpc.v, CsiLogs.v) *)
From stdpp Require Import sorting.
From S2P Require Import Prelude GoStrings GoTime CsiTypes CsiGrpc CsiStreams CsiLogs CsiThm.

Section theorems.
Context {E : CsiEnv}.

(** ** Messages in several data frames *)

Lemma parse_first_part (m b1 b2 : bytes) :
  (Z.of_nat (length m) < 2 ^ 32)%Z -> encode m = b1 ++ b2 -> (5 <= length b1)%nat -> b2 <> [] ->
  parseGRPCMessage b1 = Panic "Message length mismatch.".
Proof.
  intros Hm He H5 Hb2. destruct b1 as [|a [|b [|c [|d [|e m1]]]]]; try (simpl in H5; lia).
  unfold encode, be32 in He. injection He as <- <- <- <- <- ->.
  rewrite parse_bytes, be_value_be32 by lia. rewrite length_app in *.
  rewrite wrap_u32_small by lia. destruct b2 as [|x b2]; [done|].
  rewrite decide_False by done. rewrite decide_True; [done|]. cbn [length]. lia.
Qed.

Lemma request_frames req : isGRPCRequest req = true -> exists f0 d1 ds, st_frames req = f0 :: d1 :: ds.
Proof. unfold isGRPCRequest. destruct (st_frames req) as [|f0 [|d1 ds]]; try done. eauto. Qed.

Lemma response_frames resp : isGRPCResponse resp = true -> exists d, st_frames resp !! 1%nat = Some d.
Proof. unfold isGRPCResponse. destruct (st_frames resp) as [|f0 [|d1 ds]]; try done. by eexists. Qed.

(** [isGRPCRequest] lets a request have any number of data frames, but
    [parseGRPC] reads the first one only: a message that is split over two data
    frames ends the analyser. *)
Theorem split_message_is_fatal (req resp : stream) (ip : IP) (port : Z) f0 d1 d2 ds m service rpc :
  isGRPCRequest req = true -> isGRPCResponse resp = true ->
  st_frames req = f0 :: d1 :: d2 :: ds ->
  parseRPCPath (findField (headerFields f0) ":path") = Ret (service, rpc) ->
  encode m = body d1 ++ body d2 -> (Z.of_nat (length m) < 2 ^ 32)%Z ->
  (5 <= length (body d1))%nat -> body d2 <> [] ->
  parseGRPC req resp ip port = Panic "Message length mismatch.".
Proof.
  intros _ Hresp Hreq Hpath He Hm H5 Hb2. apply response_frames in Hresp as [r1 Hr1].
  unfold parseGRPC, frame_at. rewrite Hreq, Hr1. cbn -[parseRPCPath parseGRPCMessage]. rewrite Hpath. cbn -[parseGRPCMessage].
  unfold parseCSIRequest, parse_struct. by rewrite (parse_first_part m (body d1) (body d2)).
Qed.

(** ** The log *)

Definition decoded (r : CsiRPC) : Prop := is_Some (request r) /\ is_Some (response r).

Lemma parseGRPC_decoded req resp ip port r : parseGRPC req resp ip port = Ret (r, true) -> decoded r.
Proof.
  unfold parseGRPC. intros H.
  apply outcome_bind_ret in H as (f0 & _ & H). apply outcome_bind_ret in H as ([service rpc] & _ & H).
  apply outcome_bind_ret in H as (d1 & _ & H). apply outcome_bind_ret in H as (d2 & _ & H).
  apply outcome_bind_ret in H as (rq & _ & H). apply outcome_bind_ret in H as (rp & _ & H).
  injection H as <- H. unfold decoded. cbn. destruct rq, rp; try discriminate H. eauto.
Qed.

Lemma parse_pair_decoded streams x y l : parse_pair streams x y = Ret l -> Forall decoded l.
Proof.
  unfold parse_pair. intros H.
  assert (forall req resp ip port,
    ('(curRPC, ok) ← parseGRPC req resp ip port; Ret (if ok : bool then [curRPC] else [])) = Ret l ->
    Forall decoded l) as Hp.
  { intros req resp ip port Hl. apply outcome_bind_ret in Hl as ([r ok] & Hr & Hl). injection Hl as <-.
    destruct ok; [|constructor]. constructor; [by eapply parseGRPC_decoded|constructor]. }
  case_match; [by eapply Hp|]. case_match; [by eapply Hp|]. injection H as <-. constructor.
Qed.

Lemma parseRPCs_decoded order rawstreams l : parseRPCs order rawstreams = Ret l -> Forall decoded l.
Proof.
  unfold parseRPCs. apply (foldM_invariant (Forall decoded)); [|constructor].
  intros rpcs streams rpcs' _ Hrpcs. apply (foldM_invariant (Forall decoded)); [|done].
  intros l1 sid l2 _ Hl1 H. unfold parse_sid in H.
  repeat case_match; try (injection H as <-; done).
  apply outcome_bind_ret in H as (l3 & Hl3 & H). injection H as <-.
  apply Forall_app. split; [done|by eapply parse_pair_decoded].
Qed.

Definition log_of (r : CsiRPC) : CsiLog := fst (processRPC r).

Lemma extractLogs_map rpcs : extractLogs rpcs = log_of <$> rpcs.
Proof. unfold extractLogs. induction rpcs as [|r rpcs IH]; [done|]. cbn. by f_equal. Qed.

(** What [sort.Sort] does, whichever algorithm it uses. *)
Definition sorts (sort : list CsiRPC -> list CsiRPC) : Prop :=
  forall l, sort l ≡ₚ l /\ StronglySorted (fun a b => Less b a = false) (sort l).

Lemma sorted_logs l :
  StronglySorted (fun a b => Less b a = false) l ->
  StronglySorted (fun a b => (Timing_End a <= Timing_End b)%Z) (log_of <$> l).
Proof.
  induction 1 as [|r l _ IH Hr]; cbn; constructor; [done|].
  apply Forall_fmap. eapply Forall_impl; [|exact Hr]. intros r' Hlt. cbn.
  unfold Less, before in Hlt. by apply Z.ltb_ge in Hlt.
Qed.

(** C30: the log of a capture lists one entry per call that was found, ordered by
    the time of the response, and every entry has a decoded request and a
    decoded response. *)
Theorem PcapToLogs_sorted (ch : choices) (packets : list packet) (logs : list CsiLog) :
  sorts (sort_Sort ch) -> PcapToLogs ch (Some packets) = Ret logs ->
  StronglySorted (fun a b => (Timing_End a <= Timing_End b)%Z) logs /\
  Forall (fun log => is_Some (Log_Request log) /\ is_Some (Log_Response log)) logs /\
  exists rawstreams rpcs,
    extractStreams (range_ids ch (parsePackets packets)) (parsePackets packets) = Ret rawstreams /\
    parseRPCs (range_sids ch) rawstreams = Ret rpcs /\ logs ≡ₚ log_of <$> rpcs.
Proof.
  intros Hsort H. unfold PcapToLogs, parseCSIPcapFile in H.
  apply outcome_bind_ret in H as (sorted & Hs & H). injection H as <-.
  apply outcome_bind_ret in Hs as (rawstreams & Hraw & Hs).
  apply outcome_bind_ret in Hs as (rpcs & Hrpcs & Hs). injection Hs as <-.
  destruct (Hsort rpcs) as [Hperm Hsorted]. rewrite extractLogs_map. unfold sortRPCs. split_and!.
  - by apply sorted_logs.
  - apply Forall_fmap. rewrite Hperm. exact (parseRPCs_decoded _ _ _ Hrpcs).
  - exists rawstreams, rpcs. split_and!; [done|done|]. by rewrite Hperm.
Qed.
End theorems.

(** ** Witnesses: a capture of one call

    The payload [01] stands for the frames of a request, [02] for those of its
    response; header blocks are decoded by a table. *)
Definition ex_headers (b : bytes) : list HeaderField :=
  match b with
  | [Byte.x01] =>
      [{| hf_Name := ":method"; hf_Value := "POST" |}; {| hf_Name := ":scheme"; hf_Value := "http" |};
       {| hf_Name := "content-type"; hf_Value := "application/grpc" |};
       {| hf_Name := ":path"; hf_Value := "/csi.v1.Identity/Probe" |};
       {| hf_Name := ":authority"; hf_Value := "csi-sock" |}]
  | [Byte.x02] =>
      [{| hf_Name := ":status"; hf_Value := "200" |};
       {| hf_Name := "content-type"; hf_Value := "application/grpc" |}]
  | _ => []
  end.

Definition ex_h2 (t : FrameType) (payload : bytes) : h2frame :=
  {| h2_header := {| Type_ := t; Flags := 4; Length_ := Z.of_nat (length payload); StreamID := 1%N |};
     h2_payload := payload; h2_HeadersEnded := true |}.

Definition ex_read (b : bytes) : list h2frame * bool :=
  match b with
  | [Byte.x01] => ([ex_h2 FrameHeaders [Byte.x01]; ex_h2 FrameData (encode [])], true)
  | [Byte.x02] => ([ex_h2 FrameHeaders [Byte.x02]; ex_h2 FrameData (encode [Byte.x07]);
                    ex_h2 FrameHeaders [Byte.x03]], true)
  | _ => ([], true)
  end.

Definition csi_env : CsiEnv :=
  {| port_string := itoa; ClientPreface := [Byte.x50]; read_frames := ex_read;
     decoder := unit; new_decoder := tt; DecodeFull := fun d b => Some (ex_headers b, d);
     message := bytes; Unmarshal := fun _ b => Some b |}.
#[local] Existing Instance csi_env.

Definition not_later (a b : CsiRPC) : Prop := Less b a = false.
#[local] Instance not_later_dec a b : Decision (not_later a b).
Proof. unfold not_later. apply _. Defined.
#[local] Instance not_later_trans : Transitive not_later.
Proof. intros a b c. unfold not_later, Less, before. rewrite !Z.ltb_ge. lia. Qed.
#[local] Instance not_later_total : Total not_later.
Proof. intros a b. unfold not_later, Less, before. rewrite !Z.ltb_ge. lia. Qed.

Definition ex_choices : choices :=
  {| range_ids := fun m => fst <$> map_to_list m; range_sids := fun s => fst <$> map_to_list (ab s);
     sort_Sort := merge_sort not_later |}.

Lemma ex_choices_sort : sorts (sort_Sort ex_choices).
Proof.
  intros l. split; [apply merge_sort_Permutation|]. apply (StronglySorted_merge_sort not_later).
Qed.

Definition ex_packets : list packet :=
  [{| pk_ipv4 := Some ((10, 0, 0, 1)%Z, (10, 0, 0, 2)%Z); pk_tcp := Some (4000, 80)%Z;
      pk_payload := Some [Byte.x01]; pk_timestamp := 10%Z |};
   {| pk_ipv4 := Some ((10, 0, 0, 2)%Z, (10, 0, 0, 1)%Z); pk_tcp := Some (80, 4000)%Z;
      pk_payload := Some [Byte.x02]; pk_timestamp := 25%Z |};
   {| pk_ipv4 := None; pk_tcp := None; pk_payload := Some [Byte.x02]; pk_timestamp := 30%Z |}].

Definition ex_probe : CsiLog :=
  {| Action := "Probe"; Path := "/csi.v1.Identity/Probe"; Agent_Name := "csi-sock"; Agent_Ip := "10.0.0.1";
     Agent_Port := "4000"; Timing_Start := 10%Z; Timing_End := 25%Z; Timing_Duration := 15%Z;
     Log_Request := Some []; Log_Response := Some [Byte.x07] |}.

Lemma PcapToLogs_sorted_witness :
  PcapToLogs ex_choices (Some ex_packets) = Ret [ex_probe] /\
  StronglySorted (fun a b => (Timing_End a <= Timing_End b)%Z) [ex_probe].
Proof.
  assert (PcapToLogs ex_choices (Some ex_packets) = Ret [ex_probe]) as H by (vm_compute; reflexivity).
  split; [exact H|]. apply (PcapToLogs_sorted _ _ _ ex_choices_sort H).
Defined.

Definition ex_frame (t : FrameType) (b : bytes) (hs : list HeaderField) : frame :=
  {| header := {| Type_ := t; Flags := 4; Length_ := Z.of_nat (length b); StreamID := 1%N |};
     body := b; headerFields := hs |}.

(** The message [01 02], with the second byte in a second frame. *)
Definition ex_split : stream :=
  {| st_frames := [ex_frame FrameHeaders [] (ex_headers [Byte.x01]);
                   ex_frame FrameData (take 6 (encode [Byte.x01; Byte.x02])) [];
                   ex_frame FrameData [Byte.x02] []];
     captureTimestamp := 10%Z |}.
Definition ex_answer : stream :=
  {| st_frames := [ex_frame FrameHeaders [] (ex_headers [Byte.x02]);
                   ex_frame FrameData (encode []) []; ex_frame FrameHeaders [] []];
     captureTimestamp := 20%Z |}.

Lemma split_message_is_fatal_witness :
  parseGRPC ex_split ex_answer (10, 0, 0, 1)%Z 4000 = Panic "Message length mismatch.".
Proof.
  eapply (split_message_is_fatal ex_split ex_answer (10, 0, 0, 1)%Z 4000 _ _ _ [] [Byte.x01; Byte.x02] "Identity" "Probe");
    [vm_compute; reflexivity|vm_compute; reflexivity|reflexivity|vm_compute; reflexivity
    |vm_compute; reflexivity|vm_compute; reflexivity|simpl; lia|done].
Defined.
